(** * Metadynamics bias engine (plumed2, src/bias/MetaD.cpp)

    A shallow embedding of the history-dependent bias engine: the Gaussian
    hill record, the Gaussian evaluator, the list and grid accumulators, the
    well-tempered height rule, the hills-file writer and reader, the step
    update and the validation done by the constructor.

    Modelling conventions.
    - A C++ [double] is a real number of [R]: arithmetic is exact, so every
      statement below is about the algebra the code computes, not about
      binary64 rounding.
    - [unsigned] counters and indices are [nat]; the step counter and the
      configured strides are [Z], with C++'s truncating [%] as [Z.rem].
    - A [vector<double>] is a [list R]; reading index [i] is [vget], writing
      it is [vset].  C++ leaves out-of-range access undefined; here a read
      yields [0] and a write does nothing.
    - Collaborators whose code lives outside this file (the grid container,
      the dense-matrix tools, the argument values with their periodic
      difference, the communicator) are interfaces: type classes or section
      variables.
    - A fatal [error(...)] / [plumed_merror(...)] is the [Fatal] result of a
      small error monad; the first one raised ends the computation.
    - Where the C++ is undefined (a conversion to [unsigned] out of range,
      an index outside a vector or a matrix, a null grid dereferenced, a
      remainder by zero) the functions below still return a value, which
      means nothing.  The conditions under which each step is defined are
      predicates of their own ([unsigned_cast_defined], [support_defined],
      [update_defined], [own_hills_file]), and a statement that a call
      returns, or that gives the value of such a step, assumes them.
    - The hills file is a list of records whose fields are the numbers
      handed to [printField]; the text format is outside this file.  A
      statement about reading takes the records as they are read, and says
      so when it needs them to agree with what was written.  The one place
      where rounding decides a claim, the scaling of the heights on disk,
      is also embedded over binary64 (module [Binary64]). *)

From Stdlib Require Import String DecimalString.
From Stdlib Require Import Reals Lra Lia ZArith List Bool Arith.
From Stdlib Require Import FunctionalExtensionality.
From Stdlib Require PrimFloat.
Import ListNotations.

Local Open Scope R_scope.

(** ** Numeric helpers *)

Definition Rltb (a b : R) : bool := if Rlt_dec a b then true else false.
Definition Rgtb (a b : R) : bool := Rltb b a.
Definition Rleb (a b : R) : bool := if Rle_dec a b then true else false.
Definition Reqb (a b : R) : bool := if Req_dec_T a b then true else false.

(** [ceil] of <cmath>: the least integer not below [x]. *)
Definition ceil (x : R) : Z := (- Int_part (- x))%Z.

(** [static_cast<unsigned>(ceil(x))] for a non-negative [x] (a negative
    operand is undefined in C++; it is sent to [0] here). *)
Definition unsigned_ceil (x : R) : nat := Z.to_nat (ceil x).

(** The operands for which that conversion is defined.  Converting a
    [double] to [unsigned] truncates, and is undefined when the truncated
    value is not a value of the type (32 bits); [ceil x] is one exactly for
    [-1 < x <= 2^32 - 1], and there [unsigned_ceil x] is the number the
    code gets. *)
Definition unsigned_cast_defined (x : R) : Prop := -1 < x <= 4294967295.

(** The sum of a list of reals. *)
Definition Rsum (l : list R) : R := fold_right Rplus 0 l.

(** ** Vectors and loops *)

Definition vget (v : list R) (i : nat) : R := nth i v 0.

Fixpoint vset (v : list R) (i : nat) (x : R) : list R :=
  match v, i with
  | [], _ => []
  | _ :: t, O => x :: t
  | h :: t, S j => h :: vset t j x
  end.

Definition vzero (n : nat) : list R := repeat 0 n.

(** [for (i = lo; i < hi; ++i) body] over a loop state [S]. *)
Definition for_range {S : Type} (lo hi : nat) (body : nat -> S -> S) (s : S) : S :=
  fold_left (fun acc i => body i acc) (seq lo (hi - lo)) s.

(** [for (i = start; i < bound; i += stride) body].  The loop runs at most
    [bound] times when [stride >= 1]; [fuel] bounds the unrolling. *)
Fixpoint strided_loop {S : Type} (fuel : nat) (i stride bound : nat)
    (body : nat -> S -> S) (s : S) : S :=
  match fuel with
  | O => s
  | Datatypes.S fuel' =>
      if (i <? bound)%nat
      then strided_loop fuel' (i + stride)%nat stride bound body (body i s)
      else s
  end.

(** ** Dense matrices (tools/Matrix.h) *)

(** A [Matrix<double>] read through [operator()(i,j)]; a fresh matrix holds
    zeros. *)
Definition Matrix : Type := nat -> nat -> R.

Definition mzero : Matrix := fun _ _ => 0.

Definition mset (m : Matrix) (i j : nat) (x : R) : Matrix :=
  fun a b => if ((a =? i)%nat && (b =? j)%nat)%bool then x else m a b.

(** The routines of tools/Matrix.h called by the bias: matrix product,
    inversion, the symmetric eigen-solver (eigenvalues and the matrix of
    eigenvectors) and the Cholesky factorisation.  Their code is not part of
    this file; they are an interface. *)
Class MatrixTools : Type := {
  mult : nat -> Matrix -> Matrix -> Matrix;
  Invert : nat -> Matrix -> Matrix;
  diagMat : nat -> Matrix -> list R * Matrix;
  cholesky : nat -> Matrix -> Matrix
}.

(** ** Argument values (core/Value.h) *)

Inductive Domain : Type :=
| NotPeriodic
| Periodic (min max : string).

Definition isPeriodic (d : Domain) : bool :=
  match d with NotPeriodic => false | Periodic _ _ => true end.

(** [Value::getDomain(min,max)]. *)
Definition getDomain (d : Domain) : string * string :=
  match d with NotPeriodic => (""%string, ""%string) | Periodic a b => (a, b) end.

(** One collective variable as the action sees it: its name, its
    periodicity and its [difference(a,b)], the displacement from [a] to [b]
    that wraps for a periodic variable. *)
Record ArgValue : Type := mkArg {
  arg_name : string;
  arg_domain : Domain;
  arg_difference : R -> R -> R
}.

Definition plain_difference (a b : R) : R := b - a.
Definition default_arg : ArgValue := mkArg ""%string NotPeriodic plain_difference.

(** ** Hills *)

Definition DP2CUTOFF : R := 6.25.

Record Gaussian : Type := Build_Gaussian {
  center : list R;
  sigma : list R;
  height : R;
  multivariate : bool;
  invsigma : list R
}.

(** The constructor [Gaussian(center,sigma,height,multivariate)]: [invsigma]
    starts as a copy of [sigma]; entry [i] is replaced by its reciprocal when
    [abs(invsigma[i]) > 1.e-20] and is left as it is otherwise. *)
Definition mkGaussian (c s : list R) (h : R) (m : bool) : Gaussian :=
  Build_Gaussian c s h m
    (for_range 0 (length s)
       (fun i inv => if Rgtb (Rabs (vget inv i)) 1e-20
                     then vset inv i (1 / vget inv i) else inv)
       s).

(** [mymatrix(i,j)=mymatrix(j,i)=hill.sigma[k]; k++] over [i], [j >= i]:
    the symmetric matrix packed row by row in [hill.sigma]. *)
Definition recompose (ncv : nat) (packed : list R) : Matrix :=
  fst (for_range 0 ncv
         (fun i st =>
            for_range i ncv
              (fun j '(m, k) => (mset (mset m j i (vget packed k)) i j (vget packed k), Datatypes.S k))
              st)
         (mzero, O)).

(** ** Fatal errors *)

(** The outcome of code that may call [error(...)] or [plumed_merror(...)]:
    both end the run with a message. *)
Inductive result (A : Type) : Type :=
| Ok (a : A)
| Fatal (msg : string).
Arguments Ok {A} a.
Arguments Fatal {A} msg.

Definition bind {A B : Type} (c : result A) (k : A -> result B) : result B :=
  match c with Ok a => k a | Fatal m => Fatal m end.

Notation "x <- c ;; k" := (bind c (fun x => k))
  (at level 61, c at next level, right associativity).
Notation "c ;;; k" := (bind c (fun _ => k))
  (at level 61, right associativity).

(** [if (cond) error(msg);] *)
Definition error_if (cond : bool) (msg : string) : result unit :=
  if cond then Fatal msg else Ok tt.

Definition is_fatal {A : Type} (c : result A) : bool :=
  match c with Ok _ => false | Fatal _ => true end.

(** A loop whose body may raise a fatal error. *)
Fixpoint foldM {S A : Type} (body : A -> S -> result S) (l : list A) (s : S) : result S :=
  match l with
  | [] => Ok s
  | a :: l' => s' <- body a s ;; foldM body l' s'
  end.

Definition for_rangeM {S : Type} (lo hi : nat) (body : nat -> S -> result S) (s : S) : result S :=
  foldM body (seq lo (hi - lo)) s.

(** ** The grid container (tools/Grid.h) *)

(** The operations of [Grid] (and of its subclass [SparseGrid]) that the
    bias calls.  The container's storage and interpolation are outside this
    file; a grid type [G] with these operations is all that is assumed. *)
Class GridLike (G : Type) : Type := {
  (** [new Grid(label,args,gmin,gmax,gbin,spline,usederiv)], or
      [new SparseGrid(...)] when the first flag is set. *)
  grid_new : bool -> list string -> list string -> list nat -> bool -> G;
  (** indices of the grid points within [nneigh[i]] cells of [x] on axis [i] *)
  grid_getNeighbors : G -> list R -> list nat -> list nat;
  grid_getPoint : G -> nat -> list R;
  grid_addValueAndDerivatives : G -> nat -> R -> list R -> G;
  (** [getValueAndDerivatives(x,der)]: the value, and the derivatives written to [der] *)
  grid_getValueAndDerivatives : G -> list R -> R * list R;
  grid_getValue : G -> list R -> R;
  grid_getDx : G -> list R
}.

(** ** Hills files (tools/File.h) *)

(** One record of a hills file, as the fields [scanField] finds in it:
    the time, then for each variable its value with the periodicity fields
    printed beside it, the [multivariate] constant, the [sigma_*] fields in
    file order, the height, the bias factor and the optional clock. *)
Record HillRecord : Type := mkRecord {
  f_time : R;
  f_args : list (Domain * R);
  f_multivariate : string;
  f_sigma : list R;
  f_height : R;
  f_biasf : R;
  f_clock : option Z
}.

(** What is on disk under each file name. *)
Definition FileSystem : Type := string -> option (list HillRecord).

(** An [IFile]: whether it is open, and how many records were consumed. *)
Record IFile : Type := mkIFile {
  if_open : bool;
  if_pos : nat
}.

(** ** The bias action *)

(** [FlexibleBin::none], [FlexibleBin::diffusion], [FlexibleBin::geometry]. *)
Inductive AdaptiveKind : Type := adaptive_none | adaptive_diffusion | adaptive_geometry.

Definition is_adaptive (a : AdaptiveKind) : bool :=
  match a with adaptive_none => false | _ => true end.

(** The data members of [class MetaD].  [hillsOfile_] is the list of records
    appended to the walker's own hills file; [BiasGrid_] is [None] for the
    null pointer. *)
Record MetaD (G : Type) : Type := Build_MetaD {
  sigma0_ : list R;
  hills_ : list Gaussian;
  hillsOfile_ : list HillRecord;
  BiasGrid_ : option G;
  wgridstride_ : Z;
  grid_ : bool;
  height0_ : R;
  biasf_ : R;
  temp_ : R;
  stride_ : Z;
  welltemp_ : bool;
  adaptive_ : AdaptiveKind;
  mw_n_ : Z;
  mw_id_ : Z;
  mw_rstride_ : Z;
  ifiles : list IFile;
  ifilesnames : list string;
  uppI_ : R;
  lowI_ : R;
  doInt_ : bool;
  isFirstStep : bool
}.
Arguments Build_MetaD {G}.
Arguments sigma0_ {G}. Arguments hills_ {G}. Arguments hillsOfile_ {G}.
Arguments BiasGrid_ {G}. Arguments wgridstride_ {G}. Arguments grid_ {G}.
Arguments height0_ {G}. Arguments biasf_ {G}. Arguments temp_ {G}.
Arguments stride_ {G}. Arguments welltemp_ {G}. Arguments adaptive_ {G}.
Arguments mw_n_ {G}. Arguments mw_id_ {G}. Arguments mw_rstride_ {G}.
Arguments ifiles {G}. Arguments ifilesnames {G}. Arguments uppI_ {G}.
Arguments lowI_ {G}. Arguments doInt_ {G}. Arguments isFirstStep {G}.

Definition with_hills {G} (self : MetaD G) (h : list Gaussian) : MetaD G :=
  Build_MetaD (sigma0_ self) h (hillsOfile_ self) (BiasGrid_ self)
    (wgridstride_ self) (grid_ self) (height0_ self) (biasf_ self) (temp_ self)
    (stride_ self) (welltemp_ self) (adaptive_ self) (mw_n_ self) (mw_id_ self)
    (mw_rstride_ self) (ifiles self) (ifilesnames self) (uppI_ self) (lowI_ self)
    (doInt_ self) (isFirstStep self).

Definition with_BiasGrid {G} (self : MetaD G) (g : option G) : MetaD G :=
  Build_MetaD (sigma0_ self) (hills_ self) (hillsOfile_ self) g
    (wgridstride_ self) (grid_ self) (height0_ self) (biasf_ self) (temp_ self)
    (stride_ self) (welltemp_ self) (adaptive_ self) (mw_n_ self) (mw_id_ self)
    (mw_rstride_ self) (ifiles self) (ifilesnames self) (uppI_ self) (lowI_ self)
    (doInt_ self) (isFirstStep self).

Definition with_hillsOfile {G} (self : MetaD G) (f : list HillRecord) : MetaD G :=
  Build_MetaD (sigma0_ self) (hills_ self) f (BiasGrid_ self)
    (wgridstride_ self) (grid_ self) (height0_ self) (biasf_ self) (temp_ self)
    (stride_ self) (welltemp_ self) (adaptive_ self) (mw_n_ self) (mw_id_ self)
    (mw_rstride_ self) (ifiles self) (ifilesnames self) (uppI_ self) (lowI_ self)
    (doInt_ self) (isFirstStep self).

Definition with_ifiles {G} (self : MetaD G) (fs : list IFile) : MetaD G :=
  Build_MetaD (sigma0_ self) (hills_ self) (hillsOfile_ self) (BiasGrid_ self)
    (wgridstride_ self) (grid_ self) (height0_ self) (biasf_ self) (temp_ self)
    (stride_ self) (welltemp_ self) (adaptive_ self) (mw_n_ self) (mw_id_ self)
    (mw_rstride_ self) fs (ifilesnames self) (uppI_ self) (lowI_ self)
    (doInt_ self) (isFirstStep self).

Definition with_isFirstStep {G} (self : MetaD G) (b : bool) : MetaD G :=
  Build_MetaD (sigma0_ self) (hills_ self) (hillsOfile_ self) (BiasGrid_ self)
    (wgridstride_ self) (grid_ self) (height0_ self) (biasf_ self) (temp_ self)
    (stride_ self) (welltemp_ self) (adaptive_ self) (mw_n_ self) (mw_id_ self)
    (mw_rstride_ self) (ifiles self) (ifilesnames self) (uppI_ self) (lowI_ self)
    (doInt_ self) b.

Section Bias.

Context {G : Type} {grid_ops : GridLike G} {matrix_tools : MatrixTools}.

(** What the action inherits from its base classes and its environment:
    the argument values, the communicator's size and this process's rank,
    Boltzmann's constant in the engine's units and the time step. *)
Variable args : list ArgValue.
Variable comm_size : nat.
Variable comm_rank : nat.
Variable kBoltzmann : R.
Variable timeStep : R.

Definition getNumberOfArguments : nat := length args.
Definition getPntrToArgument (i : nat) : ArgValue := nth i args default_arg.

(** [difference(i,d1,d2)] of ActionWithArguments. *)
Definition difference (i : nat) (d1 d2 : R) : R :=
  arg_difference (getPntrToArgument i) d1 d2.

(** [comm.Sum(&x,1)]: every process contributes its [x]; all receive the total. *)
Definition comm_Sum (part : nat -> R) : R :=
  for_range 0 comm_size (fun r acc => acc + part r) 0.

(** [comm.Sum(&v[0],n)] as seen by this process: the first [n] entries of
    its buffer are replaced by the totals over all processes. *)
Definition comm_Sum_vec (n : nat) (part : nat -> list R) : list R :=
  for_range 0 n (fun j v => vset v j (comm_Sum (fun r => vget (part r) j)))
    (part comm_rank).

(** The test guarding every contribution:
    [(doInt_ && cv[0] > lowI_ && cv[0] < uppI_) || (!doInt_)]. *)
Definition interval_gate (self : MetaD G) (cv : list R) : bool :=
  (doInt_ self && Rgtb (vget cv 0) (lowI_ self) && Rltb (vget cv 0) (uppI_ self))
  || negb (doInt_ self).

(** *** MetaD::evaluateGaussian *)

(** The first loop of the isotropic branch: [dp2] before halving and the
    scratch buffer [dp_]. *)
Definition diagonal_dp (cv : list R) (hill : Gaussian) : R * list R :=
  for_range 0 (length cv)
    (fun i '(dp2, dp_) =>
       let dp := difference i (vget (center hill) i) (vget cv i) * vget (invsigma hill) i in
       (dp2 + dp * dp, vset dp_ i dp))
    (0, vzero (length cv)).

(** The double loop of the multivariate branch. *)
Definition multivariate_dp (cv : list R) (hill : Gaussian) (mymatrix : Matrix) : R * list R :=
  for_range 0 (length cv)
    (fun i '(dp2, dp_) =>
       let dp_i := difference i (vget (center hill) i) (vget cv i) in
       let dp_' := vset dp_ i dp_i in
       (for_range i (length cv)
          (fun j dp2 =>
             if (i =? j)%nat
             then dp2 + dp_i * dp_i * mymatrix i j * 0.5
             else
               let dp_j := difference j (vget (center hill) j) (vget cv j) in
               dp2 + dp_i * dp_j * mymatrix i j)
          dp2,
        dp_'))
    (0, vzero (length cv)).

(** [der] is [None] for a null pointer.  The member [dp_] only carries
    values from the first loop to the second inside one call, so it is a
    local here. *)
Definition evaluateGaussian (self : MetaD G) (cv : list R) (hill : Gaussian)
    (der : option (list R)) : R * option (list R) :=
  if multivariate hill then
    let ncv := length cv in
    let mymatrix := recompose ncv (sigma hill) in
    let '(dp2, dp_) := multivariate_dp cv hill mymatrix in
    if Rltb dp2 DP2CUTOFF then
      if interval_gate self cv then
        let bias := height hill * exp (- dp2) in
        (bias,
         option_map
           (for_range 0 (length cv)
              (fun i d =>
                 let tmp := for_range 0 (length cv)
                              (fun j tmp => tmp + vget dp_ j * mymatrix i j * bias) 0 in
                 vset d i (vget d i - tmp)))
           der)
      else (0, der)
    else (0, der)
  else
    let '(dp2, dp_) := diagonal_dp cv hill in
    let dp2 := dp2 * 0.5 in
    if Rltb dp2 DP2CUTOFF then
      if interval_gate self cv then
        let bias := height hill * exp (- dp2) in
        (bias,
         option_map
           (for_range 0 (length cv)
              (fun i d => vset d i (vget d i + - bias * vget dp_ i * vget (invsigma hill) i)))
           der)
      else (0, der)
    else (0, der).

(** *** MetaD::getBiasAndDerivatives *)

Definition null_hill : Gaussian := mkGaussian [] [] 0 false.

(** The loop [for (i = rank; i < hills_.size(); i += stride)] as run by the
    process of rank [rank], before the reduction. *)
Definition hills_partial (self : MetaD G) (cv : list R) (der : option (list R))
    (rank : nat) : R * option (list R) :=
  strided_loop (length (hills_ self)) rank comm_size (length (hills_ self))
    (fun i '(bias, der) =>
       let '(b, der') := evaluateGaussian self cv (nth i (hills_ self) null_hill) der in
       (bias + b, der'))
    (0, der).

Definition der_buffer (d : option (list R)) : list R :=
  match d with Some v => v | None => [] end.

Definition getBiasAndDerivatives (self : MetaD G) (cv : list R)
    (der : option (list R)) : R * option (list R) :=
  if negb (grid_ self) then
    let bias := comm_Sum (fun r => fst (hills_partial self cv der r)) in
    (bias,
     match der with
     | Some _ =>
         Some (comm_Sum_vec getNumberOfArguments
                 (fun r => der_buffer (snd (hills_partial self cv der r))))
     | None => None
     end)
  else
    match BiasGrid_ self with
    | None => (0, der)
    | Some g =>
        match der with
        | Some d =>
            let '(bias, vder) := grid_getValueAndDerivatives g cv in
            (bias,
             if interval_gate self cv
             then Some (for_range 0 getNumberOfArguments (fun i d => vset d i (vget vder i)) d)
             else Some d)
        | None => (grid_getValue g cv, None)
        end
    end.

(** *** MetaD::getHeight *)

Definition getHeight (self : MetaD G) (cv : list R) : R :=
  if welltemp_ self then
    let vbias := fst (getBiasAndDerivatives self cv None) in
    height0_ self * exp (- vbias / (kBoltzmann * temp_ self * (biasf_ self - 1.0)))
  else height0_ self.

(** *** MetaD::getGaussianSupport *)

(** The eigenvector matrix is read at [(i, ind_maxautoval)] whatever the
    index, and the conversion to [unsigned] is [unsigned_ceil]:
    [support_defined], below, says when both are defined in the C++. *)
Definition getGaussianSupport (self : MetaD G) (g : G) (hill : Gaussian) : list nat :=
  if multivariate hill then
    let ncv := getNumberOfArguments in
    let mymatrix := recompose ncv (sigma hill) in
    let myinv := Invert ncv mymatrix in
    let '(myautoval, myautovec) := diagMat ncv myinv in
    let '(maxautoval, ind_maxautoval) :=
      for_range 0 ncv
        (fun i '(mx, ind) =>
           if Rgtb (vget myautoval i) mx then (vget myautoval i, i) else (mx, ind))
        (0, ncv) in
    for_range 0 ncv
      (fun i nneigh =>
         let cutoff := sqrt (2.0 * DP2CUTOFF)
                       * Rabs (sqrt maxautoval * myautovec i ind_maxautoval) in
         nneigh ++ [unsigned_ceil (cutoff / vget (grid_getDx g) i)])
      []
  else
    for_range 0 getNumberOfArguments
      (fun i nneigh =>
         let cutoff := sqrt (2.0 * DP2CUTOFF) * vget (sigma hill) i in
         nneigh ++ [unsigned_ceil (cutoff / vget (grid_getDx g) i)])
      [].

(** When [getGaussianSupport] is defined: no grid spacing is zero, every
    operand of the conversion to [unsigned] is in range and, for a
    full-covariance hill, the search has found a positive eigenvalue.  The
    search starts from [ind_maxautoval = ncv], which is no column of
    [myautovec]: when no eigenvalue is positive the entry read lies outside
    the matrix. *)
Definition support_defined (self : MetaD G) (g : G) (hill : Gaussian) : Prop :=
  let ncv := getNumberOfArguments in
  if multivariate hill then
    let eig := diagMat ncv (Invert ncv (recompose ncv (sigma hill))) in
    let top := for_range 0 ncv
                 (fun i '(mx, ind) =>
                    if Rgtb (vget (fst eig) i) mx then (vget (fst eig) i, i) else (mx, ind))
                 (0, ncv) in
    (snd top < ncv)%nat
    /\ forall i, (i < ncv)%nat ->
         vget (grid_getDx g) i <> 0
         /\ unsigned_cast_defined
              (sqrt (2.0 * DP2CUTOFF) * Rabs (sqrt (fst top) * snd eig i (snd top))
               / vget (grid_getDx g) i)
  else
    forall i, (i < ncv)%nat ->
      vget (grid_getDx g) i <> 0
      /\ unsigned_cast_defined
           (sqrt (2.0 * DP2CUTOFF) * vget (sigma hill) i / vget (grid_getDx g) i).

(** *** MetaD::addGaussian *)

(** [&v[off]] used as a buffer of [n] entries: the entries read, and the
    entries written back. *)
Definition vslice (v : list R) (off n : nat) : list R := firstn n (skipn off v).

Definition vblit (v : list R) (off : nat) (d : list R) : list R :=
  for_range 0 (length d) (fun j v => vset v (off + j) (vget d j)) v.

(** The buffers [allbias], [allder] of the process of rank [rank] after its
    loop [for (i = rank; i < neighbors.size(); i += stride)]. *)
Definition splat_partial (self : MetaD G) (g : G) (hill : Gaussian)
    (neighbors : list nat) (rank : nat) : list R * list R :=
  let ncv := getNumberOfArguments in
  strided_loop (length neighbors) rank comm_size (length neighbors)
    (fun i '(allbias, allder) =>
       let ineigh := nth i neighbors O in
       let xx := grid_getPoint g ineigh in
       let '(b, d) := evaluateGaussian self xx hill (Some (vslice allder (ncv * i) ncv)) in
       (vset allbias i b, vblit allder (ncv * i) (der_buffer d)))
    (vzero (length neighbors), vzero (ncv * length neighbors)).

Definition addGaussian (self : MetaD G) (hill : Gaussian) : MetaD G :=
  if negb (grid_ self) then with_hills self (hills_ self ++ [hill])
  else
    match BiasGrid_ self with
    | None => self
    | Some g0 =>
        let ncv := getNumberOfArguments in
        let nneighb := getGaussianSupport self g0 hill in
        let neighbors := grid_getNeighbors g0 (center hill) nneighb in
        if (comm_size =? 1)%nat then
          with_BiasGrid self (Some
            (for_range 0 (length neighbors)
               (fun i g =>
                  let ineigh := nth i neighbors O in
                  let der := vzero ncv in
                  let xx := grid_getPoint g ineigh in
                  let '(bias, der') := evaluateGaussian self xx hill (Some der) in
                  grid_addValueAndDerivatives g ineigh bias (der_buffer der'))
               g0))
        else
          let allbias := comm_Sum_vec (length neighbors)
                           (fun r => fst (splat_partial self g0 hill neighbors r)) in
          let allder := comm_Sum_vec (ncv * length neighbors)
                          (fun r => snd (splat_partial self g0 hill neighbors r)) in
          with_BiasGrid self (Some
            (for_range 0 (length neighbors)
               (fun i g =>
                  let ineigh := nth i neighbors O in
                  let der := for_range 0 ncv
                               (fun j der => vset der j (vget allder (ncv * i + j)))
                               (vzero ncv) in
                  grid_addValueAndDerivatives g ineigh (vget allbias i) der)
               g0))
    end.

(** *** MetaD::writeGaussian *)

(** The fields printed in band form:
    [for i < ncv, for j < ncv-i: printField(..., m(j+i,j))]. *)
Definition band_fields (ncv : nat) (m : Matrix) : list R :=
  for_range 0 ncv
    (fun i out => for_range 0 (ncv - i) (fun j out => out ++ [m (j + i)%nat j]) out)
    [].

(** The record appended to the hills file for [hill] at step [step];
    [now] is [time(0)].  The fields are the numbers handed to
    [printField]; how the file prints them is not part of the record. *)
Definition hill_record (self : MetaD G) (hill : Gaussian) (step now : Z) : HillRecord :=
  let ncv := getNumberOfArguments in
  let cvs := for_range 0 ncv
               (fun i out => out ++ [(arg_domain (getPntrToArgument i), vget (center hill) i)])
               [] in
  let '(flag, sigmas) :=
    if multivariate hill then
      let mymatrix := recompose ncv (sigma hill) in
      let invmatrix := Invert ncv mymatrix in
      let invmatrix :=
        for_range 0 ncv
          (fun i m => for_range i ncv (fun j m => mset m i j (m j i)) m)
          invmatrix in
      let lower := cholesky ncv invmatrix in
      ("true"%string, band_fields ncv lower)
    else
      ("false"%string,
       for_range 0 ncv (fun i out => out ++ [vget (sigma hill) i]) []) in
  let height := height hill in
  let height := if welltemp_ self then height * (biasf_ self / (biasf_ self - 1.0)) else height in
  mkRecord (timeStep * IZR step) cvs flag sigmas height (biasf_ self)
    (if (mw_n_ self >? 1)%Z then Some now else None).

Definition writeGaussian (self : MetaD G) (hill : Gaussian) (step now : Z) : MetaD G :=
  with_hillsOfile self (hillsOfile_ self ++ [hill_record self hill step now]).

(** *** MetaD::scanOneHill *)

(** The output arguments [center], [sigma], [height], [multivariate],
    passed by reference and kept by the caller from one call to the next. *)
Record ScanBuffers : Type := mkScan {
  sb_center : list R;
  sb_sigma : list R;
  sb_height : R;
  sb_multivariate : bool
}.

(** [vector::resize(n)]. *)
Definition vresize (v : list R) (n : nat) : list R :=
  firstn n v ++ repeat 0 (n - length v).

Definition periodicity_error (i : nat) : string :=
  ("in hills file periodicity for variable " ++ arg_name (getPntrToArgument i)
   ++ " does not match periodicity in input")%string.

(** [next] is the record under the file cursor, [None] at the end of the
    file (where [scanField("time",dummy)] fails).  The result pairs the
    returned [bool] with the output arguments. *)
Definition scanOneHill (next : option HillRecord) (buf : ScanBuffers)
    : result (bool * ScanBuffers) :=
  let buf := mkScan (sb_center buf) (sb_sigma buf) (sb_height buf) false in
  match next with
  | Some rec =>
      let dummy := f_time rec in
      let ncv := getNumberOfArguments in
      center <- for_rangeM 0 ncv
        (fun i center =>
           let tmpvalue := nth i (f_args rec) (NotPeriodic, 0) in
           (if (isPeriodic (fst tmpvalue)
                && negb (isPeriodic (arg_domain (getPntrToArgument i))))%bool
            then Fatal (periodicity_error i)
            else if isPeriodic (fst tmpvalue) then
              let '(imin, imax) := getDomain (fst tmpvalue) in
              let '(rmin, rmax) := getDomain (arg_domain (getPntrToArgument i)) in
              error_if (negb (String.eqb imin rmin) || negb (String.eqb imax rmax))
                (periodicity_error i)
            else Ok tt) ;;;
           Ok (vset center i (snd tmpvalue)))
        (sb_center buf) ;;
      let sss := f_multivariate rec in
      multivariate <-
        (if String.eqb sss "true" then Ok true
         else if String.eqb sss "false" then Ok false
         else Fatal ("cannot parse multivariate = " ++ sss)%string) ;;
      let sigma :=
        if (multivariate : bool) then
          let sigma := vresize (sb_sigma buf) (ncv * (ncv + 1) / 2) in
          let '(lower, upper, _) :=
            for_range 0 ncv
              (fun i st =>
                 for_range 0 (ncv - i)
                   (fun j '(lower, upper, k) =>
                      let lower' := mset lower (j + i) j (vget (f_sigma rec) k) in
                      (lower', mset upper j (j + i) (lower' (j + i)%nat j), S k))
                   st)
              (mzero, mzero, O) in
          let mymult := mult ncv lower upper in
          let invmatrix := Invert ncv mymult in
          fst (for_range 0 ncv
                 (fun i st =>
                    for_range i ncv
                      (fun j '(sigma, k) => (vset sigma k (invmatrix i j), S k))
                      st)
                 (sigma, O))
        else
          for_range 0 ncv (fun i sigma => vset sigma i (vget (f_sigma rec) i)) (sb_sigma buf) in
      let height := f_height rec in
      let dummy := f_biasf rec in
      let dummy := match f_clock rec with Some clock => IZR clock | None => dummy end in
      Ok (true, mkScan center sigma height multivariate)
  | None => Ok (false, buf)
  end.

(** *** MetaD::readGaussians *)

(** [while (scanOneHill(...)) { nhills++; rescale; addGaussian }] over the
    records left in the file; returns the action and [nhills]. *)
Fixpoint readGaussians_loop (records : list HillRecord) (self : MetaD G)
    (buf : ScanBuffers) (nhills : nat) : result (MetaD G * nat) :=
  match records with
  | [] =>
      r <- scanOneHill None buf ;;
      Ok (self, nhills)
  | rec :: rest =>
      r <- scanOneHill (Some rec) buf ;;
      let buf := snd r in
      let nhills := S nhills in
      let height := sb_height buf in
      let height := if welltemp_ self
                    then height * ((biasf_ self - 1.0) / biasf_ self) else height in
      let self := addGaussian self
                    (mkGaussian (sb_center buf) (sb_sigma buf) height (sb_multivariate buf)) in
      readGaussians_loop rest self (mkScan (sb_center buf) (sb_sigma buf) height (sb_multivariate buf)) nhills
  end.

Definition readGaussians (self : MetaD G) (records : list HillRecord)
    : result (MetaD G * nat) :=
  let ncv := getNumberOfArguments in
  readGaussians_loop records self (mkScan (vzero ncv) (vzero ncv) 0 false) O.

(** *** MetaD::readChunkOfGaussians *)

(** [while (scanOneHill(...)) { rescale; addGaussian;
    if (nhills == n) return true; nhills++; } return false;] over the
    records left in the file.  The result holds the action, the returned
    [bool], the count printed to the log and the records left unread. *)
Fixpoint readChunkOfGaussians_loop (records : list HillRecord) (self : MetaD G)
    (buf : ScanBuffers) (n nhills : nat)
    : result (MetaD G * bool * nat * list HillRecord) :=
  match records with
  | [] =>
      r <- scanOneHill None buf ;;
      Ok (self, false, nhills, [])
  | rec :: rest =>
      r <- scanOneHill (Some rec) buf ;;
      let buf := snd r in
      let height := sb_height buf in
      let height := if welltemp_ self
                    then height * ((biasf_ self - 1.0) / biasf_ self) else height in
      let self := addGaussian self
                    (mkGaussian (sb_center buf) (sb_sigma buf) height (sb_multivariate buf)) in
      if (nhills =? n)%nat then Ok (self, true, nhills, rest)
      else readChunkOfGaussians_loop rest self
             (mkScan (sb_center buf) (sb_sigma buf) height (sb_multivariate buf)) n (S nhills)
  end.

Definition readChunkOfGaussians (self : MetaD G) (records : list HillRecord) (n : nat)
    : result (MetaD G * bool * nat * list HillRecord) :=
  let ncv := getNumberOfArguments in
  readChunkOfGaussians_loop records self (mkScan (vzero ncv) (vzero ncv) 0 false) n O.

(** *** MetaD::update *)

Definition deposit_now (self : MetaD G) (step : Z) : bool :=
  (Z.rem step (stride_ self) =? 0)%Z && negb (isFirstStep self).

(** The hill built at a deposition step from the current variables [cv]
    and, for adaptive hills, the matrix [flexinv] returned by
    [flexbin->getInverseMatrix()]. *)
Definition new_hill (self : MetaD G) (cv flexinv : list R) : Gaussian :=
  let height := getHeight self cv in
  let thissigma := if is_adaptive (adaptive_ self) then flexinv else sigma0_ self in
  mkGaussian cv thissigma height (is_adaptive (adaptive_ self)).

(** The multiple-walkers part of [update]: the files of the other walkers
    are opened when they appear and read from where the last read ended. *)
Definition read_walkers (self : MetaD G) (fs : FileSystem) : result (MetaD G) :=
  for_rangeM 0 (Z.to_nat (mw_n_ self))
    (fun i self =>
       if (Z.of_nat i =? mw_id_ self)%Z then Ok self
       else
         let ifile := nth i (ifiles self) (mkIFile false O) in
         let fname := nth i (ifilesnames self) ""%string in
         if negb (if_open ifile) then
           match fs fname with
           | Some _ =>
               Ok (with_ifiles self
                     (firstn i (ifiles self) ++ mkIFile true O :: skipn (S i) (ifiles self)))
           | None => Ok self
           end
         else
           let content := match fs fname with Some c => c | None => [] end in
           r <- readGaussians self (skipn (if_pos ifile) content) ;;
           Ok (with_ifiles (fst r)
                 (firstn i (ifiles self)
                  ++ mkIFile true (Nat.max (if_pos ifile) (length content))
                  :: skipn (S i) (ifiles self))))
    self.

(** One call of [update()] at step [step] with argument values [argv].
    The grid dump writes a file and leaves the action unchanged; it is not
    a step of this function.  [update_defined], below, says when the dump
    and the remainders [getStep()%...] are defined. *)
Definition update (self : MetaD G) (step : Z) (argv flexinv : list R)
    (fs : FileSystem) (now : Z) : result (MetaD G) :=
  let nowAddAHill := deposit_now self step in
  let self := if nowAddAHill then self else with_isFirstStep self false in
  let cv := for_range 0 getNumberOfArguments (fun i cv => vset cv i (vget argv i))
              (vzero getNumberOfArguments) in
  let self :=
    if nowAddAHill then
      let newhill := new_hill self cv flexinv in
      let self' := addGaussian self newhill in
      writeGaussian self' newhill step now
    else self in
  if ((mw_n_ self >? 1)%Z && (Z.rem step (mw_rstride_ self) =? 0)%Z)%bool
  then read_walkers self fs
  else Ok self.

(** The test of the grid dump, [wgridstride_>0 && getStep()%wgridstride_==0]. *)
Definition dumps_grid (self : MetaD G) (step : Z) : bool :=
  ((wgridstride_ self >? 0)%Z && (Z.rem step (wgridstride_ self) =? 0)%Z)%bool.

(** When a call of [update()] is defined, up to the reading of the other
    walkers' files: [getStep()%stride_] needs a stride that is not zero; a
    deposit in grid mode needs the grid and a hill whose support is
    defined; the dump calls [BiasGrid_->writeToFile], so it needs the grid,
    which a run without [GRID_BIN] does not have even when [GRID_WSTRIDE]
    is given; and [getStep()%mw_rstride_], computed when there are several
    walkers, needs a read stride that is not zero.  (The hills replayed
    from the other walkers' files go through [addGaussian] with conditions
    of their own in grid mode.) *)
Definition update_defined (self : MetaD G) (step : Z) (argv flexinv : list R) : Prop :=
  let cv := for_range 0 getNumberOfArguments (fun i cv => vset cv i (vget argv i))
              (vzero getNumberOfArguments) in
  stride_ self <> 0%Z
  /\ (deposit_now self step = true -> grid_ self = true ->
      exists g, BiasGrid_ self = Some g /\ support_defined self g (new_hill self cv flexinv))
  /\ (dumps_grid self step = true -> BiasGrid_ self <> None)
  /\ ((mw_n_ self > 1)%Z -> mw_rstride_ self <> 0%Z).

(** *** MetaD::calculate *)

(** The bias component and the forces set on the arguments. *)
Definition calculate (self : MetaD G) (argv : list R) : R * list R :=
  let ncv := getNumberOfArguments in
  let cv := for_range 0 ncv (fun i cv => vset cv i (vget argv i)) (vzero ncv) in
  let der := vzero ncv in
  let '(ene, der') := getBiasAndDerivatives self cv (Some der) in
  (ene,
   for_range 0 ncv (fun i f => f ++ [- vget (der_buffer der') i]) []).

(** *** MetaD::checkNeedsGradients *)

Definition checkNeedsGradients (self : MetaD G) : bool :=
  match adaptive_ self with adaptive_geometry => true | _ => false end.

(** *** MetaD::MetaD *)

(** The keywords of the input line as [parse], [parseVector] and
    [parseFlag] find them: [None] or [[]] for a keyword that is absent. *)
Record ActionOptions : Type := mkOptions {
  ADAPTIVE : option string;
  SIGMA : list R;
  HEIGHT : option R;
  PACE : option Z;
  FILE : option string;
  BIASFACTOR : option R;
  TEMP : option R;
  GRID_MIN : list string;
  GRID_MAX : list string;
  GRID_BIN : list nat;
  GRID_SPARSE : bool;
  GRID_NOSPLINE : bool;
  GRID_WSTRIDE : option Z;
  GRID_WFILE : option string;
  WALKERS_N : option Z;
  WALKERS_ID : option Z;
  WALKERS_DIR : option string;
  WALKERS_RSTRIDE : option Z;
  UPPER_INTERVAL : option R;
  LOWER_INTERVAL : option R
}.

(** [parse(key,var)]: [var] keeps its initial value when the key is absent. *)
Definition parse {A : Type} (key : option A) (init : A) : A :=
  match key with Some v => v | None => init end.

Definition walker_file_name (mw_n : Z) (mw_dir hillsfname : string) (i : nat) : string :=
  if (mw_n >? 1)%Z
  then (mw_dir ++ "/" ++ hillsfname ++ "." ++ NilEmpty.string_of_uint (Nat.to_uint i))%string
  else hillsfname.

(** The constructor, up to the point where the hills file is opened for
    writing; that next step is [own_hills_file], below.  [restart] is
    [plumed.getRestart()].  The keyword [FMT] sets the text format of the
    hills file only and is left out. *)
Definition MetaD_new (ao : ActionOptions) (restart : bool) (fs : FileSystem)
    : result (MetaD G) :=
  let adaptiveoption := parse (ADAPTIVE ao) "NONE"%string in
  adaptive <-
    (if String.eqb adaptiveoption "GEOM" then Ok adaptive_geometry
     else if String.eqb adaptiveoption "DIFF" then Ok adaptive_diffusion
     else if String.eqb adaptiveoption "NONE" then Ok adaptive_none
     else Fatal "I do not know this type of adaptive scheme"%string) ;;
  let sigma0 := SIGMA ao in
  (if negb (is_adaptive adaptive)
   then error_if (negb (length sigma0 =? getNumberOfArguments)%nat)
          "number of arguments does not match number of SIGMA parameters"
   else error_if (negb (length sigma0 =? 1)%nat)
          "If you choose ADAPTIVE you need only one sigma according to your choice of type (GEOM/DIFF)") ;;;
  let height0 := parse (HEIGHT ao) 0.0 in
  error_if (Rleb height0 0.0) "error cannot add zero height or negative height hills" ;;;
  let stride := parse (PACE ao) 0%Z in
  error_if (stride <=? 0)%Z "frequency for hill addition is nonsensical" ;;;
  let hillsfname := parse (FILE ao) "HILLS"%string in
  let biasf := parse (BIASFACTOR ao) 1.0 in
  error_if (Rltb biasf 1.0) "well tempered bias factor is nonsensical" ;;;
  let temp := parse (TEMP ao) 0.0 in
  welltemp <-
    (if Rgtb biasf 1.0 then
       error_if (Reqb temp 0.0)
         "if you are doing well tempered metadynamics you must specify the temperature using TEMP" ;;;
       Ok true
     else Ok false) ;;
  let gmin := GRID_MIN ao in
  error_if (negb (length gmin =? getNumberOfArguments)%nat && negb (length gmin =? 0)%nat)
    "not enough values for GRID_MIN" ;;;
  let gmax := GRID_MAX ao in
  error_if (negb (length gmax =? getNumberOfArguments)%nat && negb (length gmax =? 0)%nat)
    "not enough values for GRID_MAX" ;;;
  let gbin := GRID_BIN ao in
  error_if (negb (length gbin =? getNumberOfArguments)%nat && negb (length gbin =? 0)%nat)
    "not enough values for GRID_BIN" ;;;
  error_if (negb (length gmin =? length gmax)%nat || negb (length gmin =? length gbin)%nat)
    "GRID MIN was specified without either GRID_MAX or GRID_BIN" ;;;
  let sparsegrid := GRID_SPARSE ao in
  let nospline := GRID_NOSPLINE ao in
  let spline := negb nospline in
  let grid := (0 <? length gbin)%nat in
  let wgridstride := parse (GRID_WSTRIDE ao) 0%Z in
  let gridfilename := parse (GRID_WFILE ao) ""%string in
  error_if (grid && (0 <? String.length gridfilename)%nat && (wgridstride =? 0)%Z)
    "frequency with which to output grid not specified use GRID_WSTRIDE" ;;;
  error_if (grid && (wgridstride >? 0)%Z && (String.length gridfilename =? 0)%nat)
    "grid filename not specified use GRID_WFILE" ;;;
  let mw_n := parse (WALKERS_N ao) 1%Z in
  let mw_id := parse (WALKERS_ID ao) 0%Z in
  error_if (mw_n <=? mw_id)%Z
    "walker ID should be a numerical value less than the total number of walkers" ;;;
  let mw_dir := parse (WALKERS_DIR ao) "./"%string in
  let mw_rstride := parse (WALKERS_RSTRIDE ao) 1%Z in
  let uppI := parse (UPPER_INTERVAL ao) (-1) in
  let lowI := parse (LOWER_INTERVAL ao) (-1) in
  doInt_spline <-
    (if negb (Reqb uppI lowI) then
       error_if (negb (length sigma0 =? 1)%nat)
         "Bias limits correction works only for monodimensional metadynamics!" ;;;
       error_if (Rltb uppI lowI) "The Upper limit must be greater than the Lower limit!" ;;;
       Ok (true, false)
     else Ok (false, spline)) ;;
  let '(doInt, spline) := doInt_spline in
  let BiasGrid :=
    if grid then Some (grid_new sparsegrid gmin gmax gbin spline) else None in
  let self :=
    Build_MetaD sigma0 [] [] BiasGrid wgridstride grid height0 biasf temp stride
      welltemp adaptive mw_n mw_id mw_rstride [] [] uppI lowI doInt true in
  for_rangeM 0 (Z.to_nat mw_n)
    (fun i self =>
       let fname := walker_file_name mw_n mw_dir hillsfname i in
       let names := (ifilesnames self ++ [fname])%list in
       let push (s : MetaD G) (f : IFile) : MetaD G :=
         Build_MetaD (sigma0_ s) (hills_ s) (hillsOfile_ s) (BiasGrid_ s)
           (wgridstride_ s) (grid_ s) (height0_ s) (biasf_ s) (temp_ s)
           (stride_ s) (welltemp_ s) (adaptive_ s) (mw_n_ s) (mw_id_ s)
           (mw_rstride_ s) (ifiles s ++ [f]) names (uppI_ s) (lowI_ s)
           (doInt_ s) (isFirstStep s) in
       match fs fname with
       | Some content =>
           r <- (if restart then readGaussians self content
                 else Ok (self, O)) ;;
           Ok (push (fst r)
                 (mkIFile (negb (Z.of_nat i =? mw_id)%Z)
                    (if restart then length content else O)))
       | None => Ok (push self (mkIFile false O))
       end)
    self.

(** [ifilesnames[mw_id_]], the name under which the constructor goes on to
    open the hills file for writing
    ([hillsOfile_.open(ifilesnames[mw_id_])]): [None] when the index is
    outside the vector, where the C++ is undefined.  The constructor checks
    [mw_n_ <= mw_id_] only, so a negative [WALKERS_ID] gets this far. *)
Definition own_hills_file (self : MetaD G) : option string :=
  if (mw_id_ self <? 0)%Z then None
  else nth_error (ifilesnames self) (Z.to_nat (mw_id_ self)).

End Bias.

(** ** Vocabulary of the proofs *)

(** What the constructor leaves in [invsigma] for a width [x]. *)
Definition cached_inverse (x : R) : R :=
  if Rgtb (Rabs x) 1e-20 then 1 / x else x.

(** The normalised displacement on axis [i] that the isotropic branch
    stores in [dp_]. *)
Definition scaled_displacement (args : list ArgValue) (cv : list R) (hill : Gaussian)
    (i : nat) : R :=
  difference args i (vget (center hill) i) (vget cv i) * vget (invsigma hill) i.

(** The exponent computed by the isotropic branch. *)
Definition isotropic_dp2 (args : list ArgValue) (cv : list R) (hill : Gaussian) : R :=
  Rsum (map (fun i => scaled_displacement args cv hill i * scaled_displacement args cv hill i)
          (seq 0 (length cv))) * 0.5.

(** [d[j] += g(j)] on every entry of [d]. *)
Definition vadd (d : list R) (g : nat -> R) : list R :=
  map (fun j => vget d j + g j) (seq 0 (length d)).

(** The value of one hill at [cv] and the amount it adds to entry [j] of a
    derivative buffer. *)
Definition hill_value {G : Type} (args : list ArgValue) (self : MetaD G)
    (cv : list R) (hill : Gaussian) : R :=
  fst (evaluateGaussian args self cv hill None).

Definition hill_gradient {G : Type} (args : list ArgValue) (self : MetaD G)
    (cv : list R) (hill : Gaussian) (j : nat) : R :=
  vget (der_buffer (snd (evaluateGaussian args self cv hill (Some (vzero (length cv)))))) j.

(** The indices a strided loop visits, in order. *)
Fixpoint strided_indices (fuel i stride bound : nat) : list nat :=
  match fuel with
  | O => []
  | S fuel' =>
      if (i <? bound)%nat then i :: strided_indices fuel' (i + stride) stride bound else []
  end.

(** Two states of the action that differ at most in the accumulated hills,
    the grid and the read cursors. *)
Definition same_settings {G : Type} (a b : MetaD G) : Prop :=
  sigma0_ b = sigma0_ a /\ hillsOfile_ b = hillsOfile_ a
  /\ wgridstride_ b = wgridstride_ a /\ grid_ b = grid_ a
  /\ height0_ b = height0_ a /\ biasf_ b = biasf_ a /\ temp_ b = temp_ a
  /\ stride_ b = stride_ a /\ welltemp_ b = welltemp_ a /\ adaptive_ b = adaptive_ a
  /\ mw_n_ b = mw_n_ a /\ mw_id_ b = mw_id_ a /\ mw_rstride_ b = mw_rstride_ a
  /\ ifilesnames b = ifilesnames a
  /\ uppI_ b = uppI_ a /\ lowI_ b = lowI_ a /\ doInt_ b = doInt_ a
  /\ isFirstStep b = isFirstStep a.

(** The state [update] reaches before it turns to the other walkers. *)
Definition after_deposit {G : Type} {grid_ops : GridLike G} {matrix_tools : MatrixTools}
    (args : list ArgValue) (comm_size comm_rank : nat) (kBoltzmann timeStep : R)
    (self : MetaD G) (step : Z) (argv flexinv : list R) (now : Z) : MetaD G :=
  let cv := for_range 0 (getNumberOfArguments args) (fun i cv => vset cv i (vget argv i))
              (vzero (getNumberOfArguments args)) in
  if deposit_now self step then
    let newhill := new_hill args comm_size comm_rank kBoltzmann self cv flexinv in
    writeGaussian args timeStep (addGaussian args comm_size comm_rank self newhill)
      newhill step now
  else with_isFirstStep self false.

(** The height put on disk and the height replayed from disk. *)
Definition written_height {G : Type} (self : MetaD G) (h : R) : R :=
  if welltemp_ self then h * (biasf_ self / (biasf_ self - 1.0)) else h.

Definition replayed_height {G : Type} (self : MetaD G) (h : R) : R :=
  if welltemp_ self then h * ((biasf_ self - 1.0) / biasf_ self) else h.

(** The scheme selected by a recognised [ADAPTIVE] keyword. *)
Definition selected_scheme (ao : ActionOptions) : AdaptiveKind :=
  if String.eqb (parse (ADAPTIVE ao) "NONE"%string) "GEOM" then adaptive_geometry
  else if String.eqb (parse (ADAPTIVE ao) "NONE"%string) "DIFF" then adaptive_diffusion
  else adaptive_none.

(** The cell update made for the neighbour [ineigh], its point being [xx]. *)
Definition splat_cell {G : Type} {grid_ops : GridLike G} (args : list ArgValue)
    (self : MetaD G) (hill : Gaussian) (xx : list R) (ineigh : nat) (g : G) : G :=
  grid_addValueAndDerivatives g ineigh (hill_value args self xx hill)
    (vadd (vzero (getNumberOfArguments args)) (hill_gradient args self xx hill)).

(** ** Concrete collaborators for the examples *)

(** *** A regular mesh without interpolation

    A non-periodic grid in the sense of the [GridLike] interface: [mesh_nbin]
    points per axis, spaced by [mesh_dx] from [mesh_min]; a point of the
    variable space is looked up at the mesh point below it on each axis
    (the [floor] of its offset in cell units), a flat index counts the first
    axis fastest.  It stands for the grid container in the examples. *)
Record Mesh : Type := mkMesh {
  mesh_min : list R;
  mesh_dx : list R;
  mesh_nbin : list nat;
  mesh_value : nat -> R;
  mesh_der : nat -> list R
}.

Fixpoint flat_index (nbin idx : list nat) : nat :=
  match nbin, idx with
  | n :: ns, i :: rest => (i + n * flat_index ns rest)%nat
  | _, _ => O
  end.

Fixpoint multi_index (nbin : list nat) (k : nat) : list nat :=
  match nbin with
  | n :: ns => (k mod n)%nat :: multi_index ns (k / n)%nat
  | [] => []
  end.

(** The cell index of [x] on axis [i]: [floor((x[i]-min[i])/dx[i])]. *)
Definition mesh_cell (g : Mesh) (x : list R) (i : nat) : Z :=
  Int_part ((vget x i - vget (mesh_min g) i) / vget (mesh_dx g) i).

Definition mesh_index (g : Mesh) (x : list R) : nat :=
  flat_index (mesh_nbin g)
    (map (fun i => Z.to_nat (mesh_cell g x i)) (seq 0 (length (mesh_nbin g)))).

Definition mesh_getPoint (g : Mesh) (k : nat) : list R :=
  map (fun i => vget (mesh_min g) i
                + vget (mesh_dx g) i * INR (nth i (multi_index (mesh_nbin g) k) O))
      (seq 0 (length (mesh_nbin g))).

(** The indices on one axis within [n] cells of the cell [c0] that fall on
    the mesh. *)
Definition axis_neighbors (c0 : Z) (n nbin : nat) : list nat :=
  map Z.to_nat
    (filter (fun c => (0 <=? c)%Z && (c <? Z.of_nat nbin)%Z)
       (map (fun o => (c0 - Z.of_nat n + Z.of_nat o)%Z) (seq 0 (2 * n + 1)))).

Fixpoint box_indices (axes : list (list nat)) : list (list nat) :=
  match axes with
  | [] => [[]]
  | a :: rest => flat_map (fun tail => map (fun i => i :: tail) a) (box_indices rest)
  end.

Definition mesh_getNeighbors (g : Mesh) (x : list R) (nneigh : list nat) : list nat :=
  map (flat_index (mesh_nbin g))
    (box_indices
       (map (fun i => axis_neighbors (mesh_cell g x i) (nth i nneigh O) (nth i (mesh_nbin g) O))
          (seq 0 (length (mesh_nbin g))))).

Definition mesh_add (g : Mesh) (k : nat) (v : R) (d : list R) : Mesh :=
  mkMesh (mesh_min g) (mesh_dx g) (mesh_nbin g)
    (fun j => if (j =? k)%nat then mesh_value g j + v else mesh_value g j)
    (fun j => if (j =? k)%nat
              then map (fun i => vget (mesh_der g j) i + vget d i) (seq 0 (length (mesh_nbin g)))
              else mesh_der g j).

(** [gmin], [gmax] and the bin counts arrive as text in the real container;
    the example mesh is built from numbers by [mkMesh] and ignores them. *)
#[export] Instance mesh_grid : GridLike Mesh := {
  grid_new := fun _ _ _ gbin _ =>
    mkMesh (vzero (length gbin)) (repeat 1 (length gbin)) gbin
      (fun _ => 0) (fun _ => vzero (length gbin));
  grid_getNeighbors := mesh_getNeighbors;
  grid_getPoint := mesh_getPoint;
  grid_addValueAndDerivatives := mesh_add;
  grid_getValueAndDerivatives := fun g x => (mesh_value g (mesh_index g x), mesh_der g (mesh_index g x));
  grid_getValue := fun g x => mesh_value g (mesh_index g x);
  grid_getDx := mesh_dx
}.

(** *** Matrix tools for orders one and two

    The product is the usual one for every order.  Inversion and the
    Cholesky factor are the closed forms for orders one and two; the
    eigen-solver is the one for diagonal matrices of order at most two,
    eigenvalues in ascending order, eigenvector [k] in row [k]. *)
Definition small_mult (n : nat) (a b : Matrix) : Matrix :=
  fun i j => fold_right Rplus 0 (map (fun k => a i k * b k j) (seq 0 n)).

Definition small_Invert (n : nat) (a : Matrix) : Matrix :=
  match n with
  | 1%nat => fun i j => if ((i =? 0)%nat && (j =? 0)%nat)%bool then 1 / a O O else 0
  | 2%nat =>
      let det := a O O * a 1%nat 1%nat - a O 1%nat * a 1%nat O in
      fun i j =>
        match i, j with
        | O, O => a 1%nat 1%nat / det
        | O, 1%nat => - a O 1%nat / det
        | 1%nat, O => - a 1%nat O / det
        | 1%nat, 1%nat => a O O / det
        | _, _ => 0
        end
  | _ => a
  end.

Definition small_diagMat (n : nat) (a : Matrix) : list R * Matrix :=
  match n with
  | 1%nat => ([a O O], fun i j => if ((i =? 0)%nat && (j =? 0)%nat)%bool then 1 else 0)
  | 2%nat =>
      if Rleb (a O O) (a 1%nat 1%nat)
      then ([a O O; a 1%nat 1%nat],
            fun i j => match i, j with O, O => 1 | 1%nat, 1%nat => 1 | _, _ => 0 end)
      else ([a 1%nat 1%nat; a O O],
            fun i j => match i, j with O, 1%nat => 1 | 1%nat, O => 1 | _, _ => 0 end)
  | _ => ([], mzero)
  end.

Definition small_cholesky (n : nat) (a : Matrix) : Matrix :=
  match n with
  | 1%nat => fun i j => if ((i =? 0)%nat && (j =? 0)%nat)%bool then sqrt (a O O) else 0
  | 2%nat =>
      let l00 := sqrt (a O O) in
      let l10 := a 1%nat O / l00 in
      fun i j =>
        match i, j with
        | O, O => l00
        | 1%nat, O => l10
        | 1%nat, 1%nat => sqrt (a 1%nat 1%nat - l10 * l10)
        | _, _ => 0
        end
  | _ => a
  end.

#[export] Instance small_matrix_tools : MatrixTools := {
  mult := small_mult;
  Invert := small_Invert;
  diagMat := small_diagMat;
  cholesky := small_cholesky
}.

(** *** The documented example

    [METAD ARG=d1 SIGMA=0.2 HEIGHT=0.3 PACE=500] on one non-periodic
    variable, no files on disk. *)
Definition no_files : FileSystem := fun _ => None.

Definition one_distance : list ArgValue := [mkArg "d1" NotPeriodic plain_difference].

Definition example_options : ActionOptions :=
  mkOptions None [0.2] (Some 0.3) (Some 500%Z) None None None [] [] [] false false None None
    None None None None None None.

(** The state the constructor builds for the documented example, holding
    the hills [hills] and having written [records]. *)
Definition example_bias (hills : list Gaussian) (records : list HillRecord) (first : bool)
    : MetaD Mesh :=
  Build_MetaD [0.2] hills records None 0 false 0.3 1.0 0.0 500 false adaptive_none
    1 0 1 [mkIFile false 0] ["HILLS"%string] (-1) (-1) false first.

(** The same with the interval restriction to [(lo, up)] switched on. *)
Definition interval_bias (lo up : R) (hills : list Gaussian) : MetaD Mesh :=
  Build_MetaD [0.2] hills [] None 0 false 0.3 1.0 0.0 500 false adaptive_none
    1 0 1 [mkIFile false 0] ["HILLS"%string] up lo true false.

(** ** The claims as the specification words them, where the code differs *)

(** The isotropic evaluator as described: [d2] from the quotients
    [d_i / sigma_i], the value [height * exp(-d2)] below the cutoff and zero
    from the cutoff on, and the gradient contribution [-value * d_i / sigma_i]. *)
Definition isotropic_as_described {G : Type} (args : list ArgValue) (self : MetaD G)
    (cv : list R) (hill : Gaussian) (der : list R) : Prop :=
  let d i := difference args i (vget (center hill) i) (vget cv i) in
  let d2 := 0.5 * fold_right Rplus 0
                    (map (fun i => Rsqr (d i / vget (sigma hill) i)) (seq 0 (length cv))) in
  let value := if Rltb d2 6.25 then height hill * exp (- d2) else 0 in
  fst (evaluateGaussian args self cv hill (Some der)) = value
  /\ forall i, (i < length cv)%nat ->
       nth i (match snd (evaluateGaussian args self cv hill (Some der)) with
              | Some d' => d' | None => [] end) 0
       = vget der i + - value * d i / vget (sigma hill) i.

(** The list accumulator as the specification describes it for a single
    worker: the sum of the evaluator's output over every stored hill, in
    order. *)
Definition sequential_sum {G : Type} (args : list ArgValue) (self : MetaD G)
    (cv : list R) (der : option (list R)) : R * option (list R) :=
  fold_left
    (fun '(bias, der) hill =>
       let '(b, der') := evaluateGaussian args self cv hill der in (bias + b, der'))
    (hills_ self) (0, der).

(** The interval restriction as described: outside [[lowI, uppI]] the bias
    value and every derivative handed back to [calculate] are zero. *)
Definition interval_as_described {G : Type} {grid_ops : GridLike G}
    (args : list ArgValue) (comm_size comm_rank : nat) (self : MetaD G) (cv : list R) : Prop :=
  doInt_ self = true ->
  vget cv 0 < lowI_ self \/ uppI_ self < vget cv 0 ->
  getBiasAndDerivatives args comm_size comm_rank self cv
    (Some (vzero (getNumberOfArguments args)))
  = (0, Some (vzero (getNumberOfArguments args))).

(** A grid-mode bias on one variable: mesh points [0], [1], [2], [3],
    interval restriction to [(0.5, 1.5)], nothing deposited yet. *)
Definition empty_mesh : Mesh := mkMesh [0] [1] [4%nat] (fun _ => 0) (fun _ => [0]).

Definition grid_interval_bias : MetaD Mesh :=
  Build_MetaD [0.2] [] [] (Some empty_mesh) 0 true 0.3 1.0 0.0 500 false adaptive_none
    1 0 1 [mkIFile false 0] ["HILLS"%string] 1.5 0.5 true false.

(** A hill of height [1] and width [0.2] centred on the mesh point [1]. *)
Definition unit_hill : Gaussian := mkGaussian [1.0] [0.2] 1 false.

(** A well-tempered run on the same variable (bias factor [10],
    temperature [300]) that holds one hill and is past its first step. *)
Definition welltemp_example : MetaD Mesh :=
  Build_MetaD [0.2] [mkGaussian [1.0] [0.2] 0.3 false] [] None 0 false 0.3 10 300 500 true
    adaptive_none 1 0 1 [mkIFile false 0] ["HILLS"%string] (-1) (-1) false false.

(** A periodic variable on the domain [-1, 1]: its difference wraps into
    half a period. *)
Definition wrapped_difference (a b : R) : R :=
  let s := (b - a) / 2 in (s - IZR (Int_part (s + 0.5))) * 2.

Definition one_torsion : list ArgValue :=
  [mkArg "phi" (Periodic "-1" "1") wrapped_difference].

(** A record that carries no periodicity fields for its variable. *)
Definition plain_record : HillRecord :=
  mkRecord 1 [(NotPeriodic, 0.5)] "false" [0.2] 0.3 1 None.

Definition with_clock (rec : HillRecord) (clock : option Z) : HillRecord :=
  mkRecord (f_time rec) (f_args rec) (f_multivariate rec) (f_sigma rec) (f_height rec)
    (f_biasf rec) clock.

(** The periodicity check as described: any difference between the
    periodicity a record carries for a variable and the periodicity of the
    run's variable is fatal. *)
Definition periodicity_as_described {matrix_tools : MatrixTools}
    (args : list ArgValue) (rec : HillRecord) (buf : ScanBuffers) : Prop :=
  (exists i, (i < getNumberOfArguments args)%nat
             /\ fst (nth i (f_args rec) (NotPeriodic, 0))
                <> arg_domain (getPntrToArgument args i)) ->
  is_fatal (scanOneHill args (Some rec) buf) = true.

(** Two distances, and an input line that asks for adaptive hills together
    with the interval restriction:
    [METAD ARG=d1,d2 SIGMA=0.05 HEIGHT=0.3 PACE=500 ADAPTIVE=GEOM
     LOWER_INTERVAL=0 UPPER_INTERVAL=1]. *)
Definition two_distances : list ArgValue :=
  [mkArg "d1" NotPeriodic plain_difference; mkArg "d2" NotPeriodic plain_difference].

Definition adaptive_interval_options : ActionOptions :=
  mkOptions (Some "GEOM"%string) [0.05] (Some 0.3) (Some 500%Z) None None None [] [] []
    false false None None None None None None (Some 1) (Some 0).







(** What the evaluator hands to the grid for the point [xx]: the value, and
    the gradient accumulated in a zeroed buffer. *)
Definition evaluator_output {G : Type} (args : list ArgValue) (self : MetaD G)
    (xx : list R) (hill : Gaussian) : R * list R :=
  let '(b, d) := evaluateGaussian args self xx hill (Some (vzero (getNumberOfArguments args))) in
  (b, match d with Some v => v | None => [] end).

(** *** The two height scalings in binary64

    [height*=biasf_/(biasf_-1.0)] of [writeGaussian] and
    [height*=(biasf_-1.0)/biasf_] of [readGaussians], on [double]s. *)
Module Binary64.

Import PrimFloat.

Definition written_height (welltemp : bool) (biasf height : float) : float :=
  if welltemp then (height * (biasf / (biasf - 1)))%float else height.

Definition replayed_height (welltemp : bool) (biasf height : float) : float :=
  if welltemp then (height * ((biasf - 1) / biasf))%float else height.

(** The claim as worded: writing a height and reading it back gives the
    height itself, exactly. *)
Definition round_trip_as_described : Prop :=
  forall biasf height : float,
    ltb 1 biasf = true ->
    replayed_height true biasf (written_height true biasf height) = height.

(** [BIASFACTOR=10] and a hill of height [0.7]. *)
Definition ten : float := 10%float.
Definition seven_tenths : float := 0x1.6666666666666p-1%float.

End Binary64.

(** ** Vocabulary of the further properties *)

(** *** Packed matrices *)

(** The position in a packed vector of the first entry of row [i] of an
    upper triangle (and of band [i] of a lower one): rows [0 .. i-1] hold
    [ncv], [ncv-1], ... entries. *)
Fixpoint row_start (ncv i : nat) : nat :=
  match i with
  | O => O
  | S i' => (row_start ncv i' + (ncv - i'))%nat
  end.

(** The lower triangle of the leading [ncv] x [ncv] block of [m]. *)
Definition lower_triangle (ncv : nat) (m : Matrix) : Matrix :=
  fun a b => if ((b <=? a)%nat && (a <? ncv)%nat)%bool then m a b else 0.

Definition transpose (m : Matrix) : Matrix := fun a b => m b a.

(** [invmatrix(i,j)=invmatrix(j,i)] over [i], [j >= i], as [writeGaussian]
    does it: the lower triangle copied over the upper one. *)
Definition symmetrised (ncv : nat) (m : Matrix) : Matrix :=
  for_range 0 ncv (fun i m => for_range i ncv (fun j m => mset m i j (m j i)) m) m.

(** *** Stored hills *)


(** The accumulator in use is the one the mode calls for: in grid mode a
    grid and no stored hills, in list mode no grid. *)
Definition accumulator_ok {G : Type} (self : MetaD G) : Prop :=
  (grid_ self = true -> hills_ self = [] /\ exists g, BiasGrid_ self = Some g)
  /\ (grid_ self = false -> BiasGrid_ self = None).

(** [b] is in the same mode as [a] and keeps its accumulator in order if
    [a] does. *)
Definition keeps_accumulator {G : Type} (a b : MetaD G) : Prop :=
  grid_ b = grid_ a /\ (accumulator_ok a -> accumulator_ok b).

(** *** Records of a hills file *)

(** A record whose periodicity fields pass the check of [scanOneHill]. *)
Definition domains_accepted (args : list ArgValue) (rec : HillRecord) : Prop :=
  forall i, (i < getNumberOfArguments args)%nat ->
    fst (nth i (f_args rec) (NotPeriodic, 0)) = NotPeriodic
    \/ fst (nth i (f_args rec) (NotPeriodic, 0)) = arg_domain (getPntrToArgument args i).

(** A record of an isotropic hill with one value and one width per
    variable. *)
Definition isotropic_record (args : list ArgValue) (rec : HillRecord) : Prop :=
  domains_accepted args rec
  /\ f_multivariate rec = "false"%string
  /\ length (f_args rec) = getNumberOfArguments args
  /\ length (f_sigma rec) = getNumberOfArguments args.

(** The hill [readGaussians] builds from such a record. *)
Definition replayed_hill {G : Type} (self : MetaD G) (rec : HillRecord) : Gaussian :=
  mkGaussian (map snd (f_args rec)) (f_sigma rec) (replayed_height self (f_height rec)) false.

(** The fields of a record that the reader uses. *)
Definition same_fields (r w : HillRecord) : Prop :=
  f_args r = f_args w /\ f_multivariate r = f_multivariate w
  /\ f_sigma r = f_sigma w /\ f_height r = f_height w.

(** [rec] is the record of the isotropic hill [hill]: its centre, its
    widths and its height as [writeGaussian] scales it. *)
Definition record_of {G : Type} (args : list ArgValue) (self : MetaD G)
    (hill : Gaussian) (rec : HillRecord) : Prop :=
  isotropic_record args rec
  /\ multivariate hill = false
  /\ map snd (f_args rec) = center hill
  /\ f_sigma rec = sigma hill
  /\ f_height rec = written_height self (height hill).

(** The hills in memory and the records written so far go in step. *)
Definition in_step {G : Type} (args : list ArgValue) (self : MetaD G) : Prop :=
  Forall2 (record_of args self) (hills_ self) (hillsOfile_ self).

(** An isotropic hill as it comes back from its record: the height has been
    scaled on the way out and on the way in. *)
Definition read_back {G : Type} (self : MetaD G) (hill : Gaussian) : Gaussian :=
  mkGaussian (center hill) (sigma hill)
    (replayed_height self (written_height self (height hill))) false.

(** The records on disk under the name of walker [i]'s file. *)
Definition walker_content {G : Type} (self : MetaD G) (fs : FileSystem) (i : nat)
    : list HillRecord :=
  match fs (nth i (ifilesnames self) ""%string) with Some c => c | None => [] end.

(** The records of walker [i]'s file that a call of [update] has still to
    read: none for the walker's own file or a file not yet open, else
    everything after the position the last read ended at. *)
Definition unread {G : Type} (self : MetaD G) (fs : FileSystem) (i : nat)
    : list HillRecord :=
  let ifile := nth i (ifiles self) (mkIFile false O) in
  if (Z.of_nat i =? mw_id_ self)%Z then []
  else if if_open ifile then skipn (if_pos ifile) (walker_content self fs i) else [].

(** *** A run *)

(** The calls the host engine makes on the action: [update()] once per
    step, from step [step] on; [inputs] holds, step by step, the argument
    values and the matrix the adaptive-width estimator returns. *)
Fixpoint run_updates {G : Type} {grid_ops : GridLike G} {matrix_tools : MatrixTools}
    (args : list ArgValue) (comm_size comm_rank : nat) (kBoltzmann timeStep : R)
    (fs : FileSystem) (now : Z)
    (self : MetaD G) (step : Z) (inputs : list (list R * list R)) : result (MetaD G) :=
  match inputs with
  | [] => Ok self
  | (argv, flexinv) :: rest =>
      self' <- update args comm_size comm_rank kBoltzmann timeStep self step argv flexinv
                 fs now ;;
      run_updates args comm_size comm_rank kBoltzmann timeStep fs now self' (step + 1) rest
  end.

(** Every call of such a run is defined. *)
Fixpoint run_defined {G : Type} {grid_ops : GridLike G} {matrix_tools : MatrixTools}
    (args : list ArgValue) (comm_size comm_rank : nat) (kBoltzmann timeStep : R)
    (fs : FileSystem) (now : Z)
    (self : MetaD G) (step : Z) (inputs : list (list R * list R)) : Prop :=
  match inputs with
  | [] => True
  | (argv, flexinv) :: rest =>
      update_defined args comm_size comm_rank kBoltzmann self step argv flexinv
      /\ forall self',
           update args comm_size comm_rank kBoltzmann timeStep self step argv flexinv fs now
           = Ok self' ->
           run_defined args comm_size comm_rank kBoltzmann timeStep fs now self' (step + 1) rest
  end.

(** *** The input line *)

(** The input lines the constructor lets through: a known [ADAPTIVE]
    scheme; one [SIGMA] per variable, or a single one for adaptive hills; a
    positive [HEIGHT] and [PACE]; a [BIASFACTOR] of at least one, with a
    non-zero [TEMP] when it exceeds one; [GRID_MIN], [GRID_MAX] and
    [GRID_BIN] all absent or all with one entry per variable; on a grid,
    [GRID_WFILE] and a positive [GRID_WSTRIDE] together or not at all;
    [WALKERS_ID] below [WALKERS_N]; and, when the interval bounds differ, a
    single [SIGMA] and the lower bound below the upper one. *)
Definition valid_input (args : list ArgValue) (ao : ActionOptions) : Prop :=
  let ncv := getNumberOfArguments args in
  let adaptiveoption := parse (ADAPTIVE ao) "NONE"%string in
  let grid := (0 < length (GRID_BIN ao))%nat in
  let wfile := parse (GRID_WFILE ao) ""%string in
  let wstride := parse (GRID_WSTRIDE ao) 0%Z in
  let upp := parse (UPPER_INTERVAL ao) (-1) in
  let low := parse (LOWER_INTERVAL ao) (-1) in
  (adaptiveoption = "GEOM"%string \/ adaptiveoption = "DIFF"%string
   \/ adaptiveoption = "NONE"%string)
  /\ length (SIGMA ao) = (if is_adaptive (selected_scheme ao) then 1%nat else ncv)
  /\ 0 < parse (HEIGHT ao) 0.0
  /\ (0 < parse (PACE ao) 0)%Z
  /\ 1 <= parse (BIASFACTOR ao) 1.0
  /\ (1 < parse (BIASFACTOR ao) 1.0 -> parse (TEMP ao) 0.0 <> 0)
  /\ (length (GRID_MIN ao) = ncv \/ length (GRID_MIN ao) = O)
  /\ length (GRID_MAX ao) = length (GRID_MIN ao)
  /\ length (GRID_BIN ao) = length (GRID_MIN ao)
  /\ (grid -> wfile <> ""%string -> wstride <> 0%Z)
  /\ (grid -> (0 < wstride)%Z -> wfile <> ""%string)
  /\ (parse (WALKERS_ID ao) 0 < parse (WALKERS_N ao) 1)%Z
  /\ (upp <> low -> length (SIGMA ao) = 1%nat /\ low < upp).

(** The parameters fixed by the input line. *)
Definition same_parameters {G : Type} (a b : MetaD G) : Prop :=
  sigma0_ b = sigma0_ a /\ wgridstride_ b = wgridstride_ a /\ grid_ b = grid_ a
  /\ height0_ b = height0_ a /\ biasf_ b = biasf_ a /\ temp_ b = temp_ a
  /\ stride_ b = stride_ a /\ welltemp_ b = welltemp_ a /\ adaptive_ b = adaptive_ a
  /\ mw_n_ b = mw_n_ a /\ mw_id_ b = mw_id_ a /\ mw_rstride_ b = mw_rstride_ a
  /\ uppI_ b = uppI_ a /\ lowI_ b = lowI_ a /\ doInt_ b = doInt_ a.

(** The action as the constructor has it once the input line is checked,
    before it turns to the hills files. *)
Definition configured {G : Type} {grid_ops : GridLike G} (ao : ActionOptions) : MetaD G :=
  let biasf := parse (BIASFACTOR ao) 1.0 in
  let uppI := parse (UPPER_INTERVAL ao) (-1) in
  let lowI := parse (LOWER_INTERVAL ao) (-1) in
  let doInt := negb (Reqb uppI lowI) in
  let spline := (negb (GRID_NOSPLINE ao) && negb doInt)%bool in
  let grid := (0 <? length (GRID_BIN ao))%nat in
  Build_MetaD (SIGMA ao) [] []
    (if grid
     then Some (grid_new (GRID_SPARSE ao) (GRID_MIN ao) (GRID_MAX ao) (GRID_BIN ao) spline)
     else None)
    (parse (GRID_WSTRIDE ao) 0%Z) grid (parse (HEIGHT ao) 0.0) biasf (parse (TEMP ao) 0.0)
    (parse (PACE ao) 0%Z) (Rgtb biasf 1.0) (selected_scheme ao)
    (parse (WALKERS_N ao) 1%Z) (parse (WALKERS_ID ao) 0%Z) (parse (WALKERS_RSTRIDE ao) 1%Z)
    [] [] uppI lowI doInt true.

(** The loop of the constructor over the walkers' files, started from
    [self]. *)
Definition open_files {G : Type} {grid_ops : GridLike G} {matrix_tools : MatrixTools}
    (args : list ArgValue) (comm_size comm_rank : nat) (ao : ActionOptions)
    (restart : bool) (fs : FileSystem) (self : MetaD G) : result (MetaD G) :=
  let mw_n := parse (WALKERS_N ao) 1%Z in
  let mw_id := parse (WALKERS_ID ao) 0%Z in
  let mw_dir := parse (WALKERS_DIR ao) "./"%string in
  let hillsfname := parse (FILE ao) "HILLS"%string in
  for_rangeM 0 (Z.to_nat mw_n)
    (fun i self =>
       let fname := walker_file_name mw_n mw_dir hillsfname i in
       let names := (ifilesnames self ++ [fname])%list in
       let push (s : MetaD G) (f : IFile) : MetaD G :=
         Build_MetaD (sigma0_ s) (hills_ s) (hillsOfile_ s) (BiasGrid_ s)
           (wgridstride_ s) (grid_ s) (height0_ s) (biasf_ s) (temp_ s)
           (stride_ s) (welltemp_ s) (adaptive_ s) (mw_n_ s) (mw_id_ s)
           (mw_rstride_ s) (ifiles s ++ [f]) names (uppI_ s) (lowI_ s)
           (doInt_ s) (isFirstStep s) in
       match fs fname with
       | Some content =>
           r <- (if restart then readGaussians args comm_size comm_rank self content
                 else Ok (self, O)) ;;
           Ok (push (fst r)
                 (mkIFile (negb (Z.of_nat i =? mw_id)%Z)
                    (if restart then length content else O)))
       | None => Ok (push self (mkIFile false O))
       end)
    self.

(** What the constructor leaves in [ifiles] for walker [i]. *)
Definition opened_file (ao : ActionOptions) (restart : bool) (fs : FileSystem) (i : nat)
    : IFile :=
  let mw_n := parse (WALKERS_N ao) 1%Z in
  let mw_id := parse (WALKERS_ID ao) 0%Z in
  let fname := walker_file_name mw_n (parse (WALKERS_DIR ao) "./"%string)
                 (parse (FILE ao) "HILLS"%string) i in
  match fs fname with
  | Some content =>
      mkIFile (negb (Z.of_nat i =? mw_id)%Z) (if restart then length content else O)
  | None => mkIFile false O
  end.

(** *** Examples *)

(** Two walkers sharing the directory [.]: the file of walker [1] holds one
    record.  [walker_zero hills peer] is walker [0], holding [hills], with
    the file of walker [1] in the state [peer]. *)
Definition peer_hills : FileSystem :=
  fun name => if String.eqb name "./HILLS.1" then Some [plain_record] else None.

Definition walker_zero (hills : list Gaussian) (peer : IFile) : MetaD Mesh :=
  Build_MetaD [0.2] hills [] None 0 false 0.3 1.0 0.0 500 false adaptive_none
    2 0 1 [mkIFile false 0; peer] ["./HILLS.0"%string; "./HILLS.1"%string]
    (-1) (-1) false false.

(** A disk that holds the single file [HILLS] with the records [records]. *)
Definition hills_file (records : list HillRecord) : FileSystem :=
  fun name => if String.eqb name "HILLS" then Some records else None.

(** * Verification *)

(** ** Comparisons *)

Lemma Rltb_true (a b : R) : Rltb a b = true <-> a < b.
Proof. unfold Rltb; destruct (Rlt_dec a b); split; intros; try lra; discriminate. Qed.

Lemma Rltb_false (a b : R) : Rltb a b = false <-> b <= a.
Proof. unfold Rltb; destruct (Rlt_dec a b); split; intros; try lra; discriminate. Qed.

Lemma Rgtb_true (a b : R) : Rgtb a b = true <-> a > b.
Proof. unfold Rgtb; rewrite Rltb_true; lra. Qed.

Lemma Rgtb_false (a b : R) : Rgtb a b = false <-> a <= b.
Proof. unfold Rgtb; rewrite Rltb_false; lra. Qed.

Lemma Rleb_true (a b : R) : Rleb a b = true <-> a <= b.
Proof. unfold Rleb; destruct (Rle_dec a b); split; intros; try lra; discriminate. Qed.

Lemma Rleb_false (a b : R) : Rleb a b = false <-> b < a.
Proof. unfold Rleb; destruct (Rle_dec a b); split; intros; try lra; discriminate. Qed.

Lemma Reqb_true (a b : R) : Reqb a b = true <-> a = b.
Proof. unfold Reqb; destruct (Req_dec_T a b); split; intros; try lra; discriminate. Qed.

Lemma Reqb_false (a b : R) : Reqb a b = false <-> a <> b.
Proof. unfold Reqb; destruct (Req_dec_T a b); split; intros; try lra; try discriminate; auto. Qed.

(** ** Loops and vectors *)

Lemma for_range_empty {S : Type} (lo hi : nat) (body : nat -> S -> S) (s : S) :
  (hi <= lo)%nat -> for_range lo hi body s = s.
Proof.
  intros H. unfold for_range. replace (hi - lo)%nat with O by lia. reflexivity.
Qed.

Lemma for_range_snoc {S : Type} (lo hi : nat) (body : nat -> S -> S) (s : S) :
  (lo <= hi)%nat ->
  for_range lo (Datatypes.S hi) body s = body hi (for_range lo hi body s).
Proof.
  intros H. unfold for_range.
  replace (Datatypes.S hi - lo)%nat with (Datatypes.S (hi - lo)) by lia.
  rewrite seq_S, fold_left_app. simpl.
  replace (lo + (hi - lo))%nat with hi by lia. reflexivity.
Qed.

(** A loop invariant rule for [for_range]. *)
Lemma for_range_ind {S : Type} (P : nat -> S -> Prop) (n : nat)
    (body : nat -> S -> S) (s : S) :
  P O s ->
  (forall i acc, (i < n)%nat -> P i acc -> P (Datatypes.S i) (body i acc)) ->
  P n (for_range 0 n body s).
Proof.
  intros H0 Hstep.
  assert (forall k, (k <= n)%nat -> P k (for_range 0 k body s)) as Hk.
  { induction k; intros Hle.
    - rewrite for_range_empty by lia. exact H0.
    - rewrite for_range_snoc by lia. apply Hstep; [lia | apply IHk; lia]. }
  apply Hk. lia.
Qed.

Lemma length_vset (v : list R) (i : nat) (x : R) : length (vset v i x) = length v.
Proof.
  revert i; induction v as [|h t IH]; intros [|i]; simpl; auto.
Qed.

Lemma vget_vset (v : list R) (i j : nat) (x : R) :
  vget (vset v i x) j = if ((j =? i)%nat && (i <? length v)%nat)%bool then x else vget v j.
Proof.
  unfold vget. revert i j; induction v as [|h t IH]; intros [|i] [|j]; simpl; auto;
    try (destruct (j =? i)%nat; reflexivity).
Qed.

Lemma vget_vset_same (v : list R) (i : nat) (x : R) :
  (i < length v)%nat -> vget (vset v i x) i = x.
Proof.
  intros H. rewrite vget_vset, Nat.eqb_refl.
  apply Nat.ltb_lt in H. rewrite H. reflexivity.
Qed.

Lemma vget_vset_other (v : list R) (i j : nat) (x : R) :
  j <> i -> vget (vset v i x) j = vget v j.
Proof.
  intros H. rewrite vget_vset. apply Nat.eqb_neq in H. rewrite H. reflexivity.
Qed.

Lemma vget_vzero (n i : nat) : vget (vzero n) i = 0.
Proof.
  unfold vget, vzero. revert i; induction n; intros [|i]; simpl; auto.
Qed.

Lemma length_vzero (n : nat) : length (vzero n) = n.
Proof. apply repeat_length. Qed.

Lemma vget_beyond (v : list R) (i : nat) : (length v <= i)%nat -> vget v i = 0.
Proof. intros H. unfold vget. apply nth_overflow. exact H. Qed.

(** Two vectors of one length with the same entries are equal. *)
Lemma vector_ext (u v : list R) :
  length u = length v -> (forall i, (i < length u)%nat -> vget u i = vget v i) -> u = v.
Proof.
  intros Hlen Hget. apply (nth_ext u v 0 0 Hlen). exact Hget.
Qed.

(** The loop [for i < n: v[i] = f(i, v[i])], entry by entry. *)
Lemma for_range_pointwise (n : nat) (f : nat -> R -> R) (v : list R) :
  length (for_range 0 n (fun i d => vset d i (f i (vget d i))) v) = length v
  /\ forall j,
       vget (for_range 0 n (fun i d => vset d i (f i (vget d i))) v) j
       = if ((j <? n)%nat && (j <? length v)%nat)%bool then f j (vget v j) else vget v j.
Proof.
  apply (for_range_ind
           (fun k acc => length acc = length v
                         /\ forall j, vget acc j
                              = if ((j <? k)%nat && (j <? length v)%nat)%bool
                                then f j (vget v j) else vget v j)).
  - split; [reflexivity | intros j; reflexivity].
  - intros i acc Hi [Hlen Hget]. split.
    + rewrite length_vset. exact Hlen.
    + intros j. rewrite vget_vset, Hlen.
      destruct (Nat.eq_dec j i) as [->|Hne].
      * rewrite Nat.eqb_refl. simpl.
        rewrite (Hget i). rewrite Nat.ltb_irrefl. simpl.
        replace (i <? Datatypes.S i)%nat with true by (symmetry; apply Nat.ltb_lt; lia).
        simpl. destruct (i <? length v)%nat eqn:E; reflexivity.
      * apply Nat.eqb_neq in Hne as Hne'. rewrite Hne'. simpl. rewrite Hget.
        replace (j <? Datatypes.S i)%nat with (j <? i)%nat; [reflexivity|].
        destruct (j <? i)%nat eqn:E1; destruct (j <? Datatypes.S i)%nat eqn:E2; auto.
        -- apply Nat.ltb_lt in E1. apply Nat.ltb_ge in E2. lia.
        -- apply Nat.ltb_ge in E1. apply Nat.ltb_lt in E2. lia.
Qed.

Lemma for_range_ext {S : Type} (lo hi : nat) (f g : nat -> S -> S) (s : S) :
  (forall i acc, (lo <= i < hi)%nat -> f i acc = g i acc) ->
  for_range lo hi f s = for_range lo hi g s.
Proof.
  intros H. unfold for_range.
  assert (forall l acc, (forall i, In i l -> (lo <= i < hi)%nat) ->
            fold_left (fun a i => f i a) l acc = fold_left (fun a i => g i a) l acc) as Hl.
  { induction l as [|x l IH]; intros acc Hin; simpl; [reflexivity|].
    rewrite H by (apply Hin; left; reflexivity).
    apply IH. intros i Hi. apply Hin. right. exact Hi. }
  apply Hl. intros i Hi. apply in_seq in Hi. lia.
Qed.

Lemma vset_vget_id (v : list R) (i : nat) : vset v i (vget v i) = v.
Proof.
  unfold vget. revert i; induction v as [|h t IH]; intros [|i]; simpl; auto.
  rewrite IH. reflexivity.
Qed.

Lemma vget_map_seq (f : nat -> R) (n i : nat) :
  (i < n)%nat -> vget (map f (seq 0 n)) i = f i.
Proof.
  intros H. unfold vget.
  rewrite (nth_indep _ 0 (f O)) by (rewrite length_map, length_seq; exact H).
  rewrite map_nth, seq_nth by exact H. reflexivity.
Qed.

(** ** Sums *)


Lemma Rsum_app (l1 l2 : list R) : Rsum (l1 ++ l2) = Rsum l1 + Rsum l2.
Proof.
  induction l1 as [|x l1 IH]; simpl; [lra | rewrite IH; lra].
Qed.

Lemma Rsum_seq_S (f : nat -> R) (n : nat) :
  Rsum (map f (seq 0 (S n))) = Rsum (map f (seq 0 n)) + f n.
Proof.
  rewrite seq_S, map_app, Rsum_app. simpl. lra.
Qed.

Lemma Rsum_map_ext (f g : nat -> R) (l : list nat) :
  (forall i, In i l -> f i = g i) -> Rsum (map f l) = Rsum (map g l).
Proof.
  induction l as [|x l IH]; intros H; simpl; [reflexivity|].
  rewrite (H x) by (left; reflexivity).
  rewrite IH; [reflexivity|]. intros i Hi. apply H. right. exact Hi.
Qed.

Lemma Rsum_nonneg (l : list R) : (forall x, In x l -> 0 <= x) -> 0 <= Rsum l.
Proof.
  induction l as [|x l IH]; intros H; simpl; [lra|].
  assert (0 <= x) by (apply H; left; reflexivity).
  assert (0 <= Rsum l) by (apply IH; intros y Hy; apply H; right; exact Hy).
  lra.
Qed.

(** An accumulation loop [for i < n: acc += f(i)] computes the sum. *)
Lemma for_range_sum (f : nat -> R) (n : nat) (a : R) :
  for_range 0 n (fun i acc => acc + f i) a = a + Rsum (map f (seq 0 n)).
Proof.
  apply (for_range_ind (fun k acc => acc = a + Rsum (map f (seq 0 k)))).
  - simpl. lra.
  - intros i acc _ ->. rewrite Rsum_seq_S. lra.
Qed.

(** ** The hill constructor *)


Lemma mkGaussian_invsigma (c s : list R) (h : R) (m : bool) :
  invsigma (mkGaussian c s h m) = map cached_inverse s.
Proof.
  unfold mkGaussian; simpl.
  rewrite (for_range_ext 0 (length s) _
             (fun i d => vset d i (cached_inverse (vget d i)))).
  - destruct (for_range_pointwise (length s) (fun _ x => cached_inverse x) s) as [Hlen Hget].
    apply vector_ext.
    + rewrite Hlen, length_map. reflexivity.
    + intros i Hi. rewrite Hlen in Hi. rewrite Hget.
      apply Nat.ltb_lt in Hi as Hi'. rewrite Hi'. simpl.
      unfold vget at 2. rewrite (nth_indep _ 0 (cached_inverse 0)) by (rewrite length_map; exact Hi).
      rewrite map_nth. reflexivity.
  - intros i acc _. unfold cached_inverse.
    destruct (Rgtb (Rabs (vget acc i)) 1e-20); [reflexivity|].
    rewrite vset_vget_id. reflexivity.
Qed.

Lemma vget_invsigma (c s : list R) (h : R) (m : bool) (i : nat) :
  vget (invsigma (mkGaussian c s h m)) i = cached_inverse (vget s i).
Proof.
  rewrite mkGaussian_invsigma.
  destruct (Nat.lt_ge_cases i (length s)) as [Hi|Hi].
  - unfold vget. rewrite (nth_indep _ 0 (cached_inverse 0)) by (rewrite length_map; exact Hi).
    rewrite map_nth. reflexivity.
  - rewrite !vget_beyond by (try rewrite length_map; exact Hi).
    unfold cached_inverse. destruct (Rgtb (Rabs 0) 1e-20); [|reflexivity].
    unfold Rdiv. rewrite Rinv_0. ring.
Qed.

Section Evaluator.

Context {G : Type} {grid_ops : GridLike G} {matrix_tools : MatrixTools}.
Variable args : list ArgValue.


Lemma diagonal_dp_spec (cv : list R) (hill : Gaussian) :
  let r := diagonal_dp args cv hill in
  fst r = Rsum (map (fun i => scaled_displacement args cv hill i * scaled_displacement args cv hill i)
                  (seq 0 (length cv)))
  /\ length (snd r) = length cv
  /\ forall j, (j < length cv)%nat -> vget (snd r) j = scaled_displacement args cv hill j.
Proof.
  unfold diagonal_dp.
  apply (for_range_ind
           (fun k (acc : R * list R) =>
              fst acc = Rsum (map (fun i => scaled_displacement args cv hill i
                                            * scaled_displacement args cv hill i) (seq 0 k))
              /\ length (snd acc) = length cv
              /\ forall j, (j < k)%nat -> vget (snd acc) j = scaled_displacement args cv hill j)).
  - simpl. split; [reflexivity|]. split; [apply length_vzero|]. intros j Hj. lia.
  - intros i [dp2 dp_] Hi (Hsum & Hlen & Hget). cbn [fst snd] in *.
    split; [|split].
    + rewrite Rsum_seq_S, Hsum. reflexivity.
    + rewrite length_vset. exact Hlen.
    + intros j Hj. destruct (Nat.eq_dec j i) as [->|Hne].
      * rewrite vget_vset_same by lia. reflexivity.
      * rewrite vget_vset_other by exact Hne. apply Hget. lia.
Qed.

End Evaluator.

Section IsotropicEvaluator.

Context {G : Type} {grid_ops : GridLike G} {matrix_tools : MatrixTools}.
Variable args : list ArgValue.
Variable self : MetaD G.


(** The isotropic branch, loops resolved. *)
Lemma evaluateGaussian_isotropic (cv : list R) (hill : Gaussian) (der : option (list R)) :
  multivariate hill = false ->
  evaluateGaussian args self cv hill der =
    if (Rltb (isotropic_dp2 args cv hill) DP2CUTOFF && interval_gate self cv)%bool
    then
      (height hill * exp (- isotropic_dp2 args cv hill),
       option_map
         (for_range 0 (length cv)
            (fun i d =>
               vset d i (vget d i
                         + - (height hill * exp (- isotropic_dp2 args cv hill))
                           * scaled_displacement args cv hill i * vget (invsigma hill) i)))
         der)
    else (0, der).
Proof.
  intros Hm. unfold evaluateGaussian. rewrite Hm.
  destruct (diagonal_dp_spec args cv hill) as (Hsum & Hlen & Hget).
  destruct (diagonal_dp args cv hill) as [dp2 dp_]. cbn [fst snd] in *.
  unfold isotropic_dp2. rewrite <- Hsum.
  destruct (Rltb (dp2 * 0.5) DP2CUTOFF); [|reflexivity].
  destruct (interval_gate self cv); [|reflexivity].
  cbn [andb]. f_equal. destruct der as [d|]; [|reflexivity]. cbn [option_map]. f_equal.
  apply for_range_ext. intros i acc Hi. rewrite Hget by lia. reflexivity.
Qed.

End IsotropicEvaluator.

(** ** C10: the cached inverse widths *)

(** C10.  For every constructed hill, entry [i] of [invsigma] is
    [1/sigma_i] when [|sigma_i| > 1e-20] and is [sigma_i] itself otherwise.
    On an axis of (near-)zero width the isotropic evaluator therefore
    multiplies the displacement by that tiny width instead of dividing by it:
    the value it stores in [dp_] is [d_i * sigma_i], of magnitude at most
    [1e-20 * |d_i|], so the axis contributes an almost flat factor. *)
Theorem C10_inverse_width_cache :
  forall (args : list ArgValue) (c s cv : list R) (h : R) (m : bool) (i : nat),
    let hill := mkGaussian c s h m in
    let d := difference args i (vget c i) (vget cv i) in
    (Rabs (vget s i) > 1e-20 -> vget (invsigma hill) i = 1 / vget s i)
    /\ (Rabs (vget s i) <= 1e-20 ->
        vget (invsigma hill) i = vget s i
        /\ ((i < length cv)%nat -> vget (snd (diagonal_dp args cv hill)) i = d * vget s i)
        /\ Rabs (d * vget (invsigma hill) i) <= 1e-20 * Rabs d).
Proof.
  intros args c s cv h m i hill d. subst hill.
  rewrite vget_invsigma. unfold cached_inverse. split.
  - intros Hbig. apply Rgtb_true in Hbig. rewrite Hbig. reflexivity.
  - intros Hsmall. apply Rgtb_false in Hsmall as Hb. rewrite Hb.
    split; [reflexivity|]. split.
    + intros Hi.
      destruct (diagonal_dp_spec args cv (mkGaussian c s h m)) as (_ & _ & Hget).
      rewrite Hget by exact Hi. unfold scaled_displacement.
      rewrite vget_invsigma. unfold cached_inverse. rewrite Hb. reflexivity.
    + rewrite Rabs_mult. rewrite (Rmult_comm (1e-20)).
      apply Rmult_le_compat_l; [apply Rabs_pos | exact Hsmall].
Qed.

Lemma C10_inverse_width_cache_witness :
  vget (invsigma (mkGaussian [1] [0] 0.3 false)) 0 = vget [0] 0.
Proof.
  apply (proj2 (C10_inverse_width_cache one_distance [1] [0] [1.2] 0.3 false 0)).
  unfold vget; simpl. rewrite Rabs_R0. lra.
Defined.

(** ** C1: the isotropic Gaussian *)

Section IsotropicClosedForm.

Context {G : Type} {grid_ops : GridLike G} {matrix_tools : MatrixTools}.
Variable args : list ArgValue.
Variable self : MetaD G.
Variables (cv c s : list R) (h : R).

Let hill := mkGaussian c s h false.
Let d (i : nat) : R := difference args i (vget c i) (vget cv i).

Hypothesis widths_invertible : forall i, (i < length cv)%nat -> Rabs (vget s i) > 1e-20.

Lemma width_nonzero (i : nat) : (i < length cv)%nat -> vget s i <> 0.
Proof.
  intros Hi Hz. specialize (widths_invertible i Hi).
  rewrite Hz, Rabs_R0 in widths_invertible. lra.
Qed.

Lemma scaled_displacement_quotient (i : nat) :
  (i < length cv)%nat -> scaled_displacement args cv hill i = d i / vget s i.
Proof.
  intros Hi. unfold scaled_displacement, hill.
  change (center (mkGaussian c s h false)) with c.
  rewrite vget_invsigma. unfold cached_inverse.
  rewrite (proj2 (Rgtb_true _ _) (widths_invertible i Hi)).
  unfold d, Rdiv. ring.
Qed.

Lemma isotropic_dp2_closed_form :
  isotropic_dp2 args cv hill
  = 0.5 * Rsum (map (fun i => Rsqr (d i / vget s i)) (seq 0 (length cv))).
Proof.
  unfold isotropic_dp2. rewrite Rmult_comm. f_equal.
  apply Rsum_map_ext. intros i Hi. apply in_seq in Hi.
  rewrite scaled_displacement_quotient by lia. reflexivity.
Qed.

End IsotropicClosedForm.

(** Decide the comparisons of concrete reals left in a goal. *)
Ltac decide_R :=
  unfold Rgtb;
  repeat match goal with
  | |- context [Rltb ?a ?b] =>
      first [ rewrite (proj2 (Rltb_true a b)) by lra
            | rewrite (proj2 (Rltb_false a b)) by lra ]
  | |- context [Rleb ?a ?b] =>
      first [ rewrite (proj2 (Rleb_true a b)) by lra
            | rewrite (proj2 (Rleb_false a b)) by lra ]
  | |- context [Reqb ?a ?b] =>
      first [ rewrite (proj2 (Reqb_true a b)) by lra
            | rewrite (proj2 (Reqb_false a b)) by lra ]
  end.

(** The documented example, run from the constructor. *)
Lemma example_constructed :
  MetaD_new one_distance 1 0 example_options false no_files = Ok (example_bias [] [] true).
Proof.
  unfold MetaD_new, example_options, one_distance, no_files.
  cbn -[Rltb Rleb Reqb Rgtb]. decide_R. reflexivity.
Qed.

Lemma example_first_update (kB dt : R) :
  update one_distance 1 0 kB dt (example_bias [] [] true) 0 [1.0] [] no_files 0
  = Ok (example_bias [] [] false).
Proof. reflexivity. Qed.

Lemma example_deposition (kB dt : R) :
  update one_distance 1 0 kB dt (example_bias [] [] false) 500 [1.0] [] no_files 0
  = Ok (example_bias [mkGaussian [1.0] [0.2] 0.3 false]
          [hill_record one_distance dt (example_bias [mkGaussian [1.0] [0.2] 0.3 false] [] false)
             (mkGaussian [1.0] [0.2] 0.3 false) 500 0]
          false).
Proof. reflexivity. Qed.

Lemma example_value (x : R) (records : list HillRecord) :
  Rsqr ((x - 1.0) / 0.2) < 12.5 ->
  fst (getBiasAndDerivatives one_distance 1 0
         (example_bias [mkGaussian [1.0] [0.2] 0.3 false] records false) [x] None)
  = 0.3 * exp (- (0.5 * Rsqr ((x - 1.0) / 0.2))).
Proof.
  intros Hx.
  unfold getBiasAndDerivatives. cbn -[Rltb Rleb Reqb Rgtb mkGaussian evaluateGaussian].
  rewrite evaluateGaussian_isotropic by reflexivity.
  rewrite isotropic_dp2_closed_form.
  2:{ intros i Hi. simpl in Hi. assert (i = O) by lia. subst i.
      unfold vget; simpl. rewrite Rabs_pos_eq; lra. }
  unfold difference, getPntrToArgument, one_distance, plain_difference, Rsum, vget,
    interval_gate, DP2CUTOFF.
  cbn -[Rltb Rleb Reqb Rgtb mkGaussian].
  rewrite (proj2 (Rltb_true _ _)) by lra.
  cbn -[mkGaussian]. change (height (mkGaussian [1.0] [0.2] 0.3 false)) with 0.3.
  rewrite !Rplus_0_l, Rplus_0_r. reflexivity.
Qed.

Lemma isotropic_closed_form :
  forall (G : Type) (args : list ArgValue) (self : MetaD G) (cv c s der : list R) (h : R),
     let hill := mkGaussian c s h false in
     let d i := difference args i (vget c i) (vget cv i) in
     let d2 := 0.5 * Rsum (map (fun i => Rsqr (d i / vget s i)) (seq 0 (length cv))) in
     (forall i, (i < length cv)%nat -> Rabs (vget s i) > 1e-20) ->
     interval_gate self cv = true ->
     (d2 < 6.25 ->
      evaluateGaussian args self cv hill None = (h * exp (- d2), None)
      /\ exists der',
           evaluateGaussian args self cv hill (Some der) = (h * exp (- d2), Some der')
           /\ length der' = length der
           /\ forall i, (i < length cv)%nat -> (i < length der)%nat ->
                vget der' i = vget der i + - (h * exp (- d2)) * d i / (vget s i * vget s i))
     /\ (6.25 <= d2 ->
         forall der0, evaluateGaussian args self cv hill der0 = (0, der0)).
Proof.
  intros G args self cv c s der h hill d d2 Hs Hgate.
  assert (isotropic_dp2 args cv hill = d2) as Hd2
    by (apply isotropic_dp2_closed_form; exact Hs).
  split.
  + intros Hlt. split.
    * rewrite evaluateGaussian_isotropic by reflexivity.
      rewrite Hd2, Hgate, (proj2 (Rltb_true _ _)) by exact Hlt. reflexivity.
    * rewrite evaluateGaussian_isotropic by reflexivity.
      rewrite Hd2, Hgate, (proj2 (Rltb_true _ _)) by exact Hlt.
      cbn [andb option_map]. eexists. split; [reflexivity|].
      change (height hill) with h.
      destruct (for_range_pointwise (length cv)
                  (fun i x => x + - (h * exp (- d2))
                                  * scaled_displacement args cv hill i
                                  * vget (invsigma hill) i) der) as [Hlen Hget].
      split; [exact Hlen|].
      intros i Hi Hi'. rewrite Hget.
      apply Nat.ltb_lt in Hi as Hb. apply Nat.ltb_lt in Hi' as Hb'. rewrite Hb, Hb'.
      cbn [andb]. f_equal. unfold hill.
      rewrite (scaled_displacement_quotient args cv c s h Hs i Hi).
      rewrite vget_invsigma. unfold cached_inverse.
      rewrite (proj2 (Rgtb_true _ _) (Hs i Hi)).
      fold (d i). field. apply (width_nonzero cv s Hs i Hi).
  + intros Hge der0. rewrite evaluateGaussian_isotropic by reflexivity.
    rewrite Hd2, (proj2 (Rltb_false _ _)) by exact Hge. reflexivity.
Qed.

(** C1 (amended).  For an isotropic hill whose widths all exceed [1e-20] in
    magnitude, evaluated where the interval restriction does not apply, with
    [d_i] the periodic difference and
    [d2 = 0.5 * sum_i (d_i / sigma_i)^2]: below the cutoff [6.25] the value
    is [height * exp(-d2)] and a supplied derivative buffer receives
    [- value * d_i / sigma_i^2] on axis [i]; at or above the cutoff the value
    is zero and the buffer is untouched.  In the documented example (one
    variable, width [0.2], height [0.3], stride [500]), after the first
    deposition at [1.0] the bias is [0.3] at [1.0] and [0.3 * exp(-0.5)] at
    [1.2]. *)
Theorem C1_isotropic_gaussian :
  (forall (G : Type) (args : list ArgValue) (self : MetaD G) (cv c s der : list R) (h : R),
     let hill := mkGaussian c s h false in
     let d i := difference args i (vget c i) (vget cv i) in
     let d2 := 0.5 * Rsum (map (fun i => Rsqr (d i / vget s i)) (seq 0 (length cv))) in
     (forall i, (i < length cv)%nat -> Rabs (vget s i) > 1e-20) ->
     interval_gate self cv = true ->
     (d2 < 6.25 ->
      evaluateGaussian args self cv hill None = (h * exp (- d2), None)
      /\ exists der',
           evaluateGaussian args self cv hill (Some der) = (h * exp (- d2), Some der')
           /\ length der' = length der
           /\ forall i, (i < length cv)%nat -> (i < length der)%nat ->
                vget der' i = vget der i + - (h * exp (- d2)) * d i / (vget s i * vget s i))
     /\ (6.25 <= d2 ->
         forall der0, evaluateGaussian args self cv hill der0 = (0, der0)))
  /\ (forall kB dt : R,
        exists s0 s1 s2 : MetaD Mesh,
          MetaD_new one_distance 1 0 example_options false no_files = Ok s0
          /\ update one_distance 1 0 kB dt s0 0 [1.0] [] no_files 0 = Ok s1
          /\ update one_distance 1 0 kB dt s1 500 [1.0] [] no_files 0 = Ok s2
          /\ hills_ s2 = [mkGaussian [1.0] [0.2] 0.3 false]
          /\ fst (getBiasAndDerivatives one_distance 1 0 s2 [1.0] None) = 0.3
          /\ fst (getBiasAndDerivatives one_distance 1 0 s2 [1.0 + 0.2] None) = 0.3 * exp (- 0.5)).
Proof.
  split.
  - exact isotropic_closed_form.
  - intros kB dt.
    exists (example_bias [] [] true), (example_bias [] [] false).
    eexists. split; [exact example_constructed|].
    split; [apply example_first_update|].
    split; [apply example_deposition|].
    split; [reflexivity|]. split.
    + rewrite example_value.
      * replace (0.5 * Rsqr ((1.0 - 1.0) / 0.2)) with 0 by (unfold Rsqr; lra).
        rewrite Ropp_0, exp_0. lra.
      * unfold Rsqr. lra.
    + rewrite example_value.
      * replace (0.5 * Rsqr ((1.0 + 0.2 - 1.0) / 0.2)) with 0.5 by (unfold Rsqr; lra).
        do 2 f_equal. lra.
      * unfold Rsqr. lra.
Qed.

Lemma one_axis (P : nat -> Prop) : P O -> forall i, (i < 1)%nat -> P i.
Proof. intros H i Hi. assert (i = O) by lia. subst. exact H. Qed.

Lemma C1_isotropic_gaussian_witness :
  evaluateGaussian one_distance (example_bias [] [] false) [1.2]
    (mkGaussian [1.0] [0.2] 0.3 false) None
  = (0.3 * exp (- (0.5 * Rsum (map (fun i => Rsqr (difference one_distance i (vget [1.0] i)
                                                     (vget [1.2] i) / vget [0.2] i))
                                 (seq 0 1)))),
     None).
Proof.
  refine (proj1 (proj1 (proj1 C1_isotropic_gaussian Mesh one_distance
                          (example_bias [] [] false) [1.2] [1.0] [0.2] [0] 0.3 _ _) _)).
  - apply one_axis. unfold vget; simpl. rewrite Rabs_pos_eq; lra.
  - reflexivity.
  - unfold Rsum, difference, vget, Rsqr; simpl; unfold plain_difference. lra.
Defined.

(** C1 as worded fails in three ways.  (1) Width [2], centre [0], height
    [1], query [1]: the buffer receives [- value / 4], not [- value / 2].
    (2) The same hill with the interval restriction to [(0, 0.5)]: the query
    [1] lies outside, the value is [0] although [d2 = 1/8] is below the
    cutoff.  (3) Width [1e-21]: the constructor keeps the width as its own
    inverse, the value at [1] is [exp(-0.5e-42)] and not zero, although
    [0.5 * (1/1e-21)^2] is far above the cutoff. *)
Lemma C1_isotropic_gaussian_counterexample :
  ~ isotropic_as_described one_distance (example_bias [] [] false) [1]
      (mkGaussian [0] [2] 1 false) [0]
  /\ ~ isotropic_as_described one_distance (interval_bias 0 0.5 []) [1]
         (mkGaussian [0] [2] 1 false) [0]
  /\ ~ isotropic_as_described one_distance (example_bias [] [] false) [1]
         (mkGaussian [0] [1e-21] 1 false) [0].
Proof.
  split; [|split].
  - intros [_ Hg]. specialize (Hg O (Nat.lt_0_1)).
    destruct (isotropic_closed_form Mesh one_distance (example_bias [] [] false)
                [1] [0] [2] [0] 1) as [Hin _].
    + apply one_axis. unfold vget; simpl. rewrite Rabs_pos_eq; lra.
    + reflexivity.
    + destruct Hin as [_ (der' & Hev & _ & Hder)].
      * unfold Rsum, difference, vget, Rsqr; simpl; unfold plain_difference. lra.
      * rewrite Hev in Hg. cbn [snd] in Hg. specialize (Hder O Nat.lt_0_1 Nat.lt_0_1).
        unfold vget in Hder at 1. rewrite Hder in Hg.
        change (center (mkGaussian [0] [2] 1 false)) with [0] in Hg.
        change (sigma (mkGaussian [0] [2] 1 false)) with [2] in Hg.
        change (height (mkGaussian [0] [2] 1 false)) with 1 in Hg.
        unfold Rsum, difference, vget, Rsqr in Hg; simpl in Hg; unfold plain_difference in Hg.
        rewrite (proj2 (Rltb_true _ _)) in Hg by lra.
        match type of Hg with context [exp ?x] => pose proof (exp_pos x) end.
        lra.
  - intros [Hv _].
    rewrite evaluateGaussian_isotropic in Hv by reflexivity.
    replace (interval_gate (interval_bias 0 0.5 []) [1]) with false in Hv.
    2:{ unfold interval_gate, interval_bias, vget. cbn -[Rltb Rgtb]. decide_R. reflexivity. }
    rewrite andb_false_r in Hv. cbn [fst] in Hv.
    change (center (mkGaussian [0] [2] 1 false)) with [0] in Hv.
    change (sigma (mkGaussian [0] [2] 1 false)) with [2] in Hv.
    change (height (mkGaussian [0] [2] 1 false)) with 1 in Hv.
    unfold Rsum, difference, vget, Rsqr in Hv; simpl in Hv; unfold plain_difference in Hv.
    rewrite (proj2 (Rltb_true _ _)) in Hv by lra.
    match type of Hv with context [exp ?x] => pose proof (exp_pos x) end.
    lra.
  - intros [Hv _].
    rewrite evaluateGaussian_isotropic in Hv by reflexivity.
    assert (isotropic_dp2 one_distance [1] (mkGaussian [0] [1e-21] 1 false)
            = 1e-21 * 1e-21 * 0.5) as Hd.
    { unfold isotropic_dp2, scaled_displacement.
      change (center (mkGaussian [0] [1e-21] 1 false)) with [0].
      cbn [length seq map Rsum fold_right].
      rewrite vget_invsigma. unfold cached_inverse, vget. cbn [nth].
      rewrite Rabs_pos_eq by lra. decide_R.
      unfold difference; simpl; unfold plain_difference. lra. }
    rewrite Hd in Hv.
    replace (interval_gate (example_bias [] [] false) [1]) with true in Hv by reflexivity.
    unfold DP2CUTOFF in Hv.
    rewrite (proj2 (Rltb_true (1e-21 * 1e-21 * 0.5) _)) in Hv by lra.
    cbn [andb fst] in Hv.
    change (center (mkGaussian [0] [1e-21] 1 false)) with [0] in Hv.
    change (sigma (mkGaussian [0] [1e-21] 1 false)) with [1e-21] in Hv.
    change (height (mkGaussian [0] [1e-21] 1 false)) with 1 in Hv.
    unfold Rsum, difference, vget, Rsqr in Hv; simpl in Hv; unfold plain_difference in Hv.
    rewrite (proj2 (Rltb_false _ _)) in Hv.
    + pose proof (exp_pos (- (1e-21 * 1e-21 * 0.5))). lra.
    + replace ((1 - 0) / 1e-21) with 1e21 by lra. lra.
Qed.

(** ** The evaluator adds to the derivative buffer *)


Lemma length_vadd (d : list R) (g : nat -> R) : length (vadd d g) = length d.
Proof. unfold vadd. rewrite length_map, length_seq. reflexivity. Qed.

Lemma vget_vadd (d : list R) (g : nat -> R) (j : nat) :
  (j < length d)%nat -> vget (vadd d g) j = vget d j + g j.
Proof. intros H. unfold vadd. rewrite vget_map_seq by exact H. reflexivity. Qed.

Lemma vadd_ext (d : list R) (g1 g2 : nat -> R) :
  (forall j, (j < length d)%nat -> g1 j = g2 j) -> vadd d g1 = vadd d g2.
Proof.
  intros H. unfold vadd. apply map_ext_in. intros j Hj. apply in_seq in Hj.
  rewrite H by lia. reflexivity.
Qed.

Lemma vadd_vadd (d : list R) (g1 g2 : nat -> R) :
  vadd (vadd d g1) g2 = vadd d (fun j => g1 j + g2 j).
Proof.
  apply vector_ext.
  - rewrite !length_vadd. reflexivity.
  - intros j Hj. rewrite !length_vadd in Hj.
    rewrite !vget_vadd by (rewrite ?length_vadd; exact Hj). lra.
Qed.

Lemma vadd_zero (d : list R) (g : nat -> R) :
  (forall j, (j < length d)%nat -> g j = 0) -> vadd d g = d.
Proof.
  intros H. apply vector_ext.
  - apply length_vadd.
  - intros j Hj. rewrite length_vadd in Hj. rewrite vget_vadd, H by exact Hj. lra.
Qed.

Lemma for_range_accumulate (n : nat) (c : nat -> R) (der : list R) :
  for_range 0 n (fun i d => vset d i (vget d i + c i)) der
  = vadd der (fun j => if (j <? n)%nat then c j else 0).
Proof.
  destruct (for_range_pointwise n (fun i x => x + c i) der) as [Hlen Hget].
  apply vector_ext.
  - rewrite Hlen, length_vadd. reflexivity.
  - intros j Hj. rewrite Hlen in Hj. rewrite Hget, vget_vadd by exact Hj.
    apply Nat.ltb_lt in Hj. rewrite Hj, andb_true_r.
    destruct (j <? n)%nat; lra.
Qed.

Section Additive.

Context {G : Type}.
Variable args : list ArgValue.
Variable self : MetaD G.


(** Both branches of the evaluator have the shape: a value [b] and an
    increment [c] per axis, or nothing at all. *)
Lemma evaluateGaussian_shape (cv : list R) (hill : Gaussian) :
  exists (b : R) (c : nat -> R),
    forall der,
      evaluateGaussian args self cv hill der
      = (b, option_map (fun d => vadd d (fun j => if (j <? length cv)%nat then c j else 0)) der).
Proof.
  unfold evaluateGaussian.
  destruct (multivariate hill).
  - destruct (multivariate_dp args cv hill (recompose (length cv) (sigma hill))) as [dp2 dp_].
    destruct (Rltb dp2 DP2CUTOFF);
      [destruct (interval_gate self cv)|].
    + eexists. exists (fun i => - for_range 0 (length cv)
                                  (fun j tmp => tmp + vget dp_ j
                                                      * recompose (length cv) (sigma hill) i j
                                                      * (height hill * exp (- dp2))) 0).
      intros [d|]; [|reflexivity]. cbn [option_map]. do 2 f_equal.
      rewrite <- for_range_accumulate. apply for_range_ext. intros i acc _. reflexivity.
    + exists 0, (fun _ => 0). intros [d|]; [|reflexivity]. cbn [option_map].
      rewrite vadd_zero; [reflexivity|]. intros j _. destruct (j <? length cv)%nat; reflexivity.
    + exists 0, (fun _ => 0). intros [d|]; [|reflexivity]. cbn [option_map].
      rewrite vadd_zero; [reflexivity|]. intros j _. destruct (j <? length cv)%nat; reflexivity.
  - destruct (diagonal_dp args cv hill) as [dp2 dp_].
    destruct (Rltb (dp2 * 0.5) DP2CUTOFF);
      [destruct (interval_gate self cv)|].
    + eexists. exists (fun i => - (height hill * exp (- (dp2 * 0.5))) * vget dp_ i
                                * vget (invsigma hill) i).
      intros [d|]; [|reflexivity]. cbn [option_map]. do 2 f_equal.
      rewrite <- for_range_accumulate. reflexivity.
    + exists 0, (fun _ => 0). intros [d|]; [|reflexivity]. cbn [option_map].
      rewrite vadd_zero; [reflexivity|]. intros j _. destruct (j <? length cv)%nat; reflexivity.
    + exists 0, (fun _ => 0). intros [d|]; [|reflexivity]. cbn [option_map].
      rewrite vadd_zero; [reflexivity|]. intros j _. destruct (j <? length cv)%nat; reflexivity.
Qed.

Lemma evaluateGaussian_None (cv : list R) (hill : Gaussian) :
  evaluateGaussian args self cv hill None = (hill_value args self cv hill, None).
Proof.
  unfold hill_value. destruct (evaluateGaussian_shape cv hill) as (b & c & H).
  rewrite H. reflexivity.
Qed.

Lemma evaluateGaussian_Some (cv : list R) (hill : Gaussian) (der : list R) :
  evaluateGaussian args self cv hill (Some der)
  = (hill_value args self cv hill, Some (vadd der (hill_gradient args self cv hill))).
Proof.
  unfold hill_value, hill_gradient.
  destruct (evaluateGaussian_shape cv hill) as (b & c & H).
  rewrite !H. cbn [fst snd option_map der_buffer]. do 2 f_equal.
  apply vadd_ext. intros j Hj.
  destruct (Nat.lt_ge_cases j (length cv)) as [Hlt|Hge].
  - rewrite vget_vadd by (rewrite length_vzero; exact Hlt). rewrite vget_vzero. lra.
  - replace (j <? length cv)%nat with false by (symmetry; apply Nat.ltb_ge; exact Hge).
    rewrite vget_beyond; [reflexivity|]. rewrite length_vadd, length_vzero. exact Hge.
Qed.

End Additive.

(** ** Strided loops *)


Lemma strided_loop_fold {St : Type} (fuel i stride bound : nat)
    (body : nat -> St -> St) (s : St) :
  strided_loop fuel i stride bound body s
  = fold_left (fun acc k => body k acc) (strided_indices fuel i stride bound) s.
Proof.
  revert i s; induction fuel as [|fuel IH]; intros i s; simpl; [reflexivity|].
  destruct (i <? bound)%nat; simpl; [apply IH | reflexivity].
Qed.

Lemma filter_seq_skip (p : nat -> bool) (d j len : nat) :
  (forall k, (j <= k < j + d)%nat -> p k = false) ->
  filter p (seq j len) = filter p (seq (j + d) (len - d)).
Proof.
  revert j len; induction d as [|d IH]; intros j len Hp.
  - rewrite Nat.add_0_r, Nat.sub_0_r. reflexivity.
  - destruct len as [|len]; [reflexivity|].
    simpl seq. simpl filter. rewrite Hp by lia.
    rewrite IH by (intros k Hk; apply Hp; lia).
    replace (S j + d)%nat with (j + S d)%nat by lia.
    replace (S len - S d)%nat with (len - d)%nat by lia. reflexivity.
Qed.

(** With a stride of at least one and enough fuel, the loop started at [i]
    visits the indices below [bound] congruent to [i]. *)
Lemma strided_indices_filter (stride bound fuel i : nat) :
  (1 <= stride)%nat -> (bound <= fuel + i)%nat ->
  strided_indices fuel i stride bound
  = filter (fun k => (k mod stride =? i mod stride)%nat) (seq i (bound - i)).
Proof.
  intros Hs. revert i; induction fuel as [|fuel IH]; intros i Hf.
  - replace (bound - i)%nat with O by lia. reflexivity.
  - simpl. destruct (i <? bound)%nat eqn:Hi.
    + apply Nat.ltb_lt in Hi. rewrite IH by lia.
      replace (bound - i)%nat with (S (bound - i - 1)) by lia.
      simpl seq. simpl filter. rewrite Nat.eqb_refl. f_equal.
      rewrite (filter_seq_skip _ (stride - 1) (S i)).
      * replace (S i + (stride - 1))%nat with (i + stride)%nat by lia.
        replace (bound - i - 1 - (stride - 1))%nat with (bound - (i + stride))%nat by lia.
        apply filter_ext. intros k.
        replace ((i + stride) mod stride)%nat with (i mod stride)%nat; [reflexivity|].
        rewrite <- Nat.Div0.add_mod_idemp_r, Nat.Div0.mod_same, Nat.add_0_r. reflexivity.
      * intros k Hk. apply Nat.eqb_neq. intros Heq.
        assert (k = i + (k - i))%nat as Hki by lia.
        rewrite Hki in Heq.
        rewrite <- Nat.Div0.add_mod_idemp_l in Heq.
        assert ((k - i) mod stride = k - i)%nat as Hsmall by (apply Nat.mod_small; lia).
        pose proof (Nat.mod_upper_bound i stride ltac:(lia)) as Hub.
        remember (i mod stride)%nat as r.
        destruct (Nat.lt_ge_cases (r + (k - i)) stride) as [Hlt|Hge].
        -- rewrite Nat.mod_small in Heq by exact Hlt. lia.
        -- remember (r + (k - i) - stride)%nat as q.
           assert (r + (k - i) = q + 1 * stride)%nat as Hq by lia.
           rewrite Hq, Nat.Div0.mod_add, Nat.mod_small in Heq by lia. lia.
    + apply Nat.ltb_ge in Hi. replace (bound - i)%nat with O by lia. reflexivity.
Qed.

Lemma strided_indices_rank (stride bound rank : nat) :
  (rank < stride)%nat ->
  strided_indices bound rank stride bound
  = filter (fun k => (k mod stride =? rank)%nat) (seq 0 bound).
Proof.
  intros Hr.
  rewrite strided_indices_filter by lia.
  rewrite (filter_seq_skip (fun k => (k mod stride =? rank)%nat) rank 0 bound).
  - simpl. apply filter_ext. intros k. rewrite (Nat.mod_small rank) by exact Hr. reflexivity.
  - intros k Hk. apply Nat.eqb_neq. rewrite Nat.mod_small by lia. lia.
Qed.

(** ** Partitioning a sum by residue *)

Lemma Rsum_map_plus {A : Type} (f g : A -> R) (l : list A) :
  Rsum (map (fun x => f x + g x) l) = Rsum (map f l) + Rsum (map g l).
Proof.
  induction l as [|x l IH]; simpl; [lra | rewrite IH; lra].
Qed.

Lemma Rsum_map_zero {A : Type} (f : A -> R) (l : list A) :
  (forall x, In x l -> f x = 0) -> Rsum (map f l) = 0.
Proof.
  induction l as [|x l IH]; intros H; simpl; [reflexivity|].
  rewrite (H x) by (left; reflexivity). rewrite IH; [lra|].
  intros y Hy. apply H. right. exact Hy.
Qed.

Lemma Rsum_indicator (n m : nat) (c : R) :
  (m < n)%nat -> Rsum (map (fun r => if (m =? r)%nat then c else 0) (seq 0 n)) = c.
Proof.
  intros H. induction n as [|n IH]; [lia|].
  rewrite Rsum_seq_S. destruct (Nat.eq_dec m n) as [->|Hne].
  - rewrite Nat.eqb_refl. rewrite Rsum_map_zero; [lra|].
    intros r Hr. apply in_seq in Hr.
    replace (n =? r)%nat with false by (symmetry; apply Nat.eqb_neq; lia). reflexivity.
  - rewrite IH by lia.
    replace (m =? n)%nat with false by (symmetry; apply Nat.eqb_neq; lia). lra.
Qed.

(** Summing, over the residues [r < stride], the terms whose index is
    congruent to [r] gives the whole sum. *)
Lemma Rsum_by_residue (stride : nat) (f : nat -> R) (l : list nat) :
  (1 <= stride)%nat ->
  Rsum (map (fun r => Rsum (map f (filter (fun k => (k mod stride =? r)%nat) l)))
          (seq 0 stride))
  = Rsum (map f l).
Proof.
  intros Hs. induction l as [|x l IH].
  - simpl. apply Rsum_map_zero. reflexivity.
  - change (Rsum (map f (x :: l))) with (f x + Rsum (map f l)). rewrite <- IH.
    rewrite <- (Rsum_indicator stride (x mod stride) (f x))
      by (apply Nat.mod_upper_bound; lia).
    rewrite <- Rsum_map_plus. apply Rsum_map_ext. intros r _.
    simpl filter. destruct (x mod stride =? r)%nat; simpl; lra.
Qed.

(** ** C4: the list accumulator *)

Lemma map_nth_seq {A : Type} (l : list A) (d : A) :
  map (fun k => nth k l d) (seq 0 (length l)) = l.
Proof.
  induction l as [|x l IH]; [reflexivity|].
  simpl. f_equal. rewrite <- seq_shift, map_map. exact IH.
Qed.

Lemma fold_left_over_map {A B C : Type} (f : A -> B -> A) (g : C -> B) (l : list C) (a : A) :
  fold_left f (map g l) a = fold_left (fun acc x => f acc (g x)) l a.
Proof.
  revert a; induction l as [|x l IH]; intros a; simpl; [reflexivity | apply IH].
Qed.

Lemma fold_left_ext {A B : Type} (f g : A -> B -> A) (l : list B) (a : A) :
  (forall acc x, f acc x = g acc x) -> fold_left f l a = fold_left g l a.
Proof.
  intros H. revert a; induction l as [|x l IH]; intros a; simpl; [reflexivity|].
  rewrite H. apply IH.
Qed.

Section ListAccumulator.

Context {G : Type} {grid_ops : GridLike G}.
Variable args : list ArgValue.
Variable self : MetaD G.
Variable cv : list R.

Let value_at (k : nat) : R := hill_value args self cv (nth k (hills_ self) null_hill).
Let gradient_at (k j : nat) : R := hill_gradient args self cv (nth k (hills_ self) null_hill) j.

(** The body of the loop over hills, folded over a list of indices. *)
Lemma fold_hill_indices (L : list nat) (b : R) (der : option (list R)) :
  fold_left
    (fun acc k =>
       (fun '(bias, der) =>
          let '(b, der') := evaluateGaussian args self cv (nth k (hills_ self) null_hill) der in
          (bias + b, der')) acc)
    L (b, der)
  = (b + Rsum (map value_at L),
     option_map (fun d => vadd d (fun j => Rsum (map (fun k => gradient_at k j) L))) der).
Proof.
  revert b der; induction L as [|k L IH]; intros b der.
  - simpl. f_equal; [lra|]. destruct der as [d|]; [|reflexivity].
    cbn [option_map]. rewrite vadd_zero; reflexivity.
  - cbn [fold_left]. destruct der as [d|].
    + rewrite evaluateGaussian_Some, IH. cbn [option_map map Rsum fold_right].
      f_equal; [unfold value_at, Rsum; lra|]. f_equal.
      rewrite vadd_vadd. apply vadd_ext. intros j _. unfold gradient_at. reflexivity.
    + rewrite evaluateGaussian_None, IH. cbn [option_map map Rsum fold_right].
      f_equal. unfold value_at, Rsum. lra.
Qed.

Lemma sequential_sum_closed_form (der : option (list R)) :
  sequential_sum args self cv der
  = (Rsum (map value_at (seq 0 (length (hills_ self)))),
     option_map
       (fun d => vadd d (fun j => Rsum (map (fun k => gradient_at k j)
                                          (seq 0 (length (hills_ self))))))
       der).
Proof.
  unfold sequential_sum.
  rewrite <- (map_nth_seq (hills_ self) null_hill) at 1.
  rewrite fold_left_over_map.
  etransitivity; [|etransitivity; [apply fold_hill_indices|]].
  - apply fold_left_ext. intros [bias d] k. reflexivity.
  - f_equal. lra.
Qed.

Variable comm_size : nat.
Hypothesis workers : (1 <= comm_size)%nat.

Lemma hills_partial_closed_form (der : option (list R)) (r : nat) :
  (r < comm_size)%nat ->
  hills_partial args comm_size self cv der r
  = (Rsum (map value_at
             (filter (fun k => (k mod comm_size =? r)%nat) (seq 0 (length (hills_ self))))),
     option_map
       (fun d => vadd d (fun j =>
          Rsum (map (fun k => gradient_at k j)
                  (filter (fun k => (k mod comm_size =? r)%nat)
                     (seq 0 (length (hills_ self)))))))
       der).
Proof.
  intros Hr. unfold hills_partial.
  rewrite strided_loop_fold, strided_indices_rank by exact Hr.
  rewrite fold_hill_indices. f_equal. lra.
Qed.

Lemma comm_Sum_closed_form (part : nat -> R) :
  comm_Sum comm_size part = Rsum (map part (seq 0 comm_size)).
Proof. unfold comm_Sum. rewrite for_range_sum. lra. Qed.

Lemma list_bias_closed_form (comm_rank : nat) :
  grid_ self = false ->
  getBiasAndDerivatives args comm_size comm_rank self cv None
  = (Rsum (map value_at (seq 0 (length (hills_ self)))), None)
  /\ getBiasAndDerivatives args comm_size comm_rank self cv
       (Some (vzero (getNumberOfArguments args)))
     = (Rsum (map value_at (seq 0 (length (hills_ self)))),
        Some (vadd (vzero (getNumberOfArguments args))
                (fun j => Rsum (map (fun k => gradient_at k j)
                                  (seq 0 (length (hills_ self))))))).
Proof.
  intros Hlist. unfold getBiasAndDerivatives. rewrite Hlist. cbn [negb].
  assert (forall der,
            comm_Sum comm_size (fun r => fst (hills_partial args comm_size self cv der r))
            = Rsum (map value_at (seq 0 (length (hills_ self))))) as Hbias.
  { intros der. rewrite comm_Sum_closed_form.
    rewrite <- (Rsum_by_residue comm_size value_at) by exact workers.
    apply Rsum_map_ext. intros r Hr. apply in_seq in Hr.
    rewrite hills_partial_closed_form by lia. reflexivity. }
  split; [rewrite Hbias; reflexivity|].
  rewrite Hbias. do 2 f_equal.
  unfold comm_Sum_vec.
  set (n := getNumberOfArguments args).
  set (part := fun r => der_buffer (snd (hills_partial args comm_size self cv (Some (vzero n)) r))).
  assert (forall r, (r < comm_size)%nat ->
            part r = vadd (vzero n)
                       (fun j => Rsum (map (fun k => gradient_at k j)
                                         (filter (fun k => (k mod comm_size =? r)%nat)
                                            (seq 0 (length (hills_ self))))))) as Hpart.
  { intros r Hr. unfold part. rewrite hills_partial_closed_form by exact Hr. reflexivity. }
  assert (length (part comm_rank) = n) as Hown.
  { unfold part, hills_partial. rewrite strided_loop_fold, fold_hill_indices.
    cbn [snd option_map der_buffer]. rewrite length_vadd. apply length_vzero. }
  destruct (for_range_pointwise n (fun j _ => comm_Sum comm_size (fun r => vget (part r) j))
              (part comm_rank)) as [Hlen Hget].
  change (for_range 0 n
            (fun j v => vset v j (comm_Sum comm_size (fun r => vget (part r) j)))
            (part comm_rank)
          = vadd (vzero n)
              (fun j => Rsum (map (fun k => gradient_at k j)
                                (seq 0 (length (hills_ self)))))).
  apply vector_ext.
  - rewrite Hlen, Hown, length_vadd, length_vzero. reflexivity.
  - intros j Hj. rewrite Hlen, Hown in Hj. rewrite Hget, Hown.
    apply Nat.ltb_lt in Hj as Hjb. rewrite Hjb. cbn [andb].
    rewrite vget_vadd by (rewrite length_vzero; exact Hj). rewrite vget_vzero.
    rewrite comm_Sum_closed_form.
    rewrite <- (Rsum_by_residue comm_size (fun k => gradient_at k j)) by exact workers.
    rewrite Rplus_0_l. apply Rsum_map_ext. intros r Hr. apply in_seq in Hr.
    rewrite Hpart by lia.
    rewrite vget_vadd by (rewrite length_vzero; exact Hj). rewrite vget_vzero. lra.
Qed.

End ListAccumulator.

(** C4.  In list mode, for every query point and every number of workers
    [P >= 1], the bias and the gradient computed by the strided partition
    (worker [r] sums the evaluator over hills [r], [r+P], [r+2P], ...)
    followed by the global sum equal the sequential sum of the evaluator over
    every stored hill, with the zeroed derivative buffer [calculate] passes
    and with no buffer; so the result is the one a single worker computes,
    whatever the worker count and the rank of the worker looking at it. *)
Theorem C4_strided_partition_sum :
  forall (G : Type) (grid_ops : GridLike G) (args : list ArgValue) (P rank : nat)
         (self : MetaD G) (cv : list R),
    (1 <= P)%nat -> grid_ self = false ->
    let zero := vzero (getNumberOfArguments args) in
    getBiasAndDerivatives args P rank self cv (Some zero)
      = sequential_sum args self cv (Some zero)
    /\ getBiasAndDerivatives args P rank self cv None = sequential_sum args self cv None
    /\ getBiasAndDerivatives args P rank self cv (Some zero)
       = getBiasAndDerivatives args 1 0 self cv (Some zero)
    /\ getBiasAndDerivatives args P rank self cv None
       = getBiasAndDerivatives args 1 0 self cv None.
Proof.
  intros G grid_ops args P rank self cv HP Hlist zero.
  destruct (list_bias_closed_form args self cv P HP rank Hlist) as [HN HS].
  destruct (list_bias_closed_form args self cv 1 (le_n 1) 0 Hlist) as [HN1 HS1].
  rewrite !sequential_sum_closed_form. cbn [option_map].
  unfold zero. rewrite HN, HS, HN1, HS1. repeat split; reflexivity.
Qed.

Lemma C4_strided_partition_sum_witness :
  getBiasAndDerivatives one_distance 3 1
    (example_bias [mkGaussian [1.0] [0.2] 0.3 false; mkGaussian [1.1] [0.2] 0.3 false;
                   mkGaussian [0.9] [0.2] 0.3 false; mkGaussian [1.3] [0.2] 0.3 false] [] false)
    [1.2] None
  = sequential_sum one_distance
      (example_bias [mkGaussian [1.0] [0.2] 0.3 false; mkGaussian [1.1] [0.2] 0.3 false;
                     mkGaussian [0.9] [0.2] 0.3 false; mkGaussian [1.3] [0.2] 0.3 false] [] false)
      [1.2] None.
Proof.
  apply (C4_strided_partition_sum Mesh mesh_grid one_distance 3 1); [lia | reflexivity].
Defined.

(** ** C5: the interval restriction *)

Lemma strided_loop_fixed {St : Type} (fuel i stride bound : nat)
    (body : nat -> St -> St) (s : St) :
  (forall k, body k s = s) -> strided_loop fuel i stride bound body s = s.
Proof.
  intros H. revert i; induction fuel as [|fuel IH]; intros i; simpl; [reflexivity|].
  destruct (i <? bound)%nat; [rewrite H; apply IH | reflexivity].
Qed.

Section IntervalRestriction.

Context {G : Type} {grid_ops : GridLike G}.
Variable args : list ArgValue.
Variables comm_size comm_rank : nat.
Variable self : MetaD G.
Variable cv : list R.

Hypothesis gate_closed : interval_gate self cv = false.

Lemma evaluateGaussian_gated (hill : Gaussian) (der : option (list R)) :
  evaluateGaussian args self cv hill der = (0, der).
Proof.
  unfold evaluateGaussian. rewrite gate_closed.
  destruct (multivariate hill).
  - destruct (multivariate_dp args cv hill (recompose (length cv) (sigma hill))) as [dp2 dp_].
    destruct (Rltb dp2 DP2CUTOFF); reflexivity.
  - destruct (diagonal_dp args cv hill) as [dp2 dp_].
    destruct (Rltb (dp2 * 0.5) DP2CUTOFF); reflexivity.
Qed.

Lemma hills_partial_gated (der : option (list R)) (r : nat) :
  hills_partial args comm_size self cv der r = (0, der).
Proof.
  unfold hills_partial. apply strided_loop_fixed. intros k.
  rewrite evaluateGaussian_gated. f_equal. lra.
Qed.

Lemma comm_Sum_zero : comm_Sum comm_size (fun _ => 0) = 0.
Proof.
  unfold comm_Sum. rewrite for_range_sum, Rsum_map_zero; [lra | reflexivity].
Qed.

Lemma comm_Sum_gated (der : option (list R)) :
  comm_Sum comm_size (fun r => fst (hills_partial args comm_size self cv der r)) = 0.
Proof.
  rewrite <- comm_Sum_zero. unfold comm_Sum. apply for_range_ext.
  intros r acc _. rewrite hills_partial_gated. reflexivity.
Qed.

Lemma list_mode_gated :
  grid_ self = false ->
  getBiasAndDerivatives args comm_size comm_rank self cv
    (Some (vzero (getNumberOfArguments args)))
  = (0, Some (vzero (getNumberOfArguments args)))
  /\ getBiasAndDerivatives args comm_size comm_rank self cv None = (0, None).
Proof.
  intros Hlist. unfold getBiasAndDerivatives. rewrite Hlist. cbn [negb].
  rewrite !comm_Sum_gated. split; [|reflexivity].
  do 2 f_equal. unfold comm_Sum_vec. rewrite hills_partial_gated. cbn [snd der_buffer].
  apply (for_range_ind (fun _ acc => acc = vzero (getNumberOfArguments args)));
    [reflexivity|].
  intros j acc _ ->.
  rewrite <- (vset_vget_id (vzero (getNumberOfArguments args)) j) at 2.
  f_equal. rewrite vget_vzero, <- comm_Sum_zero. unfold comm_Sum. apply for_range_ext.
  intros r acc _. rewrite hills_partial_gated. cbn [snd der_buffer].
  rewrite vget_vzero. reflexivity.
Qed.

Lemma grid_mode_gated (g : G) (der : list R) :
  grid_ self = true -> BiasGrid_ self = Some g ->
  getBiasAndDerivatives args comm_size comm_rank self cv (Some der)
  = (fst (grid_getValueAndDerivatives g cv), Some der).
Proof.
  intros Hgrid Hg. unfold getBiasAndDerivatives. rewrite Hgrid, Hg. cbn [negb].
  destruct (grid_getValueAndDerivatives g cv) as [bias vder]. rewrite gate_closed.
  reflexivity.
Qed.

End IntervalRestriction.

(** C5 (amended).  With the interval restriction active and the first
    variable outside [[lowI, uppI]]: in list mode the bias value is zero and
    the zeroed derivative buffer comes back zero; in grid mode the derivative
    buffer comes back untouched (zero, as [calculate] passes it), and the
    bias value is the one the grid reports at the query point. *)
Theorem C5_interval_restriction :
  forall (G : Type) (grid_ops : GridLike G) (args : list ArgValue) (P rank : nat)
         (self : MetaD G) (cv : list R),
    doInt_ self = true ->
    vget cv 0 < lowI_ self \/ uppI_ self < vget cv 0 ->
    let zero := vzero (getNumberOfArguments args) in
    (grid_ self = false ->
     getBiasAndDerivatives args P rank self cv (Some zero) = (0, Some zero)
     /\ getBiasAndDerivatives args P rank self cv None = (0, None))
    /\ (forall g, grid_ self = true -> BiasGrid_ self = Some g ->
        getBiasAndDerivatives args P rank self cv (Some zero)
        = (fst (grid_getValueAndDerivatives g cv), Some zero)).
Proof.
  intros G grid_ops args P rank self cv Hint Hout zero.
  assert (interval_gate self cv = false) as Hgate.
  { unfold interval_gate. rewrite Hint. cbn [andb negb]. rewrite orb_false_r.
    destruct Hout as [Hlow|Hupp].
    - rewrite (proj2 (Rgtb_false _ _)) by lra. reflexivity.
    - rewrite (proj2 (Rltb_false _ _)) by lra. apply andb_false_r. }
  split.
  - intros Hlist. apply list_mode_gated; assumption.
  - intros g Hgrid Hg. apply grid_mode_gated; assumption.
Qed.

Lemma C5_interval_restriction_witness :
  getBiasAndDerivatives one_distance 2 0 (interval_bias 0.5 1.5 [unit_hill]) [1.7]
    (Some (vzero (getNumberOfArguments one_distance)))
  = (0, Some (vzero (getNumberOfArguments one_distance))).
Proof.
  refine (proj1 (proj1 (C5_interval_restriction Mesh mesh_grid one_distance 2 0
                          (interval_bias 0.5 1.5 [unit_hill]) [1.7] _ _) _)).
  - reflexivity.
  - right. unfold vget; simpl. lra.
  - reflexivity.
Defined.

(** *** The grid-mode example *)

Lemma Int_part_between (r : R) (z : Z) : IZR z <= r < IZR z + 1 -> Int_part r = z.
Proof. intros H. symmetry. apply Int_part_spec. lra. Qed.

Lemma ceil_unit (x : R) : 0 < x <= 1 -> unsigned_ceil x = 1%nat.
Proof.
  intros H. unfold unsigned_ceil, ceil.
  rewrite (Int_part_between (- x) (-1)); [reflexivity|]. simpl. lra.
Qed.

Lemma sqrt_cutoff_bounds : 3 < sqrt (2.0 * DP2CUTOFF) < 4.
Proof.
  unfold DP2CUTOFF. split.
  - rewrite <- (sqrt_square 3) by lra. apply sqrt_lt_1_alt. lra.
  - rewrite <- (sqrt_square 4) by lra. apply sqrt_lt_1_alt. lra.
Qed.

(** One non-periodic variable, one isotropic hill of invertible width. *)
Lemma evaluate_one_axis {G : Type} (self : MetaD G) (x c s h : R) (der : option (list R)) :
  s > 1e-20 ->
  fst (evaluateGaussian one_distance self [x] (mkGaussian [c] [s] h false) der)
  = if (Rltb (0.5 * Rsqr ((x - c) / s)) DP2CUTOFF && interval_gate self [x])%bool
    then h * exp (- (0.5 * Rsqr ((x - c) / s))) else 0.
Proof.
  intros Hs.
  rewrite evaluateGaussian_isotropic by reflexivity.
  rewrite isotropic_dp2_closed_form.
  2:{ apply one_axis. unfold vget; simpl. rewrite Rabs_pos_eq; lra. }
  unfold Rsum, difference, vget; simpl; unfold plain_difference.
  rewrite Rplus_0_r.
  destruct (Rltb _ _ && _)%bool; reflexivity.
Qed.

Lemma unit_hill_support :
  getGaussianSupport one_distance grid_interval_bias empty_mesh unit_hill = [1%nat].
Proof.
  unfold getGaussianSupport. cbn -[unsigned_ceil sqrt DP2CUTOFF].
  rewrite ceil_unit; [reflexivity|]. unfold vget; cbn -[sqrt DP2CUTOFF].
  pose proof sqrt_cutoff_bounds. lra.
Qed.

Lemma unit_hill_neighbors : mesh_getNeighbors empty_mesh [1.0] [1%nat] = [0; 1; 2]%nat.
Proof.
  unfold mesh_getNeighbors. cbn -[mesh_cell].
  unfold mesh_cell. cbn -[Int_part]. unfold vget; cbn -[Int_part].
  rewrite (Int_part_between _ 1) by (simpl; lra). reflexivity.
Qed.

(** Splatting the unit hill on the empty mesh raises the cell of the mesh
    point [1] to [1]. *)
Lemma unit_hill_splat :
  exists g : Mesh,
    addGaussian one_distance 1 0 grid_interval_bias unit_hill
    = with_BiasGrid grid_interval_bias (Some g)
    /\ mesh_min g = [0] /\ mesh_dx g = [1] /\ mesh_nbin g = [4%nat]
    /\ mesh_value g 1 = 1.
Proof.
  unfold addGaussian. cbn [grid_ grid_interval_bias negb BiasGrid_].
  rewrite unit_hill_support.
  cbn [grid_getNeighbors mesh_grid center unit_hill mkGaussian].
  rewrite unit_hill_neighbors.
  cbn [Nat.eqb]. eexists. split; [reflexivity|].
  unfold for_range. cbn [length seq Nat.sub fold_left nth].
  destruct (evaluateGaussian one_distance grid_interval_bias (grid_getPoint empty_mesh 0)
              unit_hill _) as [b0 d0] eqn:E0.
  change (grid_getPoint (grid_addValueAndDerivatives empty_mesh 0 b0 (der_buffer d0)) 1)
    with (mesh_getPoint empty_mesh 1).
  destruct (evaluateGaussian one_distance grid_interval_bias (mesh_getPoint empty_mesh 1)
              unit_hill _) as [b1 d1] eqn:E1.
  match goal with
  | |- context [grid_getPoint ?g 2] =>
      change (grid_getPoint g 2) with (mesh_getPoint empty_mesh 2)
  end.
  destruct (evaluateGaussian one_distance grid_interval_bias (mesh_getPoint empty_mesh 2)
              unit_hill _) as [b2 d2] eqn:E2.
  repeat (split; [reflexivity|]).
  cbn [grid_addValueAndDerivatives mesh_grid mesh_add mesh_value empty_mesh Nat.eqb].
  apply (f_equal fst) in E0, E1. cbn [fst] in E0, E1. subst b0 b1.
  unfold unit_hill.
  cbn -[evaluateGaussian mkGaussian INR]. simpl INR.
  rewrite !evaluate_one_axis by lra.
  unfold interval_gate, DP2CUTOFF, vget. cbn -[Rltb Rgtb]. unfold Rsqr. decide_R.
  cbn [andb orb].
  replace (0.5 * ((0 + 1 * 1 - 1.0) / 0.2 * ((0 + 1 * 1 - 1.0) / 0.2))) with 0 by lra.
  rewrite Ropp_0, exp_0. lra.
Qed.

(** C5 as worded fails in grid mode: with the restriction to [(0.5, 1.5)]
    and the unit hill splatted at [1], the query [1.7] lies outside the
    interval and in the cell of the mesh point [1]; the bias returned there
    is [1], not [0]. *)
Lemma C5_interval_restriction_counterexample :
  ~ interval_as_described one_distance 1 0
      (addGaussian one_distance 1 0 grid_interval_bias unit_hill) [1.7].
Proof.
  destruct unit_hill_splat as (g & Hadd & Hmin & Hdx & Hnbin & Hval).
  rewrite Hadd. intros H.
  assert (vget [1.7] 0 < lowI_ (with_BiasGrid grid_interval_bias (Some g))
          \/ uppI_ (with_BiasGrid grid_interval_bias (Some g)) < vget [1.7] 0) as Hout
    by (right; unfold vget; simpl; lra).
  specialize (H eq_refl Hout).
  assert (interval_gate (with_BiasGrid grid_interval_bias (Some g)) [1.7] = false) as Hgate.
  { unfold interval_gate, vget. cbn -[Rltb Rgtb]. decide_R. reflexivity. }
  rewrite (grid_mode_gated one_distance 1 0 _ [1.7] Hgate g) in H by reflexivity.
  apply (f_equal fst) in H. cbn [fst grid_getValueAndDerivatives mesh_grid] in H.
  assert (mesh_index g [1.7] = 1%nat) as Hidx.
  { unfold mesh_index, mesh_cell. rewrite Hnbin, Hmin, Hdx. unfold vget.
    cbn -[Int_part]. rewrite (Int_part_between _ 1) by (simpl; lra). reflexivity. }
  rewrite Hidx, Hval in H. lra.
Qed.

(** ** What the accumulators leave alone *)


Lemma same_settings_refl {G : Type} (a : MetaD G) : same_settings a a.
Proof. unfold same_settings. repeat split. Qed.

Lemma same_settings_trans {G : Type} (a b c : MetaD G) :
  same_settings a b -> same_settings b c -> same_settings a c.
Proof.
  unfold same_settings. intros Hab Hbc.
  repeat match goal with H : _ /\ _ |- _ => destruct H end.
  repeat split; congruence.
Qed.

Lemma foldM_invariant {St A : Type} (R : St -> St -> Prop)
    (body : A -> St -> result St) (l : list A) :
  (forall s, R s s) -> (forall a b c, R a b -> R b c -> R a c) ->
  (forall a s s', body a s = Ok s' -> R s s') ->
  forall s s', foldM body l s = Ok s' -> R s s'.
Proof.
  intros Hrefl Htrans Hbody. induction l as [|a l IH]; intros s s' H; simpl in H.
  - inversion H. apply Hrefl.
  - destruct (body a s) as [s1|m] eqn:E; simpl in H; [|discriminate].
    apply (Htrans s s1 s'); [apply (Hbody a); exact E | apply IH; exact H].
Qed.

Arguments scanOneHill : simpl never.
Arguments addGaussian : simpl never.
Arguments evaluateGaussian : simpl never.
Arguments getBiasAndDerivatives : simpl never.
Arguments hill_record : simpl never.
Arguments mkGaussian : simpl never.

Section Preservation.

Context {G : Type} {grid_ops : GridLike G} {matrix_tools : MatrixTools}.
Variable args : list ArgValue.
Variables comm_size comm_rank : nat.

Lemma addGaussian_settings (self : MetaD G) (hill : Gaussian) :
  same_settings self (addGaussian args comm_size comm_rank self hill)
  /\ ifiles (addGaussian args comm_size comm_rank self hill) = ifiles self.
Proof.
  unfold addGaussian.
  destruct (grid_ self); cbn [negb]; [|split; [repeat split | reflexivity]].
  destruct (BiasGrid_ self); [|split; [apply same_settings_refl | reflexivity]].
  destruct (comm_size =? 1)%nat; (split; [repeat split | reflexivity]).
Qed.

Lemma readGaussians_loop_settings (records : list HillRecord) :
  forall (self : MetaD G) (buf : ScanBuffers) (n : nat) (out : MetaD G * nat),
    readGaussians_loop args comm_size comm_rank records self buf n = Ok out ->
    same_settings self (fst out) /\ ifiles (fst out) = ifiles self.
Proof.
  induction records as [|rec rest IH]; intros self buf n out H; simpl in H.
  - inversion H. split; [apply same_settings_refl | reflexivity].
  - destruct (scanOneHill args (Some rec) buf) as [r|m]; cbn [bind] in H; [|discriminate].
    apply IH in H. destruct H as [Hs Hi].
    match type of Hs with same_settings (addGaussian _ _ _ _ ?h) _ =>
      destruct (addGaussian_settings self h) as [Hs0 Hi0] end.
    split; [eapply same_settings_trans; eassumption | congruence].
Qed.

Lemma readGaussians_settings (self : MetaD G) (records : list HillRecord)
    (out : MetaD G * nat) :
  readGaussians args comm_size comm_rank self records = Ok out ->
  same_settings self (fst out) /\ ifiles (fst out) = ifiles self.
Proof. apply readGaussians_loop_settings. Qed.

Lemma read_walkers_settings (self self' : MetaD G) (fs : FileSystem) :
  read_walkers args comm_size comm_rank self fs = Ok self' -> same_settings self self'.
Proof.
  unfold read_walkers, for_rangeM.
  apply foldM_invariant.
  - apply same_settings_refl.
  - apply same_settings_trans.
  - intros i s s' H.
    destruct (Z.of_nat i =? mw_id_ s)%Z; [inversion H; apply same_settings_refl|].
    destruct (negb (if_open (nth i (ifiles s) (mkIFile false 0)))).
    + destruct (fs (nth i (ifilesnames s) ""%string)); inversion H;
        [repeat split | apply same_settings_refl].
    + destruct (readGaussians _ _ _ s _) as [r|m] eqn:E; simpl in H; [|discriminate].
      inversion H. apply readGaussians_settings in E. destruct E as [E _].
      unfold same_settings in *.
      repeat match goal with H : _ /\ _ |- _ => destruct H end.
      repeat split; assumption.
Qed.

End Preservation.

(** ** C2: the well-tempered height *)

(** C2.  In well-tempered mode, at a deposition step, the hill that
    [update] builds has height
    [height0 * exp(-V / (kB * T * (biasf - 1)))] where [V] is
    [getBiasAndDerivatives] evaluated on the state as it is before the
    deposition; that hill is then handed to [addGaussian] and written, and
    only the state so obtained goes on to read the other walkers' files.  In
    list mode the new hill is appended after the hills [V] was summed over;
    in grid mode [V] is the value of the grid the hill has not yet been
    splatted on. *)
Theorem C2_well_tempered_height :
  forall (G : Type) (grid_ops : GridLike G) (matrix_tools : MatrixTools)
         (args : list ArgValue) (P rank : nat) (kB dt : R) (self : MetaD G)
         (step : Z) (argv flexinv : list R) (fs : FileSystem) (now : Z),
    welltemp_ self = true ->
    deposit_now self step = true ->
    let cv := for_range 0 (getNumberOfArguments args) (fun i cv => vset cv i (vget argv i))
                (vzero (getNumberOfArguments args)) in
    let V := fst (getBiasAndDerivatives args P rank self cv None) in
    let hill := mkGaussian cv (if is_adaptive (adaptive_ self) then flexinv else sigma0_ self)
                  (height0_ self * exp (- V / (kB * temp_ self * (biasf_ self - 1.0))))
                  (is_adaptive (adaptive_ self)) in
    let deposited := writeGaussian args dt (addGaussian args P rank self hill) hill step now in
    getHeight args P rank kB self cv = height hill
    /\ update args P rank kB dt self step argv flexinv fs now
       = (if ((mw_n_ self >? 1)%Z && (Z.rem step (mw_rstride_ self) =? 0)%Z)%bool
          then read_walkers args P rank deposited fs
          else Ok deposited)
    /\ (grid_ self = false -> hills_ deposited = hills_ self ++ [hill])
    /\ (forall g, grid_ self = true -> BiasGrid_ self = Some g -> V = grid_getValue g cv).
Proof.
  intros G grid_ops matrix_tools args P rank kB dt self step argv flexinv fs now
    Hwt Hdep cv V hill deposited.
  assert (getHeight args P rank kB self cv = height hill) as Hheight.
  { unfold getHeight. rewrite Hwt. reflexivity. }
  split; [exact Hheight|]. split; [|split].
  - unfold update. rewrite Hdep. fold cv.
    assert (new_hill args P rank kB self cv flexinv = hill) as ->.
    { unfold new_hill. rewrite Hheight. reflexivity. }
    fold deposited.
    destruct (addGaussian_settings args P rank self hill) as [Hs _].
    unfold same_settings in Hs.
    repeat match goal with H : _ /\ _ |- _ => destruct H end.
    replace (mw_n_ deposited) with (mw_n_ self) by (symmetry; assumption).
    replace (mw_rstride_ deposited) with (mw_rstride_ self) by (symmetry; assumption).
    reflexivity.
  - intros Hlist. unfold deposited, writeGaussian, with_hillsOfile. cbn [hills_].
    unfold addGaussian. rewrite Hlist. reflexivity.
  - intros g Hgrid Hg. unfold V, getBiasAndDerivatives. rewrite Hgrid, Hg. reflexivity.
Qed.

Lemma C2_well_tempered_height_witness :
  getHeight one_distance 1 0 1 welltemp_example
    (for_range 0 (getNumberOfArguments one_distance) (fun i cv => vset cv i (vget [1.1] i))
       (vzero (getNumberOfArguments one_distance)))
  = 0.3 * exp (- fst (getBiasAndDerivatives one_distance 1 0 welltemp_example
                        (for_range 0 (getNumberOfArguments one_distance)
                           (fun i cv => vset cv i (vget [1.1] i))
                           (vzero (getNumberOfArguments one_distance))) None)
                 / (1 * 300 * (10 - 1.0))).
Proof.
  refine (proj1 (C2_well_tempered_height Mesh mesh_grid small_matrix_tools one_distance
                   1 0 1 1 welltemp_example 500 [1.1] [] no_files 0 _ _)).
  - reflexivity.
  - reflexivity.
Defined.

(** ** The steps of [update] *)

(** Take apart a successful run of binds. *)
Ltac bind_ok H :=
  repeat match type of H with
  | bind ?c _ = Ok _ =>
      let E := fresh "E" in
      destruct c eqn:E; cbn [bind] in H; [|discriminate H]
  end.

Section UpdateSteps.

Context {G : Type} {grid_ops : GridLike G} {matrix_tools : MatrixTools}.
Variable args : list ArgValue.
Variables comm_size comm_rank : nat.
Variables kBoltzmann timeStep : R.

Lemma MetaD_new_first_step (ao : ActionOptions) (restart : bool) (fs : FileSystem)
    (self : MetaD G) :
  MetaD_new args comm_size comm_rank ao restart fs = Ok self -> isFirstStep self = true.
Proof.
  unfold MetaD_new. intros H. bind_ok H.
  match type of H with context [let '(_, _) := ?p in _] => destruct p as [doInt spline] end.
  unfold for_rangeM in H.
  apply (foldM_invariant (fun a b : MetaD G => isFirstStep b = isFirstStep a)) in H.
  - exact H.
  - reflexivity.
  - intros x y z Hab Hbc. congruence.
  - intros i s s' Hbody.
    destruct (fs _) as [content|]; [|inversion Hbody; reflexivity].
    destruct restart; bind_ok Hbody; inversion Hbody; cbn [isFirstStep fst].
    + match goal with Hr : readGaussians _ _ _ _ _ = Ok _ |- _ =>
        apply readGaussians_settings in Hr; destruct Hr as [Hr _];
        unfold same_settings in Hr; intuition
      end.
    + match goal with Hr : Ok _ = Ok _ |- _ => inversion Hr; reflexivity end.
Qed.


Lemma update_unfold (self : MetaD G) (step : Z) (argv flexinv : list R)
    (fs : FileSystem) (now : Z) :
  update args comm_size comm_rank kBoltzmann timeStep self step argv flexinv fs now
  = if ((mw_n_ self >? 1)%Z && (Z.rem step (mw_rstride_ self) =? 0)%Z)%bool
    then read_walkers args comm_size comm_rank (after_deposit args comm_size comm_rank kBoltzmann timeStep self step argv flexinv now) fs
    else Ok (after_deposit args comm_size comm_rank kBoltzmann timeStep self step argv flexinv now).
Proof.
  unfold update, after_deposit.
  destruct (deposit_now self step); [|reflexivity].
  match goal with |- context [addGaussian _ _ _ self ?h] =>
    destruct (addGaussian_settings args comm_size comm_rank self h) as [Hs _] end.
  unfold same_settings in Hs.
  repeat match goal with H : _ /\ _ |- _ => destruct H end.
  unfold writeGaussian, with_hillsOfile. cbn [mw_n_ mw_rstride_].
  repeat match goal with H : mw_n_ _ = _ |- _ => rewrite H end.
  repeat match goal with H : mw_rstride_ _ = _ |- _ => rewrite H end.
  reflexivity.
Qed.

Lemma after_deposit_records (self : MetaD G) (step : Z) (argv flexinv : list R) (now : Z) :
  isFirstStep (after_deposit args comm_size comm_rank kBoltzmann timeStep self step argv flexinv now) = false
  /\ (deposit_now self step = false ->
      hillsOfile_ (after_deposit args comm_size comm_rank kBoltzmann timeStep self step argv flexinv now) = hillsOfile_ self
      /\ hills_ (after_deposit args comm_size comm_rank kBoltzmann timeStep self step argv flexinv now) = hills_ self
      /\ BiasGrid_ (after_deposit args comm_size comm_rank kBoltzmann timeStep self step argv flexinv now) = BiasGrid_ self)
  /\ (deposit_now self step = true ->
      exists rec,
        hillsOfile_ (after_deposit args comm_size comm_rank kBoltzmann timeStep self step argv flexinv now) = hillsOfile_ self ++ [rec]).
Proof.
  unfold after_deposit. destruct (deposit_now self step) eqn:Hd.
  - match goal with |- context [addGaussian _ _ _ self ?h] =>
      destruct (addGaussian_settings args comm_size comm_rank self h) as [Hs _] end.
    unfold same_settings in Hs.
    repeat match goal with H : _ /\ _ |- _ => destruct H end.
    unfold writeGaussian, with_hillsOfile. cbn [isFirstStep hillsOfile_].
    split; [|split].
    + unfold deposit_now in Hd. apply andb_true_iff in Hd. destruct Hd as [_ Hd].
      destruct (isFirstStep self); [discriminate | congruence].
    + discriminate.
    + intros _. eexists. f_equal. assumption.
  - split; [reflexivity|]. split; [intros _; repeat split | discriminate].
Qed.

End UpdateSteps.

(** ** C3: heights on disk *)

Lemma for_range_append {A : Type} (f : nat -> A) (n : nat) :
  for_range 0 n (fun i out => out ++ [f i]) [] = map f (seq 0 n).
Proof.
  apply (for_range_ind (fun k acc => acc = map f (seq 0 k))); [reflexivity|].
  intros i acc _ ->. rewrite seq_S, map_app. reflexivity.
Qed.

Lemma foldM_total {St A : Type} (body : A -> St -> result St) (l : list A) (s : St) :
  (forall a s0, In a l -> exists s1, body a s0 = Ok s1) ->
  exists s', foldM body l s = Ok s'.
Proof.
  revert s; induction l as [|a l IH]; intros s H; simpl.
  - eexists. reflexivity.
  - destruct (H a s (or_introl eq_refl)) as [s1 E]. rewrite E. cbn [bind].
    apply IH. intros b s0 Hb. apply H. right. exact Hb.
Qed.

Section HillsFile.

Context {G : Type} {grid_ops : GridLike G} {matrix_tools : MatrixTools}.
Variable args : list ArgValue.
Variables comm_size comm_rank : nat.
Variable timeStep : R.


Lemma hill_record_fields (self : MetaD G) (hill : Gaussian) (step now : Z) :
  let rec := hill_record args timeStep self hill step now in
  f_height rec = written_height self (height hill)
  /\ f_multivariate rec = (if multivariate hill then "true" else "false")%string
  /\ f_args rec = map (fun i => (arg_domain (getPntrToArgument args i), vget (center hill) i))
                    (seq 0 (getNumberOfArguments args))
  /\ f_biasf rec = biasf_ self.
Proof.
  unfold hill_record, written_height.
  rewrite (for_range_append
             (fun i => (arg_domain (getPntrToArgument args i), vget (center hill) i))).
  destruct (multivariate hill); cbn [f_height f_multivariate f_args f_biasf];
    repeat split; reflexivity.
Qed.

Lemma scanOneHill_height (rec : HillRecord) (buf : ScanBuffers) (r : bool * ScanBuffers) :
  scanOneHill args (Some rec) buf = Ok r ->
  fst r = true /\ sb_height (snd r) = f_height rec.
Proof.
  unfold scanOneHill. intros H. bind_ok H. inversion H. split; reflexivity.
Qed.

(** A record is accepted when each of its variables either carries no
    periodicity fields or carries those of the run's variable, and its
    shape flag is one of the two literals. *)
Lemma scanOneHill_accepts (rec : HillRecord) (buf : ScanBuffers) :
  (forall i, (i < getNumberOfArguments args)%nat ->
     fst (nth i (f_args rec) (NotPeriodic, 0)) = NotPeriodic
     \/ fst (nth i (f_args rec) (NotPeriodic, 0)) = arg_domain (getPntrToArgument args i)) ->
  f_multivariate rec = "true"%string \/ f_multivariate rec = "false"%string ->
  exists buf',
    scanOneHill args (Some rec) buf = Ok (true, buf')
    /\ sb_height buf' = f_height rec
    /\ sb_multivariate buf' = String.eqb (f_multivariate rec) "true".
Proof.
  intros Hdom Hflag. unfold scanOneHill.
  match goal with |- context [for_rangeM 0 ?n ?body ?s] =>
    destruct (foldM_total body (seq 0 (n - 0)) s) as [c Hc] end.
  { intros i s0 Hi. apply in_seq in Hi.
    destruct (Hdom i ltac:(lia)) as [-> | ->]; [cbn; eexists; reflexivity|].
    destruct (arg_domain (getPntrToArgument args i)) as [|lo hi]; cbn.
    - eexists. reflexivity.
    - rewrite !String.eqb_refl. cbn. eexists. reflexivity. }
  unfold for_rangeM. rewrite Hc. cbn [bind].
  destruct Hflag as [-> | ->]; cbn [String.eqb Ascii.eqb Bool.eqb bind];
    eexists; (split; [reflexivity|]); split; reflexivity.
Qed.

Lemma readGaussians_loop_step (rec : HillRecord) (rest : list HillRecord)
    (self : MetaD G) (buf : ScanBuffers) (n : nat) (out : MetaD G * nat) :
  readGaussians_loop args comm_size comm_rank (rec :: rest) self buf n = Ok out ->
  exists c s m,
    readGaussians_loop args comm_size comm_rank rest
      (addGaussian args comm_size comm_rank self
         (mkGaussian c s (replayed_height self (f_height rec)) m))
      (mkScan c s (replayed_height self (f_height rec)) m) (S n)
    = Ok out.
Proof.
  intros H. cbn [readGaussians_loop] in H.
  destruct (scanOneHill args (Some rec) buf) as [r|msg] eqn:E; cbn [bind] in H;
    [|discriminate].
  apply scanOneHill_height in E. destruct E as [_ E]. rewrite E in H.
  exists (sb_center (snd r)), (sb_sigma (snd r)), (sb_multivariate (snd r)). exact H.
Qed.

Lemma MetaD_new_welltemp (ao : ActionOptions) (restart : bool) (fs : FileSystem)
    (self : MetaD G) :
  MetaD_new args comm_size comm_rank ao restart fs = Ok self ->
  welltemp_ self = true -> 1 < biasf_ self.
Proof.
  unfold MetaD_new. intros H. bind_ok H.
  match type of H with context [let '(_, _) := ?p in _] => destruct p as [doInt spline] end.
  unfold for_rangeM in H.
  apply (foldM_invariant
           (fun a b : MetaD G => welltemp_ b = welltemp_ a /\ biasf_ b = biasf_ a)) in H.
  - cbn [welltemp_ biasf_] in H. destruct H as [-> ->]. intros Hw. subst.
    match goal with
    | Hwt : (if Rgtb ?b 1.0 then _ else _) = Ok true |- _ =>
        destruct (Rgtb b 1.0) eqn:Hb; [|discriminate Hwt];
        apply Rgtb_true in Hb; lra
    end.
  - intros s. split; reflexivity.
  - intros x y z [? ?] [? ?]. split; congruence.
  - intros i s s' Hbody.
    destruct (fs _) as [content|]; [|inversion Hbody; split; reflexivity].
    destruct restart; bind_ok Hbody; inversion Hbody; cbn [welltemp_ biasf_ fst].
    + match goal with Hr : readGaussians _ _ _ _ _ = Ok _ |- _ =>
        apply readGaussians_settings in Hr; destruct Hr as [Hr _];
        unfold same_settings in Hr; intuition
      end.
    + match goal with Hr : Ok _ = Ok _ |- _ => inversion Hr; split; reflexivity end.
Qed.

End HillsFile.

(** C3 (amended).  [writeGaussian] appends one record to the hills file and
    leaves the hills in memory alone; the height field of the record is the
    hill's height times [biasf/(biasf-1)] in well-tempered mode and the
    height itself otherwise.  Every record replayed by [readGaussians] (at
    restart and when another walker's file is read) adds a hill whose
    height is the recorded one times [(biasf-1)/biasf] in well-tempered
    mode and the recorded one otherwise.  So a record that is read with the
    fields it was written with adds a hill of height
    [h * (biasf/(biasf-1)) * ((biasf-1)/biasf)]: each factor once.  The
    two factors are inverse to each other, as well-tempered mode implies
    [biasf > 1]; the product is [h] in exact arithmetic, and [h] up to
    rounding in binary64. *)
Theorem C3_height_scaling_round_trip :
  forall (G : Type) (grid_ops : GridLike G) (matrix_tools : MatrixTools)
         (args : list ArgValue) (P rank : nat) (dt : R) (self : MetaD G)
         (hill : Gaussian) (step now : Z),
    let written := hill_record args dt self hill step now in
    hillsOfile_ (writeGaussian args dt self hill step now) = hillsOfile_ self ++ [written]
    /\ hills_ (writeGaussian args dt self hill step now) = hills_ self
    /\ f_height written
       = (if welltemp_ self then height hill * (biasf_ self / (biasf_ self - 1.0))
          else height hill)
    /\ (forall r rest buf n out,
          readGaussians_loop args P rank (r :: rest) self buf n = Ok out ->
          exists c s m,
            let h := if welltemp_ self
                     then f_height r * ((biasf_ self - 1.0) / biasf_ self)
                     else f_height r in
            readGaussians_loop args P rank rest
              (addGaussian args P rank self (mkGaussian c s h m)) (mkScan c s h m) (S n)
            = Ok out)
    /\ (forall r,
          f_args r = f_args written -> f_multivariate r = f_multivariate written ->
          f_height r = f_height written ->
          exists hill',
            readGaussians args P rank self [r] = Ok (addGaussian args P rank self hill', 1%nat)
            /\ height hill'
               = (if welltemp_ self
                  then height hill * (biasf_ self / (biasf_ self - 1.0))
                       * ((biasf_ self - 1.0) / biasf_ self)
                  else height hill)
            /\ multivariate hill' = multivariate hill)
    /\ (forall ao restart fs s0,
          MetaD_new args P rank ao restart fs = Ok s0 ->
          welltemp_ s0 = true -> 1 < biasf_ s0).
Proof.
  intros G grid_ops matrix_tools args P rank dt self hill step now written.
  destruct (hill_record_fields args dt self hill step now)
    as (Hheight & Hflag & Hargs & _).
  fold written in Hheight, Hflag, Hargs.
  split; [reflexivity|]. split; [reflexivity|]. split; [exact Hheight|].
  split; [|split].
  - intros r rest buf n out H. apply readGaussians_loop_step in H. exact H.
  - intros r Hra Hrm Hrh. unfold readGaussians.
    destruct (scanOneHill_accepts args r
                (mkScan (vzero (getNumberOfArguments args))
                   (vzero (getNumberOfArguments args)) 0 false))
      as (buf' & Hscan & Hh & Hm).
    + intros i Hi. right. rewrite Hra, Hargs.
      rewrite (nth_indep _ _ (arg_domain (getPntrToArgument args 0), vget (center hill) 0))
        by (rewrite length_map, length_seq; exact Hi).
      rewrite (map_nth (fun i => (arg_domain (getPntrToArgument args i), vget (center hill) i))).
      rewrite seq_nth by exact Hi. reflexivity.
    + rewrite Hrm, Hflag. destruct (multivariate hill); [left | right]; reflexivity.
    + cbn [readGaussians_loop]. rewrite Hscan. cbn [bind snd].
      eexists. split; [reflexivity|]. split.
      * unfold mkGaussian. cbn [height]. rewrite Hh, Hrh, Hheight. unfold written_height.
        destruct (welltemp_ self); reflexivity.
      * unfold mkGaussian. cbn [multivariate]. rewrite Hm, Hrm, Hflag.
        destruct (multivariate hill); reflexivity.
  - intros ao restart fs s0. apply MetaD_new_welltemp.
Qed.

Lemma C3_height_scaling_round_trip_witness :
  exists hill',
    readGaussians one_distance 1 0 welltemp_example
      [hill_record one_distance 1 welltemp_example (mkGaussian [1.1] [0.2] 0.25 false) 500 0]
    = Ok (addGaussian one_distance 1 0 welltemp_example hill', 1%nat)
    /\ height hill' = 0.25 * (10 / (10 - 1.0)) * ((10 - 1.0) / 10)
    /\ multivariate hill' = false.
Proof.
  apply (proj1 (proj2 (proj2 (proj2 (proj2
           (C3_height_scaling_round_trip Mesh mesh_grid small_matrix_tools
              one_distance 1 0 1 welltemp_example
              (mkGaussian [1.1] [0.2] 0.25 false) 500 0)))))); reflexivity.
Defined.

(** The round trip of a height of [0.7] with [BIASFACTOR=10] in binary64:
    [0.77777777777777779] on disk and [0.70000000000000007] back, the
    [double] next above [0.7]. *)
Lemma binary64_round_trip_of_seven_tenths :
  Binary64.replayed_height true Binary64.ten
    (Binary64.written_height true Binary64.ten Binary64.seven_tenths)
  = PrimFloat.next_up Binary64.seven_tenths.
Proof. vm_compute. reflexivity. Qed.

(** C3 as worded fails in binary64: the round trip is not exact.  With
    [BIASFACTOR=10] a height of [0.7] is read back one unit in the last
    place above [0.7]. *)
Lemma C3_height_scaling_round_trip_counterexample :
  ~ Binary64.round_trip_as_described.
Proof.
  intros H.
  specialize (H Binary64.ten Binary64.seven_tenths eq_refl).
  rewrite binary64_round_trip_of_seven_tenths in H.
  apply (f_equal (fun x => PrimFloat.eqb x Binary64.seven_tenths)) in H.
  vm_compute in H. discriminate H.
Qed.

(** ** C8: reading one hill record *)

Lemma foldM_fatal_at {St A : Type} (body : A -> St -> result St) (a : A) (l : list A) :
  In a l -> (forall s, is_fatal (body a s) = true) ->
  forall s, is_fatal (foldM body l s) = true.
Proof.
  intros Hin Hbad. induction l as [|x l IH]; intros s; [contradiction|].
  simpl. destruct Hin as [-> | Hin].
  - specialize (Hbad s). destruct (body a s); [discriminate | reflexivity].
  - destruct (body x s); [apply IH; exact Hin | reflexivity].
Qed.

Section ScanOneHill.

Context {matrix_tools : MatrixTools}.
Variable args : list ArgValue.

Lemma scanOneHill_rejects_periodicity (rec : HillRecord) (buf : ScanBuffers) (i : nat)
    (lo hi : string) :
  (i < getNumberOfArguments args)%nat ->
  fst (nth i (f_args rec) (NotPeriodic, 0)) = Periodic lo hi ->
  arg_domain (getPntrToArgument args i) <> Periodic lo hi ->
  is_fatal (scanOneHill args (Some rec) buf) = true.
Proof.
  intros Hi Hrec Hrun. unfold scanOneHill.
  match goal with |- context [for_rangeM 0 ?n ?body ?s] =>
    assert (forall s0, is_fatal (body i s0) = true) as Hbody;
      [|pose proof (foldM_fatal_at body i (seq 0 (n - 0)) ltac:(apply in_seq; lia) Hbody s)
          as Hloop;
        unfold for_rangeM; destruct (foldM body (seq 0 (n - 0)) s);
        [discriminate Hloop | reflexivity]]
  end.
  intros s0. rewrite Hrec. cbn [isPeriodic fst getDomain andb].
  destruct (arg_domain (getPntrToArgument args i)) as [|lo' hi'] eqn:Hd;
    cbn [isPeriodic negb getDomain]; [reflexivity|].
  destruct (String.eqb lo lo') eqn:E1; destruct (String.eqb hi hi') eqn:E2;
    cbn [negb orb error_if bind is_fatal]; try reflexivity.
  apply String.eqb_eq in E1, E2. subst. contradiction.
Qed.

Lemma scanOneHill_rejects_flag (rec : HillRecord) (buf : ScanBuffers) :
  f_multivariate rec <> "true"%string -> f_multivariate rec <> "false"%string ->
  is_fatal (scanOneHill args (Some rec) buf) = true.
Proof.
  intros Ht Hf. unfold scanOneHill.
  match goal with |- context [for_rangeM ?a ?n ?body ?s] =>
    destruct (for_rangeM a n body s); cbn [bind]; [|reflexivity]
  end.
  apply String.eqb_neq in Ht, Hf. rewrite Ht, Hf. reflexivity.
Qed.

Lemma scanOneHill_ignores_clock (rec : HillRecord) (buf : ScanBuffers) (clock : option Z) :
  scanOneHill args (Some (with_clock rec clock)) buf = scanOneHill args (Some rec) buf.
Proof. reflexivity. Qed.

End ScanOneHill.

(** C8 (amended).  [scanOneHill] raises a fatal error when the record
    declares a variable periodic and the run's variable is not periodic or
    has other domain bounds, and when the multivariate field is any string
    other than ["true"] or ["false"]; a clock field, present or absent,
    changes nothing in the outcome.  A record that declares its variables
    non-periodic (or with the run's own bounds) and has a literal flag is
    accepted, whatever the periodicity of the run's variables. *)
Theorem C8_scan_errors :
  forall (matrix_tools : MatrixTools) (args : list ArgValue) (rec : HillRecord)
         (buf : ScanBuffers),
    (forall i lo hi,
       (i < getNumberOfArguments args)%nat ->
       fst (nth i (f_args rec) (NotPeriodic, 0)) = Periodic lo hi ->
       arg_domain (getPntrToArgument args i) <> Periodic lo hi ->
       is_fatal (scanOneHill args (Some rec) buf) = true)
    /\ (f_multivariate rec <> "true"%string -> f_multivariate rec <> "false"%string ->
        is_fatal (scanOneHill args (Some rec) buf) = true)
    /\ (forall clock,
          scanOneHill args (Some (with_clock rec clock)) buf
          = scanOneHill args (Some rec) buf)
    /\ ((forall i, (i < getNumberOfArguments args)%nat ->
           fst (nth i (f_args rec) (NotPeriodic, 0)) = NotPeriodic
           \/ fst (nth i (f_args rec) (NotPeriodic, 0))
              = arg_domain (getPntrToArgument args i)) ->
        f_multivariate rec = "true"%string \/ f_multivariate rec = "false"%string ->
        exists buf', scanOneHill args (Some rec) buf = Ok (true, buf')).
Proof.
  intros matrix_tools args rec buf. split; [|split; [|split]].
  - intros i lo hi. apply scanOneHill_rejects_periodicity.
  - apply scanOneHill_rejects_flag.
  - intros clock. apply scanOneHill_ignores_clock.
  - intros Hdom Hflag.
    destruct (scanOneHill_accepts args rec buf Hdom Hflag) as (buf' & H & _).
    exists buf'. exact H.
Qed.

Lemma C8_scan_errors_witness :
  is_fatal (scanOneHill one_distance
              (Some (mkRecord 1 [(Periodic "-1" "1", 0.5)] "false" [0.2] 0.3 1 None))
              (mkScan [0] [0] 0 false))
  = true.
Proof.
  apply (proj1 (C8_scan_errors small_matrix_tools one_distance
                  (mkRecord 1 [(Periodic "-1" "1", 0.5)] "false" [0.2] 0.3 1 None)
                  (mkScan [0] [0] 0 false)) 0%nat "-1"%string "1"%string).
  - simpl. lia.
  - reflexivity.
  - simpl. discriminate.
Defined.

(** C8 as worded fails: the run's variable is periodic on [[-1, 1]], the
    record carries no periodicity for it, and the record is read without
    error. *)
Lemma C8_scan_errors_counterexample :
  ~ periodicity_as_described one_torsion plain_record (mkScan [0] [0] 0 false).
Proof.
  intros H.
  destruct (scanOneHill_accepts one_torsion plain_record (mkScan [0] [0] 0 false))
    as (buf' & Hok & _).
  - intros i Hi. left. simpl in Hi. assert (i = O) by lia. subst. reflexivity.
  - right. reflexivity.
  - unfold periodicity_as_described in H. rewrite Hok in H.
    assert (is_fatal (Ok (true, buf')) = true) as Hbad; [|discriminate Hbad].
    apply H. exists O. split; [simpl; lia|]. simpl. discriminate.
Qed.

(** ** C7: what the constructor rejects *)

(** One step through a run of binds towards a fatal outcome: the head
    either is fatal already or has returned. *)
Ltac fatal_step :=
  match goal with
  | |- is_fatal (bind ?c _) = true =>
      let E := fresh "E" in
      destruct c eqn:E; cbn [bind is_fatal]; [|reflexivity]
  end.

Lemma error_if_ok (cond : bool) (msg : string) (u : unit) :
  error_if cond msg = Ok u -> cond = false.
Proof. destruct cond; [discriminate | reflexivity]. Qed.

Section Constructor.

Context {G : Type} {grid_ops : GridLike G} {matrix_tools : MatrixTools}.
Variable args : list ArgValue.
Variables comm_size comm_rank : nat.
Variable ao : ActionOptions.
Variable restart : bool.
Variable fs : FileSystem.

Let rejected : Prop :=
  is_fatal (MetaD_new (G := G) args comm_size comm_rank ao restart fs) = true.

Lemma rejects_unknown_adaptive :
  ADAPTIVE ao <> None -> ADAPTIVE ao <> Some "GEOM"%string ->
  ADAPTIVE ao <> Some "DIFF"%string -> ADAPTIVE ao <> Some "NONE"%string ->
  rejected.
Proof.
  unfold rejected, MetaD_new. intros H0 H1 H2 H3.
  destruct (ADAPTIVE ao) as [a|]; [|contradiction]. cbn [parse].
  fatal_step.
  destruct (String.eqb a "GEOM") eqn:E1; [apply String.eqb_eq in E1; congruence|].
  destruct (String.eqb a "DIFF") eqn:E2; [apply String.eqb_eq in E2; congruence|].
  destruct (String.eqb a "NONE") eqn:E3; [apply String.eqb_eq in E3; congruence|].
  discriminate.
Qed.


Lemma scheme_parsed (a : AdaptiveKind) :
  (if String.eqb (parse (ADAPTIVE ao) "NONE"%string) "GEOM" then Ok adaptive_geometry
   else if String.eqb (parse (ADAPTIVE ao) "NONE"%string) "DIFF" then Ok adaptive_diffusion
   else if String.eqb (parse (ADAPTIVE ao) "NONE"%string) "NONE" then Ok adaptive_none
   else Fatal "I do not know this type of adaptive scheme"%string) = Ok a ->
  a = selected_scheme ao.
Proof.
  unfold selected_scheme.
  destruct (String.eqb (parse (ADAPTIVE ao) "NONE"%string) "GEOM"); [congruence|].
  destruct (String.eqb (parse (ADAPTIVE ao) "NONE"%string) "DIFF"); [congruence|].
  destruct (String.eqb (parse (ADAPTIVE ao) "NONE"%string) "NONE"); [congruence|].
  discriminate.
Qed.

Lemma rejects_sigma_count :
  is_adaptive (selected_scheme ao) = false ->
  length (SIGMA ao) <> getNumberOfArguments args -> rejected.
Proof.
  unfold rejected, MetaD_new. intros Hn Hlen.
  fatal_step. apply scheme_parsed in E. subst. rewrite Hn. cbn [negb].
  fatal_step. apply error_if_ok in E. apply negb_false_iff, Nat.eqb_eq in E. contradiction.
Qed.

Lemma rejects_adaptive_sigma_count :
  is_adaptive (selected_scheme ao) = true -> length (SIGMA ao) <> 1%nat -> rejected.
Proof.
  unfold rejected, MetaD_new. intros Hn Hlen.
  fatal_step. apply scheme_parsed in E. subst. rewrite Hn. cbn [negb].
  fatal_step. apply error_if_ok in E. apply negb_false_iff, Nat.eqb_eq in E. contradiction.
Qed.

Lemma rejects_height : parse (HEIGHT ao) 0.0 <= 0 -> rejected.
Proof.
  unfold rejected, MetaD_new. intros Hh.
  do 3 fatal_step. apply error_if_ok in E1. apply Rleb_false in E1. lra.
Qed.

Lemma rejects_pace : (parse (PACE ao) 0 <= 0)%Z -> rejected.
Proof.
  unfold rejected, MetaD_new. intros Hp.
  do 4 fatal_step. apply error_if_ok in E2. apply Z.leb_gt in E2. lia.
Qed.

Lemma rejects_biasfactor_below_one : parse (BIASFACTOR ao) 1.0 < 1 -> rejected.
Proof.
  unfold rejected, MetaD_new. intros Hb.
  do 5 fatal_step. apply error_if_ok in E3. apply Rltb_false in E3. lra.
Qed.

Lemma rejects_missing_temperature :
  1 < parse (BIASFACTOR ao) 1.0 -> parse (TEMP ao) 0.0 = 0 -> rejected.
Proof.
  unfold rejected, MetaD_new. intros Hb Ht.
  do 6 fatal_step.
  rewrite (proj2 (Rgtb_true _ _)) in E4 by lra.
  rewrite (proj2 (Reqb_true _ _)) in E4 by lra. discriminate.
Qed.

(** The interval checks come after the grid and walker checks; whatever
    those say, an interval with a [SIGMA] count other than one, or with
    its bounds in the wrong order, does not get through. *)
Lemma rejects_interval :
  parse (UPPER_INTERVAL ao) (-1) <> parse (LOWER_INTERVAL ao) (-1) ->
  length (SIGMA ao) <> 1%nat
  \/ parse (UPPER_INTERVAL ao) (-1) < parse (LOWER_INTERVAL ao) (-1) ->
  rejected.
Proof.
  unfold rejected, MetaD_new. intros Hne Hbad.
  do 13 fatal_step.
  rewrite (proj2 (Reqb_false _ _) Hne). cbn [negb].
  fatal_step. bind_ok E12.
  apply error_if_ok in E13, E14.
  apply negb_false_iff, Nat.eqb_eq in E13. apply Rltb_false in E14.
  destruct Hbad; [contradiction | lra].
Qed.

End Constructor.

(** C7 (the code at the failing input).  The constructor is given two
    variables, [ADAPTIVE=GEOM] with its single [SIGMA], and an interval
    [[0, 1]]: the interval restriction is requested with more than one
    variable.  The test made is on the number of [SIGMA] values, which is
    one, so nothing is rejected: the action is built with the restriction
    switched on. *)
Theorem C7_interval_with_two_variables_accepted :
  exists self : MetaD Mesh,
    MetaD_new two_distances 1 0 adaptive_interval_options false no_files = Ok self
    /\ getNumberOfArguments two_distances = 2%nat
    /\ adaptive_ self = adaptive_geometry
    /\ doInt_ self = true /\ lowI_ self = 0 /\ uppI_ self = 1.
Proof.
  eexists. split.
  - unfold MetaD_new, adaptive_interval_options, two_distances, no_files.
    cbn -[Rltb Rleb Reqb Rgtb]. decide_R. cbn. reflexivity.
  - repeat split.
Qed.

(** ** C6: the support of a hill on the grid *)

Lemma ceil_above (x : R) : x <= IZR (ceil x).
Proof.
  unfold ceil. rewrite opp_IZR.
  destruct (base_Int_part (- x)) as [H _]. lra.
Qed.

Lemma unsigned_ceil_above (x : R) : 0 <= x -> x <= INR (unsigned_ceil x).
Proof.
  intros Hx. unfold unsigned_ceil.
  pose proof (ceil_above x) as Hc.
  assert (0 <= ceil x)%Z as Hz.
  { apply le_IZR. lra. }
  rewrite INR_IZR_INZ, Z2Nat.id by exact Hz. exact Hc.
Qed.



Section Support.

Context {G : Type} {grid_ops : GridLike G} {matrix_tools : MatrixTools}.
Variable args : list ArgValue.
Variable self : MetaD G.
Variable g : G.

Lemma support_isotropic (hill : Gaussian) :
  multivariate hill = false ->
  getGaussianSupport args self g hill
  = map (fun i => unsigned_ceil (sqrt (2.0 * DP2CUTOFF) * vget (sigma hill) i
                                 / vget (grid_getDx g) i))
      (seq 0 (getNumberOfArguments args)).
Proof.
  intros Hm. unfold getGaussianSupport. rewrite Hm. apply for_range_append.
Qed.

Lemma support_multivariate (hill : Gaussian) :
  multivariate hill = true ->
  let ncv := getNumberOfArguments args in
  let eig := diagMat ncv (Invert ncv (recompose ncv (sigma hill))) in
  let top := for_range 0 ncv
               (fun i '(mx, ind) =>
                  if Rgtb (vget (fst eig) i) mx then (vget (fst eig) i, i) else (mx, ind))
               (0, ncv) in
  getGaussianSupport args self g hill
  = map (fun i => unsigned_ceil (sqrt (2.0 * DP2CUTOFF)
                                 * Rabs (sqrt (fst top) * snd eig i (snd top))
                                 / vget (grid_getDx g) i))
      (seq 0 ncv).
Proof.
  intros Hm ncv eig top. unfold getGaussianSupport. rewrite Hm.
  fold ncv. fold eig. destruct eig as [vals vecs] eqn:Heig. cbn [fst snd] in top.
  fold top. destruct top as [mx ind]. cbn [fst snd]. apply for_range_append.
Qed.


End Support.

(** *** Splatting a hill on the grid *)

Lemma for_range_nth {St : Type} (F : nat -> St -> St) (l : list nat) (s : St) :
  for_range 0 (length l) (fun i acc => F (nth i l O) acc) s
  = fold_left (fun acc x => F x acc) l s.
Proof.
  unfold for_range. rewrite Nat.sub_0_r.
  rewrite <- (map_nth_seq l O) at 2. rewrite fold_left_over_map. reflexivity.
Qed.

Lemma vget_vslice (v : list R) (off n j : nat) :
  (j < n)%nat -> vget (vslice v off n) j = vget v (off + j).
Proof.
  intros Hj. unfold vget, vslice.
  rewrite nth_firstn. apply Nat.ltb_lt in Hj. rewrite Hj. apply nth_skipn.
Qed.

Lemma length_vslice (v : list R) (off n : nat) :
  (off + n <= length v)%nat -> length (vslice v off n) = n.
Proof.
  intros H. unfold vslice. rewrite length_firstn, length_skipn. lia.
Qed.

Lemma vblit_spec (v d : list R) (off : nat) :
  length (vblit v off d) = length v
  /\ forall k, vget (vblit v off d) k
               = if ((off <=? k)%nat && (k <? off + length d)%nat && (k <? length v)%nat)%bool
                 then vget d (k - off) else vget v k.
Proof.
  unfold vblit.
  apply (for_range_ind
           (fun m acc => length acc = length v
                         /\ forall k, vget acc k
                              = if ((off <=? k)%nat && (k <? off + m)%nat
                                    && (k <? length v)%nat)%bool
                                then vget d (k - off) else vget v k)).
  - split; [reflexivity|]. intros k.
    replace ((off <=? k)%nat && (k <? off + 0)%nat)%bool with false; [reflexivity|].
    destruct (off <=? k)%nat eqn:E1; destruct (k <? off + 0)%nat eqn:E2; try reflexivity.
    apply Nat.leb_le in E1. apply Nat.ltb_lt in E2. lia.
  - intros j acc Hj [Hlen Hget]. split; [rewrite length_vset; exact Hlen|].
    intros k. rewrite vget_vset, Hlen, Hget.
    destruct (Nat.eq_dec k (off + j)) as [->|Hne].
    + rewrite Nat.eqb_refl. cbn [andb].
      replace (off <=? off + j)%nat with true by (symmetry; apply Nat.leb_le; lia).
      replace (off + j <? off + S j)%nat with true by (symmetry; apply Nat.ltb_lt; lia).
      replace (off + j <? off + j)%nat with false by (symmetry; apply Nat.ltb_irrefl).
      cbn [andb]. replace (off + j - off)%nat with j by lia.
      destruct (off + j <? length v)%nat; reflexivity.
    + replace (k =? off + j)%nat with false by (symmetry; apply Nat.eqb_neq; exact Hne).
      cbn [andb].
      replace (k <? off + S j)%nat with (k <? off + j)%nat; [reflexivity|].
      destruct (k <? off + j)%nat eqn:E1; destruct (k <? off + S j)%nat eqn:E2; try reflexivity.
      * apply Nat.ltb_lt in E1. apply Nat.ltb_ge in E2. lia.
      * apply Nat.ltb_ge in E1. apply Nat.ltb_lt in E2. lia.
Qed.

(** Writing back a slice after adding [g] to it adds [g] in place. *)
Lemma vblit_vadd_slice (v : list R) (off n : nat) (g : nat -> R) :
  (off + n <= length v)%nat ->
  length (vblit v off (vadd (vslice v off n) g)) = length v
  /\ forall k, vget (vblit v off (vadd (vslice v off n) g)) k
               = vget v k + (if ((off <=? k)%nat && (k <? off + n)%nat)%bool
                             then g (k - off)%nat else 0).
Proof.
  intros Hin.
  destruct (vblit_spec v (vadd (vslice v off n) g) off) as [Hlen Hget].
  split; [exact Hlen|]. intros k. rewrite Hget, length_vadd, length_vslice by exact Hin.
  destruct (off <=? k)%nat eqn:E1; destruct (k <? off + n)%nat eqn:E2; cbn [andb]; try lra.
  apply Nat.leb_le in E1. apply Nat.ltb_lt in E2.
  replace (k <? length v)%nat with true by (symmetry; apply Nat.ltb_lt; lia).
  rewrite vget_vadd by (rewrite length_vslice by exact Hin; lia).
  rewrite vget_vslice by lia. replace (off + (k - off))%nat with k by lia. reflexivity.
Qed.

Lemma strided_indices_bound (fuel i stride bound k : nat) :
  In k (strided_indices fuel i stride bound) -> (k < bound)%nat.
Proof.
  revert i; induction fuel as [|fuel IH]; intros i H; simpl in H; [contradiction|].
  destruct (i <? bound)%nat eqn:E; [|contradiction].
  destruct H as [<- | H]; [apply Nat.ltb_lt; exact E | apply (IH _ H)].
Qed.

Section Splat.

Context {G : Type} {grid_ops : GridLike G} {matrix_tools : MatrixTools}.
Variable args : list ArgValue.
Variable self : MetaD G.
Variable hill : Gaussian.

Let ncv := getNumberOfArguments args.


Variable g0 : G.
Variable neighbors : list nat.

Let n := length neighbors.
Let val (i : nat) : R := hill_value args self (grid_getPoint g0 (nth i neighbors O)) hill.
Let grad (i j : nat) : R :=
  hill_gradient args self (grid_getPoint g0 (nth i neighbors O)) hill j.
Let slot (i k : nat) : R :=
  if ((ncv * i <=? k)%nat && (k <? ncv * i + ncv)%nat)%bool then grad i (k - ncv * i) else 0.

Let body (i : nat) (st : list R * list R) : list R * list R :=
  (fun '(allbias, allder) =>
     let ineigh := nth i neighbors O in
     let xx := grid_getPoint g0 ineigh in
     let '(b, d) := evaluateGaussian args self xx hill (Some (vslice allder (ncv * i) ncv)) in
     (vset allbias i b, vblit allder (ncv * i) (der_buffer d))) st.

Lemma splat_fold (L : list nat) :
  (forall i, In i L -> (i < n)%nat) ->
  forall ab ad,
    length ab = n -> length ad = (ncv * n)%nat ->
    let st := fold_left (fun acc i => body i acc) L (ab, ad) in
    length (fst st) = n /\ length (snd st) = (ncv * n)%nat
    /\ (forall i, vget (fst st) i = if in_dec Nat.eq_dec i L then val i else vget ab i)
    /\ (forall k, vget (snd st) k = vget ad k + Rsum (map (fun i => slot i k) L)).
Proof.
  induction L as [|x L IH]; intros HL ab ad Hab Had.
  - cbv zeta. cbn [fold_left fst snd map Rsum fold_right].
    split; [exact Hab|]. split; [exact Had|].
    split; [intros i; reflexivity | intros k; lra].
  - cbv zeta. cbn [fold_left].
    assert (x < n)%nat as Hx by (apply HL; left; reflexivity).
    assert (ncv * x + ncv <= length ad)%nat as Hroom by (rewrite Had; nia).
    assert (body x (ab, ad)
            = (vset ab x (hill_value args self (grid_getPoint g0 (nth x neighbors O)) hill),
               vblit ad (ncv * x)
                 (vadd (vslice ad (ncv * x) ncv)
                    (hill_gradient args self (grid_getPoint g0 (nth x neighbors O)) hill))))
      as Hbody.
    { unfold body. rewrite evaluateGaussian_Some. reflexivity. }
    rewrite Hbody.
    destruct (vblit_vadd_slice ad (ncv * x) ncv
                (hill_gradient args self (grid_getPoint g0 (nth x neighbors O)) hill) Hroom)
      as [Hlen Hget].
    specialize (IH (fun i Hi => HL i (or_intror Hi))
                  (vset ab x (hill_value args self (grid_getPoint g0 (nth x neighbors O)) hill))
                  (vblit ad (ncv * x)
                     (vadd (vslice ad (ncv * x) ncv)
                        (hill_gradient args self (grid_getPoint g0 (nth x neighbors O)) hill)))).
    rewrite length_vset in IH. specialize (IH Hab (eq_trans Hlen Had)).
    cbv zeta in IH. destruct IH as (H1 & H2 & H3 & H4).
    split; [exact H1|]. split; [exact H2|]. split.
    + intros i. rewrite H3. rewrite vget_vset, Hab.
      destruct (in_dec Nat.eq_dec i L) as [Hin|Hnin];
        destruct (in_dec Nat.eq_dec i (x :: L)) as [Hin'|Hnin']; try reflexivity.
      * exfalso. apply Hnin'. right. exact Hin.
      * destruct Hin' as [<- | Hin']; [|contradiction].
        rewrite Nat.eqb_refl. apply Nat.ltb_lt in Hx. rewrite Hx. reflexivity.
      * replace (i =? x)%nat with false; [reflexivity|].
        symmetry. apply Nat.eqb_neq. intros ->. apply Hnin'. left. reflexivity.
    + intros k. rewrite H4, Hget. cbn [map]. unfold Rsum. cbn [fold_right].
      unfold slot at 2, grad. lra.
Qed.

Variable comm_size : nat.
Hypothesis workers : (1 <= comm_size)%nat.

Lemma splat_partial_spec (r : nat) :
  let st := splat_partial args comm_size self g0 hill neighbors r in
  length (fst st) = n /\ length (snd st) = (ncv * n)%nat
  /\ (forall i, vget (fst st) i
                = if in_dec Nat.eq_dec i (strided_indices n r comm_size n) then val i else 0)
  /\ (forall k, vget (snd st) k
                = Rsum (map (fun i => slot i k) (strided_indices n r comm_size n))).
Proof.
  cbv zeta. unfold splat_partial. rewrite strided_loop_fold.
  destruct (splat_fold (strided_indices n r comm_size n)
              (fun i Hi => strided_indices_bound _ _ _ _ _ Hi)
              (vzero n) (vzero (ncv * n)) (length_vzero _) (length_vzero _))
    as (H1 & H2 & H3 & H4).
  split; [exact H1|]. split; [exact H2|]. split.
  - intros i. etransitivity; [apply H3|]. rewrite vget_vzero. reflexivity.
  - intros k. etransitivity; [apply H4|]. rewrite vget_vzero. lra.
Qed.

(** After the reduction, entry [i] of [allbias] is the value at the point
    of neighbour [i]. *)
Lemma allbias_reduced (comm_rank i : nat) :
  (i < n)%nat ->
  vget (comm_Sum_vec comm_size comm_rank n
          (fun r => fst (splat_partial args comm_size self g0 hill neighbors r))) i
  = val i.
Proof.
  intros Hi. unfold comm_Sum_vec.
  match goal with |- vget (for_range 0 n ?f ?own) i = _ =>
    destruct (for_range_pointwise n
                (fun j _ => comm_Sum comm_size
                   (fun r => vget (fst (splat_partial args comm_size self g0 hill neighbors r)) j))
                own) as [_ Hget] end.
  rewrite Hget.
  destruct (splat_partial_spec comm_rank) as (Hown & _).
  rewrite Hown. apply Nat.ltb_lt in Hi as Hb. rewrite Hb. cbn [andb].
  rewrite comm_Sum_closed_form by exact workers.
  rewrite <- (Rsum_indicator comm_size (i mod comm_size) (val i))
    by (apply Nat.mod_upper_bound; lia).
  apply Rsum_map_ext. intros r Hr. apply in_seq in Hr.
  destruct (splat_partial_spec r) as (_ & _ & Hv & _). rewrite Hv.
  rewrite strided_indices_rank by lia.
  destruct (in_dec Nat.eq_dec i _) as [Hin|Hnin].
  - apply filter_In in Hin. destruct Hin as [_ Hin]. rewrite Hin. reflexivity.
  - destruct (i mod comm_size =? r)%nat eqn:E; [|reflexivity].
    exfalso. apply Hnin. apply filter_In. split; [apply in_seq; lia | exact E].
Qed.

Lemma slot_sum (i j : nat) :
  (i < n)%nat -> (j < ncv)%nat ->
  Rsum (map (fun i' => slot i' (ncv * i + j)) (seq 0 n)) = grad i j.
Proof.
  intros Hi Hj.
  rewrite (Rsum_map_ext _ (fun i' => if (i =? i')%nat then grad i j else 0)).
  - apply Rsum_indicator. exact Hi.
  - intros i' _. unfold slot.
    destruct (Nat.eq_dec i i') as [<-|Hne].
    + rewrite Nat.eqb_refl.
      replace (ncv * i <=? ncv * i + j)%nat with true by (symmetry; apply Nat.leb_le; lia).
      replace (ncv * i + j <? ncv * i + ncv)%nat with true
        by (symmetry; apply Nat.ltb_lt; lia).
      cbn [andb]. f_equal. lia.
    + replace (i =? i')%nat with false by (symmetry; apply Nat.eqb_neq; exact Hne).
      destruct (ncv * i' <=? ncv * i + j)%nat eqn:E1;
        destruct (ncv * i + j <? ncv * i' + ncv)%nat eqn:E2; cbn [andb]; try reflexivity.
      apply Nat.leb_le in E1. apply Nat.ltb_lt in E2. exfalso. apply Hne. nia.
Qed.

Lemma allder_reduced (comm_rank i j : nat) :
  (i < n)%nat -> (j < ncv)%nat ->
  vget (comm_Sum_vec comm_size comm_rank (ncv * n)
          (fun r => snd (splat_partial args comm_size self g0 hill neighbors r)))
    (ncv * i + j)
  = grad i j.
Proof.
  intros Hi Hj. unfold comm_Sum_vec.
  match goal with |- vget (for_range 0 ?m ?f ?own) _ = _ =>
    destruct (for_range_pointwise m
                (fun k _ => comm_Sum comm_size
                   (fun r => vget (snd (splat_partial args comm_size self g0 hill neighbors r)) k))
                own) as [_ Hget] end.
  rewrite Hget.
  destruct (splat_partial_spec comm_rank) as (_ & Hown & _).
  rewrite Hown.
  replace (ncv * i + j <? ncv * n)%nat with true by (symmetry; apply Nat.ltb_lt; nia).
  cbn [andb].
  rewrite comm_Sum_closed_form by exact workers.
  rewrite <- slot_sum by assumption.
  rewrite <- (Rsum_by_residue comm_size (fun i' => slot i' (ncv * i + j))) by exact workers.
  apply Rsum_map_ext. intros r Hr. apply in_seq in Hr.
  destruct (splat_partial_spec r) as (_ & _ & _ & Hd). rewrite Hd.
  rewrite strided_indices_rank by lia. reflexivity.
Qed.

End Splat.

Section GridAccumulator.

Context {G : Type} {grid_ops : GridLike G} {matrix_tools : MatrixTools}.
Variable args : list ArgValue.
Variables comm_size comm_rank : nat.
Variable self : MetaD G.
Variable hill : Gaussian.
Variable g0 : G.

Hypothesis workers : (1 <= comm_size)%nat.
Hypothesis grid_mode : grid_ self = true.
Hypothesis the_grid : BiasGrid_ self = Some g0.

(** In grid mode every neighbour cell receives the evaluator's value and
    gradient at its point: one worker takes the point from the grid as it
    goes, several workers take it from the grid as it was. *)
Lemma addGaussian_grid :
  let neighbors := grid_getNeighbors g0 (center hill) (getGaussianSupport args self g0 hill) in
  addGaussian args comm_size comm_rank self hill
  = with_BiasGrid self
      (Some (fold_left
               (fun g ineigh =>
                  splat_cell args self hill
                    (grid_getPoint (if (comm_size =? 1)%nat then g else g0) ineigh) ineigh g)
               neighbors g0)).
Proof.
  intros neighbors. unfold addGaussian. rewrite grid_mode, the_grid. cbn [negb].
  fold neighbors. destruct (comm_size =? 1)%nat; do 2 f_equal.
  - rewrite <- (for_range_nth
                  (fun ineigh g => splat_cell args self hill (grid_getPoint g ineigh) ineigh g)).
    apply for_range_ext. intros i g _. rewrite evaluateGaussian_Some. reflexivity.
  - rewrite <- (for_range_nth
                  (fun ineigh g => splat_cell args self hill (grid_getPoint g0 ineigh) ineigh g)).
    apply for_range_ext. intros i g [_ Hi]. unfold splat_cell.
    rewrite (allbias_reduced args self hill g0 neighbors comm_size workers comm_rank i Hi).
    f_equal. apply vector_ext.
    + destruct (for_range_pointwise (getNumberOfArguments args)
                  (fun j _ => vget (comm_Sum_vec comm_size comm_rank
                                     (getNumberOfArguments args * length neighbors)
                                     (fun r => snd (splat_partial args comm_size self g0 hill
                                                      neighbors r)))
                                (getNumberOfArguments args * i + j))
                  (vzero (getNumberOfArguments args))) as [Hlen _].
      rewrite Hlen, length_vadd. reflexivity.
    + intros j Hj.
      destruct (for_range_pointwise (getNumberOfArguments args)
                  (fun j _ => vget (comm_Sum_vec comm_size comm_rank
                                     (getNumberOfArguments args * length neighbors)
                                     (fun r => snd (splat_partial args comm_size self g0 hill
                                                      neighbors r)))
                                (getNumberOfArguments args * i + j))
                  (vzero (getNumberOfArguments args))) as [Hlen Hget].
      rewrite Hlen, length_vzero in Hj. rewrite Hget, length_vzero.
      apply Nat.ltb_lt in Hj as Hb. rewrite Hb. cbn [andb].
      rewrite (allder_reduced args self hill g0 neighbors comm_size workers comm_rank i j Hi Hj).
      rewrite vget_vadd by (rewrite length_vzero; exact Hj). rewrite vget_vzero. lra.
Qed.

End GridAccumulator.

Section GridSplat.

Context {G : Type} {grid_ops : GridLike G} {matrix_tools : MatrixTools}.
Variable args : list ArgValue.
Variables comm_size comm_rank : nat.

(** [addGaussian] in grid mode, in terms of what the evaluator hands over. *)
Lemma addGaussian_splat (self : MetaD G) (hill : Gaussian) (g0 : G) :
  (1 <= comm_size)%nat -> grid_ self = true -> BiasGrid_ self = Some g0 ->
  addGaussian args comm_size comm_rank self hill
  = with_BiasGrid self
      (Some (fold_left
               (fun g ineigh =>
                  let xx := grid_getPoint (if (comm_size =? 1)%nat then g else g0) ineigh in
                  grid_addValueAndDerivatives g ineigh
                    (fst (evaluator_output args self xx hill))
                    (snd (evaluator_output args self xx hill)))
               (grid_getNeighbors g0 (center hill) (getGaussianSupport args self g0 hill))
               g0)).
Proof.
  intros HP Hgrid Hg.
  rewrite (addGaussian_grid args comm_size comm_rank self hill g0 HP Hgrid Hg). cbv zeta.
  do 2 f_equal. apply fold_left_ext. intros g ineigh.
  unfold splat_cell, evaluator_output. rewrite evaluateGaussian_Some. reflexivity.
Qed.

End GridSplat.

(** What the search for the largest eigenvalue,
    [if (val[i] > max) { max = val[i]; ind = i; }] started from [(0, n)],
    ends on: the index stays at [n] exactly when no entry is positive;
    otherwise it is the first index of the largest entry. *)
Lemma largest_eigenvalue_search (vals : list R) (n : nat) :
  let r := for_range 0 n
             (fun i '(mx, ind) => if Rgtb (vget vals i) mx then (vget vals i, i) else (mx, ind))
             (0, n) in
  ((snd r < n)%nat <-> exists i, (i < n)%nat /\ 0 < vget vals i)
  /\ ((snd r < n)%nat ->
      fst r = vget vals (snd r) /\ 0 < fst r
      /\ (forall i, (i < n)%nat -> vget vals i <= fst r)
      /\ (forall i, (i < snd r)%nat -> vget vals i < fst r))
  /\ (~ (snd r < n)%nat -> snd r = n /\ fst r = 0).
Proof.
  cbv zeta.
  assert (let r := for_range 0 n
                     (fun i '(mx, ind) =>
                        if Rgtb (vget vals i) mx then (vget vals i, i) else (mx, ind))
                     (0, n) in
          (snd r <= n)%nat /\ 0 <= fst r
          /\ (forall i, (i < n)%nat -> vget vals i <= fst r)
          /\ ((snd r < n)%nat ->
              fst r = vget vals (snd r) /\ 0 < fst r
              /\ (forall i, (i < snd r)%nat -> vget vals i < fst r))
          /\ (snd r = n -> fst r = 0)) as H.
  { cbv zeta.
    apply (for_range_ind
             (fun k (acc : R * nat) =>
                (snd acc <= n)%nat /\ 0 <= fst acc
                /\ (forall i, (i < k)%nat -> vget vals i <= fst acc)
                /\ ((snd acc < n)%nat ->
                    fst acc = vget vals (snd acc) /\ 0 < fst acc
                    /\ (forall i, (i < snd acc)%nat -> vget vals i < fst acc))
                /\ (snd acc = n -> fst acc = 0))).
    - cbn [fst snd]. split; [lia|]. split; [lra|]. split; [intros; lia|].
      split; [intros; lia | reflexivity].
    - intros i [mx ind] Hi (Hle & H0 & Hmax & Hind & Hnone). cbn [fst snd] in *.
      destruct (Rgtb (vget vals i) mx) eqn:E; cbn [fst snd].
      + apply Rgtb_true in E. split; [lia|]. split; [lra|]. split.
        * intros j Hj. destruct (Nat.eq_dec j i) as [->|]; [lra|].
          specialize (Hmax j ltac:(lia)). lra.
        * split; [|intros; lia]. intros _. split; [reflexivity|]. split; [lra|].
          intros j Hj. specialize (Hmax j Hj). lra.
      + apply Rgtb_false in E. split; [exact Hle|]. split; [exact H0|]. split.
        * intros j Hj. destruct (Nat.eq_dec j i) as [->|]; [lra|]. apply Hmax. lia.
        * split; assumption. }
  cbv zeta in H. destruct H as (Hle & H0 & Hmax & Hind & Hnone).
  split; [split|split].
  - intros Hlt. destruct (Hind Hlt) as (Hv & Hp & _).
    eexists. split; [exact Hlt|]. rewrite <- Hv. exact Hp.
  - intros (i & Hi & Hp).
    destruct (Nat.eq_dec (snd (for_range 0 n
                (fun i '(mx, ind) =>
                   if Rgtb (vget vals i) mx then (vget vals i, i) else (mx, ind))
                (0, n))) n) as [E|E]; [|lia].
    specialize (Hmax i Hi). rewrite (Hnone E) in Hmax. lra.
  - intros Hlt. destruct (Hind Hlt) as (Hv & Hp & Hfirst).
    split; [exact Hv|]. split; [exact Hp|]. split; [exact Hmax | exact Hfirst].
  - intros Hge. assert (snd (for_range 0 n
                (fun i '(mx, ind) =>
                   if Rgtb (vget vals i) mx then (vget vals i, i) else (mx, ind))
                (0, n)) = n) as E by lia.
    split; [exact E | apply Hnone; exact E].
Qed.

(** Where the conversion is defined it gives [ceil], and [ceil] fits. *)
Lemma unsigned_ceil_defined (x : R) :
  unsigned_cast_defined x ->
  Z.of_nat (unsigned_ceil x) = ceil x /\ (0 <= ceil x <= 4294967295)%Z.
Proof.
  unfold unsigned_cast_defined, unsigned_ceil. intros [Hlo Hhi].
  assert (x <= IZR (ceil x) < x + 1) as Hc.
  { unfold ceil. rewrite opp_IZR. destruct (base_Int_part (- x)) as [H1 H2]. lra. }
  assert (0 <= ceil x)%Z as H0.
  { apply Z.lt_succ_r. apply lt_IZR. rewrite succ_IZR. lra. }
  assert (ceil x <= 4294967295)%Z as H1.
  { apply Z.lt_succ_r. apply lt_IZR. rewrite succ_IZR. lra. }
  split; [apply Z2Nat.id; exact H0 | split; assumption].
Qed.


(** *** A full-covariance hill wider than its support *)

Lemma wide_matrix :
  let M := recompose 2 [0.25; 0; 1] in
  M 0%nat 0%nat = 0.25 /\ M 0%nat 1%nat = 0 /\ M 1%nat 0%nat = 0 /\ M 1%nat 1%nat = 1.
Proof. cbv zeta. unfold recompose, for_range, mset, vget. cbn. repeat split. Qed.

(** The matrix tools do invert and diagonalise on this input: the product
    with the inverse is the identity, the eigenvalues are [1] and [4], and
    each row of the eigenvector matrix is an eigenvector of the inverse. *)
Lemma wide_hill_decomposition :
  let M := recompose 2 [0.25; 0; 1] in
  let C := Invert 2 M in
  let vals := fst (diagMat 2 C) in
  let vecs := snd (diagMat 2 C) in
  (forall i j, (i < 2)%nat -> (j < 2)%nat -> mult 2 M C i j = if (i =? j)%nat then 1 else 0)
  /\ vals = [1; 4]
  /\ (forall k i, (k < 2)%nat -> (i < 2)%nat ->
        C i 0%nat * vecs k 0%nat + C i 1%nat * vecs k 1%nat = vget vals k * vecs k i).
Proof.
  cbv zeta. destruct wide_matrix as (M00 & M01 & M10 & M11).
  cbn [diagMat Invert mult small_matrix_tools small_diagMat small_Invert small_mult].
  rewrite M00, M01, M10, M11.
  replace (Rleb (1 / (0.25 * 1 - 0 * 0)) (0.25 / (0.25 * 1 - 0 * 0))) with false.
  2:{ symmetry. apply Rleb_false. lra. }
  cbn [fst snd]. split; [|split].
  - intros i j Hi Hj.
    destruct i as [|[|i]]; [| |lia]; destruct j as [|[|j]]; try lia;
      unfold small_mult; cbn [seq map fold_right Nat.eqb];
      rewrite ?M00, ?M01, ?M10, ?M11; field; lra.
  - f_equal; [lra | f_equal; lra].
  - intros k i Hk Hi.
    destruct k as [|[|k]]; [| |lia]; destruct i as [|[|i]]; try lia;
      unfold vget; cbn [nth]; field; lra.
Qed.










(** ** C9: when [update] deposits *)

(** C9.  For a call of [update] that is defined: the state it reaches
    before it turns to the other walkers' files is [idle], the state with
    the first-step flag cleared and nothing else changed, when the flag was
    set, whatever the step number, or when the step is no multiple of
    [stride_]; and [deposited] when the flag was cleared and the step is a
    multiple of [stride_].  [deposited] holds one hill more, centred at the
    current arguments: appended to the list in list mode, splatted on the
    grid in grid mode; and one record more, the record of that hill.
    Reading the other walkers' files touches neither the flag nor the
    records written, and with a single walker the call returns that state.
    The constructor sets the flag, so the first [update] of a fresh run, at
    step [0], deposits nothing. *)
Theorem C9_first_update_deposits_nothing :
  forall (G : Type) (grid_ops : GridLike G) (matrix_tools : MatrixTools)
         (args : list ArgValue) (P rank : nat) (kB dt : R) (self : MetaD G)
         (step : Z) (argv flexinv : list R) (fs : FileSystem) (now : Z),
    update_defined args P rank kB self step argv flexinv ->
    let cv := for_range 0 (getNumberOfArguments args) (fun i cv => vset cv i (vget argv i))
                (vzero (getNumberOfArguments args)) in
    let hill := new_hill args P rank kB self cv flexinv in
    let deposited := writeGaussian args dt (addGaussian args P rank self hill) hill step now in
    let idle := with_isFirstStep self false in
    let reached := if deposit_now self step then deposited else idle in
    update args P rank kB dt self step argv flexinv fs now
    = (if ((mw_n_ self >? 1)%Z && (Z.rem step (mw_rstride_ self) =? 0)%Z)%bool
       then read_walkers args P rank reached fs
       else Ok reached)
    /\ (isFirstStep self = true -> reached = idle)
    /\ (isFirstStep self = false ->
        reached = if (Z.rem step (stride_ self) =? 0)%Z then deposited else idle)
    /\ (hills_ idle = hills_ self /\ BiasGrid_ idle = BiasGrid_ self
        /\ hillsOfile_ idle = hillsOfile_ self /\ isFirstStep idle = false)
    /\ (center hill = cv
        /\ hillsOfile_ deposited
           = hillsOfile_ self
             ++ [hill_record args dt (addGaussian args P rank self hill) hill step now]
        /\ (isFirstStep self = false -> isFirstStep deposited = false))
    /\ (grid_ self = false ->
        hills_ deposited = hills_ self ++ [hill] /\ BiasGrid_ deposited = BiasGrid_ self)
    /\ (forall g0,
          (1 <= P)%nat -> grid_ self = true -> BiasGrid_ self = Some g0 ->
          hills_ deposited = hills_ self
          /\ BiasGrid_ deposited
             = Some (fold_left
                       (fun g ineigh =>
                          let xx := grid_getPoint (if (P =? 1)%nat then g else g0) ineigh in
                          grid_addValueAndDerivatives g ineigh
                            (fst (evaluator_output args self xx hill))
                            (snd (evaluator_output args self xx hill)))
                       (grid_getNeighbors g0 (center hill)
                          (getGaussianSupport args self g0 hill))
                       g0))
    /\ (forall self',
          update args P rank kB dt self step argv flexinv fs now = Ok self' ->
          isFirstStep self' = false /\ hillsOfile_ self' = hillsOfile_ reached)
    /\ ((mw_n_ self <= 1)%Z ->
        update args P rank kB dt self step argv flexinv fs now = Ok reached)
    /\ (forall ao restart fs0 s0,
          MetaD_new args P rank ao restart fs0 = Ok s0 ->
          isFirstStep s0 = true
          /\ forall self',
               update args P rank kB dt s0 0 argv flexinv fs now = Ok self' ->
               hillsOfile_ self' = hillsOfile_ s0).
Proof.
  intros G grid_ops matrix_tools args P rank kB dt self step argv flexinv fs now _
    cv hill deposited idle reached.
  assert (reached = after_deposit args P rank kB dt self step argv flexinv now) as Hreached
    by reflexivity.
  assert (forall (s s' : MetaD G) (st : Z),
            update args P rank kB dt s st argv flexinv fs now = Ok s' ->
            isFirstStep s' = false
            /\ hillsOfile_ s'
               = hillsOfile_ (after_deposit args P rank kB dt s st argv flexinv now)) as Hany.
  { intros s s' st H. rewrite update_unfold in H.
    destruct (after_deposit_records args P rank kB dt s st argv flexinv now) as (Hflag & _).
    assert (same_settings (after_deposit args P rank kB dt s st argv flexinv now) s') as Hs.
    { destruct ((mw_n_ s >? 1)%Z && (Z.rem st (mw_rstride_ s) =? 0)%Z)%bool.
      - eapply read_walkers_settings. exact H.
      - inversion H. apply same_settings_refl. }
    unfold same_settings in Hs.
    destruct Hs as (_ & Hfile & _ & _ & _ & _ & _ & _ & _ & _ & _ & _ & _ & _ & _ & _ & _
                    & Hfirst).
    rewrite Hfirst, Hfile. split; [exact Hflag | reflexivity]. }
  destruct (addGaussian_settings args P rank self hill) as [Hs _].
  unfold same_settings in Hs.
  destruct Hs as (_ & Hfile & _ & _ & _ & _ & _ & _ & _ & _ & _ & _ & _ & _ & _ & _ & _
                  & Hfirst).
  split; [rewrite Hreached; apply update_unfold|].
  split.
  { intros Hf. unfold reached, deposit_now. rewrite Hf, andb_false_r. reflexivity. }
  split.
  { intros Hf. unfold reached, deposit_now. rewrite Hf. cbn [negb]. rewrite andb_true_r.
    reflexivity. }
  split; [repeat split|].
  split.
  { split; [reflexivity|]. split.
    - unfold deposited, writeGaussian, with_hillsOfile. cbn [hillsOfile_].
      rewrite Hfile. reflexivity.
    - intros Hf. unfold deposited, writeGaussian, with_hillsOfile. cbn [isFirstStep].
      rewrite Hfirst. exact Hf. }
  split.
  { intros Hlist. unfold deposited, writeGaussian, with_hillsOfile, addGaussian.
    rewrite Hlist. cbn [negb hills_ BiasGrid_ with_hills]. split; reflexivity. }
  split.
  { intros g0 HP Hgrid Hg. unfold deposited, writeGaussian, with_hillsOfile.
    cbn [hills_ BiasGrid_].
    rewrite (addGaussian_splat args P rank self hill g0 HP Hgrid Hg).
    cbn [hills_ BiasGrid_ with_BiasGrid]. split; reflexivity. }
  split.
  { intros self' H. rewrite Hreached. apply (Hany self self' step). exact H. }
  split.
  { intros Hone. rewrite Hreached, update_unfold.
    replace (mw_n_ self >? 1)%Z with false
      by (symmetry; rewrite Z.gtb_ltb; apply Z.ltb_ge; exact Hone).
    reflexivity. }
  intros ao restart fs0 s0 Hnew.
  apply MetaD_new_first_step in Hnew. split; [exact Hnew|].
  intros self' Hupd. apply Hany in Hupd. destruct Hupd as [_ Hupd]. rewrite Hupd.
  unfold after_deposit, deposit_now. rewrite Hnew, andb_false_r. reflexivity.
Qed.

Lemma C9_first_update_deposits_nothing_witness :
  update one_distance 1 0 1 1 (example_bias [] [] false) 500 [1.0] [] no_files 0
  = Ok (example_bias [mkGaussian [1.0] [0.2] 0.3 false]
          [hill_record one_distance 1 (example_bias [mkGaussian [1.0] [0.2] 0.3 false] [] false)
             (mkGaussian [1.0] [0.2] 0.3 false) 500 0]
          false).
Proof.
  refine (proj1 (proj2 (proj2 (proj2 (proj2 (proj2 (proj2 (proj2 (proj2
            (C9_first_update_deposits_nothing Mesh mesh_grid small_matrix_tools
               one_distance 1 0 1 1 (example_bias [] [] false) 500 [1.0] []
               no_files 0 _))))))))) _).
  - unfold update_defined. cbv zeta. split; [discriminate|].
    split; [intros _; discriminate|]. split; [discriminate|]. simpl. lia.
  - simpl. lia.
Defined.

(** * Further properties of the engine *)

(** ** The packed covariance matrix *)

Lemma for_range_ind_from {S : Type} (P : nat -> S -> Prop) (lo hi : nat)
    (body : nat -> S -> S) (s : S) :
  (lo <= hi)%nat ->
  P lo s ->
  (forall i acc, (lo <= i < hi)%nat -> P i acc -> P (Datatypes.S i) (body i acc)) ->
  P hi (for_range lo hi body s).
Proof.
  intros Hle H0 Hstep.
  assert (forall k, (lo <= k <= hi)%nat -> P k (for_range lo k body s)) as Hk.
  { induction k; intros Hk.
    - assert (lo = O) by lia. subst. rewrite for_range_empty by lia. exact H0.
    - destruct (Nat.eq_dec lo (Datatypes.S k)) as [->|Hne].
      + rewrite for_range_empty by lia. exact H0.
      + rewrite for_range_snoc by lia. apply Hstep; [lia | apply IHk; lia]. }
  apply Hk. lia.
Qed.

Lemma row_start_closed (ncv i : nat) :
  (i <= ncv)%nat -> row_start ncv i = (i * ncv - i * (i - 1) / 2)%nat.
Proof.
  intros Hi.
  assert (forall k, (k <= ncv)%nat -> (2 * row_start ncv k + k * (k - 1) = 2 * (k * ncv))%nat) as H2.
  { induction k as [|k IH]; intros Hk; [reflexivity|].
    simpl row_start. specialize (IH ltac:(lia)).
    destruct k as [|k]; [simpl; lia|].
    replace (S (S k) - 1)%nat with (S k) by lia.
    replace (S k - 1)%nat with k in IH by lia. nia. }
  specialize (H2 i Hi).
  assert (exists q, (i * (i - 1) = 2 * q)%nat) as [q Hq].
  { exists (i * ncv - row_start ncv i)%nat. nia. }
  rewrite Hq. rewrite (Nat.mul_comm 2 q), Nat.div_mul by lia. lia.
Qed.

(** One row of the recomposition loop. *)
Lemma recompose_row (ncv i : nat) (packed : list R) (m0 : Matrix) (k0 : nat) :
  (i <= ncv)%nat ->
  let st := for_range i ncv
              (fun j '(m, k) => (mset (mset m j i (vget packed k)) i j (vget packed k), S k))
              (m0, k0) in
  snd st = (k0 + (ncv - i))%nat
  /\ forall a b,
       fst st a b
       = if ((a =? i)%nat && (i <=? b)%nat && (b <? ncv)%nat)%bool
         then vget packed (k0 + (b - i))
         else if ((b =? i)%nat && (i <=? a)%nat && (a <? ncv)%nat)%bool
              then vget packed (k0 + (a - i))
              else m0 a b.
Proof.
  intros Hi. cbv zeta.
  apply (for_range_ind_from
           (fun hi (st : Matrix * nat) =>
              snd st = (k0 + (hi - i))%nat
              /\ forall a b,
                   fst st a b
                   = if ((a =? i)%nat && (i <=? b)%nat && (b <? hi)%nat)%bool
                     then vget packed (k0 + (b - i))
                     else if ((b =? i)%nat && (i <=? a)%nat && (a <? hi)%nat)%bool
                          then vget packed (k0 + (a - i))
                          else m0 a b)); [exact Hi| |].
  - cbn [fst snd]. split; [lia|]. intros a b.
    destruct (a =? i)%nat eqn:Ea; destruct (i <=? b)%nat eqn:Eb; destruct (b <? i)%nat eqn:Ec;
      destruct (b =? i)%nat eqn:Ed; destruct (i <=? a)%nat eqn:Ee; destruct (a <? i)%nat eqn:Ef;
      cbn [andb]; try reflexivity;
      repeat match goal with
      | H : (_ =? _)%nat = true |- _ => apply Nat.eqb_eq in H
      | H : (_ <=? _)%nat = true |- _ => apply Nat.leb_le in H
      | H : (_ <? _)%nat = true |- _ => apply Nat.ltb_lt in H
      | H : (_ <=? _)%nat = false |- _ => apply Nat.leb_gt in H
      | H : (_ <? _)%nat = false |- _ => apply Nat.ltb_ge in H
      | H : (_ =? _)%nat = false |- _ => apply Nat.eqb_neq in H
      end; lia.
  - intros j [m k] Hj [Hk Hm]. cbn [fst snd] in *. split; [lia|].
    intros a b. unfold mset. rewrite Hm. subst k.
    destruct (a =? i)%nat eqn:Ea; destruct (b =? j)%nat eqn:Eb;
      destruct (a =? j)%nat eqn:Ec; destruct (b =? i)%nat eqn:Ed;
      destruct (i <=? b)%nat eqn:Ee; destruct (b <? j)%nat eqn:Ef;
      destruct (b <? S j)%nat eqn:Eg; destruct (i <=? a)%nat eqn:Eh;
      destruct (a <? j)%nat eqn:Ei; destruct (a <? S j)%nat eqn:Ej;
      cbn [andb]; try reflexivity;
      repeat match goal with
      | H : (_ =? _)%nat = true |- _ => apply Nat.eqb_eq in H
      | H : (_ <=? _)%nat = true |- _ => apply Nat.leb_le in H
      | H : (_ <? _)%nat = true |- _ => apply Nat.ltb_lt in H
      | H : (_ <=? _)%nat = false |- _ => apply Nat.leb_gt in H
      | H : (_ <? _)%nat = false |- _ => apply Nat.ltb_ge in H
      | H : (_ =? _)%nat = false |- _ => apply Nat.eqb_neq in H
      end; subst; try lia; try (f_equal; lia).
Qed.

Ltac nat_bools :=
  repeat match goal with
  | H : (_ =? _)%nat = true |- _ => apply Nat.eqb_eq in H
  | H : (_ <=? _)%nat = true |- _ => apply Nat.leb_le in H
  | H : (_ <? _)%nat = true |- _ => apply Nat.ltb_lt in H
  | H : (_ <=? _)%nat = false |- _ => apply Nat.leb_gt in H
  | H : (_ <? _)%nat = false |- _ => apply Nat.ltb_ge in H
  | H : (_ =? _)%nat = false |- _ => apply Nat.eqb_neq in H
  end.

Lemma recompose_rows (ncv : nat) (packed : list R) (n : nat) :
  (n <= ncv)%nat ->
  let st := for_range 0 n
              (fun i st =>
                 for_range i ncv
                   (fun j '(m, k) => (mset (mset m j i (vget packed k)) i j (vget packed k), S k))
                   st)
              (mzero, O) in
  snd st = row_start ncv n
  /\ forall a b,
       fst st a b
       = if ((Nat.min a b <? n)%nat && (Nat.max a b <? ncv)%nat)%bool
         then vget packed (row_start ncv (Nat.min a b) + (Nat.max a b - Nat.min a b))
         else 0.
Proof.
  intros Hn. cbv zeta.
  apply (for_range_ind
           (fun n (st : Matrix * nat) =>
              (n <= ncv)%nat ->
              snd st = row_start ncv n
              /\ forall a b,
                   fst st a b
                   = if ((Nat.min a b <? n)%nat && (Nat.max a b <? ncv)%nat)%bool
                     then vget packed (row_start ncv (Nat.min a b) + (Nat.max a b - Nat.min a b))
                     else 0)); [| |exact Hn].
  - intros _. split; [reflexivity|]. intros a b. reflexivity.
  - intros i [m k] Hi IH Hle. specialize (IH ltac:(lia)). destruct IH as [Hk Hm].
    cbn [fst snd] in Hk, Hm.
    destruct (recompose_row ncv i packed m k ltac:(lia)) as [Hk' Hm'].
    cbv zeta in Hk', Hm'. split; [rewrite Hk', Hk; reflexivity|].
    intros a b. rewrite Hm', Hm. subst k.
    destruct (Nat.min_spec a b) as [[Hab ->]|[Hab ->]];
      destruct (Nat.max_spec a b) as [[Hab' ->]|[Hab' ->]]; try lia.
    + destruct (a =? i)%nat eqn:Ea; destruct (i <=? b)%nat eqn:Eb;
        destruct (b <? ncv)%nat eqn:Ec; destruct (b =? i)%nat eqn:Ed;
        destruct (i <=? a)%nat eqn:Ee; destruct (a <? ncv)%nat eqn:Ef;
        destruct (a <? i)%nat eqn:Eg; destruct (a <? S i)%nat eqn:Eh;
        cbn [andb]; try reflexivity; nat_bools; subst; try lia; try reflexivity;
        try (f_equal; lia).
    + destruct (a =? i)%nat eqn:Ea; destruct (i <=? b)%nat eqn:Eb;
        destruct (b <? ncv)%nat eqn:Ec; destruct (b =? i)%nat eqn:Ed;
        destruct (i <=? a)%nat eqn:Ee; destruct (a <? ncv)%nat eqn:Ef;
        destruct (b <? i)%nat eqn:Eg; destruct (b <? S i)%nat eqn:Eh;
        cbn [andb]; try reflexivity; nat_bools; subst; try lia; try reflexivity;
        try (f_equal; lia).
Qed.

Lemma recompose_symmetric (ncv : nat) (packed : list R) (i j : nat) :
  recompose ncv packed j i = recompose ncv packed i j.
Proof.
  destruct (recompose_rows ncv packed ncv (le_n ncv)) as [_ Hm]. cbv zeta in Hm.
  unfold recompose. rewrite !Hm. rewrite (Nat.min_comm j i), (Nat.max_comm j i). reflexivity.
Qed.

(** X1.  [recompose] fills a symmetric matrix from the packed upper
    triangle: entry [(i, j)], [i <= j < ncv], is read at position
    [i*ncv - i*(i-1)/2 + (j - i)] of the packed vector, entry [(j, i)] is
    the same number, and everything outside the leading block is zero. *)
Theorem recompose_symmetric_packed :
  forall (ncv : nat) (packed : list R) (i j : nat),
    ((i <= j)%nat -> (j < ncv)%nat ->
     recompose ncv packed i j = vget packed (i * ncv - i * (i - 1) / 2 + (j - i)))
    /\ recompose ncv packed j i = recompose ncv packed i j
    /\ ((ncv <= i)%nat \/ (ncv <= j)%nat -> recompose ncv packed i j = 0).
Proof.
  intros ncv packed i j.
  destruct (recompose_rows ncv packed ncv (le_n ncv)) as [_ Hm]. cbv zeta in Hm.
  unfold recompose. split; [|split].
  - intros Hij Hj. rewrite Hm. rewrite Nat.min_l, Nat.max_r by lia.
    replace (i <? ncv)%nat with true by (symmetry; apply Nat.ltb_lt; lia).
    replace (j <? ncv)%nat with true by (symmetry; apply Nat.ltb_lt; lia).
    cbn [andb]. rewrite row_start_closed by lia. reflexivity.
  - rewrite !Hm. rewrite (Nat.min_comm j i), (Nat.max_comm j i). reflexivity.
  - intros Hout. rewrite Hm.
    replace (Nat.max i j <? ncv)%nat with false by (symmetry; apply Nat.ltb_ge; lia).
    rewrite andb_false_r. reflexivity.
Qed.

Lemma row_start_le (ncv i j : nat) : (i <= j)%nat -> (row_start ncv i <= row_start ncv j)%nat.
Proof.
  induction 1; [lia|]. simpl. lia.
Qed.

Lemma row_start_lt (ncv i j : nat) :
  (i < j)%nat -> (j <= ncv)%nat -> (row_start ncv i + (ncv - i) <= row_start ncv j)%nat.
Proof.
  intros Hij Hj. pose proof (row_start_le ncv (S i) j ltac:(lia)) as H. simpl in H. exact H.
Qed.

(** The band-ordered list: band [i] starts at [row_start ncv i]. *)
Lemma band_fields_spec (ncv : nat) (m : Matrix) :
  length (band_fields ncv m) = row_start ncv ncv
  /\ forall i j, (i < ncv)%nat -> (j < ncv - i)%nat ->
       vget (band_fields ncv m) (row_start ncv i + j) = m (j + i)%nat j.
Proof.
  unfold band_fields.
  apply (for_range_ind
           (fun n out =>
              length out = row_start ncv n
              /\ forall i j, (i < n)%nat -> (j < ncv - i)%nat ->
                   vget out (row_start ncv i + j) = m (j + i)%nat j)).
  - split; [reflexivity|]. intros i j Hi. lia.
  - intros i out Hi [Hlen Hget].
    assert (for_range 0 (ncv - i) (fun j out => out ++ [m (j + i)%nat j]) out
            = out ++ map (fun j => m (j + i)%nat j) (seq 0 (ncv - i))) as ->.
    { apply (for_range_ind
               (fun k acc => acc = out ++ map (fun j => m (j + i)%nat j) (seq 0 k))).
      - simpl. rewrite app_nil_r. reflexivity.
      - intros j acc _ ->. rewrite seq_S, map_app, app_assoc. reflexivity. }
    split.
    + rewrite length_app, length_map, length_seq, Hlen. reflexivity.
    + intros i' j Hi' Hj. unfold vget.
      destruct (Nat.eq_dec i' i) as [->|Hne].
      * rewrite app_nth2 by lia. rewrite Hlen.
        replace (row_start ncv i + j - row_start ncv i)%nat with j by lia.
        apply (vget_map_seq (fun q => m (q + i)%nat q)). exact Hj.
      * pose proof (row_start_lt ncv i' i ltac:(lia) ltac:(lia)).
        rewrite app_nth1 by lia. apply Hget; lia.
Qed.

(** The loop of [scanOneHill] that reads the band-ordered fields. *)
Lemma scan_bands (ncv : nat) (fields : list R) :
  let st := for_range 0 ncv
              (fun i st =>
                 for_range 0 (ncv - i)
                   (fun j '(lower, upper, k) =>
                      let lower' := mset lower (j + i) j (vget fields k) in
                      (lower', mset upper j (j + i) (lower' (j + i)%nat j), S k))
                   st)
              (mzero, mzero, O) in
  forall a b,
    fst (fst st) a b
    = (if ((b <=? a)%nat && (a <? ncv)%nat)%bool
       then vget fields (row_start ncv (a - b) + b) else 0)
    /\ snd (fst st) a b = fst (fst st) b a.
Proof.
  cbv zeta.
  assert (forall i lower upper k,
            let st := for_range 0 (ncv - i)
                        (fun j '(lower, upper, k) =>
                           let lower' := mset lower (j + i) j (vget fields k) in
                           (lower', mset upper j (j + i) (lower' (j + i)%nat j), S k))
                        (lower, upper, k) in
            snd st = (k + (ncv - i))%nat
            /\ (forall a b, fst (fst st) a b
                            = if ((a =? b + i)%nat && (b <? ncv - i)%nat)%bool
                              then vget fields (k + b) else lower a b)
            /\ (forall a b, snd (fst st) a b
                            = if ((b =? a + i)%nat && (a <? ncv - i)%nat)%bool
                              then vget fields (k + a) else upper a b)) as Hband.
  { intros i lower upper k. cbv zeta.
    apply (for_range_ind
             (fun n (st : Matrix * Matrix * nat) =>
                snd st = (k + n)%nat
                /\ (forall a b, fst (fst st) a b
                                = if ((a =? b + i)%nat && (b <? n)%nat)%bool
                                  then vget fields (k + b) else lower a b)
                /\ (forall a b, snd (fst st) a b
                                = if ((b =? a + i)%nat && (a <? n)%nat)%bool
                                  then vget fields (k + a) else upper a b))).
    - cbn [fst snd]. split; [lia|]. split; intros a b; rewrite andb_false_r; reflexivity.
    - intros j [[lo up] k'] Hj (Hk & Hlo & Hup). cbn [fst snd] in *. subst k'.
      split; [lia|]. split; intros a b; unfold mset.
      + rewrite Hlo.
        destruct (a =? j + i)%nat eqn:E1; destruct (b =? j)%nat eqn:E2;
          destruct (a =? b + i)%nat eqn:E3; destruct (b <? j)%nat eqn:E4;
          destruct (b <? S j)%nat eqn:E5; cbn [andb]; try reflexivity;
          nat_bools; subst; try lia; try reflexivity.
      + rewrite !Nat.eqb_refl. cbn [andb]. rewrite Hup.
        destruct (a =? j)%nat eqn:E1; destruct (b =? j + i)%nat eqn:E2;
          destruct (b =? a + i)%nat eqn:E3; destruct (a <? j)%nat eqn:E4;
          destruct (a <? S j)%nat eqn:E5; cbn [andb]; try reflexivity;
          nat_bools; subst; try lia; try reflexivity. }
  assert (let st := for_range 0 ncv
              (fun i st =>
                 for_range 0 (ncv - i)
                   (fun j '(lower, upper, k) =>
                      let lower' := mset lower (j + i) j (vget fields k) in
                      (lower', mset upper j (j + i) (lower' (j + i)%nat j), S k))
                   st)
              (mzero, mzero, O) in
          snd st = row_start ncv ncv
          /\ (forall a b, fst (fst st) a b
                = if ((b <=? a)%nat && (a - b <? ncv)%nat && (a <? ncv)%nat)%bool
                  then vget fields (row_start ncv (a - b) + b) else 0)
          /\ (forall a b, snd (fst st) a b
                = if ((a <=? b)%nat && (b - a <? ncv)%nat && (b <? ncv)%nat)%bool
                  then vget fields (row_start ncv (b - a) + a) else 0)) as Hall.
  { cbv zeta.
    apply (for_range_ind
             (fun n (st : Matrix * Matrix * nat) =>
                snd st = row_start ncv n
                /\ (forall a b, fst (fst st) a b
                      = if ((b <=? a)%nat && (a - b <? n)%nat && (a <? ncv)%nat)%bool
                        then vget fields (row_start ncv (a - b) + b) else 0)
                /\ (forall a b, snd (fst st) a b
                      = if ((a <=? b)%nat && (b - a <? n)%nat && (b <? ncv)%nat)%bool
                        then vget fields (row_start ncv (b - a) + a) else 0))).
    - cbn [fst snd]. split; [reflexivity|]. split; intros a b; rewrite andb_false_r; reflexivity.
    - intros i [[lo up] k] Hi (Hk & Hlo & Hup). cbn [fst snd] in Hk, Hlo, Hup.
      destruct (Hband i lo up k) as (Hk' & Hlo' & Hup'). cbv zeta in Hk', Hlo', Hup'.
      split; [rewrite Hk', Hk; reflexivity|]. subst k.
      split; intros a b.
      + rewrite Hlo', Hlo.
        destruct (a =? b + i)%nat eqn:E1; destruct (b <? ncv - i)%nat eqn:E2;
          destruct (b <=? a)%nat eqn:E3; destruct (a - b <? i)%nat eqn:E4;
          destruct (a - b <? S i)%nat eqn:E5; destruct (a <? ncv)%nat eqn:E6;
          cbn [andb]; try reflexivity; nat_bools; subst; try lia; try reflexivity;
          try (replace (b + i - b)%nat with i by lia; reflexivity).
      + rewrite Hup', Hup.
        destruct (b =? a + i)%nat eqn:E1; destruct (a <? ncv - i)%nat eqn:E2;
          destruct (a <=? b)%nat eqn:E3; destruct (b - a <? i)%nat eqn:E4;
          destruct (b - a <? S i)%nat eqn:E5; destruct (b <? ncv)%nat eqn:E6;
          cbn [andb]; try reflexivity; nat_bools; subst; try lia; try reflexivity;
          try (replace (a + i - a)%nat with i by lia; reflexivity). }
  cbv zeta in Hall. destruct Hall as (_ & Hlo & Hup).
  intros a b. rewrite Hup, !Hlo. split; [|reflexivity].
  destruct (b <=? a)%nat eqn:E3; destruct (a - b <? ncv)%nat eqn:E4;
    destruct (a <? ncv)%nat eqn:E6; cbn [andb]; try reflexivity; nat_bools; lia.
Qed.

(** The loop of [scanOneHill] that stores the upper triangle of the
    inverse, row by row. *)
Lemma pack_upper (ncv : nat) (inv : Matrix) (sigma0 : list R) :
  length sigma0 = row_start ncv ncv ->
  let out := fst (for_range 0 ncv
                    (fun i st =>
                       for_range i ncv
                         (fun j '(sigma, k) => (vset sigma k (inv i j), S k))
                         st)
                    (sigma0, O)) in
  length out = length sigma0
  /\ forall i j, (i <= j)%nat -> (j < ncv)%nat ->
       vget out (row_start ncv i + (j - i)) = inv i j.
Proof.
  intros Hlen0. cbv zeta.
  assert (forall i s k0,
            (i <= ncv)%nat ->
            (k0 + (ncv - i) <= length s)%nat ->
            let st := for_range i ncv
                        (fun j '(sigma, k) => (vset sigma k (inv i j), S k)) (s, k0) in
            snd st = (k0 + (ncv - i))%nat
            /\ length (fst st) = length s
            /\ (forall p, (p < k0)%nat -> vget (fst st) p = vget s p)
            /\ (forall j, (i <= j)%nat -> (j < ncv)%nat ->
                  vget (fst st) (k0 + (j - i)) = inv i j)) as Hrow.
  { intros i s k0 Hi Hroom. cbv zeta.
    apply (for_range_ind_from
             (fun hi (st : list R * nat) =>
                snd st = (k0 + (hi - i))%nat
                /\ length (fst st) = length s
                /\ (forall p, (p < k0)%nat -> vget (fst st) p = vget s p)
                /\ (forall j, (i <= j)%nat -> (j < hi)%nat ->
                      vget (fst st) (k0 + (j - i)) = inv i j))); [exact Hi| |].
    - cbn [fst snd]. split; [lia|]. split; [reflexivity|].
      split; [reflexivity|]. intros j Hj Hj'. lia.
    - intros j [sg k] Hj (Hk & Hl & Hlow & Hset). cbn [fst snd] in *. subst k.
      split; [lia|]. split; [rewrite length_vset; exact Hl|]. split.
      + intros p Hp. rewrite vget_vset_other by lia. apply Hlow. exact Hp.
      + intros j' Hj1 Hj2. destruct (Nat.eq_dec j' j) as [->|Hne].
        * apply vget_vset_same. lia.
        * rewrite vget_vset_other by lia. apply Hset; lia. }
  assert (forall n, (n <= ncv)%nat ->
            let st := for_range 0 n
                        (fun i st =>
                           for_range i ncv
                             (fun j '(sigma, k) => (vset sigma k (inv i j), S k)) st)
                        (sigma0, O) in
            snd st = row_start ncv n
            /\ length (fst st) = length sigma0
            /\ forall i j, (i < n)%nat -> (i <= j)%nat -> (j < ncv)%nat ->
                 vget (fst st) (row_start ncv i + (j - i)) = inv i j) as Hall.
  { intros n Hn. cbv zeta.
    apply (for_range_ind
             (fun n (st : list R * nat) =>
                (n <= ncv)%nat ->
                snd st = row_start ncv n
                /\ length (fst st) = length sigma0
                /\ forall i j, (i < n)%nat -> (i <= j)%nat -> (j < ncv)%nat ->
                     vget (fst st) (row_start ncv i + (j - i)) = inv i j)); [| |exact Hn].
    - intros _. cbn [fst snd]. split; [reflexivity|]. split; [reflexivity|].
      intros i j Hi. lia.
    - intros i [sg k] Hi IH Hle. specialize (IH ltac:(lia)).
      destruct IH as (Hk & Hl & Hget). cbn [fst snd] in Hk, Hl, Hget. subst k.
      pose proof (row_start_lt ncv i ncv ltac:(lia) (le_n _)) as Hroom.
      destruct (Hrow i sg (row_start ncv i) ltac:(lia) ltac:(lia)) as (Hk' & Hl' & Hlow & Hset).
      cbv zeta in Hk', Hl', Hlow, Hset.
      split; [rewrite Hk'; reflexivity|]. split; [congruence|].
      intros i' j Hi' Hij Hj. destruct (Nat.eq_dec i' i) as [->|Hne].
      + apply Hset; assumption.
      + pose proof (row_start_lt ncv i' i ltac:(lia) ltac:(lia)).
        rewrite Hlow by lia. apply Hget; lia. }
  destruct (Hall ncv (le_n _)) as (_ & Hl & Hget). cbv zeta in Hl, Hget.
  split; [exact Hl|]. intros i j Hij Hj. apply Hget; lia.
Qed.

Lemma length_vresize (v : list R) (n : nat) : length (vresize v n) = n.
Proof.
  unfold vresize. rewrite length_app, length_firstn, repeat_length. lia.
Qed.

Lemma row_start_total (ncv : nat) : row_start ncv ncv = (ncv * (ncv + 1) / 2)%nat.
Proof.
  rewrite row_start_closed by lia.
  assert (exists q, (ncv * (ncv - 1) = 2 * q)%nat) as [q Hq].
  { induction ncv as [|n [q IH]]; [exists O; reflexivity|].
    exists (q + n)%nat. destruct n; [simpl in *; lia|].
    replace (S (S n) - 1)%nat with (S n) by lia.
    replace (S n - 1)%nat with n in IH by lia. nia. }
  rewrite Hq, (Nat.mul_comm 2 q), Nat.div_mul by lia.
  replace (ncv * (ncv + 1))%nat with ((ncv * ncv - q) * 2)%nat by nia.
  rewrite Nat.div_mul by lia. reflexivity.
Qed.

(** X2.  A record flagged [multivariate] whose periodicity fields are
    accepted is read as a full-covariance hill: the fields
    [sigma_<j+i>_<j>] fill the lower triangle of a factor [L], and the
    buffer receives, packed by rows of the upper triangle, the inverse of
    [L * L^T]. *)
Theorem scanOneHill_reads_bands :
  forall (matrix_tools : MatrixTools) (args : list ArgValue) (rec : HillRecord)
         (buf : ScanBuffers) (M : Matrix),
    let ncv := getNumberOfArguments args in
    (forall i, (i < ncv)%nat ->
       fst (nth i (f_args rec) (NotPeriodic, 0)) = NotPeriodic
       \/ fst (nth i (f_args rec) (NotPeriodic, 0)) = arg_domain (getPntrToArgument args i)) ->
    f_multivariate rec = "true"%string ->
    f_sigma rec = band_fields ncv M ->
    exists buf',
      scanOneHill args (Some rec) buf = Ok (true, buf')
      /\ sb_multivariate buf' = true
      /\ length (sb_sigma buf') = (ncv * (ncv + 1) / 2)%nat
      /\ forall i j, (i < ncv)%nat -> (j < ncv)%nat ->
           recompose ncv (sb_sigma buf') i j
           = Invert ncv (mult ncv (lower_triangle ncv M) (transpose (lower_triangle ncv M)))
               (Nat.min i j) (Nat.max i j).
Proof.
  intros matrix_tools args rec buf M ncv Hdom Hflag Hsigma.
  unfold scanOneHill.
  match goal with |- context [for_rangeM 0 ?n ?body ?s] =>
    destruct (foldM_total body (seq 0 (n - 0)) s) as [c Hc] end.
  { intros i s0 Hi. apply in_seq in Hi.
    destruct (Hdom i ltac:(unfold ncv; lia)) as [-> | ->]; [cbn; eexists; reflexivity|].
    destruct (arg_domain (getPntrToArgument args i)) as [|lo hi]; cbn.
    - eexists. reflexivity.
    - rewrite !String.eqb_refl. cbn. eexists. reflexivity. }
  unfold for_rangeM. rewrite Hc. cbn [bind]. rewrite Hflag.
  cbn [String.eqb Ascii.eqb Bool.eqb bind]. fold ncv.
  pose proof (scan_bands ncv (f_sigma rec)) as Hscan. cbv zeta in Hscan.
  match type of Hscan with context [fst (fst ?t)] =>
    destruct t as [[lower upper] k] end.
  cbn [fst snd] in Hscan.
  assert (lower = lower_triangle ncv M) as ->.
  { extensionality a. extensionality b. rewrite (proj1 (Hscan a b)).
    unfold lower_triangle.
    destruct (b <=? a)%nat eqn:E1; destruct (a <? ncv)%nat eqn:E2; cbn [andb]; try reflexivity.
    nat_bools. rewrite Hsigma.
    destruct (band_fields_spec ncv M) as [_ Hget].
    rewrite Hget by lia. f_equal. lia. }
  assert (upper = transpose (lower_triangle ncv M)) as ->.
  { extensionality a. extensionality b. rewrite (proj2 (Hscan a b)). reflexivity. }
  eexists. split; [reflexivity|]. cbn [sb_multivariate sb_sigma].
  split; [reflexivity|].
  match goal with |- context [for_range 0 ncv _ (vresize ?s ?n, O)] =>
    destruct (pack_upper ncv
                (Invert ncv (mult ncv (lower_triangle ncv M) (transpose (lower_triangle ncv M))))
                (vresize s n)) as [Hlen Hget]
  end.
  { rewrite length_vresize. symmetry. apply row_start_total. }
  cbv zeta in Hlen, Hget. split.
  - rewrite Hlen. apply length_vresize.
  - intros i j Hi Hj.
    destruct (recompose_rows ncv
                (fst (for_range 0 ncv
                        (fun i st =>
                           for_range i ncv
                             (fun j '(sigma, k) =>
                                (vset sigma k
                                   (Invert ncv (mult ncv (lower_triangle ncv M)
                                                  (transpose (lower_triangle ncv M))) i j),
                                 S k)) st)
                        (vresize (sb_sigma (mkScan (sb_center buf) (sb_sigma buf) (sb_height buf) false))
                           (ncv * (ncv + 1) / 2), O)))
                ncv (le_n _)) as [_ Hm].
    cbv zeta in Hm. unfold recompose. rewrite Hm.
    replace (Nat.min i j <? ncv)%nat with true by (symmetry; apply Nat.ltb_lt; lia).
    replace (Nat.max i j <? ncv)%nat with true by (symmetry; apply Nat.ltb_lt; lia).
    cbn [andb]. apply Hget; lia.
Qed.

Lemma scanOneHill_reads_bands_witness :
  exists buf',
    scanOneHill one_distance (Some (mkRecord 1 [(NotPeriodic, 0.5)] "true" [2] 0.3 1 None))
      (mkScan [0] [0] 0 false) = Ok (true, buf')
    /\ sb_multivariate buf' = true
    /\ length (sb_sigma buf') = 1%nat.
Proof.
  destruct (scanOneHill_reads_bands small_matrix_tools one_distance
              (mkRecord 1 [(NotPeriodic, 0.5)] "true" [2] 0.3 1 None)
              (mkScan [0] [0] 0 false) (fun _ _ => 2)) as (buf' & H1 & H2 & H3 & _).
  - intros i Hi. left. simpl in Hi. assert (i = O) by lia. subst. reflexivity.
  - reflexivity.
  - reflexivity.
  - exists buf'. split; [exact H1 | split; [exact H2 | exact H3]].
Defined.

(** ** The evaluator *)

Lemma for_range_sum_from (f : nat -> R) (lo hi : nat) (a : R) :
  for_range lo hi (fun i acc => acc + f i) a = a + Rsum (map f (seq lo (hi - lo))).
Proof.
  unfold for_range. generalize (seq lo (hi - lo)) as l. intros l. revert a.
  induction l as [|x l IH]; intros a; simpl; [lra|]. rewrite IH. lra.
Qed.

Lemma Rsum_map_scale {A : Type} (c : R) (f : A -> R) (l : list A) :
  Rsum (map (fun x => c * f x) l) = c * Rsum (map f l).
Proof.
  induction l as [|x l IH]; simpl; [lra | rewrite IH; lra].
Qed.

(** Summing the diagonal at half weight and the strict upper triangle of a
    symmetric array gives half the sum over the whole square. *)
Lemma upper_triangle_sum (a : nat -> nat -> R) (n : nat) :
  (forall i j, (i < n)%nat -> (j < n)%nat -> a i j = a j i) ->
  Rsum (map (fun i => Rsum (map (fun j => if (i =? j)%nat then a i j * 0.5 else a i j)
                              (seq i (n - i))))
          (seq 0 n))
  = 0.5 * Rsum (map (fun i => Rsum (map (fun j => a i j) (seq 0 n))) (seq 0 n)).
Proof.
  induction n as [|n IH]; intros Hsym; [simpl; lra|].
  rewrite !Rsum_seq_S.
  replace (S n - n)%nat with 1%nat by lia. cbn [seq map Rsum fold_right].
  rewrite Nat.eqb_refl.
  rewrite (Rsum_map_ext
             (fun i => Rsum (map (fun j => if (i =? j)%nat then a i j * 0.5 else a i j)
                               (seq i (S n - i))))
             (fun i => Rsum (map (fun j => if (i =? j)%nat then a i j * 0.5 else a i j)
                               (seq i (n - i))) + a i n)).
  2:{ intros i Hi. apply in_seq in Hi.
      replace (S n - i)%nat with (S (n - i)) by lia.
      rewrite seq_S, map_app, Rsum_app. cbn [map Rsum fold_right].
      replace (i + (n - i))%nat with n by lia.
      replace (i =? n)%nat with false by (symmetry; apply Nat.eqb_neq; lia). lra. }
  rewrite Rsum_map_plus, IH by (intros i j Hi Hj; apply Hsym; lia).
  rewrite (Rsum_map_ext
             (fun i => Rsum (map (fun j => a i j) (seq 0 (S n))))
             (fun i => Rsum (map (fun j => a i j) (seq 0 n)) + a i n)).
  2:{ intros i _. rewrite Rsum_seq_S. reflexivity. }
  rewrite Rsum_map_plus.
  rewrite (Rsum_map_ext (fun j => a n j) (fun j => a j n)).
  2:{ intros j Hj. apply in_seq in Hj. apply Hsym; lia. }
  lra.
Qed.

Section MultivariateEvaluator.

Context {G : Type}.
Variable args : list ArgValue.
Variable self : MetaD G.
Variable cv : list R.
Variable hill : Gaussian.
Variable M : Matrix.

Let n := length cv.
Let d (i : nat) : R := difference args i (vget (center hill) i) (vget cv i).

Lemma multivariate_dp_spec :
  fst (multivariate_dp args cv hill M)
  = Rsum (map (fun i => Rsum (map (fun j => if (i =? j)%nat then d i * d j * M i j * 0.5
                                            else d i * d j * M i j)
                                (seq i (n - i))))
            (seq 0 n))
  /\ length (snd (multivariate_dp args cv hill M)) = n
  /\ forall j, (j < n)%nat -> vget (snd (multivariate_dp args cv hill M)) j = d j.
Proof.
  unfold multivariate_dp. fold n.
  apply (for_range_ind
           (fun k (acc : R * list R) =>
              fst acc = Rsum (map (fun i => Rsum (map (fun j => if (i =? j)%nat
                                                               then d i * d j * M i j * 0.5
                                                               else d i * d j * M i j)
                                                   (seq i (n - i))))
                               (seq 0 k))
              /\ length (snd acc) = n
              /\ forall j, (j < k)%nat -> vget (snd acc) j = d j)).
  - cbn [fst snd]. split; [reflexivity|]. split; [apply length_vzero|]. intros j Hj. lia.
  - intros i [dp2 dp_] Hi (Hsum & Hlen & Hget). cbn [fst snd] in *. split; [|split].
    + rewrite Rsum_seq_S, <- Hsum.
      rewrite (for_range_ext i n _
                 (fun j acc => acc + (if (i =? j)%nat then d i * d j * M i j * 0.5
                                      else d i * d j * M i j))).
      * apply for_range_sum_from.
      * intros j acc _. fold (d i). fold (d j).
        destruct (i =? j)%nat eqn:E; [apply Nat.eqb_eq in E; subst j|]; reflexivity.
    + rewrite length_vset. exact Hlen.
    + intros j Hj. destruct (Nat.eq_dec j i) as [->|Hne].
      * rewrite vget_vset_same by lia. reflexivity.
      * rewrite vget_vset_other by exact Hne. apply Hget. lia.
Qed.

End MultivariateEvaluator.

Lemma multivariate_quadratic_form
    (args : list ArgValue) (cv : list R) (hill : Gaussian) :
  let n := length cv in
  let M := recompose n (sigma hill) in
  let d i := difference args i (vget (center hill) i) (vget cv i) in
  fst (multivariate_dp args cv hill M)
  = 0.5 * Rsum (map (fun i => Rsum (map (fun j => d i * M i j * d j) (seq 0 n))) (seq 0 n)).
Proof.
  intros n M d.
  destruct (multivariate_dp_spec args cv hill M) as (Hsum & _). rewrite Hsum. fold n. fold d.
  rewrite <- (upper_triangle_sum (fun i j => d i * M i j * d j)).
  - apply Rsum_map_ext. intros i _. apply Rsum_map_ext. intros j _.
    cbv beta. destruct (i =? j)%nat; (unfold d; ring).
  - intros i j _ _. unfold M.
    rewrite (recompose_symmetric n (sigma hill) i j). ring.
Qed.

(** X3.  The full-covariance branch of the evaluator.  With [M] the matrix
    recomposed from the hill's packed vector and [d] the displacement from
    the centre, the exponent is [d2 = 1/2 sum_i sum_j d_i M_ij d_j].  Inside
    the interval and below the cutoff the value is [h exp(-d2)] and entry
    [i] of the derivatives decreases by [h exp(-d2) sum_j M_ij d_j]; outside
    the interval or from the cutoff on, the value is zero and the
    derivatives are left alone. *)
Theorem multivariate_gaussian :
  forall (G : Type) (args : list ArgValue) (self : MetaD G) (cv c s der : list R) (h : R),
    let hill := mkGaussian c s h true in
    let n := length cv in
    let M := recompose n s in
    let d i := difference args i (vget c i) (vget cv i) in
    let d2 := 0.5 * Rsum (map (fun i => Rsum (map (fun j => d i * M i j * d j) (seq 0 n)))
                            (seq 0 n)) in
    (interval_gate self cv = true -> d2 < 6.25 ->
     evaluateGaussian args self cv hill None = (h * exp (- d2), None)
     /\ exists der',
          evaluateGaussian args self cv hill (Some der) = (h * exp (- d2), Some der')
          /\ length der' = length der
          /\ forall i, (i < n)%nat -> (i < length der)%nat ->
               vget der' i
               = vget der i - h * exp (- d2) * Rsum (map (fun j => M i j * d j) (seq 0 n)))
    /\ (interval_gate self cv = false \/ 6.25 <= d2 ->
        forall der0, evaluateGaussian args self cv hill der0 = (0, der0)).
Proof.
  intros G args self cv c s der h hill n M d d2.
  pose proof (multivariate_quadratic_form args cv hill) as Hq. cbv zeta in Hq.
  change (sigma hill) with s in Hq. change (center hill) with c in Hq.
  fold n in Hq. fold M in Hq. fold d in Hq. fold d2 in Hq.
  destruct (multivariate_dp_spec args cv hill M) as (_ & Hlen & Hget).
  change (center hill) with c in Hget. fold n in Hlen, Hget.
  unfold evaluateGaussian. change (multivariate hill) with true. cbv iota.
  change (sigma hill) with s. fold n. fold M.
  destruct (multivariate_dp args cv hill M) as [dp2 dp_]. cbn [fst snd] in Hq, Hlen, Hget.
  subst dp2. unfold DP2CUTOFF. split.
  - intros Hgate Hlt. rewrite Hgate, (proj2 (Rltb_true _ _)) by exact Hlt.
    change (height hill) with h. split; [reflexivity|].
    cbn [option_map]. eexists. split; [reflexivity|].
    rewrite (for_range_ext 0 n _
               (fun i acc => vset acc i
                  (vget acc i
                   + - (h * exp (- d2) * Rsum (map (fun j => M i j * d j) (seq 0 n)))))).
    + destruct (for_range_pointwise n
                  (fun i x => x + - (h * exp (- d2)
                                     * Rsum (map (fun j => M i j * d j) (seq 0 n)))) der)
        as [Hl Hg].
      split; [exact Hl|]. intros i Hi Hi'. rewrite Hg.
      apply Nat.ltb_lt in Hi, Hi'. rewrite Hi, Hi'. cbn [andb]. lra.
    + intros i acc Hi. f_equal. rewrite for_range_sum.
      rewrite (Rsum_map_ext (fun j => vget dp_ j * M i j * (h * exp (- d2)))
                 (fun j => (h * exp (- d2)) * (M i j * d j))).
      * rewrite Rsum_map_scale. lra.
      * intros j Hj. apply in_seq in Hj. cbv beta. rewrite Hget by lia. unfold d. ring.
  - intros [Hgate | Hge] der0.
    + rewrite Hgate. destruct (Rltb d2 6.25); reflexivity.
    + rewrite (proj2 (Rltb_false _ _)) by exact Hge. reflexivity.
Qed.

Lemma multivariate_gaussian_witness :
  evaluateGaussian one_distance (example_bias [] [] false) [1.2]
    (mkGaussian [1.0] [25] 0.3 true) None
  = (0.3 * exp (- (0.5)), None).
Proof.
  destruct (multivariate_gaussian Mesh one_distance (example_bias [] [] false) [1.2] [1.0] [25]
              [0] 0.3) as [Hin _].
  cbv zeta in Hin.
  assert (0.5 * Rsum (map (fun i => Rsum (map (fun j =>
                 difference one_distance i (vget [1.0] i) (vget [1.2] i)
                 * recompose (length [1.2]) [25] i j
                 * difference one_distance j (vget [1.0] j) (vget [1.2] j))
               (seq 0 (length [1.2])))) (seq 0 (length [1.2]))) = 0.5) as Hd2.
  { unfold difference, getPntrToArgument, one_distance, plain_difference, vget, recompose,
      for_range, mset, mzero, Rsum. simpl. unfold vget. simpl. lra. }
  rewrite Hd2 in Hin.
  destruct Hin as [Hv _]; [reflexivity | lra | exact Hv].
Defined.

Lemma for_range_pointwise_id (n : nat) (f : nat -> R -> R) (v : list R) :
  (forall j, (j < n)%nat -> f j (vget v j) = vget v j) ->
  for_range 0 n (fun i d => vset d i (f i (vget d i))) v = v.
Proof.
  intros H. destruct (for_range_pointwise n f v) as [Hlen Hget].
  apply vector_ext; [exact Hlen|]. intros j Hj. rewrite Hget.
  destruct (j <? n)%nat eqn:E; cbn [andb]; [|reflexivity].
  apply Nat.ltb_lt in E. destruct (j <? length v)%nat; [apply H; exact E | reflexivity].
Qed.

(** X4.  At its own centre a hill of either kind has its full height and
    leaves the derivatives as they were, provided the centre is inside the
    interval (and the difference of a value with itself is zero). *)
Theorem hill_peak_at_centre :
  forall (G : Type) (args : list ArgValue) (self : MetaD G) (c s : list R) (h : R)
         (m : bool) (der : option (list R)),
    (forall i, (i < length c)%nat -> difference args i (vget c i) (vget c i) = 0) ->
    interval_gate self c = true ->
    evaluateGaussian args self c (mkGaussian c s h m) der = (h, der).
Proof.
  intros G args self c s h m der Hd Hgate.
  destruct m.
  - unfold evaluateGaussian. change (multivariate (mkGaussian c s h true)) with true. cbv iota.
    destruct (multivariate_dp_spec args c (mkGaussian c s h true)
                (recompose (length c) (sigma (mkGaussian c s h true)))) as (Hsum & Hlen & Hget).
    change (center (mkGaussian c s h true)) with c in Hsum, Hget.
    destruct (multivariate_dp args c (mkGaussian c s h true)
                (recompose (length c) (sigma (mkGaussian c s h true)))) as [dp2 dp_].
    cbn [fst snd] in Hsum, Hlen, Hget.
    assert (dp2 = 0) as ->.
    { rewrite Hsum. apply Rsum_map_zero. intros i Hi. apply in_seq in Hi.
      apply Rsum_map_zero. intros j Hj. apply in_seq in Hj.
      rewrite Hd by lia. destruct (i =? j)%nat; ring. }
    unfold DP2CUTOFF. rewrite (proj2 (Rltb_true 0 6.25)) by lra. rewrite Hgate.
    change (height (mkGaussian c s h true)) with h.
    rewrite Ropp_0, exp_0, Rmult_1_r. f_equal.
    destruct der as [d|]; [|reflexivity]. cbn [option_map]. f_equal.
    apply (for_range_pointwise_id (length c)
             (fun i x => x - for_range 0 (length c)
                               (fun j tmp => tmp + vget dp_ j
                                                   * recompose (length c)
                                                       (sigma (mkGaussian c s h true)) i j * h) 0)).
    intros i Hi. rewrite for_range_sum.
    rewrite Rsum_map_zero; [lra|]. intros j Hj. apply in_seq in Hj.
    rewrite Hget, Hd by lia. ring.
  - rewrite evaluateGaussian_isotropic by reflexivity.
    assert (forall i, (i < length c)%nat ->
              scaled_displacement args c (mkGaussian c s h false) i = 0) as Hz.
    { intros i Hi. unfold scaled_displacement.
      change (center (mkGaussian c s h false)) with c. rewrite Hd by exact Hi. ring. }
    assert (isotropic_dp2 args c (mkGaussian c s h false) = 0) as ->.
    { unfold isotropic_dp2. rewrite Rsum_map_zero; [lra|].
      intros i Hi. apply in_seq in Hi. rewrite Hz by lia. ring. }
    unfold DP2CUTOFF. rewrite (proj2 (Rltb_true 0 6.25)) by lra. rewrite Hgate. cbn [andb].
    change (height (mkGaussian c s h false)) with h.
    rewrite Ropp_0, exp_0, Rmult_1_r. f_equal.
    destruct der as [d|]; [|reflexivity]. cbn [option_map]. f_equal.
    apply (for_range_pointwise_id (length c)
             (fun i x => x + - h * scaled_displacement args c (mkGaussian c s h false) i
                              * vget (invsigma (mkGaussian c s h false)) i)).
    intros i Hi. rewrite Hz by exact Hi. ring.
Qed.

Lemma hill_peak_at_centre_witness :
  evaluateGaussian one_distance (example_bias [] [] false) [1.0]
    (mkGaussian [1.0] [25] 0.3 true) None
  = (0.3, None).
Proof.
  apply (hill_peak_at_centre Mesh one_distance (example_bias [] [] false) [1.0] [25] 0.3 true
           None).
  - intros i Hi. simpl in Hi. assert (i = O) by lia. subst.
    unfold difference, getPntrToArgument, one_distance, plain_difference, vget. simpl. lra.
  - reflexivity.
Defined.

Section IsotropicBounds.

Context {G : Type}.
Variable args : list ArgValue.
Variable self : MetaD G.

Lemma isotropic_dp2_nonneg (cv : list R) (hill : Gaussian) : 0 <= isotropic_dp2 args cv hill.
Proof.
  unfold isotropic_dp2.
  assert (0 <= Rsum (map (fun i => scaled_displacement args cv hill i
                                   * scaled_displacement args cv hill i)
                       (seq 0 (length cv)))); [|lra].
  apply Rsum_nonneg. intros x Hx. apply in_map_iff in Hx. destruct Hx as (i & <- & _).
  apply Rle_0_sqr.
Qed.

Lemma isotropic_value_range (cv : list R) (hill : Gaussian) :
  multivariate hill = false -> 0 <= height hill ->
  0 <= hill_value args self cv hill <= height hill
  /\ (hill_value args self cv hill = 0
      \/ height hill * exp (- 6.25) < hill_value args self cv hill).
Proof.
  intros Hm Hh. unfold hill_value. rewrite evaluateGaussian_isotropic by exact Hm.
  pose proof (isotropic_dp2_nonneg cv hill) as Hd.
  destruct (Rltb (isotropic_dp2 args cv hill) DP2CUTOFF) eqn:E;
    [destruct (interval_gate self cv)|]; cbn [andb fst]; try (split; [lra | left; reflexivity]).
  apply Rltb_true in E. unfold DP2CUTOFF in E.
  set (x := isotropic_dp2 args cv hill) in *.
  pose proof (exp_pos (- x)) as Hpos.
  assert (exp (- x) <= 1) as Hle.
  { rewrite <- exp_0. destruct (Req_dec x 0) as [->|Hx]; [rewrite Ropp_0; lra|].
    left. apply exp_increasing. lra. }
  assert (exp (- 6.25) < exp (- x)) as Hgap by (apply exp_increasing; lra).
  split.
  - split; [apply Rmult_le_pos; lra|].
    rewrite <- (Rmult_1_r (height hill)) at 2. apply Rmult_le_compat_l; lra.
  - destruct (Req_dec (height hill) 0) as [Hz|Hnz]; [left; rewrite Hz; ring|].
    right. apply Rmult_lt_compat_l; lra.
Qed.

End IsotropicBounds.

(** X5.  An isotropic hill of non-negative height contributes a value
    between zero and its height, and the cutoff leaves a gap: the value is
    either zero or above [height * exp(-6.25)]. *)
Theorem isotropic_value_bounds :
  forall (G : Type) (args : list ArgValue) (self : MetaD G) (cv : list R)
         (hill : Gaussian) (der : option (list R)),
    multivariate hill = false -> 0 <= height hill ->
    0 <= fst (evaluateGaussian args self cv hill der) <= height hill
    /\ (fst (evaluateGaussian args self cv hill der) = 0
        \/ height hill * exp (- 6.25) < fst (evaluateGaussian args self cv hill der)).
Proof.
  intros G args self cv hill der Hm Hh.
  assert (fst (evaluateGaussian args self cv hill der) = hill_value args self cv hill) as ->.
  { unfold hill_value. rewrite !evaluateGaussian_isotropic by exact Hm.
    destruct (Rltb (isotropic_dp2 args cv hill) DP2CUTOFF && interval_gate self cv)%bool;
      reflexivity. }
  apply isotropic_value_range; assumption.
Qed.

Lemma isotropic_value_bounds_witness :
  0 <= fst (evaluateGaussian one_distance (example_bias [] [] false) [1.7] unit_hill None) <= 1.
Proof.
  apply (isotropic_value_bounds Mesh one_distance (example_bias [] [] false) [1.7] unit_hill
           None).
  - reflexivity.
  - simpl. lra.
Defined.

Lemma Rsum_map_bounds {A : Type} (f g : A -> R) (l : list A) :
  (forall x, In x l -> 0 <= f x <= g x) ->
  0 <= Rsum (map f l) <= Rsum (map g l).
Proof.
  induction l as [|x l IH]; intros H; simpl; [lra|].
  pose proof (H x (or_introl eq_refl)).
  assert (0 <= Rsum (map f l) <= Rsum (map g l)) by (apply IH; intros y Hy; apply H; right; exact Hy).
  lra.
Qed.

Lemma list_bias_as_sum {G : Type} {grid_ops : GridLike G} (args : list ArgValue)
    (P rank : nat) (self : MetaD G) (cv : list R) :
  (1 <= P)%nat -> grid_ self = false ->
  fst (getBiasAndDerivatives args P rank self cv None)
  = Rsum (map (fun hill => hill_value args self cv hill) (hills_ self)).
Proof.
  intros HP Hlist.
  destruct (list_bias_closed_form args self cv P HP rank Hlist) as [HN _].
  rewrite HN. cbn [fst].
  rewrite <- (map_nth_seq (hills_ self) null_hill) at 2. rewrite map_map. reflexivity.
Qed.


(** X6.  With isotropic hills of non-negative height the list-mode bias lies
    between zero and the sum of the heights. *)
Theorem list_bias_bounds :
  forall (G : Type) (grid_ops : GridLike G) (args : list ArgValue) (P rank : nat)
         (self : MetaD G) (cv : list R),
    (1 <= P)%nat -> grid_ self = false ->
    (forall hill, In hill (hills_ self) -> multivariate hill = false /\ 0 <= height hill) ->
    0 <= fst (getBiasAndDerivatives args P rank self cv None)
      <= Rsum (map height (hills_ self)).
Proof.
  intros G grid_ops args P rank self cv HP Hlist Hh.
  rewrite list_bias_as_sum by assumption.
  apply Rsum_map_bounds. intros hill Hin. destruct (Hh hill Hin) as [Hm H0].
  apply (isotropic_value_range args self cv hill Hm H0).
Qed.

Lemma list_bias_bounds_witness :
  0 <= fst (getBiasAndDerivatives one_distance 1 0 (example_bias [unit_hill] [] false) [1.1]
              None)
    <= Rsum (map height [unit_hill]).
Proof.
  apply (list_bias_bounds Mesh mesh_grid one_distance 1 0 (example_bias [unit_hill] [] false)
           [1.1]).
  - lia.
  - reflexivity.
  - intros hill [<- | []]. split; [reflexivity | simpl; lra].
Defined.




(** ** The list accumulator *)

Lemma list_gradient_as_sum {G : Type} {grid_ops : GridLike G} (args : list ArgValue)
    (P rank : nat) (self : MetaD G) (cv : list R) :
  (1 <= P)%nat -> grid_ self = false ->
  snd (getBiasAndDerivatives args P rank self cv (Some (vzero (getNumberOfArguments args))))
  = Some (map (fun j => Rsum (map (fun hill => hill_gradient args self cv hill j) (hills_ self)))
            (seq 0 (getNumberOfArguments args))).
Proof.
  intros HP Hlist.
  destruct (list_bias_closed_form args self cv P HP rank Hlist) as [_ HS].
  rewrite HS. cbn [snd]. f_equal. unfold vadd. rewrite length_vzero.
  apply map_ext_in. intros j Hj. rewrite vget_vzero, Rplus_0_l.
  rewrite <- (map_nth_seq (hills_ self) null_hill) at 2. rewrite map_map. reflexivity.
Qed.

Lemma list_bias_with_buffer {G : Type} {grid_ops : GridLike G} (args : list ArgValue)
    (P rank : nat) (self : MetaD G) (cv : list R) :
  (1 <= P)%nat -> grid_ self = false ->
  fst (getBiasAndDerivatives args P rank self cv (Some (vzero (getNumberOfArguments args))))
  = Rsum (map (fun hill => hill_value args self cv hill) (hills_ self)).
Proof.
  intros HP Hlist.
  destruct (list_bias_closed_form args self cv P HP rank Hlist) as [_ HS].
  rewrite HS. cbn [fst].
  rewrite <- (map_nth_seq (hills_ self) null_hill) at 2. rewrite map_map. reflexivity.
Qed.

Lemma copy_arguments (n : nat) (argv : list R) :
  for_range 0 n (fun i cv => vset cv i (vget argv i)) (vzero n) = map (vget argv) (seq 0 n).
Proof.
  destruct (for_range_pointwise n (fun i _ => vget argv i) (vzero n)) as [Hlen Hget].
  apply vector_ext.
  - rewrite Hlen, length_vzero, length_map, length_seq. reflexivity.
  - intros i Hi. rewrite Hlen, length_vzero in Hi. rewrite Hget, length_vzero.
    apply Nat.ltb_lt in Hi as Hb. rewrite Hb. cbn [andb].
    rewrite vget_map_seq by exact Hi. reflexivity.
Qed.

(** X8.  In list mode [addGaussian] changes the bias by exactly the new
    hill: at every point the bias grows by the hill's value and each
    derivative by the hill's gradient. *)
Theorem deposit_adds_hill :
  forall (G : Type) (grid_ops : GridLike G) (matrix_tools : MatrixTools)
         (args : list ArgValue) (P rank : nat) (self : MetaD G) (hill : Gaussian)
         (cv : list R),
    (1 <= P)%nat -> grid_ self = false ->
    let zero := vzero (getNumberOfArguments args) in
    let after := addGaussian args P rank self hill in
    fst (getBiasAndDerivatives args P rank after cv None)
    = fst (getBiasAndDerivatives args P rank self cv None) + hill_value args self cv hill
    /\ forall j, (j < getNumberOfArguments args)%nat ->
         vget (der_buffer (snd (getBiasAndDerivatives args P rank after cv (Some zero)))) j
         = vget (der_buffer (snd (getBiasAndDerivatives args P rank self cv (Some zero)))) j
           + hill_gradient args self cv hill j.
Proof.
  intros G grid_ops matrix_tools args P rank self hill cv HP Hlist zero after.
  assert (after = with_hills self (hills_ self ++ [hill])) as ->.
  { unfold after, addGaussian. rewrite Hlist. reflexivity. }
  split.
  - rewrite !list_bias_as_sum by assumption.
    cbn [hills_ with_hills]. rewrite map_app, Rsum_app. cbn [map Rsum fold_right].
    unfold hill_value, evaluateGaussian, interval_gate. cbn [doInt_ lowI_ uppI_ with_hills]. lra.
  - intros j Hj. unfold zero. rewrite !list_gradient_as_sum by assumption.
    cbn [der_buffer hills_ with_hills]. rewrite !vget_map_seq by exact Hj.
    rewrite map_app, Rsum_app. cbn [map Rsum fold_right].
    unfold hill_gradient, evaluateGaussian, interval_gate. cbn [doInt_ lowI_ uppI_ with_hills]. lra.
Qed.

Lemma deposit_adds_hill_witness :
  fst (getBiasAndDerivatives one_distance 1 0
         (addGaussian one_distance 1 0 (example_bias [] [] false) unit_hill) [1.1] None)
  = fst (getBiasAndDerivatives one_distance 1 0 (example_bias [] [] false) [1.1] None)
    + hill_value one_distance (example_bias [] [] false) [1.1] unit_hill.
Proof.
  apply (deposit_adds_hill Mesh mesh_grid small_matrix_tools one_distance 1 0
           (example_bias [] [] false) unit_hill [1.1]).
  - lia.
  - reflexivity.
Defined.

(** X9.  In list mode [calculate] sets the bias to the sum of the stored
    hills' values at the current arguments and the force on argument [i] to
    minus the sum of their gradients along [i], whatever the number of
    processes sharing the loop. *)
Theorem calculate_sums_hills :
  forall (G : Type) (grid_ops : GridLike G) (args : list ArgValue) (P rank : nat)
         (self : MetaD G) (argv : list R),
    (1 <= P)%nat -> grid_ self = false ->
    let ncv := getNumberOfArguments args in
    let cv := map (vget argv) (seq 0 ncv) in
    calculate args P rank self argv
    = (Rsum (map (fun hill => hill_value args self cv hill) (hills_ self)),
       map (fun i => - Rsum (map (fun hill => hill_gradient args self cv hill i) (hills_ self)))
         (seq 0 ncv)).
Proof.
  intros G grid_ops args P rank self argv HP Hlist ncv cv.
  unfold calculate. fold ncv. rewrite copy_arguments. fold cv.
  pose proof (list_bias_with_buffer args P rank self cv HP Hlist) as Hb.
  pose proof (list_gradient_as_sum args P rank self cv HP Hlist) as Hg.
  fold ncv in Hb, Hg.
  destruct (getBiasAndDerivatives args P rank self cv (Some (vzero ncv))) as [ene der'].
  cbn [fst snd] in Hb, Hg. subst ene der'. f_equal. cbn [der_buffer].
  rewrite (for_range_append
             (fun i => - vget (map (fun j => Rsum (map (fun hill => hill_gradient args self cv hill j)
                                                     (hills_ self))) (seq 0 ncv)) i)).
  apply map_ext_in. intros i Hi. apply in_seq in Hi.
  rewrite vget_map_seq by lia. reflexivity.
Qed.

Lemma calculate_sums_hills_witness :
  calculate one_distance 1 0 (example_bias [unit_hill] [] false) [1.1]
  = (hill_value one_distance (example_bias [unit_hill] [] false) [1.1] unit_hill + 0,
     [- (hill_gradient one_distance (example_bias [unit_hill] [] false) [1.1] unit_hill 0 + 0)]).
Proof.
  apply (calculate_sums_hills Mesh mesh_grid one_distance 1 0
           (example_bias [unit_hill] [] false) [1.1]).
  - lia.
  - reflexivity.
Defined.

(** ** Reading hills files *)

Lemma foldM_pure {St A : Type} (body : A -> St -> result St) (f : A -> St -> St) (l : list A) :
  (forall a s, In a l -> body a s = Ok (f a s)) ->
  forall s, foldM body l s = Ok (fold_left (fun acc a => f a acc) l s).
Proof.
  induction l as [|a l IH]; intros H s; simpl; [reflexivity|].
  rewrite H by (left; reflexivity). cbn [bind]. apply IH.
  intros b s0 Hb. apply H. right. exact Hb.
Qed.

Lemma foldM_fatal_state {St A : Type} (body : A -> St -> result St) (l : list A) :
  (forall a s s', is_fatal (body a s) = is_fatal (body a s')) ->
  forall s s', is_fatal (foldM body l s) = is_fatal (foldM body l s').
Proof.
  intros H. induction l as [|a l IH]; intros s s'; simpl; [reflexivity|].
  specialize (H a s s').
  destruct (body a s) as [s1|m1]; destruct (body a s') as [s2|m2]; cbn [bind is_fatal] in *;
    try discriminate; [apply IH | reflexivity].
Qed.

Section ReadingRecords.

Context {G : Type} {grid_ops : GridLike G} {matrix_tools : MatrixTools}.
Variable args : list ArgValue.
Variables comm_size comm_rank : nat.

Let ncv := getNumberOfArguments args.

Lemma scanOneHill_fatal_buffer (rec : HillRecord) (buf buf' : ScanBuffers) :
  is_fatal (scanOneHill args (Some rec) buf) = is_fatal (scanOneHill args (Some rec) buf').
Proof.
  unfold scanOneHill, for_rangeM.
  match goal with
  | |- is_fatal (bind (foldM ?body ?l ?s) _) = is_fatal (bind (foldM ?body ?l ?s') _) =>
      assert (is_fatal (foldM body l s) = is_fatal (foldM body l s')) as Hf;
      [apply foldM_fatal_state; intros a s0 s1; cbv beta;
       match goal with |- is_fatal (bind ?c _) = is_fatal (bind ?c _) =>
         destruct c; reflexivity end
      |destruct (foldM body l s); destruct (foldM body l s'); cbn [bind is_fatal] in *;
       try discriminate; try reflexivity]
  end.
  destruct (String.eqb (f_multivariate rec) "true"); [reflexivity|].
  destruct (String.eqb (f_multivariate rec) "false"); reflexivity.
Qed.

Lemma scanOneHill_isotropic (rec : HillRecord) (buf : ScanBuffers) :
  isotropic_record args rec ->
  length (sb_center buf) = ncv -> length (sb_sigma buf) = ncv ->
  scanOneHill args (Some rec) buf
  = Ok (true, mkScan (map snd (f_args rec)) (f_sigma rec) (f_height rec) false).
Proof.
  intros (Hdom & Hflag & Hargs & Hsig) Hc Hs. unfold scanOneHill, for_rangeM.
  rewrite (foldM_pure _ (fun i center => vset center i (snd (nth i (f_args rec) (NotPeriodic, 0))))).
  - cbn [bind]. rewrite Hflag. cbn [String.eqb Ascii.eqb Bool.eqb bind].
    do 2 f_equal. f_equal.
    + change (for_range 0 (getNumberOfArguments args)
                (fun i center => vset center i (snd (nth i (f_args rec) (NotPeriodic, 0))))
                (sb_center buf) = map snd (f_args rec)).
      destruct (for_range_pointwise (getNumberOfArguments args)
                  (fun i _ => snd (nth i (f_args rec) (NotPeriodic, 0))) (sb_center buf))
        as [Hlen Hget].
      apply vector_ext.
      * rewrite Hlen, length_map. fold ncv in Hargs. congruence.
      * intros i Hi. rewrite Hlen in Hi. rewrite Hget.
        fold ncv. rewrite Hc in *. apply Nat.ltb_lt in Hi as Hb. rewrite Hb. cbn [andb].
        unfold vget. rewrite (nth_indep _ 0 (snd (NotPeriodic, 0))) by (rewrite length_map; lia).
        rewrite map_nth. reflexivity.
    + destruct (for_range_pointwise (getNumberOfArguments args)
                  (fun i _ => vget (f_sigma rec) i) (sb_sigma buf)) as [Hlen Hget].
      apply vector_ext.
      * cbn [sb_sigma]. rewrite Hlen. fold ncv in Hsig. congruence.
      * intros i Hi. cbn [sb_sigma] in *. rewrite Hlen in Hi. rewrite Hget.
        fold ncv. rewrite Hs in *. apply Nat.ltb_lt in Hi as Hb. rewrite Hb. reflexivity.
  - intros i s0 Hi. apply in_seq in Hi.
    destruct (Hdom i ltac:(lia)) as [-> | ->]; [reflexivity|].
    destruct (arg_domain (getPntrToArgument args i)) as [|lo hi]; cbn; [reflexivity|].
    rewrite !String.eqb_refl. reflexivity.
Qed.

End ReadingRecords.

Lemma with_hills_same {G : Type} (self : MetaD G) : with_hills self (hills_ self) = self.
Proof. destruct self; reflexivity. Qed.

Lemma with_hills_twice {G : Type} (self : MetaD G) (a b : list Gaussian) :
  with_hills (with_hills self a) b = with_hills self b.
Proof. reflexivity. Qed.

Lemma replayed_hill_with_hills {G : Type} (self : MetaD G) (a : list Gaussian)
    (rec : HillRecord) :
  replayed_hill (with_hills self a) rec = replayed_hill self rec.
Proof. reflexivity. Qed.

Section Replay.

Context {G : Type} {grid_ops : GridLike G} {matrix_tools : MatrixTools}.
Variable args : list ArgValue.
Variables comm_size comm_rank : nat.

Let ncv := getNumberOfArguments args.

Lemma readGaussians_loop_fatal (records : list HillRecord) :
  forall (self : MetaD G) (buf : ScanBuffers) (n : nat),
    is_fatal (readGaussians_loop args comm_size comm_rank records self buf n)
    = existsb (fun rec => is_fatal (scanOneHill args (Some rec) (mkScan [] [] 0 false)))
        records.
Proof.
  induction records as [|rec rest IH]; intros self buf n; cbn [readGaussians_loop existsb].
  - reflexivity.
  - rewrite (scanOneHill_fatal_buffer args rec (mkScan [] [] 0 false) buf).
    destruct (scanOneHill args (Some rec) buf) as [r|m]; cbn [bind is_fatal orb];
      [apply IH | reflexivity].
Qed.

Lemma readGaussians_loop_isotropic (records : list HillRecord) :
  forall (self : MetaD G) (buf : ScanBuffers) (n : nat),
    grid_ self = false ->
    Forall (isotropic_record args) records ->
    length (sb_center buf) = ncv -> length (sb_sigma buf) = ncv ->
    readGaussians_loop args comm_size comm_rank records self buf n
    = Ok (with_hills self (hills_ self ++ map (replayed_hill self) records),
          (n + length records)%nat).
Proof.
  induction records as [|rec rest IH]; intros self buf n Hlist Hrec Hc Hs;
    cbn [readGaussians_loop].
  - cbn [scanOneHill bind map length]. unfold scanOneHill. cbn [bind].
    rewrite app_nil_r, with_hills_same, Nat.add_0_r. reflexivity.
  - inversion Hrec as [|? ? Hhead Htail]; subst.
    rewrite (scanOneHill_isotropic args rec buf Hhead Hc Hs). cbn [bind snd].
    cbn [sb_center sb_sigma sb_height sb_multivariate].
    assert (addGaussian args comm_size comm_rank self
              (mkGaussian (map snd (f_args rec)) (f_sigma rec)
                 (if welltemp_ self
                  then f_height rec * ((biasf_ self - 1.0) / biasf_ self)
                  else f_height rec) false)
            = with_hills self (hills_ self ++ [replayed_hill self rec])) as ->.
    { unfold addGaussian. rewrite Hlist. reflexivity. }
    destruct Hhead as (_ & _ & Hargs & Hsig).
    rewrite IH; try assumption.
    + rewrite with_hills_twice.
      change (hills_ (with_hills self (hills_ self ++ [replayed_hill self rec])))
        with (hills_ self ++ [replayed_hill self rec]).
      rewrite (map_ext _ _ (replayed_hill_with_hills self _)).
      rewrite <- app_assoc. cbn [app map length].
      replace (S n + length rest)%nat with (n + S (length rest))%nat by lia. reflexivity.
    + cbn [sb_center]. rewrite length_map. exact Hargs.
Qed.

End Replay.

(** X10.  [readGaussians] ends in a fatal error exactly when the file holds
    a record that [scanOneHill] rejects; what is accumulated so far, the
    mode and the buffers play no part. *)
Theorem readGaussians_fails_iff_a_record_is_rejected :
  forall (G : Type) (grid_ops : GridLike G) (matrix_tools : MatrixTools)
         (args : list ArgValue) (P rank : nat) (self : MetaD G) (records : list HillRecord),
    is_fatal (readGaussians args P rank self records)
    = existsb (fun rec => is_fatal (scanOneHill args (Some rec) (mkScan [] [] 0 false))) records.
Proof.
  intros. unfold readGaussians. apply readGaussians_loop_fatal.
Qed.

(** X11.  In list mode a file of isotropic records is replayed hill by
    hill: the hills are appended in file order, each with the centre and
    widths of its record and the height scaled back by
    [(biasf - 1) / biasf] when well-tempered, and the count returned is the
    number of records. *)
Theorem readGaussians_appends_hills :
  forall (G : Type) (grid_ops : GridLike G) (matrix_tools : MatrixTools)
         (args : list ArgValue) (P rank : nat) (self : MetaD G) (records : list HillRecord),
    grid_ self = false ->
    Forall (isotropic_record args) records ->
    readGaussians args P rank self records
    = Ok (with_hills self
            (hills_ self
             ++ map (fun rec => mkGaussian (map snd (f_args rec)) (f_sigma rec)
                                  (if welltemp_ self
                                   then f_height rec * ((biasf_ self - 1.0) / biasf_ self)
                                   else f_height rec) false)
                  records),
          length records).
Proof.
  intros G grid_ops matrix_tools args P rank self records Hlist Hrec.
  unfold readGaussians.
  rewrite (readGaussians_loop_isotropic args P rank records self _ O Hlist Hrec)
    by apply length_vzero.
  reflexivity.
Qed.

Lemma readGaussians_appends_hills_witness :
  readGaussians one_distance 1 0 (example_bias [] [] false) [plain_record]
  = Ok (example_bias [mkGaussian [0.5] [0.2] 0.3 false] [] false, 1%nat).
Proof.
  apply (readGaussians_appends_hills Mesh mesh_grid small_matrix_tools one_distance 1 0
           (example_bias [] [] false) [plain_record]).
  - reflexivity.
  - constructor; [|constructor].
    unfold isotropic_record. split; [|split; [|split]]; try reflexivity.
    intros i Hi. left. simpl in Hi. assert (i = O) by lia. subst. reflexivity.
Defined.

Lemma map_vget_seq (v : list R) : map (vget v) (seq 0 (length v)) = v.
Proof. apply map_nth_seq. Qed.

Section WrittenRecords.

Context {G : Type} {grid_ops : GridLike G} {matrix_tools : MatrixTools}.
Variable args : list ArgValue.
Variable timeStep : R.

Let ncv := getNumberOfArguments args.

Lemma hill_record_of (self : MetaD G) (c s : list R) (h : R) (step now : Z) :
  length c = ncv -> length s = ncv ->
  record_of args self (mkGaussian c s h false)
    (hill_record args timeStep self (mkGaussian c s h false) step now).
Proof.
  intros Hc Hs.
  destruct (hill_record_fields args timeStep self (mkGaussian c s h false) step now)
    as (Hheight & Hflag & Hargs & _).
  assert (f_sigma (hill_record args timeStep self (mkGaussian c s h false) step now) = s) as Hsig.
  { unfold hill_record. change (multivariate (mkGaussian c s h false)) with false. cbv iota.
    cbn [f_sigma]. change (sigma (mkGaussian c s h false)) with s.
    rewrite (for_range_append (vget s)). fold ncv. rewrite <- Hs. apply map_nth_seq. }
  unfold record_of. split; [|split; [|split; [|split]]].
  - unfold isotropic_record. split; [|split; [|split]].
    + intros i Hi. right. rewrite Hargs.
      rewrite (nth_indep _ _ (arg_domain (getPntrToArgument args 0),
                              vget (center (mkGaussian c s h false)) 0))
        by (rewrite length_map, length_seq; exact Hi).
      rewrite (map_nth (fun i => (arg_domain (getPntrToArgument args i),
                                  vget (center (mkGaussian c s h false)) i))).
      rewrite seq_nth by exact Hi. reflexivity.
    + rewrite Hflag. reflexivity.
    + rewrite Hargs, length_map, length_seq. reflexivity.
    + rewrite Hsig. exact Hs.
  - reflexivity.
  - rewrite Hargs, map_map. cbn [snd].
    change (center (mkGaussian c s h false)) with c.
    fold ncv. rewrite <- Hc. apply map_nth_seq.
  - exact Hsig.
  - exact Hheight.
Qed.

Lemma record_of_ext (a b : MetaD G) (hill : Gaussian) (rec : HillRecord) :
  welltemp_ b = welltemp_ a -> biasf_ b = biasf_ a ->
  record_of args a hill rec -> record_of args b hill rec.
Proof.
  intros Hw Hb (H1 & H2 & H3 & H4 & H5).
  unfold record_of, written_height in *. rewrite Hw, Hb.
  split; [exact H1|]. split; [exact H2|]. split; [exact H3|]. split; [exact H4 | exact H5].
Qed.

(** Records that agree, on the fields the reader uses, with the records of
    the hills replay to those hills as they come back. *)
Lemma replay_of_written (self : MetaD G) (hills : list Gaussian)
    (written records : list HillRecord) :
  Forall2 (record_of args self) hills written ->
  Forall2 same_fields records written ->
  Forall (isotropic_record args) records
  /\ map (replayed_hill self) records = map (read_back self) hills.
Proof.
  intros Hw. revert records.
  induction Hw as [|hill w hills written Hrec Hrest IH]; intros records Hsame.
  - inversion Hsame. subst. split; [constructor | reflexivity].
  - inversion Hsame as [|r w' records' written' Hf Hsame']. subst.
    destruct (IH records' Hsame') as [Hiso Hmap].
    destruct Hf as (Fa & Fm & Fs & Fh).
    destruct Hrec as ((Hdom & Hflag & Hla & Hls) & _ & Hc & Hsg & Hh).
    split.
    + constructor; [|exact Hiso].
      unfold isotropic_record, domains_accepted. rewrite Fa, Fm, Fs.
      split; [exact Hdom|]. split; [exact Hflag|]. split; assumption.
    + cbn [map]. rewrite Hmap. f_equal.
      unfold replayed_hill, read_back. rewrite Fa, Fs, Fh, Hc, Hsg, Hh. reflexivity.
Qed.

End WrittenRecords.

(** X12.  In a single-walker, list-mode run with fixed widths the hills in
    memory and the records written go in step: [update] keeps each record
    the record of its hill (same centre and widths, height scaled by
    [biasf/(biasf-1)] when well-tempered).  So records read with the fields
    they were written with replay, into an empty list, to the hills of the
    run as they come back: same centres and widths, each height [h] as
    [h * (biasf/(biasf-1)) * ((biasf-1)/biasf)] when well-tempered and as
    [h] itself otherwise. *)
Theorem written_records_replay_hills :
  forall (G : Type) (grid_ops : GridLike G) (matrix_tools : MatrixTools)
         (args : list ArgValue) (P rank : nat) (kB dt : R) (self self' : MetaD G)
         (step : Z) (argv flexinv : list R) (fs : FileSystem) (now : Z),
    grid_ self = false -> adaptive_ self = adaptive_none ->
    length (sigma0_ self) = getNumberOfArguments args ->
    (mw_n_ self <= 1)%Z ->
    in_step args self ->
    update args P rank kB dt self step argv flexinv fs now = Ok self' ->
    in_step args self'
    /\ forall records,
         Forall2 same_fields records (hillsOfile_ self') ->
         readGaussians args P rank (with_hills self' []) records
         = Ok (with_hills self' (map (read_back self') (hills_ self')), length records).
Proof.
  intros G grid_ops matrix_tools args P rank kB dt self self' step argv flexinv fs now
    Hlist Hada Hsig Hone Hstep Hupd.
  rewrite update_unfold in Hupd.
  replace (mw_n_ self >? 1)%Z with false in Hupd
    by (symmetry; rewrite Z.gtb_ltb; apply Z.ltb_ge; exact Hone).
  cbn [andb] in Hupd. inversion Hupd as [Hs]. clear Hupd.
  assert (in_step args (after_deposit args P rank kB dt self step argv flexinv now)
          /\ grid_ (after_deposit args P rank kB dt self step argv flexinv now) = false)
    as [Hnew Hlist'].
  { unfold after_deposit. destruct (deposit_now self step).
    - unfold new_hill. rewrite Hada. cbn [is_adaptive]. rewrite copy_arguments.
      set (cv := map (vget argv) (seq 0 (getNumberOfArguments args))).
      set (h := getHeight args P rank kB self cv).
      assert (addGaussian args P rank self (mkGaussian cv (sigma0_ self) h false)
              = with_hills self (hills_ self ++ [mkGaussian cv (sigma0_ self) h false])) as ->.
      { unfold addGaussian. rewrite Hlist. reflexivity. }
      split; [|exact Hlist]. unfold in_step, writeGaussian.
      cbn [hillsOfile_ hills_ with_hillsOfile with_hills].
      apply Forall2_app.
      + eapply Forall2_impl; [|exact Hstep].
        intros hill rec. apply record_of_ext; reflexivity.
      + constructor; [|constructor].
        apply (record_of_ext args
                 (with_hills self (hills_ self ++ [mkGaussian cv (sigma0_ self) h false])));
          [reflexivity | reflexivity |].
        apply hill_record_of; [|exact Hsig].
        unfold cv. rewrite length_map, length_seq. reflexivity.
    - split; [|exact Hlist]. unfold in_step, with_isFirstStep. cbn [hills_ hillsOfile_].
      eapply Forall2_impl; [|exact Hstep].
      intros hill rec. apply record_of_ext; reflexivity. }
  split; [exact Hnew|].
  intros records Hsame.
  destruct (replay_of_written args _ _ _ records Hnew Hsame) as [Hiso Hmap].
  unfold readGaussians.
  rewrite (readGaussians_loop_isotropic args P rank records
             (with_hills (after_deposit args P rank kB dt self step argv flexinv now) [])
             _ O Hlist' Hiso) by apply length_vzero.
  cbn [hills_ with_hills app Nat.add]. rewrite with_hills_twice.
  rewrite (map_ext _ _ (replayed_hill_with_hills
                          (after_deposit args P rank kB dt self step argv flexinv now) [])).
  rewrite Hmap. reflexivity.
Qed.

Lemma written_records_replay_hills_witness :
  readGaussians one_distance 1 0
    (example_bias []
       [hill_record one_distance 1 (example_bias [mkGaussian [1.0] [0.2] 0.3 false] [] false)
          (mkGaussian [1.0] [0.2] 0.3 false) 500 0]
       false)
    [mkRecord 500 [(NotPeriodic, 1.0)] "false" [0.2] 0.3 1.0 None]
  = Ok (example_bias [mkGaussian [1.0] [0.2] 0.3 false]
          [hill_record one_distance 1
             (example_bias [mkGaussian [1.0] [0.2] 0.3 false] [] false)
             (mkGaussian [1.0] [0.2] 0.3 false) 500 0]
          false, 1%nat).
Proof.
  refine (proj2 (written_records_replay_hills Mesh mesh_grid small_matrix_tools one_distance
                   1 0 1 1 (example_bias [] [] false) _ 500 [1.0] [] no_files 0 _ _ _ _ _
                   (example_deposition 1 1))
            [mkRecord 500 [(NotPeriodic, 1.0)] "false" [0.2] 0.3 1.0 None] _).
  - reflexivity.
  - reflexivity.
  - reflexivity.
  - simpl. lia.
  - constructor.
  - constructor; [|constructor]. repeat split.
Defined.

Section Chunk.

Context {G : Type} {grid_ops : GridLike G} {matrix_tools : MatrixTools}.
Variable args : list ArgValue.
Variables comm_size comm_rank : nat.

Lemma readChunkOfGaussians_loop_spec (records : list HillRecord) :
  forall (self : MetaD G) (buf : ScanBuffers) (n nhills k : nat),
    (nhills <= n)%nat ->
    readChunkOfGaussians_loop args comm_size comm_rank records self buf n nhills
    = (r <- readGaussians_loop args comm_size comm_rank
              (firstn (S (n - nhills)) records) self buf k ;;
       Ok (fst r, (n - nhills <? length records)%nat,
           (nhills + Nat.min (n - nhills) (length records))%nat,
           skipn (S (n - nhills)) records)).
Proof.
  induction records as [|rec rest IH]; intros self buf n nhills k Hle;
    cbn [readChunkOfGaussians_loop].
  - cbn [firstn readGaussians_loop]. unfold scanOneHill. cbn [bind fst skipn length].
    rewrite Nat.min_0_r, Nat.add_0_r. reflexivity.
  - cbn [firstn readGaussians_loop skipn length].
    destruct (scanOneHill args (Some rec) buf) as [r|m]; cbn [bind]; [|reflexivity].
    destruct (nhills =? n)%nat eqn:E.
    + apply Nat.eqb_eq in E. subst nhills. rewrite Nat.sub_diag.
      cbn [firstn readGaussians_loop]. unfold scanOneHill at 1. cbn [bind fst skipn].
      rewrite Nat.add_0_r. reflexivity.
    + apply Nat.eqb_neq in E.
      rewrite (IH _ _ n (S nhills) (S k)) by lia.
      replace (n - nhills)%nat with (S (n - S nhills)) by lia.
      cbn [skipn].
      replace (S (n - S nhills) <? S (length rest))%nat with (n - S nhills <? length rest)%nat
        by reflexivity.
      replace (nhills + Nat.min (S (n - S nhills)) (S (length rest)))%nat
        with (S nhills + Nat.min (n - S nhills) (length rest))%nat
        by (cbn [Nat.min]; lia).
      reflexivity.
Qed.

End Chunk.

(** X13.  [readChunkOfGaussians(ifile, n)] replays [n + 1] records, not
    [n]: it does what [readGaussians] does on the first [n + 1] records of
    the file, leaves the rest unread, returns [true] exactly when the file
    held more than [n] records, and logs the count [min n (records in the
    file)]. *)
Theorem readChunkOfGaussians_reads_one_more :
  forall (G : Type) (grid_ops : GridLike G) (matrix_tools : MatrixTools)
         (args : list ArgValue) (P rank : nat) (self : MetaD G)
         (records : list HillRecord) (n : nat),
    readChunkOfGaussians args P rank self records n
    = (r <- readGaussians args P rank self (firstn (S n) records) ;;
       Ok (fst r, (n <? length records)%nat, Nat.min n (length records),
           skipn (S n) records)).
Proof.
  intros. unfold readChunkOfGaussians, readGaussians.
  rewrite (readChunkOfGaussians_loop_spec args P rank records self _ n O O) by lia.
  rewrite Nat.sub_0_r. reflexivity.
Qed.

(** ** The constructor *)

Lemma string_length_zero (s : string) : (String.length s =? 0)%nat = true <-> s = ""%string.
Proof.
  destruct s; simpl; split; intros H; try reflexivity; discriminate.
Qed.

Section ConstructorChecks.

Context {G : Type} {grid_ops : GridLike G} {matrix_tools : MatrixTools}.
Variable args : list ArgValue.
Variables comm_size comm_rank : nat.
Variable ao : ActionOptions.
Variable fs : FileSystem.

(** Without a restart no file is read: the loop over the walkers' files
    cannot fail. *)
Lemma fresh_files_open (self : MetaD G) (mw_n : Z) (mw_dir hillsfname : string) (mw_id : Z) :
  exists self',
    for_rangeM 0 (Z.to_nat mw_n)
      (fun i self =>
         let fname := walker_file_name mw_n mw_dir hillsfname i in
         let names := (ifilesnames self ++ [fname])%list in
         let push (s : MetaD G) (f : IFile) : MetaD G :=
           Build_MetaD (sigma0_ s) (hills_ s) (hillsOfile_ s) (BiasGrid_ s)
             (wgridstride_ s) (grid_ s) (height0_ s) (biasf_ s) (temp_ s)
             (stride_ s) (welltemp_ s) (adaptive_ s) (mw_n_ s) (mw_id_ s)
             (mw_rstride_ s) (ifiles s ++ [f]) names (uppI_ s) (lowI_ s)
             (doInt_ s) (isFirstStep s) in
         match fs fname with
         | Some content =>
             r <- (if false then readGaussians args comm_size comm_rank self content
                   else Ok (self, O)) ;;
             Ok (push (fst r)
                   (mkIFile (negb (Z.of_nat i =? mw_id)%Z)
                      (if false then length content else O)))
         | None => Ok (push self (mkIFile false O))
         end)
      self = Ok self'.
Proof.
  unfold for_rangeM. apply foldM_total. intros i s0 _. cbv zeta.
  destruct (fs _); cbn [bind]; eexists; reflexivity.
Qed.

End ConstructorChecks.

Lemma MetaD_new_stages {G : Type} {grid_ops : GridLike G} {matrix_tools : MatrixTools}
    (args : list ArgValue) (P rank : nat) (ao : ActionOptions) (restart : bool)
    (fs : FileSystem) (self : MetaD G) :
  MetaD_new args P rank ao restart fs = Ok self ->
  valid_input args ao /\ open_files args P rank ao restart fs (configured ao) = Ok self.
Proof.
  unfold MetaD_new. intros H. bind_ok H.
  pose proof (scheme_parsed ao a E) as Ha. subst a.
  apply error_if_ok in E1, E2, E3, E5, E6, E7, E8, E9, E10, E11.
  apply Rleb_false in E1. apply Z.leb_gt in E2. apply Rltb_false in E3.
  assert (length (SIGMA ao)
          = if is_adaptive (selected_scheme ao) then 1%nat else getNumberOfArguments args) as Hsig.
  { destruct (is_adaptive (selected_scheme ao)); cbn [negb] in E0;
      apply error_if_ok in E0; apply negb_false_iff, Nat.eqb_eq in E0; exact E0. }
  clear E0.
  assert (a4 = Rgtb (parse (BIASFACTOR ao) 1.0) 1.0
          /\ (1 < parse (BIASFACTOR ao) 1.0 -> parse (TEMP ao) 0.0 <> 0)) as [-> Htemp].
  { destruct (Rgtb (parse (BIASFACTOR ao) 1.0) 1.0) eqn:Eb.
    - bind_ok E4. inversion E4. split; [reflexivity|]. intros _.
      apply error_if_ok in E0. apply Reqb_false in E0. lra.
    - inversion E4. split; [reflexivity|]. intros Hb. apply Rgtb_false in Eb. lra. }
  clear E4.
  assert (a12 = (negb (Reqb (parse (UPPER_INTERVAL ao) (-1)) (parse (LOWER_INTERVAL ao) (-1))),
                 (negb (GRID_NOSPLINE ao)
                  && negb (negb (Reqb (parse (UPPER_INTERVAL ao) (-1))
                                   (parse (LOWER_INTERVAL ao) (-1)))))%bool)
          /\ (parse (UPPER_INTERVAL ao) (-1) <> parse (LOWER_INTERVAL ao) (-1) ->
              length (SIGMA ao) = 1%nat
              /\ parse (LOWER_INTERVAL ao) (-1) < parse (UPPER_INTERVAL ao) (-1)))
    as [-> Hint].
  { destruct (Reqb (parse (UPPER_INTERVAL ao) (-1)) (parse (LOWER_INTERVAL ao) (-1))) eqn:Ei;
      cbn [negb] in E12 |- *.
    - inversion E12. rewrite andb_true_r. split; [reflexivity|].
      intros Hne. apply Reqb_true in Ei. contradiction.
    - bind_ok E12. inversion E12. rewrite andb_false_r. split; [reflexivity|].
      intros Hne. apply error_if_ok in E0, E4.
      apply negb_false_iff, Nat.eqb_eq in E0. apply Rltb_false in E4. split; [exact E0 | lra]. }
  clear E12. split; [|exact H].
  unfold valid_input. cbv zeta.
  apply andb_false_iff in E5. apply orb_false_iff in E8. destruct E8 as [E8a E8b].
  apply negb_false_iff, Nat.eqb_eq in E8a, E8b.
  apply Z.leb_gt in E11.
  split; [|split; [exact Hsig|split; [lra|split; [exact E2|split; [lra|split; [exact Htemp|]]]]]].
  { destruct (String.eqb (parse (ADAPTIVE ao) "NONE"%string) "GEOM"%string) eqn:E1';
      [left; apply String.eqb_eq; exact E1'|].
    destruct (String.eqb (parse (ADAPTIVE ao) "NONE"%string) "DIFF"%string) eqn:E2';
      [right; left; apply String.eqb_eq; exact E2'|].
    destruct (String.eqb (parse (ADAPTIVE ao) "NONE"%string) "NONE"%string) eqn:E3';
      [right; right; apply String.eqb_eq; exact E3' | discriminate E]. }
  split; [|split; [congruence|split; [congruence|]]].
  { destruct E5 as [E5|E5]; apply negb_false_iff, Nat.eqb_eq in E5; [left | right]; exact E5. }
  split; [|split; [|split; [exact E11 | exact Hint]]].
  - intros Hgrid Hfile Hz. apply Nat.ltb_lt in Hgrid. rewrite Hgrid, Hz in E9.
    cbn [andb Z.eqb] in E9. rewrite andb_true_r in E9. apply Nat.ltb_ge in E9.
    apply Hfile. apply string_length_zero. apply Nat.eqb_eq. lia.
  - intros Hgrid Hpos Hfile. apply Nat.ltb_lt in Hgrid. rewrite Hgrid, Hfile in E10.
    cbn [andb String.length Nat.eqb] in E10. rewrite andb_true_r in E10.
    rewrite Z.gtb_ltb in E10. apply Z.ltb_ge in E10. lia.
Qed.

Lemma error_if_false (msg : string) : error_if false msg = Ok tt.
Proof. reflexivity. Qed.

Lemma MetaD_new_valid {G : Type} {grid_ops : GridLike G} {matrix_tools : MatrixTools}
    (args : list ArgValue) (P rank : nat) (ao : ActionOptions) (restart : bool)
    (fs : FileSystem) :
  valid_input args ao ->
  MetaD_new (G := G) args P rank ao restart fs
  = open_files args P rank ao restart fs (configured ao).
Proof.
  unfold valid_input. cbv zeta.
  intros (Hada & Hsig & Hh & Hp & Hb & Ht & Hmin & Hmax & Hbin & Hw1 & Hw2 & Hid & Hint).
  unfold MetaD_new.
  assert ((if String.eqb (parse (ADAPTIVE ao) "NONE"%string) "GEOM"%string
           then Ok adaptive_geometry
           else if String.eqb (parse (ADAPTIVE ao) "NONE"%string) "DIFF"%string
                then Ok adaptive_diffusion
                else if String.eqb (parse (ADAPTIVE ao) "NONE"%string) "NONE"%string
                     then Ok adaptive_none
                     else Fatal "I do not know this type of adaptive scheme"%string)
          = Ok (selected_scheme ao)) as ->.
  { unfold selected_scheme. destruct Hada as [-> | [-> | ->]]; reflexivity. }
  cbn [bind].
  assert ((if negb (is_adaptive (selected_scheme ao))
           then error_if (negb (length (SIGMA ao) =? getNumberOfArguments args)%nat)
                  "number of arguments does not match number of SIGMA parameters"
           else error_if (negb (length (SIGMA ao) =? 1)%nat)
                  "If you choose ADAPTIVE you need only one sigma according to your choice of type (GEOM/DIFF)")
          = Ok tt) as ->.
  { rewrite Hsig. destruct (is_adaptive (selected_scheme ao)); cbn [negb];
      rewrite Nat.eqb_refl; reflexivity. }
  cbn [bind].
  rewrite (proj2 (Rleb_false (parse (HEIGHT ao) 0.0) 0.0)) by lra.
  rewrite error_if_false. cbn [bind].
  rewrite (proj2 (Z.leb_gt (parse (PACE ao) 0%Z) 0%Z)) by exact Hp.
  rewrite error_if_false. cbn [bind].
  rewrite (proj2 (Rltb_false (parse (BIASFACTOR ao) 1.0) 1.0)) by lra.
  rewrite error_if_false. cbn [bind].
  assert ((if Rgtb (parse (BIASFACTOR ao) 1.0) 1.0
           then error_if (Reqb (parse (TEMP ao) 0.0) 0.0)
                  "if you are doing well tempered metadynamics you must specify the temperature using TEMP" ;;;
                Ok true
           else Ok false)
          = Ok (Rgtb (parse (BIASFACTOR ao) 1.0) 1.0)) as ->.
  { destruct (Rgtb (parse (BIASFACTOR ao) 1.0) 1.0) eqn:Eb; [|reflexivity].
    apply Rgtb_true in Eb.
    rewrite (proj2 (Reqb_false (parse (TEMP ao) 0.0) 0.0))
      by (intros Hz; apply Ht; lra).
    reflexivity. }
  cbn [bind].
  assert (forall l : nat, l = length (GRID_MIN ao) ->
            (negb (l =? getNumberOfArguments args)%nat && negb (l =? 0)%nat)%bool = false)
    as Hlen.
  { intros l ->. destruct Hmin as [-> | ->];
      [rewrite Nat.eqb_refl; reflexivity | cbn [Nat.eqb negb]; apply andb_false_r]. }
  rewrite (Hlen _ eq_refl), (Hlen _ Hmax), (Hlen _ Hbin).
  rewrite !error_if_false. cbn [bind].
  replace (negb (length (GRID_MIN ao) =? length (GRID_MAX ao))%nat
           || negb (length (GRID_MIN ao) =? length (GRID_BIN ao))%nat)%bool with false
    by (rewrite Hmax, Hbin, !Nat.eqb_refl; reflexivity).
  rewrite error_if_false. cbn [bind].
  replace ((0 <? length (GRID_BIN ao))%nat
           && (0 <? String.length (parse (GRID_WFILE ao) ""%string))%nat
           && (parse (GRID_WSTRIDE ao) 0 =? 0)%Z)%bool with false.
  2:{ symmetry.
      destruct (0 <? length (GRID_BIN ao))%nat eqn:Eg; [|reflexivity].
      destruct (0 <? String.length (parse (GRID_WFILE ao) ""%string))%nat eqn:Ef; [|reflexivity].
      cbn [andb]. apply Z.eqb_neq. apply Nat.ltb_lt in Eg, Ef. apply Hw1; [exact Eg|].
      intros Hz. rewrite Hz in Ef. simpl in Ef. lia. }
  rewrite error_if_false. cbn [bind].
  replace ((0 <? length (GRID_BIN ao))%nat
           && (parse (GRID_WSTRIDE ao) 0 >? 0)%Z
           && (String.length (parse (GRID_WFILE ao) ""%string) =? 0)%nat)%bool with false.
  2:{ symmetry.
      destruct (0 <? length (GRID_BIN ao))%nat eqn:Eg; [|reflexivity].
      destruct (parse (GRID_WSTRIDE ao) 0 >? 0)%Z eqn:Es; [|reflexivity].
      cbn [andb]. apply Nat.eqb_neq. intros Hz.
      apply Nat.ltb_lt in Eg. rewrite Z.gtb_ltb in Es. apply Z.ltb_lt in Es.
      apply (Hw2 Eg Es). apply string_length_zero. apply Nat.eqb_eq. exact Hz. }
  rewrite error_if_false. cbn [bind].
  rewrite (proj2 (Z.leb_gt (parse (WALKERS_N ao) 1%Z) (parse (WALKERS_ID ao) 0%Z))) by exact Hid.
  rewrite error_if_false. cbn [bind].
  assert ((if negb (Reqb (parse (UPPER_INTERVAL ao) (-1)) (parse (LOWER_INTERVAL ao) (-1)))
           then error_if (negb (length (SIGMA ao) =? 1)%nat)
                  "Bias limits correction works only for monodimensional metadynamics!" ;;;
                error_if (Rltb (parse (UPPER_INTERVAL ao) (-1)) (parse (LOWER_INTERVAL ao) (-1)))
                  "The Upper limit must be greater than the Lower limit!" ;;;
                Ok (true, false)
           else Ok (false, negb (GRID_NOSPLINE ao)))
          = Ok (negb (Reqb (parse (UPPER_INTERVAL ao) (-1)) (parse (LOWER_INTERVAL ao) (-1))),
                (negb (GRID_NOSPLINE ao)
                 && negb (negb (Reqb (parse (UPPER_INTERVAL ao) (-1))
                                  (parse (LOWER_INTERVAL ao) (-1)))))%bool)) as ->.
  { destruct (Reqb (parse (UPPER_INTERVAL ao) (-1)) (parse (LOWER_INTERVAL ao) (-1))) eqn:Ei;
      cbn [negb].
    - rewrite andb_true_r. reflexivity.
    - apply Reqb_false in Ei. destruct (Hint Ei) as [H1 Hlt].
      rewrite H1. cbn [Nat.eqb negb]. rewrite error_if_false. cbn [bind].
      rewrite (proj2 (Rltb_false _ _)) by lra.
      rewrite error_if_false. cbn [bind]. rewrite andb_false_r. reflexivity. }
  cbn [bind]. reflexivity.
Qed.

Lemma foldM_app {St A : Type} (body : A -> St -> result St) (l1 l2 : list A) (s : St) :
  foldM body (l1 ++ l2) s = (s' <- foldM body l1 s ;; foldM body l2 s').
Proof.
  revert s; induction l1 as [|a l1 IH]; intros s; simpl; [reflexivity|].
  destruct (body a s); cbn [bind]; [apply IH | reflexivity].
Qed.

(** A loop invariant rule for [for_rangeM]. *)
Lemma for_rangeM_ind {St : Type} (Q : nat -> St -> Prop) (n : nat)
    (body : nat -> St -> result St) (s : St) :
  Q O s ->
  (forall i acc acc', (i < n)%nat -> Q i acc -> body i acc = Ok acc' -> Q (S i) acc') ->
  forall s', for_rangeM 0 n body s = Ok s' -> Q n s'.
Proof.
  intros H0 Hstep. unfold for_rangeM. rewrite Nat.sub_0_r.
  assert (forall k, (k <= n)%nat -> forall s', foldM body (seq 0 k) s = Ok s' -> Q k s') as Hk.
  { induction k as [|k IH]; intros Hle s' H.
    - simpl in H. inversion H. subst. exact H0.
    - rewrite seq_S, foldM_app in H. cbn [Nat.add] in H.
      destruct (foldM body (seq 0 k) s) as [s1|m] eqn:E; cbn [bind] in H; [|discriminate].
      simpl in H. destruct (body k s1) as [s2|m] eqn:E2; cbn [bind] in H; [|discriminate].
      inversion H. subst. apply (Hstep k s1); [lia | apply IH; [lia | reflexivity] | exact E2]. }
  apply Hk. lia.
Qed.

Lemma open_files_spec {G : Type} {grid_ops : GridLike G} {matrix_tools : MatrixTools}
    (args : list ArgValue) (P rank : nat) (ao : ActionOptions) (restart : bool)
    (fs : FileSystem) (s0 self : MetaD G) :
  ifiles s0 = [] -> ifilesnames s0 = [] ->
  open_files args P rank ao restart fs s0 = Ok self ->
  let n := Z.to_nat (parse (WALKERS_N ao) 1%Z) in
  same_parameters s0 self
  /\ isFirstStep self = isFirstStep s0 /\ hillsOfile_ self = hillsOfile_ s0
  /\ ifilesnames self
     = map (walker_file_name (parse (WALKERS_N ao) 1%Z) (parse (WALKERS_DIR ao) "./"%string)
              (parse (FILE ao) "HILLS"%string)) (seq 0 n)
  /\ ifiles self = map (opened_file ao restart fs) (seq 0 n)
  /\ (restart = false -> hills_ self = hills_ s0 /\ BiasGrid_ self = BiasGrid_ s0).
Proof.
  intros Hf0 Hn0 H. cbv zeta. unfold open_files in H. cbv zeta in H.
  revert self H.
  apply (for_rangeM_ind
           (fun k (self : MetaD G) =>
              same_parameters s0 self
              /\ isFirstStep self = isFirstStep s0 /\ hillsOfile_ self = hillsOfile_ s0
              /\ ifilesnames self
                 = map (walker_file_name (parse (WALKERS_N ao) 1%Z)
                          (parse (WALKERS_DIR ao) "./"%string)
                          (parse (FILE ao) "HILLS"%string)) (seq 0 k)
              /\ ifiles self = map (opened_file ao restart fs) (seq 0 k)
              /\ (restart = false -> hills_ self = hills_ s0 /\ BiasGrid_ self = BiasGrid_ s0))).
  - repeat split; assumption.
  - intros i acc acc' Hi (Hpar & Hfirst & Hfile & Hnames & Hfiles & Hfresh) Hbody.
    rewrite !seq_S, !map_app. cbn [Nat.add map].
    assert (forall (s : MetaD G) (f : IFile),
              same_parameters s0 s -> isFirstStep s = isFirstStep s0 ->
              hillsOfile_ s = hillsOfile_ s0 -> ifiles s = ifiles acc ->
              ifilesnames s = ifilesnames acc ->
              f = opened_file ao restart fs i ->
              (restart = false -> hills_ s = hills_ s0 /\ BiasGrid_ s = BiasGrid_ s0) ->
              acc' = Build_MetaD (sigma0_ s) (hills_ s) (hillsOfile_ s) (BiasGrid_ s)
                       (wgridstride_ s) (grid_ s) (height0_ s) (biasf_ s) (temp_ s)
                       (stride_ s) (welltemp_ s) (adaptive_ s) (mw_n_ s) (mw_id_ s)
                       (mw_rstride_ s) (ifiles s ++ [f])
                       (ifilesnames acc
                        ++ [walker_file_name (parse (WALKERS_N ao) 1%Z)
                              (parse (WALKERS_DIR ao) "./"%string)
                              (parse (FILE ao) "HILLS"%string) i])
                       (uppI_ s) (lowI_ s) (doInt_ s) (isFirstStep s) ->
              same_parameters s0 acc'
              /\ isFirstStep acc' = isFirstStep s0 /\ hillsOfile_ acc' = hillsOfile_ s0
              /\ ifilesnames acc'
                 = map (walker_file_name (parse (WALKERS_N ao) 1%Z)
                          (parse (WALKERS_DIR ao) "./"%string)
                          (parse (FILE ao) "HILLS"%string)) (seq 0 i)
                   ++ [walker_file_name (parse (WALKERS_N ao) 1%Z)
                         (parse (WALKERS_DIR ao) "./"%string)
                         (parse (FILE ao) "HILLS"%string) i]
              /\ ifiles acc' = map (opened_file ao restart fs) (seq 0 i)
                               ++ [opened_file ao restart fs i]
              /\ (restart = false ->
                  hills_ acc' = hills_ s0 /\ BiasGrid_ acc' = BiasGrid_ s0)) as Hpush.
    { intros s f Hp1 Hp2 Hp3 Hp4 Hp5 Hp6 Hp7 ->.
      cbn [isFirstStep hillsOfile_ ifilesnames ifiles hills_ BiasGrid_].
      split; [exact Hp1|]. split; [exact Hp2|]. split; [exact Hp3|].
      split; [rewrite Hnames; reflexivity|].
      split; [rewrite Hp4, Hfiles, Hp6; reflexivity | exact Hp7]. }
    assert (forall restart' content,
              fs (walker_file_name (parse (WALKERS_N ao) 1%Z)
                    (parse (WALKERS_DIR ao) "./"%string)
                    (parse (FILE ao) "HILLS"%string) i) = Some content ->
              restart' = restart ->
              mkIFile (negb (Z.of_nat i =? parse (WALKERS_ID ao) 0%Z)%Z)
                (if restart' then length content else O)
              = opened_file ao restart fs i) as Hopen.
    { intros restart' content Hc <-. unfold opened_file. cbv zeta. rewrite Hc. reflexivity. }
    assert (fs (walker_file_name (parse (WALKERS_N ao) 1%Z)
                  (parse (WALKERS_DIR ao) "./"%string)
                  (parse (FILE ao) "HILLS"%string) i) = None ->
            mkIFile false O = opened_file ao restart fs i) as Hclosed.
    { intros Hc. unfold opened_file. cbv zeta. rewrite Hc. reflexivity. }
    destruct (fs (walker_file_name (parse (WALKERS_N ao) 1%Z)
                    (parse (WALKERS_DIR ao) "./"%string)
                    (parse (FILE ao) "HILLS"%string) i)) as [content|] eqn:Efs.
    + destruct restart.
      * destruct (readGaussians args P rank acc content) as [r|m] eqn:Er;
          cbn [bind] in Hbody; [|discriminate].
        injection Hbody as Hacc.
        destruct (readGaussians_settings args P rank acc content r Er) as [Hs Hi'].
        unfold same_settings in Hs.
        destruct Hs as (S1 & S2 & S3 & S4 & S5 & S6 & S7 & S8 & S9 & S10 & S11 & S12 & S13
                        & S14 & S15 & S16 & S17 & S18).
        unfold same_parameters in Hpar.
        destruct Hpar as (P1 & P2 & P3 & P4 & P5 & P6 & P7 & P8 & P9 & P10 & P11 & P12 & P13
                          & P14 & P15).
        apply (Hpush (fst r) (mkIFile (negb (Z.of_nat i =? parse (WALKERS_ID ao) 0%Z)%Z)
                                (length content))).
        -- unfold same_parameters. repeat split; congruence.
        -- congruence.
        -- congruence.
        -- exact Hi'.
        -- exact S14.
        -- apply (Hopen true content eq_refl eq_refl).
        -- discriminate.
        -- symmetry. exact Hacc.
      * cbn [bind fst] in Hbody. injection Hbody as Hacc.
        apply (Hpush acc (mkIFile (negb (Z.of_nat i =? parse (WALKERS_ID ao) 0%Z)%Z) O));
          try reflexivity; try assumption.
        -- apply (Hopen false content eq_refl eq_refl).
        -- symmetry. exact Hacc.
    + injection Hbody as Hacc.
      apply (Hpush acc (mkIFile false O)); try reflexivity; try assumption.
      * apply Hclosed. reflexivity.
      * symmetry. exact Hacc.
Qed.

Lemma configured_open_files {G : Type} {grid_ops : GridLike G} {matrix_tools : MatrixTools}
    (args : list ArgValue) (P rank : nat) (ao : ActionOptions) (restart : bool)
    (fs : FileSystem) (self : MetaD G) :
  MetaD_new args P rank ao restart fs = Ok self ->
  valid_input args ao
  /\ same_parameters (configured (G := G) ao) self
  /\ isFirstStep self = true /\ hillsOfile_ self = []
  /\ ifilesnames self
     = map (walker_file_name (parse (WALKERS_N ao) 1%Z) (parse (WALKERS_DIR ao) "./"%string)
              (parse (FILE ao) "HILLS"%string)) (seq 0 (Z.to_nat (parse (WALKERS_N ao) 1%Z)))
  /\ ifiles self = map (opened_file ao restart fs) (seq 0 (Z.to_nat (parse (WALKERS_N ao) 1%Z)))
  /\ (restart = false ->
      hills_ self = [] /\ BiasGrid_ self = BiasGrid_ (configured (G := G) ao)).
Proof.
  intros H. apply MetaD_new_stages in H. destruct H as [Hvalid Hopen].
  split; [exact Hvalid|].
  apply (open_files_spec args P rank ao restart fs (configured ao) self eq_refl eq_refl) in Hopen.
  exact Hopen.
Qed.

(** The name under which a constructed action goes on to open its hills
    file: defined exactly when [WALKERS_ID] is not negative, and then the
    name of this walker's file. *)
Lemma own_hills_file_constructed {G : Type} {grid_ops : GridLike G}
    {matrix_tools : MatrixTools}
    (args : list ArgValue) (P rank : nat) (ao : ActionOptions) (restart : bool)
    (fs : FileSystem) (self : MetaD G) :
  MetaD_new args P rank ao restart fs = Ok self ->
  own_hills_file self
  = if (parse (WALKERS_ID ao) 0 <? 0)%Z then None
    else Some (walker_file_name (parse (WALKERS_N ao) 1%Z) (parse (WALKERS_DIR ao) "./"%string)
                 (parse (FILE ao) "HILLS"%string) (Z.to_nat (parse (WALKERS_ID ao) 0%Z))).
Proof.
  intros H. apply configured_open_files in H.
  destruct H as (Hvalid & Hpar & _ & _ & Hnames & _).
  unfold valid_input in Hvalid. cbv zeta in Hvalid.
  destruct Hvalid as (_ & _ & _ & _ & _ & _ & _ & _ & _ & _ & _ & Hid & _).
  unfold same_parameters in Hpar.
  destruct Hpar as (_ & _ & _ & _ & _ & _ & _ & _ & _ & _ & P11 & _).
  cbn [configured mw_id_] in P11.
  unfold own_hills_file. rewrite P11, Hnames.
  destruct (parse (WALKERS_ID ao) 0 <? 0)%Z eqn:E; [reflexivity|].
  apply Z.ltb_ge in E.
  rewrite nth_error_map, nth_error_seq.
  replace (Z.to_nat (parse (WALKERS_ID ao) 0%Z) <? Z.to_nat (parse (WALKERS_N ao) 1%Z))%nat
    with true by (symmetry; apply Nat.ltb_lt; lia).
  reflexivity.
Qed.

(** X14.  The checks of the constructor, in one place.  An action is only
    ever constructed from a valid input line.  The checks let a negative
    [WALKERS_ID] through: for a constructed action the name under which
    the hills file is then opened for writing, [ifilesnames[mw_id_]], is
    defined exactly when [WALKERS_ID] is not negative, and is then the name
    of this walker's file.  Without a restart, every valid input line with
    a [WALKERS_ID] that is not negative gets through the checks and the
    loop over the walkers' files, whatever the files on disk, and reaches
    the opening of its own hills file with that name. *)
Theorem constructor_accepts_valid_input :
  forall (G : Type) (grid_ops : GridLike G) (matrix_tools : MatrixTools)
         (args : list ArgValue) (P rank : nat) (ao : ActionOptions) (fs : FileSystem),
    let own_name :=
      walker_file_name (parse (WALKERS_N ao) 1%Z) (parse (WALKERS_DIR ao) "./"%string)
        (parse (FILE ao) "HILLS"%string) (Z.to_nat (parse (WALKERS_ID ao) 0%Z)) in
    (forall restart (self : MetaD G),
       MetaD_new args P rank ao restart fs = Ok self ->
       valid_input args ao
       /\ (own_hills_file self = None <-> (parse (WALKERS_ID ao) 0 < 0)%Z)
       /\ ((0 <= parse (WALKERS_ID ao) 0)%Z -> own_hills_file self = Some own_name))
    /\ (valid_input args ao -> (0 <= parse (WALKERS_ID ao) 0)%Z ->
        exists self : MetaD G,
          MetaD_new args P rank ao false fs = Ok self
          /\ own_hills_file self = Some own_name).
Proof.
  intros G grid_ops matrix_tools args P rank ao fs own_name. split.
  - intros restart self H.
    pose proof (own_hills_file_constructed args P rank ao restart fs self H) as Hown.
    apply MetaD_new_stages in H. split; [apply H|].
    rewrite Hown. fold own_name.
    destruct (parse (WALKERS_ID ao) 0 <? 0)%Z eqn:E.
    + apply Z.ltb_lt in E. split; [split; [intros _; exact E | reflexivity] | lia].
    + apply Z.ltb_ge in E. split; [split; [discriminate | lia] | reflexivity].
  - intros Hvalid Hid.
    destruct (fresh_files_open args P rank fs (configured (G := G) ao)
                (parse (WALKERS_N ao) 1%Z) (parse (WALKERS_DIR ao) "./"%string)
                (parse (FILE ao) "HILLS"%string) (parse (WALKERS_ID ao) 0%Z)) as [self Hself].
    assert (MetaD_new args P rank ao false fs = Ok self) as Hnew.
    { rewrite (MetaD_new_valid args P rank ao false fs Hvalid).
      unfold open_files. cbv zeta. exact Hself. }
    exists self. split; [exact Hnew|].
    rewrite (own_hills_file_constructed args P rank ao false fs self Hnew).
    replace (parse (WALKERS_ID ao) 0 <? 0)%Z with false
      by (symmetry; apply Z.ltb_ge; exact Hid).
    reflexivity.
Qed.

Lemma constructor_accepts_valid_input_witness :
  exists self : MetaD Mesh,
    MetaD_new one_distance 1 0 example_options false no_files = Ok self
    /\ own_hills_file self = Some "HILLS"%string.
Proof.
  apply (proj2 (constructor_accepts_valid_input Mesh mesh_grid small_matrix_tools one_distance
                  1 0 example_options no_files)).
  - unfold valid_input, example_options, one_distance. cbn.
    repeat split; try reflexivity; try lra; try lia; auto; try (intros; lia).
  - simpl. lia.
Defined.

(** X15.  What holds of every action the constructor returns: one width
    per variable (a single one for adaptive hills), a positive initial
    height and stride, a bias factor of at least one, well-tempered exactly
    when it exceeds one and then with a non-zero temperature, a walker id
    below the number of walkers, the interval switched on exactly when its
    bounds differ and then with the lower bound below the upper one and a
    single width, grid mode exactly when [GRID_BIN] is given, gradients
    needed exactly for [ADAPTIVE=GEOM], and the first-step flag set. *)
Theorem constructor_establishes :
  forall (G : Type) (grid_ops : GridLike G) (matrix_tools : MatrixTools)
         (args : list ArgValue) (P rank : nat) (ao : ActionOptions) (restart : bool)
         (fs : FileSystem) (self : MetaD G),
    MetaD_new args P rank ao restart fs = Ok self ->
    sigma0_ self = SIGMA ao
    /\ length (sigma0_ self)
       = (if is_adaptive (adaptive_ self) then 1%nat else getNumberOfArguments args)
    /\ 0 < height0_ self
    /\ (0 < stride_ self)%Z
    /\ 1 <= biasf_ self
    /\ (welltemp_ self = true <-> 1 < biasf_ self)
    /\ (welltemp_ self = true -> temp_ self <> 0)
    /\ (mw_id_ self < mw_n_ self)%Z
    /\ (doInt_ self = true <-> uppI_ self <> lowI_ self)
    /\ (doInt_ self = true -> lowI_ self < uppI_ self /\ length (sigma0_ self) = 1%nat)
    /\ (grid_ self = true <-> GRID_BIN ao <> [])
    /\ (checkNeedsGradients self = true <-> ADAPTIVE ao = Some "GEOM"%string)
    /\ isFirstStep self = true.
Proof.
  intros G grid_ops matrix_tools args P rank ao restart fs self H.
  apply configured_open_files in H.
  destruct H as (Hvalid & Hpar & Hfirst & _).
  unfold valid_input in Hvalid. cbv zeta in Hvalid.
  destruct Hvalid as (Hada & Hsig & Hh & Hp & Hb & Ht & Hmin & Hmax & Hbin & Hw1 & Hw2 & Hid
                      & Hint).
  unfold same_parameters, configured in Hpar. cbv zeta in Hpar.
  cbn [sigma0_ wgridstride_ grid_ height0_ biasf_ temp_ stride_ welltemp_ adaptive_ mw_n_
       mw_id_ mw_rstride_ uppI_ lowI_ doInt_] in Hpar.
  destruct Hpar as (P1 & P2 & P3 & P4 & P5 & P6 & P7 & P8 & P9 & P10 & P11 & P12 & P13
                    & P14 & P15).
  unfold checkNeedsGradients.
  rewrite P1, P3, P4, P5, P6, P7, P8, P9, P10, P11, P13, P14, P15.
  split; [reflexivity|]. split; [exact Hsig|]. split; [exact Hh|]. split; [exact Hp|].
  split; [exact Hb|]. split; [rewrite Rgtb_true; lra|].
  split; [intros Hw; apply Rgtb_true in Hw; apply Ht; lra|].
  split; [exact Hid|].
  split; [rewrite negb_true_iff, Reqb_false; reflexivity|].
  split; [intros Hd; apply negb_true_iff, Reqb_false in Hd; destruct (Hint Hd); split; assumption|].
  split.
  - rewrite Nat.ltb_lt. destruct (GRID_BIN ao); simpl; split; intros Hx;
      try lia; try discriminate; congruence.
  - split; [|exact Hfirst]. unfold selected_scheme.
    destruct (ADAPTIVE ao) as [a|]; cbn [parse].
    + destruct (String.eqb a "GEOM") eqn:E1.
      * apply String.eqb_eq in E1. subst. split; reflexivity.
      * split; intros Hx.
        -- destruct (String.eqb a "DIFF"); discriminate.
        -- inversion Hx. subst. discriminate.
    + cbn. split; discriminate.
Qed.

Lemma constructor_establishes_witness :
  0 < height0_ (example_bias [] [] true)
  /\ (0 < stride_ (example_bias [] [] true))%Z
  /\ isFirstStep (example_bias [] [] true) = true.
Proof.
  destruct (constructor_establishes Mesh mesh_grid small_matrix_tools one_distance 1 0
              example_options false no_files (example_bias [] [] true) example_constructed)
    as (_ & _ & H3 & H4 & _ & _ & _ & _ & _ & _ & _ & _ & H13).
  split; [exact H3 | split; [exact H4 | exact H13]].
Defined.

(** X16.  A run that does not restart begins with nothing accumulated: no
    stored hill, nothing written, and in grid mode the grid as allocated,
    with splines unless [GRID_NOSPLINE] is given or the interval is on. *)
Theorem fresh_start_is_empty :
  forall (G : Type) (grid_ops : GridLike G) (matrix_tools : MatrixTools)
         (args : list ArgValue) (P rank : nat) (ao : ActionOptions) (fs : FileSystem)
         (self : MetaD G),
    MetaD_new args P rank ao false fs = Ok self ->
    hills_ self = [] /\ hillsOfile_ self = []
    /\ BiasGrid_ self
       = (if grid_ self
          then Some (grid_new (GRID_SPARSE ao) (GRID_MIN ao) (GRID_MAX ao) (GRID_BIN ao)
                       (negb (GRID_NOSPLINE ao) && negb (doInt_ self)))
          else None).
Proof.
  intros G grid_ops matrix_tools args P rank ao fs self H.
  apply configured_open_files in H.
  destruct H as (_ & Hpar & _ & Hfile & _ & _ & Hfresh).
  destruct (Hfresh eq_refl) as [Hh Hg].
  split; [exact Hh|]. split; [exact Hfile|].
  unfold same_parameters in Hpar.
  destruct Hpar as (_ & _ & P3 & _ & _ & _ & _ & _ & _ & _ & _ & _ & _ & _ & P15).
  rewrite Hg, P3, P15. reflexivity.
Qed.

Lemma fresh_start_is_empty_witness :
  hills_ (example_bias [] [] true) = [] /\ hillsOfile_ (example_bias [] [] true) = []
  /\ BiasGrid_ (example_bias [] [] true) = None.
Proof.
  apply (fresh_start_is_empty Mesh mesh_grid small_matrix_tools one_distance 1 0
           example_options no_files (example_bias [] [] true) example_constructed).
Defined.

(** X17.  The hills files as the constructor leaves them: one per walker,
    named in walker order; a file found on disk is left open for every
    walker but this one, positioned after what a restart has read, and a
    file not found is left closed. *)
Theorem constructor_opens_files :
  forall (G : Type) (grid_ops : GridLike G) (matrix_tools : MatrixTools)
         (args : list ArgValue) (P rank : nat) (ao : ActionOptions) (restart : bool)
         (fs : FileSystem) (self : MetaD G),
    MetaD_new args P rank ao restart fs = Ok self ->
    let n := Z.to_nat (mw_n_ self) in
    let name := walker_file_name (mw_n_ self) (parse (WALKERS_DIR ao) "./"%string)
                  (parse (FILE ao) "HILLS"%string) in
    length (ifiles self) = n
    /\ ifilesnames self = map name (seq 0 n)
    /\ forall i, (i < n)%nat ->
         nth i (ifiles self) (mkIFile false O)
         = match fs (name i) with
           | Some content =>
               mkIFile (negb (Z.of_nat i =? mw_id_ self)%Z)
                 (if restart then length content else O)
           | None => mkIFile false O
           end.
Proof.
  intros G grid_ops matrix_tools args P rank ao restart fs self H.
  apply configured_open_files in H.
  destruct H as (_ & Hpar & _ & _ & Hnames & Hfiles & _).
  unfold same_parameters in Hpar.
  destruct Hpar as (_ & _ & _ & _ & _ & _ & _ & _ & _ & P10 & P11 & _).
  cbn [configured mw_n_ mw_id_] in P10, P11. cbv zeta. rewrite P10, P11.
  split; [rewrite Hfiles, length_map, length_seq; reflexivity|].
  split; [exact Hnames|].
  intros i Hi. rewrite Hfiles.
  rewrite (nth_indep _ _ (opened_file ao restart fs O))
    by (rewrite length_map, length_seq; exact Hi).
  rewrite (map_nth (opened_file ao restart fs)), seq_nth by exact Hi. reflexivity.
Qed.

Lemma constructor_opens_files_witness :
  length (ifiles (example_bias [] [] true)) = 1%nat
  /\ ifilesnames (example_bias [] [] true) = ["HILLS"%string].
Proof.
  destruct (constructor_opens_files Mesh mesh_grid small_matrix_tools one_distance 1 0
              example_options false no_files (example_bias [] [] true) example_constructed)
    as (H1 & H2 & _).
  split; [exact H1 | exact H2].
Defined.

(** X18.  [update] changes hills, grid and files only: every parameter the
    input line fixed, and the names of the walkers' files, are the same
    after the step, whether or not a hill is deposited or files are read. *)
Theorem update_keeps_parameters :
  forall (G : Type) (grid_ops : GridLike G) (matrix_tools : MatrixTools)
         (args : list ArgValue) (P rank : nat) (kB dt : R) (self self' : MetaD G)
         (step : Z) (argv flexinv : list R) (fs : FileSystem) (now : Z),
    update args P rank kB dt self step argv flexinv fs now = Ok self' ->
    sigma0_ self' = sigma0_ self /\ height0_ self' = height0_ self
    /\ biasf_ self' = biasf_ self /\ temp_ self' = temp_ self
    /\ welltemp_ self' = welltemp_ self /\ stride_ self' = stride_ self
    /\ adaptive_ self' = adaptive_ self /\ grid_ self' = grid_ self
    /\ wgridstride_ self' = wgridstride_ self
    /\ mw_n_ self' = mw_n_ self /\ mw_id_ self' = mw_id_ self
    /\ mw_rstride_ self' = mw_rstride_ self /\ ifilesnames self' = ifilesnames self
    /\ uppI_ self' = uppI_ self /\ lowI_ self' = lowI_ self /\ doInt_ self' = doInt_ self.
Proof.
  intros G grid_ops matrix_tools args P rank kB dt self self' step argv flexinv fs now H.
  rewrite update_unfold in H.
  assert (same_settings (after_deposit args P rank kB dt self step argv flexinv now) self') as Hs.
  { destruct ((mw_n_ self >? 1)%Z && (Z.rem step (mw_rstride_ self) =? 0)%Z)%bool.
    - eapply read_walkers_settings. exact H.
    - inversion H. apply same_settings_refl. }
  assert (same_parameters self (after_deposit args P rank kB dt self step argv flexinv now)
          /\ ifilesnames (after_deposit args P rank kB dt self step argv flexinv now)
             = ifilesnames self) as [Hd Hn].
  { unfold after_deposit. destruct (deposit_now self step).
    - match goal with |- context [addGaussian _ _ _ self ?h] =>
        destruct (addGaussian_settings args P rank self h) as [Ha _] end.
      unfold same_settings in Ha. unfold same_parameters, writeGaussian, with_hillsOfile.
      cbn [sigma0_ wgridstride_ grid_ height0_ biasf_ temp_ stride_ welltemp_ adaptive_ mw_n_
           mw_id_ mw_rstride_ uppI_ lowI_ doInt_ ifilesnames].
      intuition.
    - split; [unfold same_parameters; repeat split | reflexivity]. }
  unfold same_settings in Hs. unfold same_parameters in Hd.
  destruct Hs as (S1 & S2 & S3 & S4 & S5 & S6 & S7 & S8 & S9 & S10 & S11 & S12 & S13
                  & S14 & S15 & S16 & S17 & S18).
  destruct Hd as (P1 & P2 & P3 & P4 & P5 & P6 & P7 & P8 & P9 & P10 & P11 & P12 & P13
                  & P14 & P15).
  repeat split; congruence.
Qed.

Lemma update_keeps_parameters_witness :
  sigma0_ (example_bias [mkGaussian [1.0] [0.2] 0.3 false]
             [hill_record one_distance 1
                (example_bias [mkGaussian [1.0] [0.2] 0.3 false] [] false)
                (mkGaussian [1.0] [0.2] 0.3 false) 500 0]
             false)
  = sigma0_ (example_bias [] [] false).
Proof.
  apply (update_keeps_parameters Mesh mesh_grid small_matrix_tools one_distance 1 0 1 1
           (example_bias [] [] false) _ 500 [1.0] [] no_files 0 (example_deposition 1 1)).
Defined.

(** ** Multiple walkers *)

Lemma nth_splice {A : Type} (l : list A) (i j : nat) (x d : A) :
  (i < length l)%nat ->
  nth j (firstn i l ++ x :: skipn (S i) l) d = if (j =? i)%nat then x else nth j l d.
Proof.
  intros Hi.
  assert (length (firstn i l) = i) as Hlen by (rewrite length_firstn; lia).
  destruct (Nat.lt_trichotomy j i) as [Hlt | [-> | Hgt]].
  - rewrite app_nth1 by lia. rewrite nth_firstn.
    replace (j <? i)%nat with true by (symmetry; apply Nat.ltb_lt; exact Hlt).
    replace (j =? i)%nat with false by (symmetry; apply Nat.eqb_neq; lia). reflexivity.
  - rewrite app_nth2 by lia. rewrite Hlen, Nat.sub_diag, Nat.eqb_refl. reflexivity.
  - rewrite app_nth2 by lia. rewrite Hlen.
    replace (j =? i)%nat with false by (symmetry; apply Nat.eqb_neq; lia).
    replace (j - i)%nat with (S (j - S i)) by lia. cbn [nth].
    rewrite nth_skipn. f_equal. lia.
Qed.

Lemma length_splice {A : Type} (l : list A) (i : nat) (x : A) :
  (i < length l)%nat -> length (firstn i l ++ x :: skipn (S i) l) = length l.
Proof.
  intros Hi. rewrite length_app, length_firstn. cbn [length]. rewrite length_skipn. lia.
Qed.

Lemma splice_same {A : Type} (l : list A) (i : nat) (d : A) :
  (i < length l)%nat -> firstn i l ++ nth i l d :: skipn (S i) l = l.
Proof.
  intros Hi. apply (nth_ext _ _ d d).
  - apply length_splice. exact Hi.
  - intros j _. rewrite nth_splice by exact Hi.
    destruct (j =? i)%nat eqn:E; [apply Nat.eqb_eq in E; subst|]; reflexivity.
Qed.

Lemma with_ifiles_same {G : Type} (self : MetaD G) : with_ifiles self (ifiles self) = self.
Proof. destruct self; reflexivity. Qed.

Lemma foldM_fixed {St A : Type} (body : A -> St -> result St) (l : list A) (s : St) :
  (forall a, In a l -> body a s = Ok s) -> foldM body l s = Ok s.
Proof.
  induction l as [|a l IH]; intros H; simpl; [reflexivity|].
  rewrite H by (left; reflexivity). cbn [bind]. apply IH.
  intros b Hb. apply H. right. exact Hb.
Qed.

Section Walkers.

Context {G : Type} {grid_ops : GridLike G} {matrix_tools : MatrixTools}.
Variable args : list ArgValue.
Variables comm_size comm_rank : nat.
Variable fs : FileSystem.

Lemma readGaussians_nothing (self : MetaD G) :
  readGaussians args comm_size comm_rank self [] = Ok (self, O).
Proof. reflexivity. Qed.

(** A walker that has read to its end every file of the others that is on
    disk reads nothing more. *)
Lemma read_walkers_fixed_point (self : MetaD G) :
  length (ifiles self) = Z.to_nat (mw_n_ self) ->
  (forall i, (i < Z.to_nat (mw_n_ self))%nat -> Z.of_nat i <> mw_id_ self ->
     (if_open (nth i (ifiles self) (mkIFile false O)) = true
      /\ (length (walker_content self fs i)
          <= if_pos (nth i (ifiles self) (mkIFile false O)))%nat)
     \/ (if_open (nth i (ifiles self) (mkIFile false O)) = false
         /\ fs (nth i (ifilesnames self) ""%string) = None)) ->
  read_walkers args comm_size comm_rank self fs = Ok self.
Proof.
  intros Hlen Hup. unfold read_walkers, for_rangeM. apply foldM_fixed.
  intros i Hi. apply in_seq in Hi.
  destruct (Z.of_nat i =? mw_id_ self)%Z eqn:Eid; [reflexivity|].
  apply Z.eqb_neq in Eid.
  destruct (Hup i ltac:(lia) Eid) as [[Hopen Hpos] | [Hclosed Habsent]].
  - rewrite Hopen. cbn [negb]. unfold walker_content in Hpos.
    set (content := match fs (nth i (ifilesnames self) ""%string) with
                    | Some c => c | None => [] end) in *.
    rewrite skipn_all2 by exact Hpos. rewrite readGaussians_nothing. cbn [bind fst].
    rewrite Nat.max_l by exact Hpos.
    replace (mkIFile true (if_pos (nth i (ifiles self) (mkIFile false O))))
      with (nth i (ifiles self) (mkIFile false O))
      by (destruct (nth i (ifiles self) (mkIFile false O)) as [o p]; cbn in *; subst; reflexivity).
    rewrite splice_same by lia. rewrite with_ifiles_same. reflexivity.
  - rewrite Hclosed, Habsent. reflexivity.
Qed.

(** What a call leaves in [ifiles] for walker [i]. *)
Lemma read_walkers_files (self self' : MetaD G) :
  length (ifiles self) = Z.to_nat (mw_n_ self) ->
  read_walkers args comm_size comm_rank self fs = Ok self' ->
  same_settings self self'
  /\ length (ifiles self') = length (ifiles self)
  /\ (forall i, (i < Z.to_nat (mw_n_ self))%nat ->
        nth i (ifiles self') (mkIFile false O)
        = let f := nth i (ifiles self) (mkIFile false O) in
          if (Z.of_nat i =? mw_id_ self)%Z then f
          else if if_open f
               then mkIFile true (Nat.max (if_pos f) (length (walker_content self fs i)))
               else match fs (nth i (ifilesnames self) ""%string) with
                    | Some _ => mkIFile true O
                    | None => f
                    end)
  /\ ((forall i, (i < Z.to_nat (mw_n_ self))%nat -> Z.of_nat i <> mw_id_ self ->
         if_open (nth i (ifiles self) (mkIFile false O)) = false) ->
      hills_ self' = hills_ self /\ BiasGrid_ self' = BiasGrid_ self).
Proof.
  intros Hlen H.
  pose proof (read_walkers_settings args comm_size comm_rank self self' fs H) as Hset.
  split; [exact Hset|]. clear Hset.
  unfold read_walkers in H.
  pose (Q := (fun k (s : MetaD G) =>
              (same_settings self s
               /\ length (ifiles s) = length (ifiles self)
               /\ (forall i, (k <= i)%nat ->
                     nth i (ifiles s) (mkIFile false O) = nth i (ifiles self) (mkIFile false O)))
              /\ (forall i, (i < k)%nat ->
                    nth i (ifiles s) (mkIFile false O)
                    = let f := nth i (ifiles self) (mkIFile false O) in
                      if (Z.of_nat i =? mw_id_ self)%Z then f
                      else if if_open f
                           then mkIFile true
                                  (Nat.max (if_pos f) (length (walker_content self fs i)))
                           else match fs (nth i (ifilesnames self) ""%string) with
                                | Some _ => mkIFile true O
                                | None => f
                                end)
              /\ ((forall i, (i < k)%nat -> Z.of_nat i <> mw_id_ self ->
                     if_open (nth i (ifiles self) (mkIFile false O)) = false) ->
                  hills_ s = hills_ self /\ BiasGrid_ s = BiasGrid_ self))).
  assert (Q (Z.to_nat (mw_n_ self)) self') as HQ;
    [|unfold Q in HQ; destruct HQ as ((_ & Hl & _) & Hdone & Hquiet);
      split; [exact Hl | split; [exact Hdone | exact Hquiet]]].
  revert self' H. apply (for_rangeM_ind Q); unfold Q.
  - split; [split; [apply same_settings_refl | split; [reflexivity | reflexivity]]|].
    split; [intros i Hi; lia | intros _; split; reflexivity].
  - intros i acc acc' Hi IH Hbody.
    destruct IH as ((Hs & Hl & Hrest) & Hdone & Hquiet).
    assert (mw_id_ acc = mw_id_ self /\ ifilesnames acc = ifilesnames self) as [Hid Hnames].
    { unfold same_settings in Hs. intuition. }
    rewrite Hid, Hnames, (Hrest i (le_n i)) in Hbody.
    assert (forall (s : MetaD G) (f : IFile),
              same_settings acc s ->
              acc' = with_ifiles s (firstn i (ifiles acc) ++ f :: skipn (S i) (ifiles acc)) ->
              (same_settings self acc'
               /\ length (ifiles acc') = length (ifiles self)
               /\ (forall j, (S i <= j)%nat ->
                     nth j (ifiles acc') (mkIFile false O)
                     = nth j (ifiles self) (mkIFile false O)))
              /\ (forall j, (j < i)%nat ->
                    nth j (ifiles acc') (mkIFile false O)
                    = nth j (ifiles acc) (mkIFile false O))
              /\ nth i (ifiles acc') (mkIFile false O) = f) as Hsplice.
    { intros s f Hss ->. cbn [ifiles with_ifiles].
      split; [split; [|split]|split].
      - apply (same_settings_trans self acc); [exact Hs|].
        unfold same_settings in *. cbn [sigma0_ hillsOfile_ wgridstride_ grid_ height0_ biasf_
          temp_ stride_ welltemp_ adaptive_ mw_n_ mw_id_ mw_rstride_ ifilesnames uppI_ lowI_
          doInt_ isFirstStep with_ifiles]. exact Hss.
      - rewrite length_splice by lia. exact Hl.
      - intros j Hj. rewrite nth_splice by lia.
        replace (j =? i)%nat with false by (symmetry; apply Nat.eqb_neq; lia).
        apply Hrest. lia.
      - intros j Hj. rewrite nth_splice by lia.
        replace (j =? i)%nat with false by (symmetry; apply Nat.eqb_neq; lia). reflexivity.
      - rewrite nth_splice by lia. rewrite Nat.eqb_refl. reflexivity. }
    assert (forall j, (j < i)%nat ->
              nth j (ifiles acc) (mkIFile false O)
              = let f := nth j (ifiles self) (mkIFile false O) in
                if (Z.of_nat j =? mw_id_ self)%Z then f
                else if if_open f
                     then mkIFile true
                            (Nat.max (if_pos f) (length (walker_content self fs j)))
                     else match fs (nth j (ifilesnames self) ""%string) with
                          | Some _ => mkIFile true O
                          | None => f
                          end) as Hdone' by exact Hdone.
    assert (forall s : MetaD G,
              (forall j, (j < i)%nat ->
                 nth j (ifiles s) (mkIFile false O) = nth j (ifiles acc) (mkIFile false O)) ->
              nth i (ifiles s) (mkIFile false O)
              = (let f := nth i (ifiles self) (mkIFile false O) in
                 if (Z.of_nat i =? mw_id_ self)%Z then f
                 else if if_open f
                      then mkIFile true
                             (Nat.max (if_pos f) (length (walker_content self fs i)))
                      else match fs (nth i (ifilesnames self) ""%string) with
                           | Some _ => mkIFile true O
                           | None => f
                           end) ->
              forall j, (j < S i)%nat ->
                nth j (ifiles s) (mkIFile false O)
                = let f := nth j (ifiles self) (mkIFile false O) in
                  if (Z.of_nat j =? mw_id_ self)%Z then f
                  else if if_open f
                       then mkIFile true
                              (Nat.max (if_pos f) (length (walker_content self fs j)))
                       else match fs (nth j (ifilesnames self) ""%string) with
                            | Some _ => mkIFile true O
                            | None => f
                            end) as Hext.
    { intros s Hlow Hat j Hj. destruct (Nat.eq_dec j i) as [->|Hne]; [exact Hat|].
      rewrite Hlow by lia. apply Hdone'. lia. }
    destruct (Z.of_nat i =? mw_id_ self)%Z eqn:Eid.
    { inversion Hbody. subst acc'.
      split; [split; [exact Hs | split; [exact Hl | intros j Hj; apply Hrest; lia]]|].
      split.
      - intros j Hj. apply (Hext acc); [reflexivity | | exact Hj].
        cbv zeta. rewrite ?Eid. apply Hrest. lia.
      - intros Hq. apply Hquiet. intros j Hj. apply Hq. lia. }
    destruct (if_open (nth i (ifiles self) (mkIFile false O))) eqn:Eopen; cbn [negb] in Hbody.
    + destruct (readGaussians args comm_size comm_rank acc _) as [r|m] eqn:Er;
        cbn [bind] in Hbody; [|discriminate].
      injection Hbody as Hacc.
      destruct (readGaussians_settings args comm_size comm_rank acc _ r Er) as [Hr _].
      destruct (Hsplice (fst r) _ Hr (eq_sym Hacc)) as (H1 & Hlow & Hat).
      split; [exact H1|]. split.
      * intros j Hj. apply (Hext acc'); [exact Hlow | | exact Hj].
        cbv zeta. rewrite ?Eid, ?Eopen. rewrite Hat. reflexivity.
      * intros Hq. apply Z.eqb_neq in Eid. rewrite (Hq i (Nat.lt_succ_diag_r i) Eid) in Eopen.
        discriminate.
    + destruct (fs (nth i (ifilesnames self) ""%string)) as [content|] eqn:Efs.
      * injection Hbody as Hacc.
        destruct (Hsplice acc _ (same_settings_refl acc) (eq_sym Hacc)) as (H1 & Hlow & Hat).
        split; [exact H1|]. split.
        -- intros j Hj. apply (Hext acc'); [exact Hlow | | exact Hj].
          cbv zeta. rewrite ?Eid, ?Eopen, ?Efs. exact Hat.
        -- intros Hq. rewrite <- Hacc. cbn [hills_ BiasGrid_ with_ifiles].
          apply Hquiet. intros j Hj. apply Hq. lia.
      * inversion Hbody. subst acc'.
        split; [split; [exact Hs | split; [exact Hl | intros j Hj; apply Hrest; lia]]|].
        split.
        -- intros j Hj. apply (Hext acc); [reflexivity | | exact Hj].
          cbv zeta. rewrite ?Eid, ?Eopen, ?Efs. apply Hrest. lia.
        -- intros Hq. apply Hquiet. intros j Hj. apply Hq. lia.
Qed.

End Walkers.

Lemma for_rangeM_total {St : Type} (Q : nat -> St -> Prop) (n : nat)
    (body : nat -> St -> result St) (s : St) :
  Q O s ->
  (forall i acc, (i < n)%nat -> Q i acc -> exists acc', body i acc = Ok acc' /\ Q (S i) acc') ->
  exists s', for_rangeM 0 n body s = Ok s' /\ Q n s'.
Proof.
  intros H0 Hstep. unfold for_rangeM. rewrite Nat.sub_0_r.
  assert (forall k, (k <= n)%nat -> exists s', foldM body (seq 0 k) s = Ok s' /\ Q k s') as Hk.
  { induction k as [|k IH]; intros Hle.
    - exists s. split; [reflexivity | exact H0].
    - destruct (IH ltac:(lia)) as (s1 & E1 & Q1).
      destruct (Hstep k s1 ltac:(lia) Q1) as (s2 & E2 & Q2).
      exists s2. split; [|exact Q2].
      rewrite seq_S, foldM_app, E1. cbn [bind Nat.add foldM]. rewrite E2. reflexivity. }
  apply Hk. lia.
Qed.

(** X19.  Reading the other walkers' files twice in a row, the files
    unchanged, changes nothing the second time: no hill is taken twice.
    This needs every file of another walker to be open already or absent
    from disk; a file found closed is only opened by the first call. *)
Theorem read_walkers_idempotent :
  forall (G : Type) (grid_ops : GridLike G) (matrix_tools : MatrixTools)
         (args : list ArgValue) (P rank : nat) (fs : FileSystem) (self self' : MetaD G),
    length (ifiles self) = Z.to_nat (mw_n_ self) ->
    (forall i, (i < Z.to_nat (mw_n_ self))%nat -> Z.of_nat i <> mw_id_ self ->
       if_open (nth i (ifiles self) (mkIFile false O)) = true
       \/ fs (nth i (ifilesnames self) ""%string) = None) ->
    read_walkers args P rank self fs = Ok self' ->
    read_walkers args P rank self' fs = Ok self'.
Proof.
  intros G grid_ops matrix_tools args P rank fs self self' Hlen Hopen H.
  destruct (read_walkers_files args P rank fs self self' Hlen H) as (Hs & Hl & Hfiles & _).
  assert (mw_n_ self' = mw_n_ self /\ mw_id_ self' = mw_id_ self
          /\ ifilesnames self' = ifilesnames self) as (Hn & Hid & Hnames).
  { unfold same_settings in Hs. intuition. }
  apply read_walkers_fixed_point.
  - rewrite Hn. congruence.
  - rewrite Hn, Hid, Hnames. intros i Hi Hne.
    rewrite (Hfiles i Hi). cbv zeta.
    replace (Z.of_nat i =? mw_id_ self)%Z with false by (symmetry; apply Z.eqb_neq; exact Hne).
    destruct (if_open (nth i (ifiles self) (mkIFile false O))) eqn:Eo.
    + left. cbn [if_open if_pos]. split; [reflexivity|].
      unfold walker_content. rewrite Hnames. apply Nat.le_max_r.
    + destruct (Hopen i Hi Hne) as [Ho | Habs]; [congruence|].
      right. rewrite Habs. split; [exact Eo | reflexivity].
Qed.

Lemma read_walkers_idempotent_witness :
  read_walkers one_distance 1 0
    (walker_zero [mkGaussian [0.5] [0.2] 0.3 false] (mkIFile true 1)) peer_hills
  = Ok (walker_zero [mkGaussian [0.5] [0.2] 0.3 false] (mkIFile true 1)).
Proof.
  apply (read_walkers_idempotent Mesh mesh_grid small_matrix_tools one_distance 1 0 peer_hills
           (walker_zero [] (mkIFile true 0))).
  - reflexivity.
  - intros i Hi Hne. left.
    assert (i = 1%nat) by (simpl in Hi, Hne; lia). subst. reflexivity.
  - reflexivity.
Defined.

(** X20.  A call that finds the files of all other walkers closed reads no
    hill: it cannot fail, hills and grid are unchanged, and each file that
    is on disk is opened at its beginning, to be read from the next call
    on. *)
Theorem read_walkers_opens_before_reading :
  forall (G : Type) (grid_ops : GridLike G) (matrix_tools : MatrixTools)
         (args : list ArgValue) (P rank : nat) (fs : FileSystem) (self : MetaD G),
    length (ifiles self) = Z.to_nat (mw_n_ self) ->
    (forall i, (i < Z.to_nat (mw_n_ self))%nat -> Z.of_nat i <> mw_id_ self ->
       if_open (nth i (ifiles self) (mkIFile false O)) = false) ->
    exists self',
      read_walkers args P rank self fs = Ok self'
      /\ hills_ self' = hills_ self /\ BiasGrid_ self' = BiasGrid_ self
      /\ forall i, (i < Z.to_nat (mw_n_ self))%nat -> Z.of_nat i <> mw_id_ self ->
           nth i (ifiles self') (mkIFile false O)
           = match fs (nth i (ifilesnames self) ""%string) with
             | Some _ => mkIFile true O
             | None => nth i (ifiles self) (mkIFile false O)
             end.
Proof.
  intros G grid_ops matrix_tools args P rank fs self Hlen Hclosed.
  assert (exists self', read_walkers args P rank self fs = Ok self') as [self' H].
  { unfold read_walkers.
    destruct (for_rangeM_total
                (fun k (s : MetaD G) =>
                   mw_id_ s = mw_id_ self /\ length (ifiles s) = length (ifiles self)
                   /\ forall i, (k <= i)%nat ->
                        nth i (ifiles s) (mkIFile false O)
                        = nth i (ifiles self) (mkIFile false O))
                (Z.to_nat (mw_n_ self))
                (fun i self =>
                   if (Z.of_nat i =? mw_id_ self)%Z then Ok self
                   else
                     let ifile := nth i (ifiles self) (mkIFile false O) in
                     let fname := nth i (ifilesnames self) ""%string in
                     if negb (if_open ifile) then
                       match fs fname with
                       | Some _ =>
                           Ok (with_ifiles self
                                 (firstn i (ifiles self) ++ mkIFile true O
                                  :: skipn (S i) (ifiles self)))
                       | None => Ok self
                       end
                     else
                       let content := match fs fname with Some c => c | None => [] end in
                       r <- readGaussians args P rank self (skipn (if_pos ifile) content) ;;
                       Ok (with_ifiles (fst r)
                             (firstn i (ifiles self)
                              ++ mkIFile true (Nat.max (if_pos ifile) (length content))
                              :: skipn (S i) (ifiles self))))
                self) as (s' & E & _).
    - repeat split; reflexivity.
    - intros i acc Hi (Hid & Hl & Hrest). cbv zeta. rewrite Hid.
      destruct (Z.of_nat i =? mw_id_ self)%Z eqn:Eid.
      + exists acc. split; [reflexivity|]. split; [exact Hid|]. split; [exact Hl|].
        intros j Hj. apply Hrest. lia.
      + apply Z.eqb_neq in Eid. rewrite (Hrest i (le_n i)), (Hclosed i Hi Eid). cbn [negb].
        destruct (fs (nth i (ifilesnames acc) ""%string)).
        * eexists. split; [reflexivity|]. cbn [mw_id_ ifiles with_ifiles].
          split; [exact Hid|]. split; [rewrite length_splice by lia; exact Hl|].
          intros j Hj. rewrite nth_splice by lia.
          replace (j =? i)%nat with false by (symmetry; apply Nat.eqb_neq; lia).
          apply Hrest. lia.
        * exists acc. split; [reflexivity|]. split; [exact Hid|]. split; [exact Hl|].
          intros j Hj. apply Hrest. lia.
    - exists s'. exact E. }
  exists self'. split; [exact H|].
  destruct (read_walkers_files args P rank fs self self' Hlen H) as (_ & _ & Hfiles & Hquiet).
  destruct (Hquiet Hclosed) as [Hh Hg].
  split; [exact Hh|]. split; [exact Hg|].
  intros i Hi Hne. rewrite (Hfiles i Hi). cbv zeta.
  replace (Z.of_nat i =? mw_id_ self)%Z with false by (symmetry; apply Z.eqb_neq; exact Hne).
  rewrite (Hclosed i Hi Hne). reflexivity.
Qed.

Lemma read_walkers_opens_before_reading_witness :
  exists self',
    read_walkers one_distance 1 0 (walker_zero [] (mkIFile false 0)) peer_hills = Ok self'
    /\ hills_ self' = []
    /\ nth 1 (ifiles self') (mkIFile false O) = mkIFile true O.
Proof.
  destruct (read_walkers_opens_before_reading Mesh mesh_grid small_matrix_tools one_distance
              1 0 peer_hills (walker_zero [] (mkIFile false 0)))
    as (self' & H1 & H2 & _ & H4).
  - reflexivity.
  - intros i Hi Hne.
    assert (i = 1%nat) by (simpl in Hi, Hne; lia). subst. reflexivity.
  - exists self'. split; [exact H1 | split; [exact H2|]].
    apply (H4 1%nat); simpl; lia.
Defined.

(** ** The support of a hill on the grid *)

Lemma Int_part_monotone (x y : R) : x <= y -> (Int_part x <= Int_part y)%Z.
Proof.
  intros Hxy.
  destruct (base_Int_part x) as [Hx1 Hx2]. destruct (base_Int_part y) as [Hy1 Hy2].
  destruct (Z_le_gt_dec (Int_part x) (Int_part y)) as [Hle|Hgt]; [exact Hle|].
  assert (Int_part y + 1 <= Int_part x)%Z as Hz by lia.
  apply IZR_le in Hz. rewrite plus_IZR in Hz. lra.
Qed.

Lemma unsigned_ceil_monotone (x y : R) : x <= y -> (unsigned_ceil x <= unsigned_ceil y)%nat.
Proof.
  intros Hxy. unfold unsigned_ceil, ceil.
  pose proof (Int_part_monotone (- y) (- x) ltac:(lra)). lia.
Qed.

Lemma unsigned_ceil_positive (x : R) : 0 < x -> (1 <= unsigned_ceil x)%nat.
Proof.
  intros Hx. pose proof (unsigned_ceil_above x ltac:(lra)) as H.
  destruct (unsigned_ceil x); [simpl in H; lra | lia].
Qed.

Lemma sqrt_cutoff_positive : 0 < sqrt (2.0 * DP2CUTOFF).
Proof. apply sqrt_lt_R0. unfold DP2CUTOFF. lra. Qed.

(** X21.  The support of an isotropic hill on a grid of positive spacing,
    where it is defined: one half-width per variable, the ceiling of
    [sqrt(2*6.25) * sigma_i / dx_i], which fits an [unsigned]; of at least
    one cell when the width is positive, and no smaller for a wider hill
    whose support is defined too. *)
Theorem isotropic_support_grows_with_width :
  forall (G : Type) (grid_ops : GridLike G) (matrix_tools : MatrixTools)
         (args : list ArgValue) (self : MetaD G) (g : G) (hill hill' : Gaussian) (i : nat),
    multivariate hill = false -> multivariate hill' = false ->
    (i < getNumberOfArguments args)%nat ->
    0 < vget (grid_getDx g) i ->
    support_defined args self g hill ->
    support_defined args self g hill' ->
    length (getGaussianSupport args self g hill) = getNumberOfArguments args
    /\ Z.of_nat (nth i (getGaussianSupport args self g hill) O)
       = ceil (sqrt (2.0 * DP2CUTOFF) * vget (sigma hill) i / vget (grid_getDx g) i)
    /\ (Z.of_nat (nth i (getGaussianSupport args self g hill) O) <= 4294967295)%Z
    /\ (0 < vget (sigma hill) i -> (1 <= nth i (getGaussianSupport args self g hill) O)%nat)
    /\ (vget (sigma hill) i <= vget (sigma hill') i ->
        (nth i (getGaussianSupport args self g hill) O
         <= nth i (getGaussianSupport args self g hill') O)%nat).
Proof.
  intros G grid_ops matrix_tools args self g hill hill' i Hm Hm' Hi Hdx Hdef Hdef'.
  unfold support_defined in Hdef, Hdef'. rewrite Hm in Hdef. rewrite Hm' in Hdef'.
  cbv zeta in Hdef, Hdef'.
  destruct (Hdef i Hi) as [_ Hcast]. destruct (Hdef' i Hi) as [_ Hcast'].
  rewrite !support_isotropic by assumption.
  assert (forall h : Gaussian,
            nth i (map (fun i => unsigned_ceil (sqrt (2.0 * DP2CUTOFF) * vget (sigma h) i
                                                / vget (grid_getDx g) i))
                     (seq 0 (getNumberOfArguments args))) O
            = unsigned_ceil (sqrt (2.0 * DP2CUTOFF) * vget (sigma h) i
                             / vget (grid_getDx g) i)) as Hnth.
  { intros h.
    rewrite (nth_indep _ O (unsigned_ceil (sqrt (2.0 * DP2CUTOFF) * vget (sigma h) 0
                                           / vget (grid_getDx g) 0)))
      by (rewrite length_map, length_seq; exact Hi).
    rewrite (map_nth (fun i => unsigned_ceil (sqrt (2.0 * DP2CUTOFF) * vget (sigma h) i
                                              / vget (grid_getDx g) i))).
    rewrite seq_nth by exact Hi. reflexivity. }
  rewrite !Hnth. pose proof sqrt_cutoff_positive as Hc.
  assert (0 < / vget (grid_getDx g) i) as Hinv by (apply Rinv_0_lt_compat; exact Hdx).
  destruct (unsigned_ceil_defined _ Hcast) as [Hz [_ Hfit]].
  split; [rewrite length_map, length_seq; reflexivity|].
  split; [exact Hz|]. split; [rewrite Hz; exact Hfit|]. split.
  - intros Hs. apply unsigned_ceil_positive. unfold Rdiv.
    apply Rmult_lt_0_compat; [apply Rmult_lt_0_compat; assumption | exact Hinv].
  - intros Hle. apply unsigned_ceil_monotone. unfold Rdiv.
    apply Rmult_le_compat_r; [lra|]. apply Rmult_le_compat_l; lra.
Qed.

Lemma unit_hill_support_defined (w : R) :
  0 <= w <= 1 ->
  support_defined one_distance grid_interval_bias empty_mesh (mkGaussian [1.0] [w] 1 false).
Proof.
  intros Hw. unfold support_defined.
  change (multivariate (mkGaussian [1.0] [w] 1 false)) with false. cbv iota zeta.
  intros i Hi. change (getNumberOfArguments one_distance) with 1%nat in Hi.
  assert (i = O) by lia. subst i.
  pose proof sqrt_cutoff_bounds as Hc. unfold unsigned_cast_defined.
  change (sigma (mkGaussian [1.0] [w] 1 false)) with [w].
  unfold vget. cbn [nth grid_getDx mesh_grid mesh_dx empty_mesh].
  split; [lra|]. unfold Rdiv. rewrite Rinv_1, Rmult_1_r. split.
  - apply Rlt_le_trans with 0; [lra|]. apply Rmult_le_pos; lra.
  - apply Rle_trans with (4 * 1); [|lra]. apply Rmult_le_compat; lra.
Qed.

Lemma isotropic_support_grows_with_width_witness :
  length (getGaussianSupport one_distance grid_interval_bias empty_mesh unit_hill) = 1%nat
  /\ (1 <= nth 0 (getGaussianSupport one_distance grid_interval_bias empty_mesh unit_hill) O)%nat
  /\ (nth 0 (getGaussianSupport one_distance grid_interval_bias empty_mesh unit_hill) O
      <= nth 0 (getGaussianSupport one_distance grid_interval_bias empty_mesh
                  (mkGaussian [1.0]%R [0.4]%R 1%R false)) O)%nat.
Proof.
  destruct (isotropic_support_grows_with_width Mesh mesh_grid small_matrix_tools one_distance
              grid_interval_bias empty_mesh unit_hill (mkGaussian [1.0] [0.4] 1 false) 0)
    as (H1 & _ & _ & H2 & H3).
  - reflexivity.
  - reflexivity.
  - simpl. lia.
  - unfold vget. simpl. lra.
  - apply unit_hill_support_defined. lra.
  - apply unit_hill_support_defined. lra.
  - split; [exact H1 | split; [apply H2 | apply H3]]; unfold vget; simpl; lra.
Defined.

(** X22.  The eigenvalue search of a full-covariance support.  The
    half-widths are computed from the pair [(max, ind)] the search ends on,
    started from [(0, ncv)]: [ind] is a column of the eigenvector matrix
    exactly when the inverse of the stored matrix has a positive
    eigenvalue, and [max] is then the largest eigenvalue and [ind] the first
    index that attains it.  With no positive eigenvalue the search ends on
    [(0, ncv)], the column read lies outside the matrix, and the support is
    not defined. *)
Theorem support_needs_positive_eigenvalue :
  forall (G : Type) (grid_ops : GridLike G) (matrix_tools : MatrixTools)
         (args : list ArgValue) (self : MetaD G) (g : G) (hill : Gaussian),
    multivariate hill = true ->
    let ncv := getNumberOfArguments args in
    let eig := diagMat ncv (Invert ncv (recompose ncv (sigma hill))) in
    let top := for_range 0 ncv
                 (fun i '(mx, ind) =>
                    if Rgtb (vget (fst eig) i) mx then (vget (fst eig) i, i) else (mx, ind))
                 (0, ncv) in
    ((snd top < ncv)%nat <-> exists i, (i < ncv)%nat /\ 0 < vget (fst eig) i)
    /\ ((snd top < ncv)%nat ->
        fst top = vget (fst eig) (snd top) /\ 0 < fst top
        /\ (forall i, (i < ncv)%nat -> vget (fst eig) i <= fst top)
        /\ (forall i, (i < snd top)%nat -> vget (fst eig) i < fst top))
    /\ ((forall i, (i < ncv)%nat -> vget (fst eig) i <= 0) ->
        top = (0, ncv) /\ ~ support_defined args self g hill)
    /\ (support_defined args self g hill ->
        (snd top < ncv)%nat
        /\ map Z.of_nat (getGaussianSupport args self g hill)
           = map (fun i => ceil (sqrt (2.0 * DP2CUTOFF)
                                 * Rabs (sqrt (fst top) * snd eig i (snd top))
                                 / vget (grid_getDx g) i))
               (seq 0 ncv)).
Proof.
  intros G grid_ops matrix_tools args self g hill Hm ncv eig top.
  pose proof (support_multivariate args self g hill Hm) as Hsup. cbv zeta in Hsup.
  fold ncv in Hsup. fold eig in Hsup. fold top in Hsup.
  destruct (largest_eigenvalue_search (fst eig) ncv) as (Hiff & Hfound & Hnone).
  cbv zeta in Hiff, Hfound, Hnone. fold top in Hiff, Hfound, Hnone.
  assert (support_defined args self g hill ->
          (snd top < ncv)%nat
          /\ forall i, (i < ncv)%nat ->
               unsigned_cast_defined
                 (sqrt (2.0 * DP2CUTOFF) * Rabs (sqrt (fst top) * snd eig i (snd top))
                  / vget (grid_getDx g) i)) as Hdef.
  { unfold support_defined. rewrite Hm. cbv zeta. fold ncv. fold eig. fold top.
    intros [H Hcast]. split; [exact H|]. intros i Hi. apply Hcast. exact Hi. }
  split; [exact Hiff|]. split; [exact Hfound|]. split.
  - intros Hneg.
    assert (~ (snd top < ncv)%nat) as Hout.
    { intros Hlt. apply Hiff in Hlt. destruct Hlt as (i & Hi & Hp).
      specialize (Hneg i Hi). lra. }
    destruct (Hnone Hout) as [Hind Hmax]. split.
    + destruct top as [mx ind]. cbn [fst snd] in *. subst. reflexivity.
    + intros H. apply Hout. apply Hdef. exact H.
  - intros H. destruct (Hdef H) as [Hin Hcast]. split; [exact Hin|].
    rewrite Hsup, map_map. apply map_ext_in. intros i Hi. apply in_seq in Hi.
    apply unsigned_ceil_defined. apply Hcast. lia.
Qed.

Lemma support_needs_positive_eigenvalue_witness :
  ~ support_defined one_distance grid_interval_bias empty_mesh (mkGaussian [1.0] [-1] 1 true).
Proof.
  refine (proj2 (proj1 (proj2 (proj2
            (support_needs_positive_eigenvalue Mesh mesh_grid small_matrix_tools one_distance
               grid_interval_bias empty_mesh (mkGaussian [1.0] [-1] 1 true) eq_refl))) _)).
  intros i Hi. simpl in Hi. assert (i = O) by lia. subst.
  unfold recompose, for_range, mset, mzero, vget. simpl. lra.
Defined.

(** ** Mode and interval *)

Lemma keeps_accumulator_refl {G : Type} (a : MetaD G) : keeps_accumulator a a.
Proof. split; [reflexivity | exact (fun H => H)]. Qed.

Lemma keeps_accumulator_trans {G : Type} (a b c : MetaD G) :
  keeps_accumulator a b -> keeps_accumulator b c -> keeps_accumulator a c.
Proof. intros [H1 H2] [H3 H4]. split; [congruence | exact (fun H => H4 (H2 H))]. Qed.

Section Accumulators.

Context {G : Type} {grid_ops : GridLike G} {matrix_tools : MatrixTools}.
Variable args : list ArgValue.
Variables comm_size comm_rank : nat.

Lemma addGaussian_accumulator (self : MetaD G) (hill : Gaussian) :
  keeps_accumulator self (addGaussian args comm_size comm_rank self hill).
Proof.
  destruct (addGaussian_settings args comm_size comm_rank self hill) as [Hs _].
  assert (grid_ (addGaussian args comm_size comm_rank self hill) = grid_ self) as Hg.
  { unfold same_settings in Hs. intuition. }
  split; [exact Hg|]. intros [H1 H2]. unfold accumulator_ok. rewrite Hg.
  unfold addGaussian.
  destruct (grid_ self) eqn:Eg; cbn [negb].
  - destruct (H1 eq_refl) as [Hh [g0 Hb]]. rewrite Hb.
    split; [|discriminate]. intros _.
    destruct (comm_size =? 1)%nat; cbn [hills_ BiasGrid_ with_BiasGrid];
      (split; [exact Hh | eexists; reflexivity]).
  - cbn [hills_ BiasGrid_ with_hills]. split; [discriminate | exact H2].
Qed.

Lemma readGaussians_loop_accumulator (records : list HillRecord) :
  forall (self : MetaD G) (buf : ScanBuffers) (n : nat) (out : MetaD G * nat),
    readGaussians_loop args comm_size comm_rank records self buf n = Ok out ->
    keeps_accumulator self (fst out).
Proof.
  induction records as [|rec rest IH]; intros self buf n out H; simpl in H.
  - inversion H. apply keeps_accumulator_refl.
  - destruct (scanOneHill args (Some rec) buf) as [r|m]; cbn [bind] in H; [|discriminate].
    apply IH in H. eapply keeps_accumulator_trans; [apply addGaussian_accumulator | exact H].
Qed.

Lemma read_walkers_accumulator (self self' : MetaD G) (fs : FileSystem) :
  read_walkers args comm_size comm_rank self fs = Ok self' -> keeps_accumulator self self'.
Proof.
  unfold read_walkers, for_rangeM. apply foldM_invariant.
  - apply keeps_accumulator_refl.
  - apply keeps_accumulator_trans.
  - intros i s s' H.
    destruct (Z.of_nat i =? mw_id_ s)%Z; [inversion H; apply keeps_accumulator_refl|].
    destruct (negb (if_open (nth i (ifiles s) (mkIFile false 0)))).
    + destruct (fs (nth i (ifilesnames s) ""%string)); inversion H;
        [split; [reflexivity | exact (fun H => H)] | apply keeps_accumulator_refl].
    + destruct (readGaussians _ _ _ s _) as [r|m] eqn:E; simpl in H; [|discriminate].
      inversion H. apply readGaussians_loop_accumulator in E.
      destruct E as [E1 E2]. split; [exact E1 | exact E2].
Qed.

Lemma open_files_accumulator (ao : ActionOptions) (restart : bool) (fs : FileSystem)
    (s0 self : MetaD G) :
  open_files args comm_size comm_rank ao restart fs s0 = Ok self -> keeps_accumulator s0 self.
Proof.
  unfold open_files. cbv zeta. unfold for_rangeM. apply foldM_invariant.
  - apply keeps_accumulator_refl.
  - apply keeps_accumulator_trans.
  - intros i s s' Hbody.
    destruct (fs _) as [content|];
      [|inversion Hbody; split; [reflexivity | exact (fun H => H)]].
    destruct restart.
    + destruct (readGaussians args comm_size comm_rank s content) as [r|m] eqn:Er;
        cbn [bind] in Hbody; [|discriminate].
      inversion Hbody. apply readGaussians_loop_accumulator in Er.
      destruct Er as [E1 E2]. split; [exact E1 | exact E2].
    + cbn [bind fst] in Hbody. inversion Hbody. split; [reflexivity | exact (fun H => H)].
Qed.

End Accumulators.

(** X23.  The accumulator is the one the mode calls for, from the
    constructor on and after every [update]: in grid mode there is a grid
    and the list of hills stays empty, in list mode there is no grid. *)
Theorem accumulator_matches_mode :
  forall (G : Type) (grid_ops : GridLike G) (matrix_tools : MatrixTools)
         (args : list ArgValue) (P rank : nat),
    (forall ao restart fs (self : MetaD G),
       MetaD_new args P rank ao restart fs = Ok self -> accumulator_ok self)
    /\ (forall kB dt (self self' : MetaD G) step argv flexinv fs now,
          accumulator_ok self ->
          update args P rank kB dt self step argv flexinv fs now = Ok self' ->
          accumulator_ok self').
Proof.
  intros G grid_ops matrix_tools args P rank. split.
  - intros ao restart fs self H. apply MetaD_new_stages in H. destruct H as [_ H].
    apply open_files_accumulator in H. apply H.
    unfold accumulator_ok, configured. cbv zeta. cbn [grid_ hills_ BiasGrid_].
    split; intros Hg; rewrite Hg; [split; [reflexivity | eexists; reflexivity] | reflexivity].
  - intros kB dt self self' step argv flexinv fs now Hok H.
    rewrite update_unfold in H.
    assert (keeps_accumulator self (after_deposit args P rank kB dt self step argv flexinv now))
      as Hd.
    { unfold after_deposit. destruct (deposit_now self step).
      - match goal with |- context [addGaussian _ _ _ self ?h] =>
          pose proof (addGaussian_accumulator args P rank self h) as [E1 E2] end.
        split; [exact E1 | exact E2].
      - split; [reflexivity | exact (fun H => H)]. }
    destruct ((mw_n_ self >? 1)%Z && (Z.rem step (mw_rstride_ self) =? 0)%Z)%bool.
    + apply read_walkers_accumulator in H. apply H. apply Hd. exact Hok.
    + inversion H. subst. apply Hd. exact Hok.
Qed.

(** X24.  The interval is open.  With the restriction on, hills contribute
    exactly when the first variable lies strictly between the bounds; on
    either bound every hill evaluates to zero with the derivatives
    untouched, and the list-mode bias and derivatives are zero. *)
Theorem interval_bounds_excluded :
  forall (G : Type) (grid_ops : GridLike G) (args : list ArgValue) (P rank : nat)
         (self : MetaD G) (cv : list R),
    doInt_ self = true ->
    (interval_gate self cv = true <-> lowI_ self < vget cv 0 < uppI_ self)
    /\ (vget cv 0 = lowI_ self \/ vget cv 0 = uppI_ self ->
        (forall hill der, evaluateGaussian args self cv hill der = (0, der))
        /\ (grid_ self = false ->
            getBiasAndDerivatives args P rank self cv
              (Some (vzero (getNumberOfArguments args)))
            = (0, Some (vzero (getNumberOfArguments args))))).
Proof.
  intros G grid_ops args P rank self cv Hint.
  assert (interval_gate self cv = true <-> lowI_ self < vget cv 0 < uppI_ self) as Hgate.
  { unfold interval_gate. rewrite Hint. cbn [andb negb]. rewrite orb_false_r.
    rewrite andb_true_iff, Rgtb_true, Rltb_true. split; intros [H1 H2]; split; lra. }
  split; [exact Hgate|]. intros Hedge.
  assert (interval_gate self cv = false) as Hclosed.
  { destruct (interval_gate self cv); [|reflexivity].
    destruct (proj1 Hgate eq_refl) as [H1 H2]. destruct Hedge; lra. }
  split.
  - intros hill der. apply evaluateGaussian_gated. exact Hclosed.
  - intros Hlist. apply list_mode_gated; assumption.
Qed.

Lemma interval_bounds_excluded_witness :
  getBiasAndDerivatives one_distance 1 0 (interval_bias 0.5 1.5 [unit_hill]) [0.5]
    (Some (vzero (getNumberOfArguments one_distance)))
  = (0, Some (vzero (getNumberOfArguments one_distance))).
Proof.
  destruct (interval_bounds_excluded Mesh mesh_grid one_distance 1 0
              (interval_bias 0.5 1.5 [unit_hill]) [0.5]) as [_ H].
  - reflexivity.
  - destruct H as [_ H]; [left; reflexivity|]. apply H. reflexivity.
Defined.

(** ** Full-covariance hills through the file *)

Section MatrixOnly.

Context {G : Type}.
Variable args : list ArgValue.
Variable self : MetaD G.

(** The full-covariance branch looks at the hill through its centre, its
    height and the leading block of its recomposed matrix. *)
Lemma multivariate_dp_block (cv : list R) (hill hill' : Gaussian) (M M' : Matrix) :
  center hill' = center hill ->
  (forall i j, (i < length cv)%nat -> (j < length cv)%nat -> M' i j = M i j) ->
  multivariate_dp args cv hill' M' = multivariate_dp args cv hill M.
Proof.
  intros Hc HM. unfold multivariate_dp. rewrite Hc.
  apply for_range_ext. intros i [dp2 dp_] Hi. f_equal.
  apply for_range_ext. intros j acc Hj. rewrite HM by lia. reflexivity.
Qed.

Lemma evaluateGaussian_block (cv : list R) (hill hill' : Gaussian) (der : option (list R)) :
  multivariate hill = true -> multivariate hill' = true ->
  center hill' = center hill -> height hill' = height hill ->
  (forall i j, (i < length cv)%nat -> (j < length cv)%nat ->
     recompose (length cv) (sigma hill') i j = recompose (length cv) (sigma hill) i j) ->
  evaluateGaussian args self cv hill' der = evaluateGaussian args self cv hill der.
Proof.
  intros Hm Hm' Hc Hh HM. unfold evaluateGaussian. rewrite Hm, Hm', Hh.
  rewrite (multivariate_dp_block cv hill hill' _ _ Hc HM).
  destruct (multivariate_dp args cv hill (recompose (length cv) (sigma hill))) as [dp2 dp_].
  destruct (Rltb dp2 DP2CUTOFF); [|reflexivity].
  destruct (interval_gate self cv); [|reflexivity].
  f_equal. destruct der as [d|]; [|reflexivity]. cbn [option_map]. f_equal.
  apply for_range_ext. intros i acc Hi. do 2 f_equal.
  apply for_range_ext. intros j tmp Hj. rewrite HM by lia. reflexivity.
Qed.

End MatrixOnly.

Section MultivariateRecord.

Context {G : Type} {grid_ops : GridLike G} {matrix_tools : MatrixTools}.
Variable args : list ArgValue.
Variable timeStep : R.

Let ncv := getNumberOfArguments args.

Lemma hill_record_multivariate (self : MetaD G) (hill : Gaussian) (step now : Z) :
  multivariate hill = true ->
  f_sigma (hill_record args timeStep self hill step now)
  = band_fields ncv (cholesky ncv (symmetrised ncv (Invert ncv (recompose ncv (sigma hill))))).
Proof.
  intros Hm. unfold hill_record. rewrite Hm. reflexivity.
Qed.

End MultivariateRecord.

Section ScanMultivariate.

Context {matrix_tools : MatrixTools}.
Variable args : list ArgValue.

Let ncv := getNumberOfArguments args.

Lemma scanOneHill_multivariate (rec : HillRecord) (buf : ScanBuffers) (M : Matrix) :
  domains_accepted args rec ->
  f_multivariate rec = "true"%string ->
  f_sigma rec = band_fields ncv M ->
  length (f_args rec) = ncv -> length (sb_center buf) = ncv ->
  exists sigma',
    scanOneHill args (Some rec) buf
    = Ok (true, mkScan (map snd (f_args rec)) sigma' (f_height rec) true)
    /\ length sigma' = (ncv * (ncv + 1) / 2)%nat
    /\ forall i j, (i < ncv)%nat -> (j < ncv)%nat ->
         recompose ncv sigma' i j
         = Invert ncv (mult ncv (lower_triangle ncv M) (transpose (lower_triangle ncv M)))
             (Nat.min i j) (Nat.max i j).
Proof.
  intros Hdom Hflag Hsigma Hargs Hc.
  unfold scanOneHill, for_rangeM.
  rewrite (foldM_pure _ (fun i center => vset center i (snd (nth i (f_args rec) (NotPeriodic, 0))))).
  2:{ intros i s0 Hi. apply in_seq in Hi.
      destruct (Hdom i ltac:(unfold ncv in *; lia)) as [-> | ->]; [reflexivity|].
      destruct (arg_domain (getPntrToArgument args i)) as [|lo hi]; cbn; [reflexivity|].
      rewrite !String.eqb_refl. reflexivity. }
  cbn [bind]. rewrite Hflag. cbn [String.eqb Ascii.eqb Bool.eqb bind]. fold ncv.
  assert (fold_left
            (fun acc a => vset acc a (snd (nth a (f_args rec) (NotPeriodic, 0))))
            (seq 0 (ncv - 0))
            (sb_center (mkScan (sb_center buf) (sb_sigma buf) (sb_height buf) false))
          = map snd (f_args rec)) as ->.
  { change (for_range 0 ncv
              (fun i center => vset center i (snd (nth i (f_args rec) (NotPeriodic, 0))))
              (sb_center buf) = map snd (f_args rec)).
    destruct (for_range_pointwise ncv
                (fun i _ => snd (nth i (f_args rec) (NotPeriodic, 0))) (sb_center buf))
      as [Hlen Hget].
    apply vector_ext.
    - rewrite Hlen, length_map. congruence.
    - intros i Hi. rewrite Hlen in Hi. rewrite Hget.
      rewrite Hc in *. apply Nat.ltb_lt in Hi as Hb. rewrite Hb. cbn [andb].
      unfold vget. rewrite (nth_indep _ 0 (snd (NotPeriodic, 0))) by (rewrite length_map; lia).
      rewrite map_nth. reflexivity. }
  pose proof (scan_bands ncv (f_sigma rec)) as Hscan. cbv zeta in Hscan.
  match type of Hscan with context [fst (fst ?t)] =>
    destruct t as [[lower upper] k] end.
  cbn [fst snd] in Hscan.
  assert (lower = lower_triangle ncv M) as ->.
  { extensionality a. extensionality b. rewrite (proj1 (Hscan a b)).
    unfold lower_triangle.
    destruct (b <=? a)%nat eqn:E1; destruct (a <? ncv)%nat eqn:E2; cbn [andb]; try reflexivity.
    nat_bools. rewrite Hsigma.
    destruct (band_fields_spec ncv M) as [_ Hget].
    rewrite Hget by lia. f_equal. lia. }
  assert (upper = transpose (lower_triangle ncv M)) as ->.
  { extensionality a. extensionality b. rewrite (proj2 (Hscan a b)). reflexivity. }
  eexists. split; [reflexivity|].
  match goal with |- context [for_range 0 ncv _ (vresize ?s ?n, O)] =>
    destruct (pack_upper ncv
                (Invert ncv (mult ncv (lower_triangle ncv M) (transpose (lower_triangle ncv M))))
                (vresize s n)) as [Hlen Hget]
  end.
  { rewrite length_vresize. symmetry. apply row_start_total. }
  cbv zeta in Hlen, Hget. split.
  - rewrite Hlen. apply length_vresize.
  - intros i j Hi Hj.
    match goal with |- recompose ncv ?packed i j = _ =>
      destruct (recompose_rows ncv packed ncv (le_n _)) as [_ Hm] end.
    cbv zeta in Hm. unfold recompose. rewrite Hm.
    replace (Nat.min i j <? ncv)%nat with true by (symmetry; apply Nat.ltb_lt; lia).
    replace (Nat.max i j <? ncv)%nat with true by (symmetry; apply Nat.ltb_lt; lia).
    cbn [andb]. apply Hget; lia.
Qed.

End ScanMultivariate.

(** X25.  A full-covariance hill through the file.  [writeGaussian]
    records the Cholesky factor of the inverse of the hill's matrix and
    [scanOneHill] inverts its square.  A record read with the values, the
    flag and the factor that were written replays to a hill with the height
    [readGaussians] makes of the height field read; to the evaluator it is
    the hill written with that height, value and derivatives at every
    point, when the matrix tools are exact on the hill: inverting
    [L * L^T], [L] the factor written, gives the hill's matrix back. *)
Theorem multivariate_record_round_trip :
  forall (G : Type) (grid_ops : GridLike G) (matrix_tools : MatrixTools)
         (args : list ArgValue) (P rank : nat) (dt : R) (self : MetaD G)
         (c s : list R) (h : R) (step now : Z) (r : HillRecord),
    let ncv := getNumberOfArguments args in
    let hill := mkGaussian c s h true in
    let written := hill_record args dt self hill step now in
    let A := recompose ncv s in
    let L := lower_triangle ncv (cholesky ncv (symmetrised ncv (Invert ncv A))) in
    length c = ncv ->
    f_args r = f_args written -> f_multivariate r = f_multivariate written ->
    f_sigma r = f_sigma written ->
    (forall i j, (i <= j)%nat -> (j < ncv)%nat ->
       Invert ncv (mult ncv L (transpose L)) i j = A i j) ->
    exists hill',
      readGaussians args P rank self [r] = Ok (addGaussian args P rank self hill', 1%nat)
      /\ multivariate hill' = true /\ center hill' = c
      /\ height hill' = replayed_height self (f_height r)
      /\ forall cv der, length cv = ncv ->
           evaluateGaussian args self cv hill' der
           = evaluateGaussian args self cv
               (mkGaussian c s (replayed_height self (f_height r)) true) der.
Proof.
  intros G grid_ops matrix_tools args P rank dt self c s h step now r ncv hill written A L
    Hc Hra Hrm Hrs Hexact.
  destruct (hill_record_fields args dt self hill step now) as (_ & Hflag & Hargs & _).
  pose proof (hill_record_multivariate args dt self hill step now eq_refl) as Hsig.
  fold written in Hflag, Hargs, Hsig.
  change (sigma hill) with s in Hsig. fold ncv in Hsig. fold A in Hsig.
  change (multivariate hill) with true in Hflag. change (center hill) with c in Hargs.
  rewrite <- Hra in Hargs. rewrite <- Hrm in Hflag. rewrite <- Hrs in Hsig.
  destruct (scanOneHill_multivariate args r
              (mkScan (vzero ncv) (vzero ncv) 0 false)
              (cholesky ncv (symmetrised ncv (Invert ncv A))))
    as (sigma' & Hscan & Hlen & Hrec).
  { intros i Hi. right. rewrite Hargs.
    rewrite (nth_indep _ _ (arg_domain (getPntrToArgument args 0), vget c 0))
      by (rewrite length_map, length_seq; exact Hi).
    rewrite (map_nth (fun i => (arg_domain (getPntrToArgument args i), vget c i))).
    rewrite seq_nth by exact Hi. reflexivity. }
  { exact Hflag. }
  { exact Hsig. }
  { rewrite Hargs, length_map, length_seq. reflexivity. }
  { apply length_vzero. }
  assert (map snd (f_args r) = c) as Hcentre.
  { rewrite Hargs, map_map. cbn [snd]. fold ncv. rewrite <- Hc. apply map_vget_seq. }
  unfold readGaussians. fold ncv. cbn [readGaussians_loop]. rewrite Hscan.
  cbn [bind snd sb_center sb_sigma sb_height sb_multivariate].
  eexists. split; [reflexivity|].
  split; [reflexivity|]. split; [exact Hcentre|]. split; [reflexivity|].
  intros cv der Hcv. apply evaluateGaussian_block; try reflexivity.
  - exact Hcentre.
  - intros i j Hi Hj. rewrite Hcv in *.
    match goal with |- recompose ncv (sigma (mkGaussian _ ?x ?hh _)) i j = _ =>
      change (sigma (mkGaussian (map snd (f_args r)) x hh true)) with x end.
    change (sigma (mkGaussian c s (replayed_height self (f_height r)) true)) with s.
    rewrite Hrec by assumption. fold L.
    rewrite Hexact by lia.
    pose proof (recompose_symmetric ncv s i j) as Hsym.
    destruct (Nat.le_ge_cases i j) as [Hij|Hij].
    + rewrite Nat.min_l, Nat.max_r by lia. reflexivity.
    + rewrite Nat.min_r, Nat.max_l by lia. unfold A. exact Hsym.
Qed.

Lemma multivariate_record_round_trip_witness :
  exists hill',
    readGaussians one_distance 1 0 (example_bias [] [] false)
      [hill_record one_distance 1 (example_bias [] [] false) (mkGaussian [1] [4] 0.3 true) 500 0]
    = Ok (addGaussian one_distance 1 0 (example_bias [] [] false) hill', 1%nat)
    /\ multivariate hill' = true /\ center hill' = [1]
    /\ height hill' = 0.3
    /\ forall cv der, length cv = getNumberOfArguments one_distance ->
         evaluateGaussian one_distance (example_bias [] [] false) cv hill' der
         = evaluateGaussian one_distance (example_bias [] [] false) cv
             (mkGaussian [1] [4] 0.3 true) der.
Proof.
  apply (multivariate_record_round_trip Mesh mesh_grid small_matrix_tools one_distance 1 0 1
           (example_bias [] [] false) [1] [4] 0.3 500 0
           (hill_record one_distance 1 (example_bias [] [] false)
              (mkGaussian [1] [4] 0.3 true) 500 0)).
  - reflexivity.
  - reflexivity.
  - reflexivity.
  - reflexivity.
  - intros i j Hij Hj. simpl in Hj. assert (j = O) by lia. assert (i = O) by lia. subst.
    unfold lower_triangle, transpose, symmetrised, recompose, for_range, mset, vget.
    cbn [getNumberOfArguments one_distance length seq Nat.sub fold_left fst snd nth
         Invert mult cholesky small_matrix_tools small_Invert small_mult small_cholesky
         Nat.eqb Nat.leb Nat.ltb andb map fold_right].
    rewrite sqrt_sqrt by lra. lra.
Defined.

(** ** Restart and synchronisation *)

Lemma replayed_hill_ext {G : Type} (a b : MetaD G) (rec : HillRecord) :
  welltemp_ a = welltemp_ b -> biasf_ a = biasf_ b ->
  replayed_hill a rec = replayed_hill b rec.
Proof.
  intros Hw Hb. unfold replayed_hill, replayed_height. rewrite Hw, Hb. reflexivity.
Qed.

(** X26.  Restarting rebuilds the hills from the file.  For a single
    walker in list mode, on a valid input line with a [WALKERS_ID] that is
    not negative, a restart that finds a file of isotropic records
    constructs an action holding exactly the replay of those records,
    nothing written yet, no grid, the first-step flag set, about to open
    the file [FILE] for writing.  If the records are read with the fields a
    run with the same bias factor wrote, a run whose records were those of
    its hills, the restarted action holds the hills of that run as they
    come back from the file: same centres and widths, each height scaled
    once on the way out and once on the way in. *)
Theorem restart_rebuilds_hills :
  forall (G : Type) (grid_ops : GridLike G) (matrix_tools : MatrixTools)
         (args : list ArgValue) (P rank : nat) (ao : ActionOptions) (fs : FileSystem)
         (records : list HillRecord),
    valid_input args ao ->
    WALKERS_N ao = None -> (0 <= parse (WALKERS_ID ao) 0)%Z -> GRID_BIN ao = [] ->
    fs (parse (FILE ao) "HILLS"%string) = Some records ->
    Forall (isotropic_record args) records ->
    exists self : MetaD G,
      MetaD_new args P rank ao true fs = Ok self
      /\ own_hills_file self = Some (parse (FILE ao) "HILLS"%string)
      /\ hills_ self = map (replayed_hill self) records
      /\ hillsOfile_ self = [] /\ BiasGrid_ self = None /\ isFirstStep self = true
      /\ forall run : MetaD G,
           in_step args run -> Forall2 same_fields records (hillsOfile_ run) ->
           welltemp_ run = welltemp_ self -> biasf_ run = biasf_ self ->
           hills_ self = map (read_back run) (hills_ run).
Proof.
  intros G grid_ops matrix_tools args P rank ao fs records Hvalid Hone Hid Hlist Hfile Hrec.
  assert (parse (WALKERS_ID ao) 0%Z = 0%Z) as Hzero.
  { unfold valid_input in Hvalid. cbv zeta in Hvalid.
    destruct Hvalid as (_ & _ & _ & _ & _ & _ & _ & _ & _ & _ & _ & Hlt & _).
    rewrite Hone in Hlt. cbn [parse] in Hlt. lia. }
  rewrite (MetaD_new_valid args P rank ao true fs Hvalid).
  unfold open_files. rewrite Hone. cbn [parse]. cbv zeta.
  change (Z.to_nat 1) with 1%nat. unfold for_rangeM. cbn [Nat.sub seq foldM].
  unfold walker_file_name. cbn [Z.gtb Z.compare Pos.compare Pos.compare_cont].
  rewrite Hfile.
  assert (grid_ (configured (G := G) ao) = false) as Hgrid.
  { unfold configured. cbv zeta. cbn [grid_]. rewrite Hlist. reflexivity. }
  unfold readGaussians.
  rewrite (readGaussians_loop_isotropic args P rank records (configured ao) _ O Hgrid Hrec)
    by apply length_vzero.
  cbn [bind fst]. eexists. split; [reflexivity|].
  split.
  { unfold own_hills_file. cbn [mw_id_ ifilesnames with_hills configured].
    rewrite Hzero. reflexivity. }
  cbn [hills_ hillsOfile_ BiasGrid_ isFirstStep with_hills].
  assert (hills_ (configured (G := G) ao) = []) as -> by reflexivity.
  assert (BiasGrid_ (configured (G := G) ao) = None) as Hnone.
  { unfold configured. cbv zeta. cbn [BiasGrid_]. rewrite Hlist. reflexivity. }
  cbn [app].
  split; [apply map_ext; intros rec; apply replayed_hill_ext; reflexivity|].
  split; [reflexivity|]. split; [exact Hnone|]. split; [reflexivity|].
  intros run Hstep Hsame Hw Hb.
  destruct (replay_of_written args run _ _ records Hstep Hsame) as [_ Hmap].
  rewrite <- Hmap.
  apply map_ext. intros rec. symmetry. apply replayed_hill_ext.
  - rewrite Hw. reflexivity.
  - rewrite Hb. reflexivity.
Qed.

Lemma restart_rebuilds_hills_witness :
  exists self : MetaD Mesh,
    MetaD_new one_distance 1 0 example_options true (hills_file [plain_record]) = Ok self
    /\ own_hills_file self = Some "HILLS"%string
    /\ hills_ self = map (replayed_hill self) [plain_record].
Proof.
  destruct (restart_rebuilds_hills Mesh mesh_grid small_matrix_tools one_distance 1 0
              example_options (hills_file [plain_record]) [plain_record])
    as (self & H1 & H2 & H3 & _).
  - unfold valid_input, example_options, one_distance. cbn.
    repeat split; try reflexivity; try lra; try lia; auto; try (intros; lia).
  - reflexivity.
  - simpl. lia.
  - reflexivity.
  - reflexivity.
  - constructor; [|constructor].
    unfold isotropic_record. split; [|split; [|split]]; try reflexivity.
    intros i Hi. left. simpl in Hi. assert (i = O) by lia. subst. reflexivity.
  - exists self. split; [exact H1 | split; [exact H2 | exact H3]].
Defined.

Section Synchronisation.

Context {G : Type} {grid_ops : GridLike G} {matrix_tools : MatrixTools}.
Variable args : list ArgValue.
Variables comm_size comm_rank : nat.
Variable fs : FileSystem.

(** One pass over the other walkers' files in list mode, every record
    still to be read well formed: the hills grow by the replay of those
    records, file after file. *)
Lemma read_walkers_list_mode (self : MetaD G) :
  grid_ self = false ->
  length (ifiles self) = Z.to_nat (mw_n_ self) ->
  (forall i, (i < Z.to_nat (mw_n_ self))%nat ->
     Forall (isotropic_record args) (unread self fs i)) ->
  exists self',
    read_walkers args comm_size comm_rank self fs = Ok self'
    /\ hills_ self'
       = hills_ self
         ++ map (replayed_hill self)
              (flat_map (unread self fs) (seq 0 (Z.to_nat (mw_n_ self)))).
Proof.
  intros Hlist Hlen Hrec. unfold read_walkers.
  destruct (for_rangeM_total
              (fun k (s : MetaD G) =>
                 grid_ s = false /\ mw_id_ s = mw_id_ self
                 /\ ifilesnames s = ifilesnames self
                 /\ welltemp_ s = welltemp_ self /\ biasf_ s = biasf_ self
                 /\ length (ifiles s) = length (ifiles self)
                 /\ (forall i, (k <= i)%nat ->
                       nth i (ifiles s) (mkIFile false O)
                       = nth i (ifiles self) (mkIFile false O))
                 /\ hills_ s
                    = hills_ self
                      ++ map (replayed_hill self) (flat_map (unread self fs) (seq 0 k)))
              (Z.to_nat (mw_n_ self))
              (fun i self =>
                 if (Z.of_nat i =? mw_id_ self)%Z then Ok self
                 else
                   let ifile := nth i (ifiles self) (mkIFile false O) in
                   let fname := nth i (ifilesnames self) ""%string in
                   if negb (if_open ifile) then
                     match fs fname with
                     | Some _ =>
                         Ok (with_ifiles self
                               (firstn i (ifiles self) ++ mkIFile true O
                                :: skipn (S i) (ifiles self)))
                     | None => Ok self
                     end
                   else
                     let content := match fs fname with Some c => c | None => [] end in
                     r <- readGaussians args comm_size comm_rank self
                            (skipn (if_pos ifile) content) ;;
                     Ok (with_ifiles (fst r)
                           (firstn i (ifiles self)
                            ++ mkIFile true (Nat.max (if_pos ifile) (length content))
                            :: skipn (S i) (ifiles self))))
              self) as (s' & E & HQ).
  - split; [exact Hlist|]. do 5 (split; [reflexivity|]). split; [reflexivity|].
    cbn [seq flat_map map]. rewrite app_nil_r. reflexivity.
  - intros i acc Hi (Hg & Hid & Hnames & Hw & Hb & Hl & Hrest & Hh). cbv zeta.
    rewrite Hid, Hnames, (Hrest i (le_n i)).
    specialize (Hrec i Hi). unfold unread in Hrec. cbv zeta in Hrec.
    assert (flat_map (unread self fs) (seq 0 (S i))
            = flat_map (unread self fs) (seq 0 i) ++ unread self fs i) as Hseq.
    { rewrite seq_S, flat_map_app. cbn [flat_map Nat.add]. rewrite app_nil_r. reflexivity. }
    assert (i < length (ifiles acc))%nat as Hin by lia.
    assert (forall f (s : MetaD G),
              length (ifiles (with_ifiles s (firstn i (ifiles acc) ++ f :: skipn (S i) (ifiles acc))))
              = length (ifiles self)
              /\ forall j, (S i <= j)%nat ->
                   nth j (ifiles (with_ifiles s (firstn i (ifiles acc) ++ f
                                                 :: skipn (S i) (ifiles acc))))
                     (mkIFile false O)
                   = nth j (ifiles self) (mkIFile false O)) as Hsplice.
    { intros f s. cbn [ifiles with_ifiles]. split.
      - rewrite length_splice by exact Hin. exact Hl.
      - intros j Hj. rewrite <- (Hrest j) by lia.
        rewrite nth_splice by exact Hin.
        replace (j =? i)%nat with false by (symmetry; apply Nat.eqb_neq; lia). reflexivity. }
    rewrite Hseq. unfold unread at 2. cbv zeta.
    destruct (Z.of_nat i =? mw_id_ self)%Z eqn:Eid.
    { exists acc. split; [reflexivity|]. rewrite app_nil_r.
      repeat (split; [assumption|]). split; [intros j Hj; apply Hrest; lia | exact Hh]. }
    destruct (if_open (nth i (ifiles self) (mkIFile false O))) eqn:Eopen; cbn [negb].
    + unfold walker_content in *.
      set (content := match fs (nth i (ifilesnames self) ""%string) with
                      | Some c => c | None => [] end) in *.
      set (records := skipn (if_pos (nth i (ifiles self) (mkIFile false O))) content) in *.
      unfold readGaussians.
      rewrite (readGaussians_loop_isotropic args comm_size comm_rank records acc _ O Hg Hrec)
        by apply length_vzero.
      cbn [bind fst].
      destruct (Hsplice (mkIFile true (Nat.max (if_pos (nth i (ifiles self) (mkIFile false O)))
                                         (length content)))
                  (with_hills acc (hills_ acc ++ map (replayed_hill acc) records)))
        as [Hl' Hrest'].
      eexists. split; [reflexivity|].
      split; [exact Hg|]. split; [exact Hid|]. split; [exact Hnames|].
      split; [exact Hw|]. split; [exact Hb|]. split; [exact Hl'|]. split; [exact Hrest'|].
      cbn [hills_ with_ifiles with_hills]. rewrite Hh, map_app, <- app_assoc.
      do 2 f_equal. apply map_ext. intros rec. apply replayed_hill_ext; assumption.
    + rewrite app_nil_r.
      destruct (fs (nth i (ifilesnames self) ""%string)).
      * destruct (Hsplice (mkIFile true O) acc) as [Hl' Hrest'].
        eexists. split; [reflexivity|].
        split; [exact Hg|]. split; [exact Hid|]. split; [exact Hnames|].
        split; [exact Hw|]. split; [exact Hb|]. split; [exact Hl'|]. split; [exact Hrest'|].
        exact Hh.
      * exists acc. split; [reflexivity|].
        repeat (split; [assumption|]). split; [intros j Hj; apply Hrest; lia | exact Hh].
  - exists s'. split; [exact E|]. apply HQ.
Qed.

End Synchronisation.

(** X27.  Synchronisation with the other walkers in list mode.  One pass
    over the walkers' files appends, in walker order, the replay of every
    record not read before from each open file of another walker; the
    walker's own file and its written records are left alone, and every
    file that was open has then been read to its end. *)
Theorem read_walkers_appends_peer_hills :
  forall (G : Type) (grid_ops : GridLike G) (matrix_tools : MatrixTools)
         (args : list ArgValue) (P rank : nat) (fs : FileSystem) (self : MetaD G),
    grid_ self = false ->
    length (ifiles self) = Z.to_nat (mw_n_ self) ->
    (forall i, (i < Z.to_nat (mw_n_ self))%nat ->
       Forall (isotropic_record args) (unread self fs i)) ->
    exists self',
      read_walkers args P rank self fs = Ok self'
      /\ hills_ self'
         = hills_ self
           ++ map (replayed_hill self)
                (flat_map (unread self fs) (seq 0 (Z.to_nat (mw_n_ self))))
      /\ hillsOfile_ self' = hillsOfile_ self
      /\ forall i, (i < Z.to_nat (mw_n_ self))%nat ->
           if_open (nth i (ifiles self) (mkIFile false O)) = true ->
           unread self' fs i = [].
Proof.
  intros G grid_ops matrix_tools args P rank fs self Hlist Hlen Hrec.
  destruct (read_walkers_list_mode args P rank fs self Hlist Hlen Hrec) as (self' & H & Hh).
  exists self'. split; [exact H|]. split; [exact Hh|].
  destruct (read_walkers_files args P rank fs self self' Hlen H) as (Hs & _ & Hfiles & _).
  assert (hillsOfile_ self' = hillsOfile_ self /\ mw_id_ self' = mw_id_ self
          /\ ifilesnames self' = ifilesnames self) as (Hof & Hid & Hnames).
  { unfold same_settings in Hs. intuition. }
  split; [exact Hof|].
  intros i Hi Hopen. unfold unread. cbv zeta. rewrite Hid.
  destruct (Z.of_nat i =? mw_id_ self)%Z eqn:Eid; [reflexivity|].
  rewrite (Hfiles i Hi). cbv zeta. rewrite Eid, Hopen. cbn [if_open if_pos].
  unfold walker_content. rewrite Hnames.
  apply skipn_all2. apply Nat.le_max_r.
Qed.

Lemma read_walkers_appends_peer_hills_witness :
  exists self',
    read_walkers one_distance 1 0 (walker_zero [] (mkIFile true 0)) peer_hills = Ok self'
    /\ hills_ self' = [mkGaussian [0.5] [0.2] 0.3 false].
Proof.
  destruct (read_walkers_appends_peer_hills Mesh mesh_grid small_matrix_tools one_distance 1 0
              peer_hills (walker_zero [] (mkIFile true 0)))
    as (self' & H1 & H2 & _).
  - reflexivity.
  - reflexivity.
  - intros i Hi.
    assert (i = O \/ i = 1%nat) as [-> | ->] by (simpl in Hi; lia).
    + constructor.
    + constructor; [|constructor].
      unfold isotropic_record. split; [|split; [|split]]; try reflexivity.
      intros i Hi'. left. simpl in Hi'. assert (i = O) by lia. subst. reflexivity.
  - exists self'. split; [exact H1 | exact H2].
Defined.

(** ** The deposition schedule *)

Section Schedule.

Context {G : Type} {grid_ops : GridLike G} {matrix_tools : MatrixTools}.
Variable args : list ArgValue.
Variables comm_size comm_rank : nat.
Variables kBoltzmann timeStep : R.
Variable fs : FileSystem.
Variable now : Z.

Let ncv := getNumberOfArguments args.

(** One call with a single walker. *)
Lemma update_single_walker (self : MetaD G) (step : Z) (argv flexinv : list R) :
  (mw_n_ self <= 1)%Z ->
  exists self',
    update args comm_size comm_rank kBoltzmann timeStep self step argv flexinv fs now = Ok self'
    /\ grid_ self' = grid_ self /\ mw_n_ self' = mw_n_ self /\ stride_ self' = stride_ self
    /\ isFirstStep self' = false
    /\ length (hillsOfile_ self')
       = (length (hillsOfile_ self) + (if deposit_now self step then 1 else 0))%nat
    /\ (grid_ self = false ->
        map center (hills_ self')
        = map center (hills_ self)
          ++ (if deposit_now self step then [map (vget argv) (seq 0 ncv)] else [])).
Proof.
  intros Hone. rewrite update_unfold.
  replace (mw_n_ self >? 1)%Z with false
    by (symmetry; rewrite Z.gtb_ltb; apply Z.ltb_ge; exact Hone).
  cbn [andb]. eexists. split; [reflexivity|].
  unfold after_deposit. rewrite copy_arguments. fold ncv.
  destruct (deposit_now self step) eqn:Ed.
  - match goal with |- context [addGaussian _ _ _ self ?h] =>
      destruct (addGaussian_settings args comm_size comm_rank self h) as [Hs _];
      set (hill := h) in * end.
    unfold same_settings in Hs.
    destruct Hs as (_ & Hof & _ & Hg & _ & _ & _ & Hst & _ & _ & Hn & _ & _ & _ & _ & _ & _
                    & Hf).
    unfold writeGaussian, with_hillsOfile.
    cbn [grid_ mw_n_ stride_ isFirstStep hillsOfile_ hills_].
    split; [exact Hg|]. split; [exact Hn|]. split; [exact Hst|].
    split.
    + rewrite Hf. unfold deposit_now in Ed. apply andb_true_iff in Ed.
      destruct Ed as [_ Ed]. apply negb_true_iff in Ed. exact Ed.
    + split.
      * rewrite length_app, Hof. reflexivity.
      * intros Hlist. unfold addGaussian. rewrite Hlist. cbn [negb hills_ with_hills].
        rewrite map_app. reflexivity.
  - unfold with_isFirstStep. cbn [grid_ mw_n_ stride_ isFirstStep hillsOfile_ hills_].
    do 4 (split; [reflexivity|]). split; [lia|]. intros _. rewrite app_nil_r. reflexivity.
Qed.

(** One call with a single walker leaves the stride of the grid dump
    alone. *)
Lemma update_single_walker_dump (self self' : MetaD G) (step : Z) (argv flexinv : list R) :
  (mw_n_ self <= 1)%Z ->
  update args comm_size comm_rank kBoltzmann timeStep self step argv flexinv fs now = Ok self' ->
  wgridstride_ self' = wgridstride_ self.
Proof.
  intros Hone. rewrite update_unfold.
  replace (mw_n_ self >? 1)%Z with false
    by (symmetry; rewrite Z.gtb_ltb; apply Z.ltb_ge; exact Hone).
  cbn [andb]. intros H. inversion H. unfold after_deposit.
  destruct (deposit_now self step); [|reflexivity].
  match goal with |- context [addGaussian _ _ _ self ?h] =>
    destruct (addGaussian_settings args comm_size comm_rank self h) as [Hs _] end.
  unfold same_settings in Hs. destruct Hs as (_ & _ & Hw & _).
  unfold writeGaussian, with_hillsOfile. cbn [wgridstride_]. exact Hw.
Qed.

(** In list mode, with no grid dump and a stride that is not zero, every
    call of a single-walker run is defined. *)
Lemma list_mode_run_defined (inputs : list (list R * list R)) :
  forall (self : MetaD G) (step : Z),
    (mw_n_ self <= 1)%Z -> grid_ self = false -> (wgridstride_ self <= 0)%Z ->
    stride_ self <> 0%Z ->
    run_defined args comm_size comm_rank kBoltzmann timeStep fs now self step inputs.
Proof.
  induction inputs as [|[argv flexinv] rest IH]; intros self step Hone Hlist Hdump Hstride;
    cbn [run_defined]; [exact I|].
  split.
  - unfold update_defined. cbv zeta. split; [exact Hstride|]. split.
    + intros _ Hgrid. rewrite Hlist in Hgrid. discriminate.
    + split.
      * unfold dumps_grid. intros Hd. apply andb_true_iff in Hd. destruct Hd as [Hd _].
        rewrite Z.gtb_ltb in Hd. apply Z.ltb_lt in Hd. lia.
      * intros Hn. lia.
  - intros self' Hupd.
    pose proof (update_single_walker_dump self self' step argv flexinv Hone Hupd) as Hw.
    destruct (update_single_walker self step argv flexinv Hone)
      as (s1 & E1 & Hg1 & Hn1 & Hs1 & _).
    rewrite Hupd in E1. inversion E1. subst s1.
    apply IH; [rewrite Hn1; exact Hone | rewrite Hg1; exact Hlist | rewrite Hw; exact Hdump
               | rewrite Hs1; exact Hstride].
Qed.

(** Past the first call, a step deposits exactly when it is a multiple of
    the stride. *)
Lemma run_updates_schedule (inputs : list (list R * list R)) :
  forall (self : MetaD G) (step : Z),
    (mw_n_ self <= 1)%Z -> isFirstStep self = false ->
    exists self',
      run_updates args comm_size comm_rank kBoltzmann timeStep fs now self step inputs
      = Ok self'
      /\ length (hillsOfile_ self')
         = (length (hillsOfile_ self)
            + length (filter (fun k => (Z.rem (step + Z.of_nat k) (stride_ self) =? 0)%Z)
                        (seq 0 (length inputs))))%nat
      /\ (grid_ self = false ->
          map center (hills_ self')
          = map center (hills_ self)
            ++ map (fun k => map (vget (fst (nth k inputs ([], [])))) (seq 0 ncv))
                 (filter (fun k => (Z.rem (step + Z.of_nat k) (stride_ self) =? 0)%Z)
                    (seq 0 (length inputs)))).
Proof.
  induction inputs as [|[argv flexinv] rest IH]; intros self step Hone Hfirst.
  - exists self. split; [reflexivity|]. cbn [length seq filter map]. split; [lia|].
    intros _. rewrite app_nil_r. reflexivity.
  - cbn [run_updates].
    destruct (update_single_walker self step argv flexinv Hone)
      as (s1 & E1 & Hg1 & Hn1 & Hs1 & Hf1 & Hr1 & Hh1).
    rewrite E1. cbn [bind].
    destruct (IH s1 (step + 1)%Z ltac:(rewrite Hn1; exact Hone) Hf1) as (s2 & E2 & Hr2 & Hh2).
    exists s2. split; [exact E2|].
    assert (filter (fun k => (Z.rem (step + Z.of_nat k) (stride_ self) =? 0)%Z)
              (seq 0 (length ((argv, flexinv) :: rest)))
            = (if deposit_now self step then [O] else [])
              ++ map S (filter (fun k => (Z.rem (step + 1 + Z.of_nat k) (stride_ self) =? 0)%Z)
                          (seq 0 (length rest)))) as Hshift.
    { cbn [length]. rewrite <- cons_seq, <- seq_shift. cbn [filter].
      rewrite filter_map_swap.
      unfold deposit_now. rewrite Hfirst. cbn [negb]. rewrite andb_true_r.
      replace (step + Z.of_nat 0)%Z with step by lia.
      rewrite (filter_ext (fun k => (Z.rem (step + Z.of_nat (S k)) (stride_ self) =? 0)%Z)
                 (fun k => (Z.rem (step + 1 + Z.of_nat k) (stride_ self) =? 0)%Z))
        by (intros k; do 2 f_equal; lia).
      destruct (Z.rem step (stride_ self) =? 0)%Z; reflexivity. }
    rewrite Hshift. split.
    + rewrite Hr2, Hr1, Hs1, length_app, length_map.
      destruct (deposit_now self step); cbn [length]; lia.
    + intros Hlist. rewrite Hh2 by (rewrite Hg1; exact Hlist).
      rewrite Hh1, Hs1, <- app_assoc by exact Hlist. f_equal.
      rewrite map_app, map_map.
      destruct (deposit_now self step); cbn [map app nth fst]; reflexivity.
Qed.

End Schedule.

(** X28.  The deposition schedule of a single-walker run.  Calling
    [update] once per step from step [step] on, starting from a state with
    the first-step flag set, where every call is defined: the run returns,
    and the call number [k] (counted from [0]) deposits exactly when
    [k > 0] and [step + k] is a multiple of the stride.  One record is
    written per deposit, in either mode, and in list mode the hills added
    are centred, in order, at the argument values of the depositing
    steps. *)
Theorem hills_follow_the_stride :
  forall (G : Type) (grid_ops : GridLike G) (matrix_tools : MatrixTools)
         (args : list ArgValue) (P rank : nat) (kB dt : R) (fs : FileSystem) (now : Z)
         (self : MetaD G) (step : Z) (inputs : list (list R * list R)),
    (mw_n_ self <= 1)%Z -> isFirstStep self = true ->
    run_defined args P rank kB dt fs now self step inputs ->
    let deposits :=
      filter (fun k => (0 <? k)%nat && (Z.rem (step + Z.of_nat k) (stride_ self) =? 0)%Z)
        (seq 0 (length inputs)) in
    exists self',
      run_updates args P rank kB dt fs now self step inputs = Ok self'
      /\ length (hillsOfile_ self') = (length (hillsOfile_ self) + length deposits)%nat
      /\ (grid_ self = false ->
          map center (hills_ self')
          = map center (hills_ self)
            ++ map (fun k => map (vget (fst (nth k inputs ([], []))))
                               (seq 0 (getNumberOfArguments args)))
                 deposits).
Proof.
  intros G grid_ops matrix_tools args P rank kB dt fs now self step inputs Hone Hfirst _
    deposits.
  destruct inputs as [|[argv flexinv] rest].
  - exists self. split; [reflexivity|]. cbn. split; [lia|]. intros _.
    rewrite app_nil_r. reflexivity.
  - cbn [run_updates].
    destruct (update_single_walker args P rank kB dt fs now self step argv flexinv Hone)
      as (s1 & E1 & Hg1 & Hn1 & Hs1 & Hf1 & Hr1 & Hh1).
    rewrite E1. cbn [bind].
    destruct (run_updates_schedule args P rank kB dt fs now rest s1 (step + 1)%Z
                ltac:(rewrite Hn1; exact Hone) Hf1) as (s2 & E2 & Hr2 & Hh2).
    exists s2. split; [exact E2|].
    assert (deposit_now self step = false) as Hno
      by (unfold deposit_now; rewrite Hfirst; apply andb_false_r).
    rewrite Hno in Hr1, Hh1.
    assert (deposits
            = map S (filter (fun k => (Z.rem (step + 1 + Z.of_nat k) (stride_ self) =? 0)%Z)
                       (seq 0 (length rest)))) as ->.
    { unfold deposits. cbn [length]. rewrite <- cons_seq, <- seq_shift.
      cbn [filter Nat.ltb Nat.leb andb]. rewrite filter_map_swap. f_equal.
      apply filter_ext. intros k. cbn [Nat.ltb Nat.leb andb]. do 2 f_equal. lia. }
    split.
    + rewrite Hr2, Hr1, Hs1, length_map. lia.
    + intros Hlist. rewrite Hh2 by (rewrite Hg1; exact Hlist).
      rewrite Hh1, Hs1, app_nil_r by exact Hlist. f_equal.
      rewrite map_map. reflexivity.
Qed.

Lemma hills_follow_the_stride_witness :
  exists self',
    run_updates one_distance 1 0 1 1 no_files 0 (example_bias [] [] true) 499
      [([0.9], []); ([1.0], [])]
    = Ok self'
    /\ length (hillsOfile_ self') = 1%nat
    /\ map center (hills_ self') = [[1.0]].
Proof.
  destruct (hills_follow_the_stride Mesh mesh_grid small_matrix_tools one_distance 1 0 1 1
              no_files 0 (example_bias [] [] true) 499 [([0.9], []); ([1.0], [])])
    as (self' & H1 & H2 & H3).
  - simpl. lia.
  - reflexivity.
  - apply list_mode_run_defined; [simpl; lia | reflexivity | simpl; lia | discriminate].
  - exists self'. split; [exact H1 | split; [exact H2 | apply H3; reflexivity]].
Defined.
